(* ===== verification/_CoqProject ===== *)
-Q . S2P
Prelude.v
Kiss.v
Ax25.v
Tnc2.v
LorahamSock.v
Tnc.v
Printf.v
Double.v
TxQueue.v
Io.v
SockIo.v
LorahamConf.v
BridgeConf.v
BridgeKiss.v
BridgeRx.v
BridgeLoraham.v
BridgeTx.v
TcpServer.v
Bridge.v
BridgeInv.v
BridgeWire.v
BridgeConfirm.v
BridgeAccount.v
BridgeLedger.v
BridgeClient.v
BridgeGaps.v
Runtime.v
EndToEnd.v
Gmtime.v
Rflog.v
Strto.v
Config.v
ConfigValid.v
Report.v
BridgeLive.v
BridgeOutage.v
Cli.v
Main.v
RepoTests.v
