(* ===== verification/Prelude.v ===== *)
(** * LoRaHAM KISS TNC: the bridge between a KISS/TCP client and the LoRaHAM daemon

    ** The program

    [loraham_kiss_tnc] is one process with one thread. It serves one KISS client over
    TCP and is itself a client of the LoRaHAM daemon, which owns the radio, over two
    UNIX sockets: DATA (a framed binary stream of received packets, packets to send and
    transmission results) and CONF (text commands, status lines and TX/CAD events).

      - client to air: TCP bytes, KISS frame, AX.25 UI frame, TNC2 text, LoRa-APRS
        packet (3C FF 01 and the text), TX queue, and from there, when the daemon is
        idle, a frame on DATA, surrounded by a switch to the TX frequency and back;
      - air to client: bytes on DATA, frame, packet, TNC2 text, AX.25 frame, KISS
        bytes on TCP;
      - the main loop waits with [select], reads whatever is ready, drains the queue,
        reconnects what is broken, and writes an RF log on the side.

    ** The files of this development

    Each file models the C files named behind it, definition by definition under the C
    names; a helper that a C function contains inline has a name of its own and a
    comment. In dependency order:

      - Prelude: C strings, fixed widths, error codes, the result type [res], the
        streaming decoder combinator [run] and the interface [SafeDecoder] of a decoder
        that stays inside its buffers; loraham_kiss_tnc.h for limits and codes;
      - Kiss (kiss.c), Ax25 (ax25.c), Tnc2 (tnc2.c), LorahamSock (loraham_sock.c, the
        pure part): the four codecs, as functions on byte lists. A streaming decoder is
        a step function [state -> byte -> state * event];
      - Tnc (loraham_kiss_tnc.c): configuration record, counters, address allow-list;
        doubles are binary64 values of [SpecFloat]; Printf: the [printf] conversions;
        Double: how far a decimal literal is from its double, and that printing it
        again gives the literal back;
      - TxQueue (bridge_tx_queue.c): ring buffer and the policy for its head;
      - Io: system calls. A call takes its answer from a [world], the script of what the
        kernel and the peers will answer, and what can be observed is appended to a
        trace. [wp] and [yields] are the program logic: what holds of the result and
        the trace of a call, for every world;
      - SockIo (the socket functions of loraham_sock.c, bridge_rx.c, bridge_runtime.c),
        LorahamConf (CONF commands, loraham_sock.c), BridgeConf (bridge_conf.c),
        BridgeKiss (bridge_kiss.c), BridgeRx (bridge_rx.c), BridgeLoraham
        (bridge_loraham.c), TcpServer (tcp_server.c), Bridge (bridge.c), Runtime (the stop
        flag and the signal handler of bridge_runtime.c), Rflog (rflog.c) with the calendar
        of its time stamps in Gmtime;
      - Strto ([strtol], [strtod], [strcasecmp]), Config (config.c), Cli (cli.c with the
        [getopt_long] it calls), Main (main.c): from the arguments to the bridge.
        ConfigValid has the contract between the readers of the configuration and its
        users, [config_valid]; Report has the text of the statistics and of the
        configuration (lhkt_stats_print, lhkt_cli_print_config);
      - files of theorems only: BridgeTx about transmissions, BridgeInv about the states
        the main loop reaches ([reachable], by rule induction over [bridge_round]),
        BridgeWire about whole runs ([history]: the states of the main loop with all
        that was done up to them) and what the daemon reads on its two connections,
        BridgeConfirm about what the bridge heard ([hears]: the answers of [read] that a
        call took), BridgeAccount about the books that follow from it for a packet and
        for the queue, BridgeLedger about both ends of a run ([life]: the same runs step
        by step, with the bytes of the clients, the packets the daemon got and the drains in
        which a daemon connection was given up), BridgeClient about what the KISS client
        reads over those runs, BridgeLive about progress ([lives], the total counterpart
        of [yields]) and BridgeOutage about the rounds that recover from an outage of
        the daemon ([performs], [lives] with the trace), EndToEnd about the way of a
        packet through two TNCs, BridgeGaps with the shortcomings that the theorems
        leave room for;
      - RepoTests: the tests of src/tests/test_bridge.c as examples, run on the model,
        with the harness functions at the end of bridge_loraham.c.

    ** What the theorems show

      - end to end: packets go through two TNCs unchanged up to normalisation (C1); a
        queued packet is sent and confirmed when the environment cooperates (C2), also from
        an outage of the daemon, which four rounds of the main loop end (C3);
      - the main loop: every reachable state is well formed, nothing of a lost
        connection is left over, receive-only never transmits (C4); no descriptor leaks
        over a whole run (C13); the wait of a round is what the state and the next report
        ask for, to the microsecond (C15); a received packet
        that is only to be dropped breaks the data connection (C16, which the README
        does not say);
      - over whole runs, whatever fails: what the daemon gets is what clients submitted,
        in order and once (C5); the DATA stream is a sequence of whole frames of
        well-formed packets at every round (C6); the KISS client has been sent a sequence of
        whole KISS frames, unless a daemon connection was given up meanwhile (C7); a
        bridge that holds the daemon for configured has parked it on the RX frequency (C8);
      - transmission: "ok" in the log is the word of the daemon (C9); order of tuning,
        sending and restoring on the two sockets (C10), what is logged, counted and answered
        for each word of the daemon (C11), at most once and in order from the queue, and
        nothing dropped but what is stale (C12), termination (C33);
      - codecs: the KISS decoder refines a specification on delimited segments, the
        encoder is its inverse, streams and back-to-back frames round-trip (C17, C18);
        AX.25 and TNC2 round-trip and accept only well-formed input, and every part of a
        parsed frame is a part of its line (C19 to C23); the
        DATA protocol round-trips, the scanner stays in bounds (C24, C25) and finds exactly
        the text of a packet ([LorahamSock.loraham_extract_packet]);
      - policy: the allow-list admits exactly a network (C26,
        [TcpServer.accept_allows]); the ring buffer is a bounded FIFO (C27); the CONF
        stream is handled line by line (C29) and every event counted once
        ([BridgeConf.conf_events_counted]);
      - ingress and reception: which frames are queued and how each is accounted for
        (C30, C31); what a received packet makes the client see (C32); chunks are
        sequences of frames ([BridgeRx.framed_chunk_refines]); reception without a client
        ([BridgeRx.rx_without_client]);
      - writing and commands: nothing but prefixes, success means all (C28);
      - reports: the statistics read back, the radio parameters shown are those sent
        (Report); the stop flag is sticky and ends every wait that looks at it (Runtime);
      - configuration: refused arguments end the process before any socket, accepted
        ones are valid (C14); defaults, file and options are applied in this order (C34);
        a file is its lines (C35); numbers and frequencies are read exactly and reach
        the CONF command exactly (C36, C37), which always fits its buffer (C38);
      - the RF log keeps one record per line (C39); a roll never loses a record of the
        live file, but <path>.1 is emptied before it is known that the copy succeeds, so
        a copy that fails costs the older segment (C40, against the comment of the code).

    ** Conventions and bounds

    A byte is a [Z] from 0 to 255 ([is_u8]) and a buffer with its length a list; a
    [size_t] is the length of a list. Where a C computation can wrap or is cut to a
    width, the model says so ([u8], [u32], [u64]). A NUL-terminated string is the list
    of its characters; where the code hands a byte buffer on as a string, [cstr] cuts it
    at the first NUL. Out parameters and structures passed by pointer are state
    passing, with the C return value first; NULL checks of pointers that the program
    never passes as NULL have no counterpart.

    Loops over data are structural. The loops that drain the scanner have the buffer
    length as fuel ([LorahamSock.loraham_extract_loop], [BridgeRx.rx_chunk_loop]), and
    [BridgeRx.rx_chunk_fuel] shows that more changes nothing. Loops around system calls
    have the number of remaining answers as fuel; each round takes an answer, so the
    loop runs until it is left or the environment is silent ([Io.loop_unfold]).

    ** Parameters

    [inet_pton], the file test of [loraham_sockpath] and [fopen] (the bytes of the file
    at a path) are arguments (Section [bind] of Tnc, Section [listen] of TcpServer,
    Section [run] of Bridge, the Sections of Config, Cli and Main). The kernel is a
    world; what it promises is in the calls of Io: no more bytes than asked for, no more
    written than given, no negative new descriptor, no unasked descriptor ready. The
    theorems about connections add that it does not hand out a descriptor that is open
    ([BridgeWire.fresh]). The
    standard library is modelled as the program uses it: [strtol] and [strtod] on the
    strings of options and lines, in the "C" locale; [getopt_long] of the GNU library,
    with permutation (no POSIXLY_CORRECT) and abbreviated long options.

    The bridge and the RF log meet in the trace: the bridge hands an entry to the log by
    the outputs [RfRx] and [RfTx], and Rflog has what [lhkt_rflog_rx] and
    [lhkt_rflog_tx] then do with it. No result of the log reaches the bridge.

    ** Not modelled

    Log lines on stdout and stderr and the usage text; the [LHKT_TEST] hooks, except for
    the few that RepoTests needs. The registration of the handlers is modelled, the
    delivery of a signal is the flag: in Io it is read from the world, Runtime shows
    which answers the handler makes possible. *)
From Stdlib Require Export ZArith Lia.
From Stdlib Require Import String Ascii.
From stdpp Require Export prelude.
Export StringSyntax.

#[export] Set Default Goal Selector "!".
#[export] Set Warnings "-clear-no-such-hyp".

#[global] Open Scope Z_scope.

(** ** Sizes

    A [size_t] is a [Z]; the length of a buffer is the length of the list of its
    bytes. [lia] sees through the abbreviation. *)
Abbreviation len l := (Z.of_nat (length l)).

(** ** Return codes of loraham_kiss_tnc.h *)
Definition LHKT_OK : Z := 0.
Definition LHKT_ERR : Z := -1.
Definition LHKT_ERR_SHORT : Z := -2.
Definition LHKT_ERR_LONG : Z := -3.
Definition LHKT_ERR_FORMAT : Z := -4.
Definition LHKT_ERR_UNSUPPORTED : Z := -5.
Definition LHKT_ERR_NOSPACE : Z := -6.
Definition LHKT_ERR_TX_SOCKET : Z := -7.
Definition LHKT_ERR_CLIENT_SOCKET : Z := -8.
Definition LHKT_ERR_CONF_SOCKET : Z := -9.
Definition LHKT_ERR_TX_RESULT : Z := -10.
Definition LHKT_ERR_AGAIN : Z := -11.

(** ** Limits of loraham_kiss_tnc.h *)
Definition LHKT_AX25_MAX_REPEATERS : Z := 8.
Definition LHKT_AX25_MAX_ADDRS : Z := 10.
Definition LHKT_AX25_MAX_PAYLOAD : Z := 256.
Definition LHKT_AX25_MAX_FRAME : Z := 384.
Definition LHKT_TNC2_MAX_LINE : Z := 512.
Definition LHKT_KISS_MAX_FRAME : Z := 1024.
Definition LHKT_LORAHAM_TX_MAX : Z := 255.
Definition LHKT_LORAHAM_HDR_LEN : Z := 3.
Definition LHKT_PATH_MAX : Z := 256.
Definition LHKT_HOST_MAX : Z := 64.

(** ** Fallible code

    A C function that returns [LHKT_OK] and fills an output parameter, or a
    negative code and no usable output, is a function to [res]. The monad uses
    stdpp's notation [x ← m; k]: every early return on [ret != LHKT_OK] is a
    bind. *)
Inductive res (A : Type) : Type :=
  | Ok (a : A)
  | Err (e : Z).
Arguments Ok {A} _.
Arguments Err {A} _.

#[export] Instance res_ret : MRet res := @Ok.
#[export] Instance res_bind : MBind res := λ A B f m,
  match m with Ok a => f a | Err e => Err e end.
#[export] Instance res_fmap : FMap res := λ A B f m,
  match m with Ok a => Ok (f a) | Err e => Err e end.

#[export] Instance res_eq_dec {A} `{EqDecision A} : EqDecision (res A).
Proof. solve_decision. Defined.

(** The code a C caller of the function sees. *)
Definition code {A} (r : res A) : Z :=
  match r with Ok _ => LHKT_OK | Err e => e end.

Lemma Ok_inj {A} (a b : A) : Ok a = Ok b → a = b.
Proof. congruence. Qed.

Lemma bind_Ok {A B} (m : res A) (f : A → res B) b :
  m ≫= f = Ok b ↔ ∃ a, m = Ok a ∧ f a = Ok b.
Proof.
  destruct m as [a|e]; cbn; split.
  - intros ?. by exists a.
  - by intros (? & [= ->] & ?).
  - done.
  - by intros (? & ? & ?).
Qed.

Lemma bind_Err {A B} (m : res A) (f : A → res B) e :
  m ≫= f = Err e ↔ m = Err e ∨ ∃ a, m = Ok a ∧ f a = Err e.
Proof.
  destruct m as [a|e']; cbn; split.
  - intros ?. right. by exists a.
  - by intros [?|(? & [= ->] & ?)].
  - intros [= ->]. by left.
  - intros [[= ->]|(? & ? & ?)]; done.
Qed.

(** ** Streaming decoders

    A streaming decoder answers each byte with 0 (nothing), 1 (a completed frame)
    or a negative code. *)
Inductive event (A : Type) : Type :=
  | Quiet
  | Frame (a : A)
  | Fault (e : Z).
Arguments Quiet {A}.
Arguments Frame {A} _.
Arguments Fault {A} _.

Section run.
Context {S A : Type} (step : S → Z → S * event A).

(** The observable output of a decoder on a byte stream: its completed frames
    and its faults in order. *)
Fixpoint run (s : S) (bs : list Z) : S * list (event A) :=
  match bs with
  | [] => (s, [])
  | b :: bs' =>
      let '(s1, ev) := step s b in
      let '(s2, evs) := run s1 bs' in
      (s2, match ev with Quiet => evs | _ => ev :: evs end)
  end.

Lemma run_cons s b bs :
  run s (b :: bs) =
    let '(s1, ev) := step s b in
    let '(s2, evs) := run s1 bs in
    (s2, match ev with Quiet => evs | _ => ev :: evs end).
Proof. done. Qed.

Lemma run_quiet s s1 b bs : step s b = (s1, Quiet) → run s (b :: bs) = run s1 bs.
Proof. cbn. intros ->. by destruct (run s1 bs). Qed.

Lemma run_app s xs ys :
  run s (xs ++ ys) =
    let '(s1, e1) := run s xs in
    let '(s2, e2) := run s1 ys in (s2, e1 ++ e2).
Proof.
  revert s. induction xs as [|x xs IH]; intros s; cbn.
  - by destruct (run s ys).
  - destruct (step s x) as [s1 ev]. rewrite IH.
    destruct (run s1 xs) as [s2 e1]. destruct (run s2 ys) as [s3 e2].
    by destruct ev.
Qed.

(** An invariant of the step is an invariant of the run, and what the step
    guarantees of its events holds of every event of the run. *)
Lemma run_invariant (I : S → Prop) (ok : Z → Prop) (Q : event A → Prop) :
  (∀ s b, I s → ok b → I (step s b).1 ∧ Q (step s b).2) →
  ∀ bs s, I s → Forall ok bs → I (run s bs).1 ∧ Forall Q (run s bs).2.
Proof.
  intros Hstep bs. induction bs as [|b bs IH]; intros s Hs Hbs; cbn; [done|].
  apply Forall_cons in Hbs as [Hb Hbs]. specialize (Hstep s b Hs Hb).
  destruct (step s b) as [s1 ev]. destruct Hstep as [H1 Hev].
  specialize (IH s1 H1 Hbs). destruct (run s1 bs) as [s2 evs].
  split; [apply IH|]. destruct ev; [apply IH|..]; constructor; naive_solver.
Qed.
End run.

(** ** Bytes

    A [uint8_t] is a [Z] in [0, 256). *)
Definition is_u8 (b : Z) : Prop := 0 ≤ b < 256.
Definition u8 (z : Z) : Z := z mod 256.
Abbreviation bytes_ok := (Forall is_u8).

#[export] Instance is_u8_dec b : Decision (is_u8 b) := _.

Lemma u8_is_u8 z : is_u8 (u8 z).
Proof. apply Z.mod_pos_bound. lia. Qed.

Lemma u8_id b : is_u8 b → u8 b = b.
Proof. intros. by apply Z.mod_small. Qed.

(** The contract of a streaming decoder with its users: an invariant of the state (its
    buffers) and of the events, kept by every byte. *)
Class SafeDecoder {St A : Type} (step : St → Z → St * event A) := {
  dec_wf : St → Prop;
  dec_ok : event A → Prop;
  dec_step s b : dec_wf s → is_u8 b → dec_wf (step s b).1 ∧ dec_ok (step s b).2;
}.

Lemma dec_run {St A : Type} {step : St → Z → St * event A} `{!SafeDecoder step} s bs :
  dec_wf s → bytes_ok bs → dec_wf (run step s bs).1 ∧ Forall dec_ok (run step s bs).2.
Proof. intros. apply (run_invariant step dec_wf is_u8); auto using dec_step. Qed.

(** A boolean property of bytes is decided by its 256 instances. *)
Lemma u8_forall (P : Z → bool) :
  forallb P (seqZ 0 256) = true → ∀ b, is_u8 b → P b = true.
Proof.
  intros H b Hb. rewrite forallb_forall in H. apply H.
  apply list_elem_of_In, elem_of_seqZ. unfold is_u8 in Hb. lia.
Qed.

(** ** C strings and character classes ("C" locale: the program never calls
    [setlocale]).

    A C string is the list of its characters as [unsigned char] values, without
    the terminating NUL. *)
Definition str (s : string) : list Z :=
  map (λ a, Z.of_N (N_of_ascii a)) (list_ascii_of_string s).

(** The C string that starts at a buffer: everything up to the first NUL. *)
Fixpoint cstr (l : list Z) : list Z :=
  match l with
  | [] => []
  | c :: l' => if c =? 0 then [] else c :: cstr l'
  end.

(** A C truth value that is stored. *)
Definition is_flag (z : Z) : Prop := z = 0 ∨ z = 1.

Definition no_nul (l : list Z) : Prop := Forall (λ c, c ≠ 0) l.

Lemma cstr_no_nul l : no_nul (cstr l).
Proof.
  induction l as [|c l IH]; cbn; [constructor|].
  destruct (Z.eqb_spec c 0); constructor; done.
Qed.

Lemma cstr_id l : no_nul l → cstr l = l.
Proof.
  induction 1 as [|c l Hc _ IH]; cbn; [done|].
  destruct (Z.eqb_spec c 0); [done|]. by rewrite IH.
Qed.

Lemma cstr_app_nul l r : no_nul l → cstr (l ++ 0 :: r) = l.
Proof.
  induction 1 as [|c l Hc _ IH]; cbn; [done|].
  destruct (Z.eqb_spec c 0); [done|]. by rewrite IH.
Qed.

Definition isdigit (c : Z) : bool := (48 <=? c) && (c <=? 57).
Definition isupper (c : Z) : bool := (65 <=? c) && (c <=? 90).
Definition islower (c : Z) : bool := (97 <=? c) && (c <=? 122).
Definition isalnum (c : Z) : bool := isdigit c || isupper c || islower c.
Definition isspace (c : Z) : bool := (c =? 32) || ((9 <=? c) && (c <=? 13)).
Definition toupper (c : Z) : Z := if islower c then c - 32 else c.

(** [strchr]: the text before the first occurrence of [c] and the text after it. *)
Fixpoint strchr (c : Z) (l : list Z) : option (list Z * list Z) :=
  match l with
  | [] => None
  | x :: l' =>
      if x =? c then Some ([], l')
      else match strchr c l' with
           | Some (a, b) => Some (x :: a, b)
           | None => None
           end
  end.

Lemma strchr_Some_1 c l a b : strchr c l = Some (a, b) → l = a ++ c :: b ∧ c ∉ a.
Proof.
  revert a b. induction l as [|x l IH]; intros a b; cbn; [done|].
  destruct (Z.eqb_spec x c) as [->|Hx].
  - intros [= <- <-]. split; [done|]. apply not_elem_of_nil.
  - destruct (strchr c l) as [[a' b']|]; [|done].
    intros [= <- <-]. destruct (IH a' b') as [-> Hc]; [done|].
    split; [done|]. rewrite elem_of_cons. naive_solver.
Qed.

Lemma strchr_app c a b : c ∉ a → strchr c (a ++ c :: b) = Some (a, b).
Proof.
  induction a as [|x a IH]; cbn; intros Hc.
  - by rewrite Z.eqb_refl.
  - rewrite elem_of_cons in Hc. destruct (Z.eqb_spec x c); [naive_solver|].
    rewrite IH; naive_solver.
Qed.

Lemma strchr_Some c l a b :
  strchr c l = Some (a, b) ↔ l = a ++ c :: b ∧ c ∉ a.
Proof.
  split; [apply strchr_Some_1|]. intros [-> Hc]. by apply strchr_app.
Qed.

Lemma strchr_None c l : c ∉ l → strchr c l = None.
Proof.
  intros Hc. destruct (strchr c l) as [[a b]|] eqn:E; [|done].
  apply strchr_Some in E as [-> _]. destruct Hc.
  rewrite elem_of_app, elem_of_cons. naive_solver.
Qed.

Lemma strchr_None_inv c l : strchr c l = None → c ∉ l.
Proof.
  induction l as [|x l IH]; cbn; [intros _; apply not_elem_of_nil|].
  destruct (Z.eqb_spec x c); [done|]. destruct (strchr c l) as [[]|]; [done|].
  intros _. rewrite elem_of_cons. naive_solver.
Qed.

(** [strncmp(l, p, strlen(p)) == 0]: the text after the prefix [p]. *)
Fixpoint strip_prefix (p l : list Z) : option (list Z) :=
  match p, l with
  | [], _ => Some l
  | x :: p', y :: l' => if x =? y then strip_prefix p' l' else None
  | _ :: _, [] => None
  end.

Lemma strip_prefix_Some p l r : strip_prefix p l = Some r ↔ l = p ++ r.
Proof.
  revert l. induction p as [|x p IH]; intros l; cbn.
  - naive_solver.
  - destruct l as [|y l]; [naive_solver|]. destruct (Z.eqb_spec x y); [|naive_solver].
    rewrite IH. naive_solver.
Qed.

(** [strstr]: the text after the first occurrence of [p]. *)
Fixpoint strstr (l p : list Z) : option (list Z) :=
  match strip_prefix p l with
  | Some r => Some r
  | None => match l with [] => None | _ :: l' => strstr l' p end
  end.

(** ** Unsigned counters *)
Definition u64 (z : Z) : Z := z mod 2 ^ 64.
Definition u32 (z : Z) : Z := z mod 2 ^ 32.

(** ** Automation *)
Create HintDb tnc.
Create Rewrite HintDb len.
#[export] Hint Resolve u8_is_u8 cstr_no_nul : tnc.
#[export] Hint Rewrite @length_app @length_cons @length_nil @length_map
  @length_replicate @length_fmap : len.

(** Arithmetic on buffer lengths. *)
Ltac solve_len := autorewrite with len in *; lia.

(** Case analysis on the boolean tests of the code. *)
Ltac zcase :=
  match goal with
  | |- context [ ?a =? ?b ] => destruct (Z.eqb_spec a b)
  | |- context [ ?a <? ?b ] => destruct (Z.ltb_spec a b)
  | |- context [ ?a <=? ?b ] => destruct (Z.leb_spec a b)
  | H : context [ ?a =? ?b ] |- _ => destruct (Z.eqb_spec a b)
  | H : context [ ?a <? ?b ] |- _ => destruct (Z.ltb_spec a b)
  | H : context [ ?a <=? ?b ] |- _ => destruct (Z.leb_spec a b)
  end.

(** Decide the boolean tests of the code that arithmetic settles. *)
Ltac zdecide :=
  repeat match goal with
  | |- context [ ?a <? ?b ] =>
      first [ rewrite (proj2 (Z.ltb_lt a b)) by solve_len
            | rewrite (proj2 (Z.ltb_ge a b)) by solve_len ]
  | |- context [ ?a <=? ?b ] =>
      first [ rewrite (proj2 (Z.leb_le a b)) by solve_len
            | rewrite (proj2 (Z.leb_gt a b)) by solve_len ]
  | |- context [ ?a =? ?b ] =>
      first [ rewrite (proj2 (Z.eqb_eq a b)) by solve_len
            | rewrite (proj2 (Z.eqb_neq a b)) by solve_len ]
  end.

(** ** Decimal numbers *)

(** [printf("%u")]: the decimal digits of [z], most significant first. *)
Fixpoint udigits (fuel : nat) (z : Z) (acc : list Z) : list Z :=
  match fuel with
  | O => acc
  | S fuel =>
      let acc := (48 + z mod 10) :: acc in
      if z / 10 =? 0 then acc else udigits fuel (z / 10) acc
  end.

(** A 64-bit number has at most 20 digits. *)
Definition fmt_u (z : Z) : list Z := udigits 20 z [].

(** The value of a string of digits ([strtol] base 10, no overflow). *)
Definition digits_value (l : list Z) : Z := foldl (λ acc d, 10 * acc + (d - 48)) 0 l.

(** The longest prefix whose elements satisfy [p], and the rest. *)
Fixpoint span (p : Z → bool) (l : list Z) : list Z * list Z :=
  match l with
  | [] => ([], [])
  | c :: l' => if p c then let '(a, b) := span p l' in (c :: a, b) else ([], l)
  end.

Lemma span_app p a b :
  Forall (λ c, p c = true) a → match b with [] => True | c :: _ => p c = false end →
  span p (a ++ b) = (a, b).
Proof.
  intros Ha Hb. induction Ha as [|c a Hc _ IH]; cbn.
  - destruct b as [|c b]; cbn; [done|]. by rewrite Hb.
  - by rewrite Hc, IH.
Qed.

(** [strtol(l, &end, 10)] on a 64-bit [long]: the saturated value and the text at
    [end]; [None] when no digit was converted ([end == l]). *)
Definition strtol (l : list Z) : option (Z * list Z) :=
  let '(_, l1) := span isspace l in
  let '(neg, l2) :=
    match l1 with
    | c :: l' => if c =? 45 then (true, l') else if c =? 43 then (false, l') else (false, l1)
    | [] => (false, [])
    end in
  let '(ds, rest) := span isdigit l2 in
  match ds with
  | [] => None
  | _ =>
      let v := digits_value ds in
      Some (if neg then Z.max (- 2 ^ 63) (- v) else Z.min (2 ^ 63 - 1) v, rest)
  end.

(** Drop trailing characters that satisfy [p]. *)
Fixpoint rstrip (p : Z → bool) (l : list Z) : list Z :=
  match l with
  | [] => []
  | c :: l' =>
      match rstrip p l' with
      | [] => if p c then [] else [c]
      | r => c :: r
      end
  end.

Lemma rstrip_app_all p l r : forallb p r = true → rstrip p (l ++ r) = rstrip p l.
Proof.
  intros Hr. assert (rstrip p r = []) as Hnil.
  { induction r as [|c r IH]; [done|]. cbn in *. apply andb_prop in Hr as [Hc Hr].
    by rewrite IH, Hc. }
  induction l as [|c l IH]; cbn; [done|]. by rewrite IH.
Qed.

Lemma rstrip_id p l : Forall (λ c, p c = false) l → rstrip p l = l.
Proof.
  induction 1 as [|c l Hc _ IH]; cbn; [done|]. rewrite IH, Hc. by destruct l.
Qed.

Lemma rstrip_prefix p l : ∃ r, l = rstrip p l ++ r ∧ forallb p r = true.
Proof.
  induction l as [|c l (r & IH & Hr)]; [by exists []|]. cbn.
  destruct (rstrip p l) as [|d l'] eqn:E.
  - cbn in IH. subst l. destruct (p c) eqn:Hc.
    + exists (c :: r). cbn. by rewrite Hc, Hr.
    + by exists r.
  - exists r. split; [|done]. by rewrite IH at 1.
Qed.

(** [Forall] of an explicit list, by the available facts on its elements. *)
Ltac solve_Forall :=
  repeat first
    [ done | apply Forall_nil_2 | apply Forall_app; split | apply Forall_cons; split ].

(** ** Filters *)

Lemma filter_all {A} (P : A → Prop) `{!∀ x, Decision (P x)} l : Forall P l → filter P l = l.
Proof. induction 1 as [|x l Hx _ IH]; [done|]. by rewrite filter_cons_True, IH. Qed.
