(* ===== verification/Kiss.v ===== *)
(** KISS framing (kiss.c, kiss.h): the streaming decoder fed by the TCP client and
    the data-frame encoder used towards it.

    [dec->buf] with its fill count [dec->len] is the list [kd_buf] of the bytes
    stored so far: the code never reads [buf] beyond [len]. *)
From S2P Require Import Prelude.

Definition KISS_FEND : Z := 0xC0.
Definition KISS_FESC : Z := 0xDB.
Definition KISS_TFEND : Z := 0xDC.
Definition KISS_TFESC : Z := 0xDD.

Definition KISS_CMD_DATA : Z := 0.
Definition KISS_CMD_TXDELAY : Z := 1.
Definition KISS_CMD_PERSIST : Z := 2.
Definition KISS_CMD_SLOTTIME : Z := 3.
Definition KISS_CMD_TXTAIL : Z := 4.
Definition KISS_CMD_FULLDUPLEX : Z := 5.

Record kiss_frame_t := KissFrame {
  kf_port : Z;
  kf_command : Z;
  kf_data : list Z;
}.

Record kiss_decoder_t := KissDecoder {
  kd_in_frame : bool;
  kd_escaped : bool;
  kd_buf : list Z;
}.

Record kiss_params_t := KissParams {
  kp_txdelay : Z;
  kp_persistence : Z;
  kp_slottime : Z;
  kp_txtail : Z;
  kp_fullduplex : Z;
}.

#[export] Instance kiss_frame_eq_dec : EqDecision kiss_frame_t.
Proof. solve_decision. Defined.

Definition kiss_decoder_init : kiss_decoder_t := KissDecoder false false [].
Definition kiss_params_init : kiss_params_t := KissParams 0 0 0 0 0.

Definition kiss_decoder_reset_frame (dec : kiss_decoder_t) : kiss_decoder_t :=
  KissDecoder (kd_in_frame dec) false [].

Definition kiss_decoder_drop_frame (dec : kiss_decoder_t) : kiss_decoder_t :=
  KissDecoder false false [].

(** Returns 0 on an empty buffer, 1 and the frame otherwise. *)
Definition kiss_make_frame (dec : kiss_decoder_t) : event kiss_frame_t :=
  match kd_buf dec with
  | [] => Quiet
  | cmd :: data =>
      Frame {| kf_port := Z.land (Z.shiftr cmd 4) 0x0f;
               kf_command := Z.land cmd 0x0f;
               kf_data := data |}
  end.

(** The tail of [kiss_decode_byte]: store the (unescaped) byte. *)
Definition kiss_store (dec : kiss_decoder_t) (byte : Z) :
    kiss_decoder_t * event kiss_frame_t :=
  if LHKT_KISS_MAX_FRAME <=? len (kd_buf dec)
  then (kiss_decoder_drop_frame dec, Fault LHKT_ERR_LONG)
  else (KissDecoder (kd_in_frame dec) (kd_escaped dec) (kd_buf dec ++ [byte]), Quiet).

Definition kiss_decode_byte (dec : kiss_decoder_t) (byte : Z) :
    kiss_decoder_t * event kiss_frame_t :=
  if byte =? KISS_FEND then
    if negb (kd_in_frame dec) then
      (kiss_decoder_reset_frame (KissDecoder true (kd_escaped dec) (kd_buf dec)), Quiet)
    else if kd_escaped dec then
      let dec := kiss_decoder_drop_frame dec in
      (KissDecoder true (kd_escaped dec) (kd_buf dec), Fault LHKT_ERR_FORMAT)
    else (kiss_decoder_reset_frame dec, kiss_make_frame dec)
  else if negb (kd_in_frame dec) then (dec, Quiet)
  else if kd_escaped dec then
    if byte =? KISS_TFEND then
      kiss_store (KissDecoder (kd_in_frame dec) false (kd_buf dec)) KISS_FEND
    else if byte =? KISS_TFESC then
      kiss_store (KissDecoder (kd_in_frame dec) false (kd_buf dec)) KISS_FESC
    else (kiss_decoder_drop_frame dec, Fault LHKT_ERR_FORMAT)
  else if byte =? KISS_FESC then
    (KissDecoder (kd_in_frame dec) true (kd_buf dec), Quiet)
  else kiss_store dec byte.

(** Feeding a whole stream, as the main loop does byte by byte. *)
Definition kiss_decode : kiss_decoder_t → list Z → kiss_decoder_t * list (event kiss_frame_t) :=
  run kiss_decode_byte.

(** Known parameters are stored, unknown commands are accepted and ignored. The
    return value is always [LHKT_OK]. *)
Definition kiss_handle_command (p : kiss_params_t) (frame : kiss_frame_t) : kiss_params_t :=
  match kf_data frame with
  | [] => p
  | v :: _ =>
      let c := kf_command frame in
      if c =? KISS_CMD_DATA then p
      else if c =? KISS_CMD_TXDELAY then
        KissParams v (kp_persistence p) (kp_slottime p) (kp_txtail p) (kp_fullduplex p)
      else if c =? KISS_CMD_PERSIST then
        KissParams (kp_txdelay p) v (kp_slottime p) (kp_txtail p) (kp_fullduplex p)
      else if c =? KISS_CMD_SLOTTIME then
        KissParams (kp_txdelay p) (kp_persistence p) v (kp_txtail p) (kp_fullduplex p)
      else if c =? KISS_CMD_TXTAIL then
        KissParams (kp_txdelay p) (kp_persistence p) (kp_slottime p) v (kp_fullduplex p)
      else if c =? KISS_CMD_FULLDUPLEX then
        KissParams (kp_txdelay p) (kp_persistence p) (kp_slottime p) (kp_txtail p) v
      else p
  end.

(** [out] is the filled prefix of the output buffer, [*pos] its length. *)
Definition kiss_put_escaped (byte out_size : Z) (out : list Z) : res (list Z) :=
  if byte =? KISS_FEND then
    if out_size <? len out + 2 then Err LHKT_ERR_NOSPACE
    else Ok (out ++ [KISS_FESC; KISS_TFEND])
  else if byte =? KISS_FESC then
    if out_size <? len out + 2 then Err LHKT_ERR_NOSPACE
    else Ok (out ++ [KISS_FESC; KISS_TFESC])
  else if out_size <? len out + 1 then Err LHKT_ERR_NOSPACE
  else Ok (out ++ [byte]).

Fixpoint kiss_put_all (data : list Z) (out_size : Z) (out : list Z) : res (list Z) :=
  match data with
  | [] => Ok out
  | b :: data => out ← kiss_put_escaped b out_size out; kiss_put_all data out_size out
  end.

Definition kiss_encode_data_frame (data : list Z) (out_size : Z) : res (list Z) :=
  if out_size <? 3 then Err LHKT_ERR_NOSPACE
  else
    out ← kiss_put_escaped KISS_CMD_DATA out_size [KISS_FEND];
    out ← kiss_put_all data out_size out;
    if out_size <? len out + 1 then Err LHKT_ERR_NOSPACE
    else Ok (out ++ [KISS_FEND]).

(** ** The KISS specification

    What a stream means, without a state machine: FEND separates segments, a
    segment is unescaped as a whole. *)
Module Spec.
(** Unescape a segment into at most [n] bytes. The first violation decides. *)
Fixpoint unescape (n : nat) (seg : list Z) {struct seg} : res (list Z) :=
  match seg with
  | [] => Ok []
  | b :: rest =>
      if b =? KISS_FESC then
        match rest with
        | [] => Err LHKT_ERR_FORMAT
        | c :: rest' =>
            if c =? KISS_TFEND then
              match n with
              | O => Err LHKT_ERR_LONG
              | S n => cons KISS_FEND <$> unescape n rest'
              end
            else if c =? KISS_TFESC then
              match n with
              | O => Err LHKT_ERR_LONG
              | S n => cons KISS_FESC <$> unescape n rest'
              end
            else Err LHKT_ERR_FORMAT
        end
      else
        match n with
        | O => Err LHKT_ERR_LONG
        | S n => cons b <$> unescape n rest
        end
  end.

(** The frame or fault a segment stands for; an empty segment (two FENDs in a
    row) stands for nothing. *)
Definition segment (seg : list Z) : list (event kiss_frame_t) :=
  match unescape 1024 seg with
  | Ok [] => []
  | Ok (cmd :: data) =>
      [Frame {| kf_port := cmd / 16 mod 16; kf_command := cmd mod 16; kf_data := data |}]
  | Err e => [Fault e]
  end.

(** The escaped form of a byte string. *)
Definition escape1 (b : Z) : list Z :=
  if b =? KISS_FEND then [KISS_FESC; KISS_TFEND]
  else if b =? KISS_FESC then [KISS_FESC; KISS_TFESC]
  else [b].
Definition escape (data : list Z) : list Z := concat (map escape1 data).

(** A stream of delimited segments, and what it stands for. *)
Definition delimited (segs : list (list Z)) : list Z :=
  concat (map (λ seg, seg ++ [KISS_FEND]) segs).
Definition meaning (segs : list (list Z)) : list (event kiss_frame_t) :=
  concat (map segment segs).

(** The wire form of a data frame on port 0. *)
Definition wire (data : list Z) : list Z :=
  KISS_FEND :: KISS_CMD_DATA :: escape data ++ [KISS_FEND].
End Spec.

(** ** The decoder implements the specification *)

(** The state right after a frame delimiter. *)
Definition kiss_synced : kiss_decoder_t := KissDecoder true false [].

Definition kiss_emit (buf : list Z) : list (event kiss_frame_t) :=
  match kiss_make_frame (KissDecoder true false buf) with
  | Quiet => []
  | ev => [ev]
  end.

Lemma kiss_decode_cons dec b bs :
  kiss_decode dec (b :: bs) =
    let '(s1, ev) := kiss_decode_byte dec b in
    let '(s2, evs) := kiss_decode s1 bs in
    (s2, match ev with Quiet => evs | _ => ev :: evs end).
Proof. apply run_cons. Qed.

Lemma kiss_decode_app dec xs ys :
  kiss_decode dec (xs ++ ys) =
    let '(s1, e1) := kiss_decode dec xs in
    let '(s2, e2) := kiss_decode s1 ys in (s2, e1 ++ e2).
Proof. apply run_app. Qed.

Lemma kiss_fend_syncs dec : (kiss_decode_byte dec KISS_FEND).1 = kiss_synced.
Proof. by destruct dec as [[] [] buf]. Qed.

(** A dropped frame stays dropped until the next delimiter. *)
Lemma kiss_dropped_segment seg :
  KISS_FEND ∉ seg →
  kiss_decode (KissDecoder false false []) (seg ++ [KISS_FEND]) = (kiss_synced, []).
Proof.
  induction seg as [|b seg IH]; intros Hb; [done|].
  apply not_elem_of_cons in Hb as [Hb Hseg].
  rewrite <-app_comm_cons, kiss_decode_cons. unfold kiss_decode_byte.
  destruct (Z.eqb_spec b KISS_FEND) as [->|_]; [done|]. cbn. by rewrite IH.
Qed.

(** Outside FEND a frame in progress either escapes, stores or drops. *)
Lemma kiss_decode_store e b c :
  kiss_store (KissDecoder true e b) c =
    if (1024 <=? length b)%nat then (KissDecoder false false [], Fault LHKT_ERR_LONG)
    else (KissDecoder true e (b ++ [c]), Quiet).
Proof.
  unfold kiss_store, LHKT_KISS_MAX_FRAME, kiss_decoder_drop_frame.
  cbn [kd_buf kd_in_frame kd_escaped].
  destruct (Z.leb_spec 1024 (len b)), (Nat.leb_spec 1024 (length b)); by try lia.
Qed.

Definition kiss_outcome (b : list Z) (r : res (list Z)) : list (event kiss_frame_t) :=
  match r with Ok d => kiss_emit (b ++ d) | Err e => [Fault e] end.

Lemma kiss_outcome_cons b c r :
  kiss_outcome (b ++ [c]) r = kiss_outcome b (cons c <$> r).
Proof. destruct r; cbn; [|done]. by rewrite <-app_assoc. Qed.

Section segment.
Variables (seg : list Z) (n : nat) (b : list Z).
Hypothesis Hcap : (length b + n)%nat = 1024%nat.
Hypothesis Hseg : KISS_FEND ∉ seg.
Hypothesis IH : ∀ n c, (length (b ++ [c]) + n)%nat = 1024%nat →
  kiss_decode (KissDecoder true false (b ++ [c])) (seg ++ [KISS_FEND]) =
    (kiss_synced, kiss_outcome (b ++ [c]) (Spec.unescape n seg)).

(** Storing one more byte of a segment, whatever the byte was on the wire. *)
Lemma kiss_store_segment c :
  (let '(s1, ev) := kiss_store (KissDecoder true false b) c in
   let '(s2, evs) := kiss_decode s1 (seg ++ [KISS_FEND]) in
   (s2, match ev with Quiet => evs | _ => ev :: evs end)) =
    (kiss_synced, kiss_outcome b
       match n with O => Err LHKT_ERR_LONG | S n => cons c <$> Spec.unescape n seg end).
Proof.
  rewrite kiss_decode_store. destruct (Nat.leb_spec 1024 (length b)).
  - replace n with O by lia. by rewrite kiss_dropped_segment.
  - destruct n as [|m]; [lia|]. rewrite (IH m); [by rewrite kiss_outcome_cons|].
    rewrite length_app; cbn; lia.
Qed.
End segment.

Lemma kiss_segment_run seg : KISS_FEND ∉ seg → ∀ n b, (length b + n)%nat = 1024%nat →
  kiss_decode (KissDecoder true false b) (seg ++ [KISS_FEND]) =
    (kiss_synced, kiss_outcome b (Spec.unescape n seg)) ∧
  kiss_decode (KissDecoder true true b) (seg ++ [KISS_FEND]) =
    (kiss_synced, kiss_outcome b (Spec.unescape n (KISS_FESC :: seg))).
Proof.
  induction seg as [|c seg IH]; intros Hseg n b Hcap.
  { by split; destruct b; cbn; rewrite ?app_nil_r. }
  apply not_elem_of_cons in Hseg as [Hc Hseg].
  specialize (IH Hseg).
  pose proof (kiss_store_segment seg n b Hcap Hseg
    (λ m d Hm, proj1 (IH m (b ++ [d]) Hm))) as Hstore.
  rewrite <-app_comm_cons, !kiss_decode_cons. unfold kiss_decode_byte.
  destruct (Z.eqb_spec c KISS_FEND); [done|].
  cbn [kd_in_frame kd_escaped kd_buf negb Spec.unescape]. rewrite Z.eqb_refl. split.
  - destruct (Z.eqb_spec c KISS_FESC) as [->|Hesc]; [|apply Hstore].
    by rewrite (proj2 (IH n b Hcap)).
  - destruct (Z.eqb_spec c KISS_TFEND) as [->|H1]; [apply (Hstore KISS_FEND)|].
    destruct (Z.eqb_spec c KISS_TFESC) as [->|H2]; [apply (Hstore KISS_FESC)|].
    unfold kiss_decoder_drop_frame. by rewrite kiss_dropped_segment.
Qed.

Lemma nibbles cmd :
  Z.land (Z.shiftr cmd 4) 0x0f = cmd / 16 mod 16 ∧ Z.land cmd 0x0f = cmd mod 16.
Proof.
  split.
  - rewrite Z.shiftr_div_pow2 by lia. apply (Z.land_ones _ 4). lia.
  - apply (Z.land_ones _ 4). lia.
Qed.

Lemma kiss_outcome_segment seg :
  kiss_outcome [] (Spec.unescape 1024 seg) = Spec.segment seg.
Proof.
  unfold kiss_outcome, Spec.segment, kiss_emit, kiss_make_frame.
  destruct (Spec.unescape 1024 seg) as [[|cmd d]|e]; [done| |done].
  cbn [app kd_buf]. by destruct (nibbles cmd) as [-> ->].
Qed.

Lemma kiss_synced_segments segs :
  Forall (λ seg, KISS_FEND ∉ seg) segs →
  kiss_decode kiss_synced (Spec.delimited segs) = (kiss_synced, Spec.meaning segs).
Proof.
  unfold Spec.delimited, Spec.meaning.
  induction 1 as [|seg segs Hseg _ IH]; [done|]. cbn [map concat].
  rewrite kiss_decode_app. unfold kiss_synced at 1.
  by rewrite (proj1 (kiss_segment_run seg Hseg 1024 [] eq_refl)),
    kiss_outcome_segment, IH.
Qed.

Lemma kiss_decode_fend dec bs :
  kiss_decode dec (KISS_FEND :: bs) =
    ((kiss_decode kiss_synced bs).1,
     (kiss_decode dec [KISS_FEND]).2 ++ (kiss_decode kiss_synced bs).2).
Proof.
  rewrite !kiss_decode_cons. pose proof (kiss_fend_syncs dec) as H.
  destruct (kiss_decode_byte dec KISS_FEND) as [s ev]. cbn in H. subst s.
  destruct (kiss_decode kiss_synced bs). by destruct ev.
Qed.

(** C17. The streaming decoder implements the KISS specification on every byte
    stream and from every state: whatever happened before, the first FEND puts the
    decoder in its synchronised state (emitting what that FEND completes), and every
    delimited segment after it yields exactly the frame or the fault the
    specification gives it, in order. *)
Theorem kiss_decoder_refines_spec dec segs
    (Hsegs : Forall (λ seg, KISS_FEND ∉ seg) segs) :
  kiss_decode dec (KISS_FEND :: Spec.delimited segs) =
    (kiss_synced, (kiss_decode dec [KISS_FEND]).2 ++ Spec.meaning segs).
Proof. by rewrite kiss_decode_fend, kiss_synced_segments. Qed.

Lemma kiss_decoder_refines_spec_witness :
  kiss_decode kiss_decoder_init
    (KISS_FEND :: Spec.delimited [[0; 7]; []; [0x10; KISS_FESC; KISS_TFEND]; [0; KISS_FESC; 1; 2]; [5]]) =
    (kiss_synced, [Frame (KissFrame 0 0 [7]); Frame (KissFrame 1 0 [KISS_FEND]);
                   Fault LHKT_ERR_FORMAT; Frame (KissFrame 0 5 [])]).
Proof.
  etransitivity.
  - apply (kiss_decoder_refines_spec kiss_decoder_init
      [[0; 7]; []; [0x10; KISS_FESC; KISS_TFEND]; [0; KISS_FESC; 1; 2]; [5]]).
    repeat (constructor; [by apply (bool_decide_unpack _)|]). constructor.
  - by vm_compute.
Defined.

(** ** The encoder *)

Lemma kiss_put_escaped_spec b n out :
  kiss_put_escaped b n out =
    if n <? len (out ++ Spec.escape1 b) then Err LHKT_ERR_NOSPACE
    else Ok (out ++ Spec.escape1 b).
Proof.
  unfold kiss_put_escaped, Spec.escape1. rewrite length_app, Nat2Z.inj_add.
  destruct (b =? KISS_FEND); [done|]. by destruct (b =? KISS_FESC).
Qed.

Lemma kiss_escape1_length b : (1 ≤ length (Spec.escape1 b) ≤ 2)%nat.
Proof. unfold Spec.escape1. repeat case_match; cbn; lia. Qed.

Lemma kiss_put_all_spec data n out :
  len out ≤ n →
  kiss_put_all data n out =
    if n <? len (out ++ Spec.escape data) then Err LHKT_ERR_NOSPACE
    else Ok (out ++ Spec.escape data).
Proof.
  revert out. unfold Spec.escape. induction data as [|b data IH]; intros out Hout; cbn.
  { rewrite app_nil_r. by destruct (Z.ltb_spec n (len out)); [lia|]. }
  rewrite kiss_put_escaped_spec, app_assoc.
  destruct (Z.ltb_spec n (len (out ++ Spec.escape1 b))) as [H|H]; cbn.
  - rewrite length_app, Nat2Z.inj_add. by destruct (Z.ltb_spec n (len (out ++ Spec.escape1 b) +
      len (concat (map Spec.escape1 data)))); [|lia].
  - by rewrite IH.
Qed.

Lemma kiss_encode_wire data out_size :
  kiss_encode_data_frame data out_size =
    if out_size <? len (Spec.wire data) then Err LHKT_ERR_NOSPACE
    else Ok (Spec.wire data).
Proof.
  unfold kiss_encode_data_frame, Spec.wire.
  assert (kiss_put_escaped KISS_CMD_DATA out_size [KISS_FEND] =
    if out_size <? 2 then Err LHKT_ERR_NOSPACE else Ok [KISS_FEND; KISS_CMD_DATA]) as -> by done.
  rewrite !length_cons, length_app. cbn [length].
  destruct (Z.ltb_spec out_size 3); [by zdecide|]. zdecide. cbn.
  rewrite kiss_put_all_spec by (cbn; lia). cbn [app]. rewrite !length_cons.
  destruct (Z.ltb_spec out_size (Z.of_nat (S (S (length (Spec.escape data))))));
    [by zdecide|].
  cbn [mbind res_bind]. rewrite !length_cons.
  by destruct (Z.ltb_spec out_size (Z.of_nat (S (S (length (Spec.escape data)))) + 1));
    zdecide.
Qed.

Lemma kiss_wire_length data : len (Spec.wire data) ≤ 3 + 2 * len data.
Proof.
  unfold Spec.wire, Spec.escape. rewrite !length_cons, length_app. cbn [length].
  enough (len (concat (map Spec.escape1 data)) ≤ 2 * len data) by lia.
  induction data as [|b data IH]; cbn [map concat length]; [lia|].
  rewrite length_app. pose proof (kiss_escape1_length b). lia.
Qed.

(** ** Round trips *)

Lemma kiss_escape_no_fend data : KISS_FEND ∉ Spec.escape data.
Proof.
  unfold Spec.escape. induction data as [|b data IH]; cbn; [apply not_elem_of_nil|].
  rewrite elem_of_app. intros [H|H]; [|done]. unfold Spec.escape1 in H.
  destruct (Z.eqb_spec b KISS_FEND); [|destruct (Z.eqb_spec b KISS_FESC)];
    rewrite !elem_of_cons, elem_of_nil in H; naive_solver.
Qed.

Lemma kiss_unescape_escape data n :
  (length data ≤ n)%nat → Spec.unescape n (Spec.escape data) = Ok data.
Proof.
  unfold Spec.escape. revert n. induction data as [|b data IH]; intros n Hn; [done|].
  destruct n as [|n]; cbn in Hn; [lia|]. cbn [map concat]. unfold Spec.escape1 at 1.
  destruct (Z.eqb_spec b KISS_FEND) as [->|]; [|destruct (Z.eqb_spec b KISS_FESC) as [->|Hb]];
    cbn; [..|destruct (Z.eqb_spec b KISS_FESC); [done|]]; by rewrite IH by lia.
Qed.

Definition kiss_data_frame (data : list Z) : event kiss_frame_t :=
  Frame {| kf_port := 0; kf_command := KISS_CMD_DATA; kf_data := data |}.

Lemma kiss_segment_wire data :
  len data < LHKT_KISS_MAX_FRAME →
  Spec.segment (KISS_CMD_DATA :: Spec.escape data) = [kiss_data_frame data].
Proof.
  intros H. unfold LHKT_KISS_MAX_FRAME in H. unfold Spec.segment.
  change (KISS_CMD_DATA :: Spec.escape data) with (Spec.escape (KISS_CMD_DATA :: data)).
  by rewrite kiss_unescape_escape by (cbn [length]; lia).
Qed.

Lemma kiss_decode_wire dec data :
  len data < LHKT_KISS_MAX_FRAME →
  kiss_decode dec (Spec.wire data) =
    (kiss_synced, (kiss_decode dec [KISS_FEND]).2 ++ [kiss_data_frame data]).
Proof.
  intros H. unfold Spec.wire.
  assert (KISS_CMD_DATA :: Spec.escape data ++ [KISS_FEND] =
    Spec.delimited [KISS_CMD_DATA :: Spec.escape data]) as ->
    by (unfold Spec.delimited; cbn; by rewrite app_nil_r).
  rewrite kiss_decode_fend, kiss_synced_segments.
  - unfold Spec.meaning. cbn [map concat fst snd]. by rewrite kiss_segment_wire.
  - constructor; [|done]. rewrite elem_of_cons. intros [?|?]; [done|].
    by apply (kiss_escape_no_fend data).
Qed.

Lemma kiss_decode_wires datas : ∀ dec data,
  Forall (λ d, len d < LHKT_KISS_MAX_FRAME) (data :: datas) →
  kiss_decode dec (concat (map Spec.wire (data :: datas))) =
    (kiss_synced, (kiss_decode dec [KISS_FEND]).2 ++ map kiss_data_frame (data :: datas)).
Proof.
  induction datas as [|d datas IH]; intros dec data [Hd Hds]%Forall_cons.
  - cbn [map concat]. by rewrite app_nil_r, kiss_decode_wire.
  - change (map Spec.wire (data :: d :: datas)) with (Spec.wire data :: map Spec.wire (d :: datas)).
    cbn [concat]. rewrite kiss_decode_app, kiss_decode_wire, IH by done.
    change ((kiss_decode kiss_synced [KISS_FEND]).2) with (@nil (event kiss_frame_t)).
    cbn [app map]. by rewrite <-app_assoc.
Qed.

(** C18. The encoder and the decoder. The encoder yields exactly the KISS wire form of its
    argument and refuses with [LHKT_ERR_NOSPACE] exactly when that does not fit the
    output buffer. Whatever state the decoder is in (mid frame, mid escape, out of
    sync), encoded frames that arrive one after the other are decoded to exactly the
    bytes that were encoded, in order and with nothing in between, after what the first
    delimiter completes, and leave the decoder synchronised. *)
Theorem kiss_stream_roundtrip dec data datas out_size wires
    (Hlen : Forall (λ d, len d < LHKT_KISS_MAX_FRAME) (data :: datas))
    (Henc : mapM (λ d, kiss_encode_data_frame d out_size) (data :: datas) = Ok wires) :
  (∀ d n, kiss_encode_data_frame d n =
     if n <? len (Spec.wire d) then Err LHKT_ERR_NOSPACE else Ok (Spec.wire d)) ∧
  kiss_decode dec (concat wires) =
    (kiss_synced, (kiss_decode dec [KISS_FEND]).2 ++ map kiss_data_frame (data :: datas)).
Proof.
  split; [intros; apply kiss_encode_wire|].
  assert (wires = map Spec.wire (data :: datas)) as ->.
  { clear Hlen. revert wires Henc. generalize (data :: datas). clear. intros l. induction l as [|d l IH]; intros wires.
    - by intros [= <-].
    - cbn. rewrite bind_Ok. intros (w & Ew & E). rewrite kiss_encode_wire in Ew.
      case_match; [done|]. apply Ok_inj in Ew as <-. apply bind_Ok in E as (ws & Ews & E).
      apply Ok_inj in E as <-. by rewrite (IH ws). }
  by apply kiss_decode_wires.
Qed.

Lemma kiss_stream_roundtrip_witness :
  kiss_decode (KissDecoder true true [0; 65])
    [0xC0; 0; 0xDB; 0xDC; 7; 0xDB; 0xDD; 0xC0; 0xC0; 0; 0xC0] =
    (kiss_synced, (kiss_decode (KissDecoder true true [0; 65]) [KISS_FEND]).2 ++
                  [kiss_data_frame [0xC0; 7; 0xDB]; kiss_data_frame []]).
Proof.
  destruct (kiss_stream_roundtrip (KissDecoder true true [0; 65]) [0xC0; 7; 0xDB] [[]] 1024
    [[0xC0; 0; 0xDB; 0xDC; 7; 0xDB; 0xDD; 0xC0]; [0xC0; 0; 0xC0]]) as [_ H].
  - by repeat constructor.
  - by vm_compute.
  - exact H.
Defined.

(** ** The decoder's invariant *)

Record kiss_wf (dec : kiss_decoder_t) : Prop := {
  kwf_len : len (kd_buf dec) ≤ LHKT_KISS_MAX_FRAME;
  kwf_bytes : bytes_ok (kd_buf dec);
  kwf_idle : kd_in_frame dec = false → kd_escaped dec = false ∧ kd_buf dec = [];
}.

Definition kiss_event_ok (ev : event kiss_frame_t) : Prop :=
  match ev with
  | Frame f =>
      0 ≤ kf_port f < 16 ∧ 0 ≤ kf_command f < 16 ∧
      len (kf_data f) < LHKT_KISS_MAX_FRAME ∧ bytes_ok (kf_data f)
  | Fault e => e = LHKT_ERR_FORMAT ∨ e = LHKT_ERR_LONG
  | Quiet => True
  end.

Lemma kiss_wf_init : kiss_wf kiss_decoder_init.
Proof. split; cbn; [unfold LHKT_KISS_MAX_FRAME; lia|constructor|done]. Qed.

Lemma kiss_wf_empty i : kiss_wf (KissDecoder i false []).
Proof. split; cbn; [unfold LHKT_KISS_MAX_FRAME; lia|constructor|done]. Qed.

Lemma kiss_store_ok i e b c :
  i = true → kiss_wf (KissDecoder i e b) → is_u8 c →
  kiss_wf (kiss_store (KissDecoder i e b) c).1 ∧
  kiss_event_ok (kiss_store (KissDecoder i e b) c).2.
Proof.
  intros -> [Hl Hb _] Hc. unfold kiss_store. cbn [kd_buf kd_in_frame kd_escaped].
  destruct (Z.leb_spec LHKT_KISS_MAX_FRAME (len b)); cbn [fst snd].
  - split; [apply kiss_wf_empty|]. by right.
  - split; [|done]. split; cbn [kd_buf kd_in_frame]; [solve_len| |done].
    apply Forall_app. split; [done|]. by apply Forall_singleton.
Qed.

Lemma kiss_make_frame_ok dec : kiss_wf dec → kiss_event_ok (kiss_make_frame dec).
Proof.
  intros [Hl Hb _]. unfold kiss_make_frame. destruct (kd_buf dec) as [|cmd d]; [done|].
  apply Forall_cons in Hb as [_ Hd]. destruct (nibbles cmd) as [E1 E2].
  cbn [kiss_event_ok kf_port kf_command kf_data]. rewrite E1, E2, length_cons in *.
  repeat split; try done; try (apply Z.mod_pos_bound; lia). lia.
Qed.

Lemma kiss_decode_byte_ok dec b :
  kiss_wf dec → is_u8 b →
  kiss_wf (kiss_decode_byte dec b).1 ∧ kiss_event_ok (kiss_decode_byte dec b).2.
Proof.
  intros Hwf Hb. pose proof (kiss_make_frame_ok dec Hwf) as Hf.
  destruct dec as [[] e buf]; unfold kiss_decode_byte; cbn [kd_in_frame kd_escaped kd_buf negb].
  - assert (kiss_wf (KissDecoder true false buf) ∧ kiss_wf (KissDecoder true true buf)) as [H1 H2]
      by (destruct Hwf; by split; split).
    destruct (b =? KISS_FEND).
    { destruct e; (split; [apply kiss_wf_empty|]); [by left|done]. }
    destruct e; [destruct (b =? KISS_TFEND); [by apply kiss_store_ok|];
      destruct (b =? KISS_TFESC); [by apply kiss_store_ok|]|].
    + split; [apply kiss_wf_empty|by left].
    + destruct (b =? KISS_FESC); [done|by apply kiss_store_ok].
  - destruct (b =? KISS_FEND); (split; [|done]); [apply kiss_wf_empty|done].
Qed.

#[export] Instance kiss_safe : SafeDecoder kiss_decode_byte :=
  {| dec_wf := kiss_wf; dec_ok := kiss_event_ok; dec_step := kiss_decode_byte_ok |}.

(** Buffer safety: on any byte stream the decoder's buffer never exceeds its
    1024 bytes, it is empty and unescaped outside a frame, and every emitted frame
    has 4-bit port and command and fewer than 1024 data bytes. *)
Theorem kiss_decode_invariant dec bs (Hdec : kiss_wf dec) (Hbs : bytes_ok bs) :
  kiss_wf (kiss_decode dec bs).1 ∧ Forall kiss_event_ok (kiss_decode dec bs).2.
Proof. exact (dec_run (step := kiss_decode_byte) dec bs Hdec Hbs). Qed.

Lemma kiss_decode_invariant_witness :
  kiss_wf (kiss_decode kiss_decoder_init [0xC0; 0; 1; 0xC0]).1 ∧
  Forall kiss_event_ok (kiss_decode kiss_decoder_init [0xC0; 0; 1; 0xC0]).2.
Proof.
  apply kiss_decode_invariant; [apply kiss_wf_init|].
  by repeat constructor.
Defined.
