(* ===== verification/Ax25.v ===== *)
(** AX.25 UI frames (ax25.c, ax25.h): addresses in text and wire form, and the UI
    frame encoder and decoder.

    [call] is a NUL-terminated C string in a zeroed [char[7]]: the list of its
    characters. [path] with [path_len] and [payload] with [payload_len] are lists. *)
From S2P Require Import Prelude.

Definition AX25_ADDR_LEN : Z := 7.
Definition AX25_CTRL_UI : Z := 0x03.
Definition AX25_PID_NONE : Z := 0xf0.
Definition AX25_ADDR_BIT7 : Z := 0x80.
Definition AX25_ADDR_RESERVED : Z := 0x60.
Definition AX25_ADDR_LAST : Z := 0x01.
Definition AX25_ADDR_SSID_MASK : Z := 0x0f.

(** ' ', '*' and '-'. *)
Definition SPACE : Z := 32.
Definition STAR : Z := 42.
Definition DASH : Z := 45.

Record ax25_addr_t := Ax25Addr {
  aa_call : list Z;
  aa_ssid : Z;
  aa_repeated : Z;
}.

Record ax25_frame_t := Ax25Frame {
  af_dst : ax25_addr_t;
  af_src : ax25_addr_t;
  af_path : list ax25_addr_t;
  af_payload : list Z;
}.

#[export] Instance ax25_addr_eq_dec : EqDecision ax25_addr_t.
Proof. solve_decision. Defined.
#[export] Instance ax25_frame_eq_dec : EqDecision ax25_frame_t.
Proof. solve_decision. Defined.

Definition ax25_addr_zero : ax25_addr_t := Ax25Addr [] 0 0.
#[export] Instance ax25_addr_inhabited : Inhabited ax25_addr_t := populate ax25_addr_zero.

Definition ax25_frame_init : ax25_frame_t := Ax25Frame ax25_addr_zero ax25_addr_zero [] [].

(** ** Addresses in text form *)

(** The call sign part, after '*' and SSID are taken off. *)
Definition ax25_call_parse (tmp : list Z) (ssid repeated : Z) : res ax25_addr_t :=
  if (len tmp <? 1) || (6 <? len tmp) then Err LHKT_ERR_FORMAT
  else if negb (forallb isalnum tmp) then Err LHKT_ERR_FORMAT
  else Ok (Ax25Addr (map toupper tmp) ssid repeated).

Definition ax25_addr_parse (text : list Z) : res ax25_addr_t :=
  if len text =? 0 then Err LHKT_ERR_FORMAT
  else if 16 <=? len text then Err LHKT_ERR_LONG
  else
    let '(repeated, tmp) :=
      match last text with
      | Some c => if c =? STAR then (1, take (length text - 1) text) else (0, text)
      | None => (0, text)
      end in
    match strchr DASH tmp with
    | None => ax25_call_parse tmp 0 repeated
    | Some (call, digits) =>
        if len digits =? 0 then Err LHKT_ERR_FORMAT
        else if negb (forallb isdigit digits) then Err LHKT_ERR_FORMAT
        else
          let ssid := digits_value digits in
          if (ssid <? 0) || (15 <? ssid) then Err LHKT_ERR_FORMAT
          else ax25_call_parse call ssid repeated
    end.

Definition ax25_addr_format (addr : ax25_addr_t) (out_size : Z) : res (list Z) :=
  if (out_size =? 0) || (len (aa_call addr) =? 0) then Err LHKT_ERR_FORMAT
  else if 15 <? aa_ssid addr then Err LHKT_ERR_FORMAT
  else
    let star := if aa_repeated addr =? 0 then [] else [STAR] in
    let out :=
      if aa_ssid addr =? 0 then aa_call addr ++ star
      else aa_call addr ++ [DASH] ++ fmt_u (aa_ssid addr) ++ star in
    if out_size <=? len out then Err LHKT_ERR_NOSPACE else Ok out.

(** ** Addresses in wire form *)

(** The six shifted call sign bytes: [call[i] ? call[i] : ' '], shifted left. *)
Definition ax25_call_bytes (call : list Z) : list Z :=
  map (λ i, let c := default 0 (call !! i) in
            u8 (Z.shiftl (u8 (if c =? 0 then SPACE else c)) 1)) (seq 0 6).

Definition ax25_ssid_byte (ssid : Z) (last bit7 : bool) : Z :=
  let b := Z.lor AX25_ADDR_RESERVED (u8 (Z.shiftl (Z.land ssid AX25_ADDR_SSID_MASK) 1)) in
  let b := if bit7 then Z.lor b AX25_ADDR_BIT7 else b in
  if last then Z.lor b AX25_ADDR_LAST else b.

Definition ax25_encode_addr (addr : ax25_addr_t) (last bit7 : bool) : res (list Z) :=
  if (len (aa_call addr) =? 0) || (15 <? aa_ssid addr) then Err LHKT_ERR_FORMAT
  else Ok (ax25_call_bytes (aa_call addr) ++ [ax25_ssid_byte (aa_ssid addr) last bit7]).

Definition ax25_call_char (b : Z) : Z := Z.land (Z.shiftr b 1) 0x7f.

Definition ax25_decode_addr (data : list Z) (is_path : bool) : res ax25_addr_t :=
  let chars := map ax25_call_char (take 6 data) in
  let ssid_byte := data !!! 6%nat in
  if negb (forallb (λ c, (c =? SPACE) || isalnum c) chars) then Err LHKT_ERR_FORMAT
  else
    let call := rstrip (Z.eqb SPACE) chars in
    if len call <? 1 then Err LHKT_ERR_FORMAT
    else if existsb (Z.eqb SPACE) call then Err LHKT_ERR_FORMAT
    else Ok {| aa_call := call;
               aa_ssid := Z.land (Z.shiftr ssid_byte 1) AX25_ADDR_SSID_MASK;
               aa_repeated :=
                 if is_path && negb (Z.land ssid_byte AX25_ADDR_BIT7 =? 0) then 1 else 0 |}.

(** ** UI frames *)

Fixpoint ax25_encode_path (path : list ax25_addr_t) : res (list Z) :=
  match path with
  | [] => Ok []
  | a :: rest =>
      bytes ← ax25_encode_addr a (len rest =? 0) (negb (aa_repeated a =? 0));
      tail ← ax25_encode_path rest;
      mret (bytes ++ tail)
  end.

Definition ax25_need (frame : ax25_frame_t) : Z :=
  (2 + len (af_path frame)) * AX25_ADDR_LEN + 2 + len (af_payload frame).

Definition ax25_encode_ui (frame : ax25_frame_t) (out_size : Z) : res (list Z) :=
  if (LHKT_AX25_MAX_REPEATERS <? len (af_path frame)) ||
     (LHKT_AX25_MAX_PAYLOAD <? len (af_payload frame)) then Err LHKT_ERR_LONG
  else if LHKT_AX25_MAX_FRAME <? ax25_need frame then Err LHKT_ERR_LONG
  else if out_size <? ax25_need frame then Err LHKT_ERR_NOSPACE
  else
    dst ← ax25_encode_addr (af_dst frame) false true;
    src ← ax25_encode_addr (af_src frame) (len (af_path frame) =? 0) false;
    path ← ax25_encode_path (af_path frame);
    mret (dst ++ src ++ path ++ [AX25_CTRL_UI; AX25_PID_NONE] ++ af_payload frame).

(** The address loop: at most [n] more addresses; [addrs] are those decoded so far
    and [last] is the extension bit of the most recent one. Returns them with the
    bytes not consumed. *)
Fixpoint ax25_decode_addrs (n : nat) (addrs : list ax25_addr_t) (last : Z) (data : list Z) :
    res (list ax25_addr_t * Z * list Z) :=
  match n with
  | O => Ok (addrs, last, data)
  | S n =>
      if len data <? AX25_ADDR_LEN then Ok (addrs, last, data)
      else
        addr ← ax25_decode_addr (take 7 data) (2 <=? len addrs);
        let last := Z.land (data !!! 6%nat) AX25_ADDR_LAST in
        if negb (last =? 0) then Ok (addrs ++ [addr], last, drop 7 data)
        else ax25_decode_addrs n (addrs ++ [addr]) last (drop 7 data)
  end.

Definition ax25_decode_ui (data : list Z) : res ax25_frame_t :=
  '(addrs, last, rest) ← ax25_decode_addrs (Z.to_nat LHKT_AX25_MAX_ADDRS) [] 0 data;
  if (last =? 0) || (len addrs <? 2) then Err LHKT_ERR_FORMAT
  else if len rest <? 2 then Err LHKT_ERR_SHORT
  else if negb (rest !!! 0%nat =? AX25_CTRL_UI) || negb (rest !!! 1%nat =? AX25_PID_NONE)
    then Err LHKT_ERR_UNSUPPORTED
  else
    let payload := drop 2 rest in
    if LHKT_AX25_MAX_PAYLOAD <? len payload then Err LHKT_ERR_LONG
    else Ok {| af_dst := addrs !!! 0%nat; af_src := addrs !!! 1%nat;
               af_path := drop 2 addrs; af_payload := payload |}.

(** ** Well-formed addresses and frames *)

Record ax25_addr_wf (a : ax25_addr_t) : Prop := {
  awf_len : 1 ≤ len (aa_call a) ≤ 6;
  awf_call : Forall (λ c, isalnum c = true) (aa_call a);
  awf_ssid : 0 ≤ aa_ssid a ≤ 15;
  awf_repeated : aa_repeated a = 0 ∨ aa_repeated a = 1;
}.

Record ax25_frame_wf (f : ax25_frame_t) : Prop := {
  fwf_dst : ax25_addr_wf (af_dst f);
  fwf_src : ax25_addr_wf (af_src f);
  fwf_path : Forall ax25_addr_wf (af_path f);
  fwf_path_len : len (af_path f) ≤ LHKT_AX25_MAX_REPEATERS;
  fwf_payload_len : len (af_payload f) ≤ LHKT_AX25_MAX_PAYLOAD;
  fwf_payload : bytes_ok (af_payload f);
}.

(** Bit 7 of the destination and the source is not a has-been-repeated bit: the
    wire form forgets it. *)
Definition ax25_station (a : ax25_addr_t) : ax25_addr_t :=
  Ax25Addr (aa_call a) (aa_ssid a) 0.
Definition ax25_norm (f : ax25_frame_t) : ax25_frame_t :=
  Ax25Frame (ax25_station (af_dst f)) (ax25_station (af_src f)) (af_path f) (af_payload f).

Lemma ax25_station_id a : aa_repeated a = 0 → ax25_station a = a.
Proof. destruct a. by intros [= ->]. Qed.

(** ** Bit-level lemmas, decided byte by byte *)

Lemma isalnum_u8 c : isalnum c = true → is_u8 c.
Proof. unfold isalnum, isdigit, isupper, islower, is_u8. lia. Qed.

Lemma isalnum_not c d : isalnum d = false → isalnum c = true → c ≠ d.
Proof. by intros H1 H2 ->; rewrite H1 in H2. Qed.

Definition ax25_char_codec_test (c : Z) : bool :=
  implb (isalnum c || (c =? SPACE)) (ax25_call_char (u8 (Z.shiftl (u8 c) 1)) =? c).

Lemma ax25_char_codec c :
  isalnum c = true ∨ c = SPACE → ax25_call_char (u8 (Z.shiftl (u8 c) 1)) = c.
Proof.
  intros H. assert (is_u8 c) as Hc.
  { destruct H as [H| ->]; [by apply isalnum_u8|by unfold is_u8, SPACE]. }
  assert (ax25_char_codec_test c = true) as Ht by (apply u8_forall; [by vm_compute|done]).
  destruct H as [H| ->]; [|by vm_compute]. unfold ax25_char_codec_test in Ht.
  rewrite H in Ht. by apply Z.eqb_eq in Ht.
Qed.

Definition ax25_ssid_codec_test (last bit7 : bool) (s : Z) : bool :=
  let b := ax25_ssid_byte s last bit7 in
  implb (s <=? 15)
    ((Z.land (Z.shiftr b 1) AX25_ADDR_SSID_MASK =? s) &&
     Bool.eqb (negb (Z.land b AX25_ADDR_BIT7 =? 0)) bit7 &&
     (Z.land b AX25_ADDR_LAST =? if last then 1 else 0) &&
     (0 <=? b) && (b <? 256)).

Lemma ax25_ssid_codec s last bit7 : 0 ≤ s ≤ 15 →
  let b := ax25_ssid_byte s last bit7 in
  Z.land (Z.shiftr b 1) AX25_ADDR_SSID_MASK = s ∧
  negb (Z.land b AX25_ADDR_BIT7 =? 0) = bit7 ∧
  Z.land b AX25_ADDR_LAST = (if last then 1 else 0) ∧ is_u8 b.
Proof.
  intros Hs b. assert (ax25_ssid_codec_test last bit7 s = true) as Ht.
  { apply u8_forall; [by destruct last, bit7; vm_compute|unfold is_u8; lia]. }
  unfold ax25_ssid_codec_test in Ht. fold b in Ht.
  rewrite (proj2 (Z.leb_le s 15)) in Ht by lia. cbn [implb] in Ht.
  rewrite !andb_true_iff, eqb_true_iff in Ht. unfold is_u8.
  destruct Ht as ((((H1%Z.eqb_eq & H2) & H3%Z.eqb_eq) & H4) & H5).
  repeat split; try done; lia.
Qed.

(** ** One address on the wire *)

Definition ax25_call_pad (call : list Z) : list Z :=
  call ++ replicate (6 - length call) SPACE.

Lemma ax25_call_bytes_pad call :
  len call ≤ 6 → Forall (λ c, isalnum c = true) call →
  ax25_call_bytes call = map (λ c, u8 (Z.shiftl (u8 c) 1)) (ax25_call_pad call).
Proof.
  intros Hl Hc. unfold ax25_call_bytes, ax25_call_pad.
  assert (∀ c, isalnum c = true → (c =? 0) = false) as H0.
  { intros c H. apply Z.eqb_neq. by apply isalnum_not. }
  do 7 (destruct call as [|? call]; [cbn -[u8 Z.shiftl Z.eqb SPACE];
    repeat match goal with H : Forall _ (_ :: _) |- _ => apply Forall_cons in H as [? H] end;
    by rewrite ?H0 by done|]).
  cbn [length] in Hl. lia.
Qed.

Lemma ax25_call_decode call :
  len call ≤ 6 → Forall (λ c, isalnum c = true) call →
  map ax25_call_char (ax25_call_bytes call) = ax25_call_pad call.
Proof.
  intros Hl Hc. rewrite ax25_call_bytes_pad, map_map by done.
  rewrite <-(map_id (ax25_call_pad call)) at 2. apply map_ext_in.
  intros c Hin. apply ax25_char_codec. apply list_elem_of_In in Hin.
  unfold ax25_call_pad in Hin. apply elem_of_app in Hin as [Hin|Hin].
  - left. by rewrite Forall_forall in Hc; apply Hc.
  - right. by apply elem_of_replicate in Hin as [-> _].
Qed.

Lemma ax25_encode_addr_wf a last bit7 :
  ax25_addr_wf a →
  ax25_encode_addr a last bit7 =
    Ok (ax25_call_bytes (aa_call a) ++ [ax25_ssid_byte (aa_ssid a) last bit7]).
Proof. intros [H1 _ H2 _]. unfold ax25_encode_addr. by zdecide. Qed.

Lemma ax25_encode_addr_length a last bit7 bs :
  ax25_encode_addr a last bit7 = Ok bs → length bs = 7%nat.
Proof. unfold ax25_encode_addr. case_match; [done|]. by intros [= <-]. Qed.

Lemma forallb_Forall {A} (p : A → bool) l : forallb p l = true ↔ Forall (λ x, p x = true) l.
Proof. rewrite forallb_forall, Forall_forall. by setoid_rewrite list_elem_of_In. Qed.

Lemma ax25_strip_pad call :
  Forall (λ c, isalnum c = true) call →
  forallb (λ c, (c =? SPACE) || isalnum c) (ax25_call_pad call) = true ∧
  rstrip (Z.eqb SPACE) (ax25_call_pad call) = call ∧
  existsb (Z.eqb SPACE) call = false.
Proof.
  intros Hc.
  assert (Forall (λ c, (SPACE =? c) = false) call) as Hns.
  { eapply Forall_impl; [exact Hc|]. intros c H. apply Z.eqb_neq, not_eq_sym.
    by apply isalnum_not. }
  unfold ax25_call_pad. repeat split.
  - apply forallb_Forall, Forall_app. split.
    + eapply Forall_impl; [exact Hc|]. intros c ->. by rewrite orb_true_r.
    + by apply Forall_replicate.
  - rewrite rstrip_app_all by (apply forallb_Forall, Forall_replicate; done).
    by apply rstrip_id.
  - apply not_true_is_false. rewrite existsb_exists. intros (c & Hin & Heq).
    rewrite Forall_forall in Hns. rewrite Hns in Heq; [done|]. by apply list_elem_of_In.
Qed.

Lemma ax25_decode_addr_bytes a cb sb is_path :
  ax25_addr_wf a → length cb = 6%nat →
  map ax25_call_char cb = ax25_call_pad (aa_call a) →
  ax25_decode_addr (cb ++ [sb]) is_path =
    Ok (Ax25Addr (aa_call a) (Z.land (Z.shiftr sb 1) AX25_ADDR_SSID_MASK)
          (if is_path && negb (Z.land sb AX25_ADDR_BIT7 =? 0) then 1 else 0)).
Proof.
  intros [Hl Hc _ _] Hlen Hcb. unfold ax25_decode_addr.
  rewrite take_app_length', Hcb by done.
  rewrite lookup_total_app_r, Hlen by lia.
  destruct (ax25_strip_pad (aa_call a) Hc) as (-> & -> & ->). by zdecide.
Qed.

Lemma ax25_decode_encode_addr a last bit7 is_path bs :
  ax25_addr_wf a → ax25_encode_addr a last bit7 = Ok bs →
  length bs = 7%nat ∧
  ax25_decode_addr bs is_path =
    Ok (Ax25Addr (aa_call a) (aa_ssid a) (if is_path && bit7 then 1 else 0)) ∧
  Z.land (bs !!! 6%nat) AX25_ADDR_LAST = (if last then 1 else 0) ∧ bytes_ok bs.
Proof.
  intros Hwf H. split; [by eapply ax25_encode_addr_length|].
  rewrite ax25_encode_addr_wf in H by done.
  destruct (ax25_ssid_codec (aa_ssid a) last bit7 (awf_ssid _ Hwf)) as (E1 & E2 & E3 & E4).
  assert (bs = ax25_call_bytes (aa_call a) ++ [ax25_ssid_byte (aa_ssid a) last bit7]) as ->
    by congruence.
  rewrite ax25_decode_addr_bytes with (a := a);
    [|done|done|apply ax25_call_decode; by destruct Hwf as [[]]].
  rewrite E1, E2. rewrite lookup_total_app_r by done. repeat split; [done|].
  apply Forall_app. split; [|by apply Forall_singleton].
  unfold ax25_call_bytes. apply Forall_map, Forall_forall. intros. apply u8_is_u8.
Qed.

(** ** Round trip of UI frames *)

Lemma ax25_path_repeated a :
  ax25_addr_wf a → (if negb (aa_repeated a =? 0) then 1 else 0) = aa_repeated a.
Proof. intros [_ _ _ [-> | ->]]; done. Qed.

Lemma ax25_addr_eta a : Ax25Addr (aa_call a) (aa_ssid a) (aa_repeated a) = a.
Proof. by destruct a. Qed.

Lemma ax25_decode_addrs_step n addrs last a l bit7 bs rest :
  ax25_addr_wf a → ax25_encode_addr a l bit7 = Ok bs →
  ax25_decode_addrs (S n) addrs last (bs ++ rest) =
    let a' := Ax25Addr (aa_call a) (aa_ssid a)
                (if (2 <=? len addrs) && bit7 then 1 else 0) in
    if l then Ok (addrs ++ [a'], 1, rest)
    else ax25_decode_addrs n (addrs ++ [a']) 0 rest.
Proof.
  intros Hwf H.
  destruct (ax25_decode_encode_addr a l bit7 (2 <=? len addrs) bs Hwf H) as (Hl & Hd & He & _).
  cbn [ax25_decode_addrs]. unfold AX25_ADDR_LEN. zdecide.
  rewrite take_app_length' by done. rewrite Hd. cbn [mbind res_bind].
  rewrite lookup_total_app_l, He by lia. rewrite drop_app_length' by done.
  by destruct l.
Qed.

Lemma ax25_encode_path_wf path :
  Forall ax25_addr_wf path →
  ∃ bs, ax25_encode_path path = Ok bs ∧ length bs = (7 * length path)%nat ∧ bytes_ok bs.
Proof.
  induction 1 as [|a path Ha _ (bs & IH & Hl & Hb)]; [by exists []|].
  cbn [ax25_encode_path]. rewrite IH.
  destruct (ax25_encode_addr a _ _) as [ba|] eqn:E.
  2: { by rewrite ax25_encode_addr_wf in E. }
  destruct (ax25_decode_encode_addr _ _ _ false _ Ha E) as (Hla & _ & _ & Hba).
  exists (ba ++ bs). split; [done|]. split; [|by apply Forall_app].
  rewrite length_app. cbn [length]. lia.
Qed.

Lemma ax25_decode_path path : ∀ n addrs bs rest,
  Forall ax25_addr_wf path → path ≠ [] → 2 ≤ len addrs → (length path ≤ n)%nat →
  ax25_encode_path path = Ok bs →
  ax25_decode_addrs n addrs 0 (bs ++ rest) = Ok (addrs ++ path, 1, rest).
Proof.
  induction path as [|a path IH]; intros n addrs bs rest Hwf Hne Haddrs Hn Henc; [done|].
  apply Forall_cons in Hwf as [Ha Hwf]. cbn [ax25_encode_path] in Henc.
  apply bind_Ok in Henc as (ba & Ea & (bp & Ep & [= <-])%bind_Ok).
  destruct n as [|n]; [cbn in Hn; lia|]. rewrite <-app_assoc.
  rewrite (ax25_decode_addrs_step _ _ _ a _ _ _ _ Ha Ea). cbv zeta. zdecide. cbn [andb].
  rewrite ax25_path_repeated, ax25_addr_eta by done.
  destruct path as [|a' path]; [by cbn in *; simplify_eq|].
  cbn [length]. zdecide. rewrite (IH n (addrs ++ [a]) bp rest); try done.
  - by rewrite <-app_assoc.
  - solve_len.
  - cbn in *; lia.
Qed.

Lemma ax25_need_bound f : ax25_frame_wf f → 16 ≤ ax25_need f ≤ 328.
Proof.
  intros [_ _ _ H1 H2 _]. unfold ax25_need, AX25_ADDR_LEN, LHKT_AX25_MAX_REPEATERS,
    LHKT_AX25_MAX_PAYLOAD in *. lia.
Qed.

Lemma ax25_decode_ui_body addrs payload rest :
  2 ≤ len addrs → len payload ≤ LHKT_AX25_MAX_PAYLOAD →
  rest = [AX25_CTRL_UI; AX25_PID_NONE] ++ payload →
  (∀ data, ax25_decode_addrs 10 [] 0 data = Ok (addrs, 1, rest) →
   ax25_decode_ui data =
     Ok (Ax25Frame (addrs !!! 0%nat) (addrs !!! 1%nat) (drop 2 addrs) payload)).
Proof.
  intros Ha Hp -> data H. unfold ax25_decode_ui.
  change (Z.to_nat LHKT_AX25_MAX_ADDRS) with 10%nat. rewrite H. cbn [mbind res_bind].
  rewrite length_app. cbn [length].
  rewrite lookup_total_app_l, lookup_total_app_l by (cbn; lia).
  rewrite drop_app_length' by done. cbn [lookup_total list_lookup_total].
  rewrite !Z.eqb_refl. cbn [negb orb]. by zdecide.
Qed.

Lemma ax25_encode_decode f out_size :
  ax25_frame_wf f → ax25_need f ≤ out_size →
  ∃ data, ax25_encode_ui f out_size = Ok data ∧ len data = ax25_need f ∧ bytes_ok data ∧
          ax25_decode_ui data = Ok (ax25_norm f).
Proof.
  intros Hwf Hsize. pose proof (ax25_need_bound f Hwf) as Hneed.
  destruct f as [dst src path payload]. destruct Hwf as [Hd Hs Hp Hpl Hyl Hy].
  cbn [af_dst af_src af_path af_payload] in *.
  destruct (ax25_encode_path_wf path Hp) as (bp & Ep & Lp & Bp).
  destruct (ax25_encode_addr dst false true) as [bd|] eqn:Ed;
    [|by rewrite ax25_encode_addr_wf in Ed].
  destruct (ax25_encode_addr src (len path =? 0) false) as [bs|] eqn:Es;
    [|by rewrite ax25_encode_addr_wf in Es].
  destruct (ax25_decode_encode_addr _ _ _ false _ Hd Ed) as (Ld & _ & _ & Bd).
  destruct (ax25_decode_encode_addr _ _ _ false _ Hs Es) as (Ls & _ & _ & Bs).
  exists (bd ++ bs ++ bp ++ [AX25_CTRL_UI; AX25_PID_NONE] ++ payload).
  split; [|split; [|split]].
  - unfold ax25_encode_ui, LHKT_AX25_MAX_FRAME. cbn [af_dst af_src af_path af_payload].
    zdecide. cbn [orb]. by rewrite Ed, Es, Ep.
  - unfold ax25_need, AX25_ADDR_LEN. cbn [af_path af_payload]. rewrite !length_app.
    cbn [length]. lia.
  - repeat (apply Forall_app; split; try done). repeat constructor; done.
  - unfold ax25_norm. cbn [af_dst af_src af_path af_payload].
    rewrite (ax25_decode_ui_body (ax25_station dst :: ax25_station src :: path) payload
      ([AX25_CTRL_UI; AX25_PID_NONE] ++ payload)); try done; [solve_len|].
    rewrite (ax25_decode_addrs_step 9 _ _ dst _ _ _ _ Hd Ed). cbv zeta.
    cbn [length Z.of_nat Z.leb Z.compare andb app].
    rewrite (ax25_decode_addrs_step 8 _ _ src _ _ _ _ Hs Es). cbv zeta.
    rewrite andb_false_r. fold (ax25_station dst) (ax25_station src).
    destruct path as [|a path].
    + cbn in Ep. by injection Ep as <-.
    + cbn [length]. zdecide.
      rewrite (ax25_decode_path (a :: path) 8 _ bp); try done.
      unfold LHKT_AX25_MAX_REPEATERS in Hpl. cbn [length] in *. lia.
Qed.

(** C19. Round trip of UI frames: every well-formed frame that fits the output buffer
    is encoded to exactly [ax25_need] bytes, and decoding them gives the frame back,
    up to bit 7 of the destination and the source, which on the wire is the
    command/response bit. The path with its '*' marks, the SSIDs and the payload are
    preserved. *)
Theorem ax25_roundtrip f out_size (Hwf : ax25_frame_wf f) (Hsize : ax25_need f ≤ out_size) :
  ∃ data, ax25_encode_ui f out_size = Ok data ∧ len data = ax25_need f ∧ bytes_ok data ∧
          ax25_decode_ui data = Ok (ax25_norm f).
Proof. by apply ax25_encode_decode. Qed.

Definition ax25_example : ax25_frame_t :=
  Ax25Frame (Ax25Addr (str "APLG01") 0 0) (Ax25Addr (str "DJ0CHE") 10 0)
    [Ax25Addr (str "DB0ABC") 10 1; Ax25Addr (str "WIDE1") 1 0] (str "!hello").

Lemma ax25_example_wf : ax25_frame_wf ax25_example.
Proof.
  assert (∀ a, negb (len (aa_call a) =? 0) && (len (aa_call a) <=? 6) &&
     forallb isalnum (aa_call a) && (0 <=? aa_ssid a) && (aa_ssid a <=? 15) &&
     ((aa_repeated a =? 0) || (aa_repeated a =? 1)) = true → ax25_addr_wf a) as H.
  { intros a Ha. rewrite !andb_true_iff, orb_true_iff, forallb_Forall in Ha.
    destruct Ha as (((((? & ?) & ?) & ?) & ?) & ?).
    split; [lia|done|lia|]. destruct (Z.eqb_spec (aa_repeated a) 0); [by left|right; lia]. }
  split; [by apply H|by apply H| | | |].
  - by repeat (constructor; [by apply H|]).
  - by vm_compute.
  - by vm_compute.
  - apply (bool_decide_unpack _). by vm_compute.
Qed.

Lemma ax25_roundtrip_witness :
  ∃ data, ax25_encode_ui ax25_example 384 = Ok data ∧ len data = ax25_need ax25_example ∧
          bytes_ok data ∧ ax25_decode_ui data = Ok (ax25_norm ax25_example).
Proof. apply ax25_roundtrip; [apply ax25_example_wf|by vm_compute]. Defined.

(** ** What the decoder accepts is well formed *)

Lemma ax25_decode_addr_wf data is_path a :
  ax25_decode_addr data is_path = Ok a →
  ax25_addr_wf a ∧ (is_path = false → aa_repeated a = 0).
Proof.
  unfold ax25_decode_addr. destruct (forallb _ _) eqn:Hok; [|done]. cbn [negb].
  set (chars := map ax25_call_char (take 6 data)) in *.
  destruct (rstrip_prefix (Z.eqb SPACE) chars) as (r & Hr & _).
  destruct (Z.ltb_spec (len (rstrip (Z.eqb SPACE) chars)) 1) as [|Hl]; [done|].
  destruct (existsb _ _) eqn:Hsp; [done|]. intros H.
  assert (length chars ≤ 6)%nat as Hc.
  { unfold chars. rewrite length_map, length_take. lia. }
  injection H as <-. split; [|by intros ->]. split; cbn [aa_call aa_ssid aa_repeated].
  - rewrite Hr, length_app in Hc. lia.
  - apply forallb_Forall in Hok. rewrite Hr, Forall_app in Hok. destruct Hok as [Hok _].
    apply Forall_forall. intros c Hin. rewrite Forall_forall in Hok.
    specialize (Hok c Hin). destruct (Z.eqb_spec c SPACE) as [Hc32|]; [|done].
    apply not_true_iff_false in Hsp. destruct Hsp. apply existsb_exists.
    exists c. split; [by apply list_elem_of_In|by rewrite Hc32].
  - change AX25_ADDR_SSID_MASK with (Z.ones 4). rewrite Z.land_ones by lia.
    pose proof (Z.mod_pos_bound (Z.shiftr (data !!! 6%nat) 1) (2 ^ 4)). lia.
  - destruct (is_path && _); [by right|by left].
Qed.

(** Loop invariant of the address loop. *)
Record ax25_addrs_ok (addrs : list ax25_addr_t) : Prop := {
  aok_wf : Forall ax25_addr_wf addrs;
  aok_station : Forall (λ a, aa_repeated a = 0) (take 2 addrs);
}.

Lemma ax25_decode_addrs_ok n : ∀ addrs last data addrs' last' rest,
  ax25_decode_addrs n addrs last data = Ok (addrs', last', rest) →
  ax25_addrs_ok addrs →
  ax25_addrs_ok addrs' ∧ (length addrs' ≤ length addrs + n)%nat ∧ ∃ pre, data = pre ++ rest.
Proof.
  induction n as [|n IH]; intros addrs last data addrs' last' rest H Hok;
    cbn [ax25_decode_addrs] in H.
  { injection H as <- <- <-. split; [done|]. split; [lia|]. by exists []. }
  case_match; [injection H as <- <- <-; split; [done|split; [lia|by exists []]]|].
  apply bind_Ok in H as (a & Ha & H). apply ax25_decode_addr_wf in Ha as [Ha Hst].
  assert (ax25_addrs_ok (addrs ++ [a])) as Hok'.
  { destruct Hok as [Hw Hs]. split; [by apply Forall_app; split; [|apply Forall_singleton]|].
    rewrite take_app. apply Forall_app. split; [done|].
    destruct (Z.leb_spec 2 (len addrs)) as [H2|H2].
    - replace (2 - length addrs)%nat with O by lia. constructor.
    - apply Forall_take, Forall_singleton. by apply Hst. }
  destruct (negb _).
  - injection H as <- _ <-. split; [done|]. split; [solve_len|]. exists (take 7 data).
    by rewrite take_drop.
  - apply IH in H as (H1 & H2 & pre & H3); [|done]. split; [done|].
    split; [solve_len|]. exists (take 7 data ++ pre).
    by rewrite <-app_assoc, <-H3, take_drop.
Qed.

Lemma ax25_decode_ui_wf data f :
  bytes_ok data → ax25_decode_ui data = Ok f → ax25_frame_wf f ∧ ax25_norm f = f.
Proof.
  intros Hb Hdec. unfold ax25_decode_ui in Hdec.
  apply bind_Ok in Hdec as ([[addrs last] rest] & Ha & H).
  apply ax25_decode_addrs_ok in Ha as ([Hw Hs] & Hn & pre & ->); [|by split].
  apply Forall_app in Hb as [_ Hb]. change (Z.to_nat LHKT_AX25_MAX_ADDRS) with 10%nat in Hn.
  destruct (Z.ltb_spec (len addrs) 2); [by rewrite orb_true_r in H|]. rewrite orb_false_r in H.
  do 3 (case_match; [done|]). destruct (Z.ltb_spec LHKT_AX25_MAX_PAYLOAD (len (drop 2 rest)));
    [done|]. destruct addrs as [|dst [|src path]]; [done..|].
  apply Forall_cons in Hw as [Hd Hw]. apply Forall_cons in Hw as [Hsrc Hw].
  cbn [take] in Hs. apply Forall_cons in Hs as [Hd0 Hs]. apply Forall_cons in Hs as [Hs0 _].
  injection H as <-. split.
  - split; cbn [af_dst af_src af_path af_payload drop]; rewrite ?drop_0; try done.
    + unfold LHKT_AX25_MAX_REPEATERS. cbn [length] in *. lia.
    + by apply Forall_drop.
  - unfold ax25_norm. cbn [af_dst af_src af_path af_payload lookup_total list_lookup_total].
    by rewrite !ax25_station_id.
Qed.

(** What the decoder accepts is no longer than a frame can be. *)
Lemma ax25_decode_addrs_length n : ∀ addrs last data addrs' last' rest,
  ax25_decode_addrs n addrs last data = Ok (addrs', last', rest) →
  (length data ≤ 7 * n + length rest)%nat.
Proof.
  induction n as [|n IH]; intros addrs last data addrs' last' rest H;
    cbn [ax25_decode_addrs] in H; [injection H as <- <- <-; lia|].
  case_match; [injection H as <- <- <-; lia|]. apply bind_Ok in H as (a & _ & H).
  destruct (negb _).
  - injection H as _ _ <-. rewrite length_drop. lia.
  - apply IH in H. rewrite length_drop in H. lia.
Qed.

Lemma ax25_decode_ui_length data f : ax25_decode_ui data = Ok f → len data ≤ LHKT_AX25_MAX_FRAME.
Proof.
  unfold ax25_decode_ui. intros ([[addrs last] rest] & Ha & H)%bind_Ok.
  apply ax25_decode_addrs_length in Ha. change (Z.to_nat LHKT_AX25_MAX_ADDRS) with 10%nat in Ha.
  do 3 (case_match; [done|]). destruct (Z.ltb_spec LHKT_AX25_MAX_PAYLOAD (len (drop 2 rest))) as [|Hl]; [done|].
  rewrite length_drop in Hl. unfold LHKT_AX25_MAX_PAYLOAD, LHKT_AX25_MAX_FRAME in *. lia.
Qed.

(** C20. The decoder accepts only well-formed frames: call signs of 1 to 6
    alphanumeric characters (so no TNC2 delimiter can be injected), SSIDs up to 15,
    at most 8 digipeaters, at most 256 payload bytes, and no '*' on destination or
    source. Re-encoding what it accepted succeeds in a buffer of
    [LHKT_AX25_MAX_FRAME] bytes and decodes to the same frame. *)
Theorem ax25_decode_sound data f (Hb : bytes_ok data) (Hdec : ax25_decode_ui data = Ok f) :
  ax25_frame_wf f ∧ ax25_norm f = f ∧
  ∃ data', ax25_encode_ui f LHKT_AX25_MAX_FRAME = Ok data' ∧ ax25_decode_ui data' = Ok f.
Proof.
  destruct (ax25_decode_ui_wf data f Hb Hdec) as [Hwf Hnorm].
  split; [done|]. split; [done|].
  assert (ax25_need f ≤ LHKT_AX25_MAX_FRAME) as Hn.
  { pose proof (ax25_need_bound f Hwf). unfold LHKT_AX25_MAX_FRAME. lia. }
  destruct (ax25_encode_decode f LHKT_AX25_MAX_FRAME Hwf Hn) as (d & He & _ & _ & Hd).
  rewrite Hnorm in Hd. by exists d.
Qed.

Definition ax25_example_bytes : list Z :=
  match ax25_encode_ui ax25_example 384 with Ok d => d | Err _ => [] end.

Lemma ax25_decode_sound_witness :
  ax25_frame_wf (ax25_norm ax25_example) ∧
  ax25_norm (ax25_norm ax25_example) = ax25_norm ax25_example ∧
  ∃ data', ax25_encode_ui (ax25_norm ax25_example) LHKT_AX25_MAX_FRAME = Ok data' ∧
           ax25_decode_ui data' = Ok (ax25_norm ax25_example).
Proof.
  apply (ax25_decode_sound ax25_example_bytes); [|by vm_compute].
  apply (bool_decide_unpack _). by vm_compute.
Defined.

(** ** Addresses in text form: round trip *)

(** CALL or CALL-SSID, without the '*'. *)
Definition ax25_addr_base (a : ax25_addr_t) : list Z :=
  aa_call a ++ (if aa_ssid a =? 0 then [] else DASH :: fmt_u (aa_ssid a)).

Definition ax25_addr_text (a : ax25_addr_t) : list Z :=
  ax25_addr_base a ++ (if aa_repeated a =? 0 then [] else [STAR]).

(** Parsing uppercases the call sign. *)
Definition ax25_addr_upper (a : ax25_addr_t) : ax25_addr_t :=
  Ax25Addr (map toupper (aa_call a)) (aa_ssid a) (aa_repeated a).

(** A character an address text may contain before its '*'. *)
Definition ax25_base_char (c : Z) : bool := isalnum c || (c =? DASH).

Definition ax25_ssid_text_test (s : Z) : bool :=
  implb ((1 <=? s) && (s <=? 15))
    (forallb isdigit (fmt_u s) && (digits_value (fmt_u s) =? s) &&
     (1 <=? len (fmt_u s)) && (len (fmt_u s) <=? 2)).

Lemma ax25_ssid_text s : 1 ≤ s ≤ 15 →
  Forall (λ c, isdigit c = true) (fmt_u s) ∧ digits_value (fmt_u s) = s ∧ 1 ≤ len (fmt_u s) ≤ 2.
Proof.
  intros Hs. assert (ax25_ssid_text_test s = true) as Ht.
  { apply u8_forall; [by vm_compute|unfold is_u8; lia]. }
  unfold ax25_ssid_text_test in Ht.
  rewrite (proj2 (Z.leb_le 1 s)), (proj2 (Z.leb_le s 15)) in Ht by lia.
  cbn [andb implb] in Ht. rewrite !andb_true_iff, forallb_Forall in Ht.
  destruct Ht as (((H1 & H2) & H3) & H4). split; [done|lia].
Qed.

Lemma isdigit_isalnum c : isdigit c = true → isalnum c = true.
Proof. unfold isalnum. by intros ->. Qed.

Lemma toupper_isalnum c : isalnum c = true → isalnum (toupper c) = true.
Proof.
  unfold toupper. intros H. destruct (islower c) eqn:E; [|done].
  unfold isalnum, isdigit, isupper, islower in *. lia.
Qed.

Lemma toupper_idemp c : toupper (toupper c) = toupper c.
Proof.
  unfold toupper. destruct (islower c) eqn:E; [|by rewrite E].
  destruct (islower (c - 32)) eqn:E'; [|done]. unfold islower in *. lia.
Qed.

Lemma ax25_base_chars a :
  ax25_addr_wf a → Forall (λ c, ax25_base_char c = true) (ax25_addr_base a) ∧
  1 ≤ len (ax25_addr_base a) ≤ 9.
Proof.
  intros [Hl Hc Hs _]. unfold ax25_addr_base, ax25_base_char.
  assert (Forall (λ c, isalnum c || (c =? DASH) = true) (aa_call a)) as H.
  { eapply Forall_impl; [exact Hc|]. by intros c ->. }
  destruct (Z.eqb_spec (aa_ssid a) 0).
  - rewrite app_nil_r. split; [done|lia].
  - destruct (ax25_ssid_text (aa_ssid a)) as (Hd & _ & Hn); [lia|]. split.
    + apply Forall_app. split; [done|]. constructor; [done|].
      eapply Forall_impl; [exact Hd|]. intros c Hc'. by rewrite isdigit_isalnum.
    + solve_len.
Qed.

Lemma ax25_addr_format_wf a out_size :
  ax25_addr_wf a → 10 < out_size → ax25_addr_format a out_size = Ok (ax25_addr_text a).
Proof.
  intros Hwf Hn. destruct (ax25_base_chars a Hwf) as [_ Hl]. destruct Hwf as [H1 _ H2 _].
  unfold ax25_addr_format. rewrite !(proj2 (Z.eqb_neq _ 0)) by lia. cbn [orb]. zdecide.
  unfold ax25_addr_text, ax25_addr_base in *. destruct (Z.eqb_spec (aa_ssid a) 0).
  - rewrite app_nil_r in *. destruct (aa_repeated a =? 0); by zdecide.
  - cbn [app]. rewrite <-app_assoc. cbn [app].
    destruct (aa_repeated a =? 0); by zdecide.
Qed.

(** Taking the '*' off. *)
Lemma ax25_strip_star base r :
  STAR ∉ base →
  let text := base ++ (if r =? 0 then [] else [STAR]) in
  match last text with
  | Some c => if c =? STAR then (1, take (length text - 1) text) else (0, text)
  | None => (0, text)
  end = (if r =? 0 then 0 else 1, base).
Proof.
  intros Hb. destruct (r =? 0); cbv zeta; cycle 1.
  - rewrite last_snoc, Z.eqb_refl, length_app. cbn [length].
    rewrite take_app_length' by lia. done.
  - rewrite app_nil_r. destruct (last base) as [c|] eqn:E.
    + destruct (Z.eqb_spec c STAR) as [->|]; [|done]. destruct Hb.
      apply list_elem_of_lookup. exists (pred (length base)). by rewrite <-last_lookup.
    + done.
Qed.

Lemma ax25_call_parse_wf a :
  ax25_addr_wf a → ax25_call_parse (aa_call a) (aa_ssid a) (aa_repeated a) = Ok (ax25_addr_upper a).
Proof.
  intros [Hl Hc _ _]. unfold ax25_call_parse. zdecide. cbn [orb].
  by rewrite (proj2 (forallb_Forall _ _) Hc).
Qed.

Lemma ax25_base_not_star a c :
  ax25_addr_wf a → ax25_base_char c = false → c ∉ ax25_addr_base a.
Proof.
  intros Hwf Hc Hin. destruct (ax25_base_chars a Hwf) as [H _].
  rewrite Forall_forall in H. by rewrite H in Hc.
Qed.

Lemma ax25_addr_parse_text a :
  ax25_addr_wf a → ax25_addr_parse (ax25_addr_text a) = Ok (ax25_addr_upper a).
Proof.
  intros Hwf. destruct (ax25_base_chars a Hwf) as [_ Hl].
  unfold ax25_addr_parse, ax25_addr_text.
  assert (len (if aa_repeated a =? 0 then [] else [STAR]) ≤ 1) by (case_match; cbn; lia).
  rewrite length_app. rewrite (proj2 (Z.eqb_neq _ 0)) by lia. zdecide.
  rewrite <-length_app, ax25_strip_star by by apply ax25_base_not_star.
  assert ((if aa_repeated a =? 0 then 0 else 1) = aa_repeated a) as ->
    by (destruct Hwf as [_ _ _ [-> | ->]]; done).
  pose proof (ax25_call_parse_wf a Hwf) as Hcp.
  unfold ax25_addr_base in *. destruct (Z.eqb_spec (aa_ssid a) 0) as [E|E].
  - rewrite app_nil_r, strchr_None; [by rewrite <-E|].
    intros Hin. pose proof (awf_call a Hwf) as Hc. rewrite Forall_forall in Hc.
    by specialize (Hc _ Hin).
  - destruct (ax25_ssid_text (aa_ssid a)) as (Hd & Hv & Hn).
    { pose proof (awf_ssid a Hwf). lia. }
    rewrite strchr_app.
    + rewrite (proj2 (Z.eqb_neq _ 0)) by lia. rewrite (proj2 (forallb_Forall _ _) Hd), Hv.
      pose proof (awf_ssid a Hwf). cbn [negb]. by zdecide.
    + intros Hin. pose proof (awf_call a Hwf) as Hc. rewrite Forall_forall in Hc.
      by specialize (Hc _ Hin).
Qed.

Lemma ax25_call_parse_ok tmp ssid r a :
  ax25_call_parse tmp ssid r = Ok a → 0 ≤ ssid ≤ 15 → r = 0 ∨ r = 1 →
  ax25_addr_wf a ∧ ax25_addr_upper a = a.
Proof.
  unfold ax25_call_parse. intros H Hs Hr.
  destruct (Z.ltb_spec (len tmp) 1), (Z.ltb_spec 6 (len tmp)); try done.
  destruct (forallb isalnum tmp) eqn:Hc; [|done]. cbn in H. injection H as <-.
  apply forallb_Forall in Hc. split.
  - split; cbn [aa_call aa_ssid aa_repeated]; try done; [rewrite length_map; lia|].
    apply Forall_map. eapply Forall_impl; [exact Hc|]. intros c. apply toupper_isalnum.
  - unfold ax25_addr_upper. cbn. f_equal. rewrite map_map. apply map_ext.
    intros c. apply toupper_idemp.
Qed.

Lemma ax25_addr_parse_wf text a :
  ax25_addr_parse text = Ok a → ax25_addr_wf a ∧ ax25_addr_upper a = a.
Proof.
  unfold ax25_addr_parse. do 2 (case_match; [done|]).
  destruct (match last text with Some c => _ | None => _ end) as [r tmp] eqn:Er.
  assert (r = 0 ∨ r = 1) as Hr 
    by (destruct (last text) as [c|]; [destruct (c =? STAR)|]; simplify_eq; auto).
  destruct (strchr DASH tmp) as [[call digits]|]; intros H'.
  - do 2 (case_match; [done|]).
    destruct (Z.ltb_spec (digits_value digits) 0), (Z.ltb_spec 15 (digits_value digits));
      try done. eapply ax25_call_parse_ok; [exact H'|lia|done].
  - eapply ax25_call_parse_ok; [exact H'|lia|done].
Qed.

(** *** What an address text says

    The call sign in either case, the SSID in decimal unless it is 0, the '*'. *)
Definition ssid_text (ssid : list Z) (n : Z) : Prop :=
  ssid = [] ∧ n = 0 ∨
  ∃ ds, ssid = DASH :: ds ∧ ds ≠ [] ∧ forallb isdigit ds = true ∧ digits_value ds = n.
Definition star_text (star : list Z) (repeated : Z) : Prop :=
  star = [] ∧ repeated = 0 ∨ star = [STAR] ∧ repeated = 1.
Definition address_text (text : list Z) (a : ax25_addr_t) : Prop :=
  ∃ call ssid star, text = call ++ ssid ++ star ∧
    1 ≤ len call ≤ 6 ∧ forallb isalnum call = true ∧ aa_call a = map toupper call ∧
    ssid_text ssid (aa_ssid a) ∧ star_text star (aa_repeated a).

Lemma ax25_call_parse_reads tmp ssid n star r a :
  ax25_call_parse tmp n r = Ok a → ssid_text ssid n → star_text star r →
  address_text (tmp ++ ssid ++ star) a.
Proof.
  unfold ax25_call_parse. intros H Hs Hr.
  destruct (Z.ltb_spec (len tmp) 1), (Z.ltb_spec 6 (len tmp)); cbn [orb] in H; try done.
  destruct (forallb isalnum tmp) eqn:Hc; [|done]. injection H as <-.
  exists tmp, ssid, star. do 2 (split; [lia || done|]). done.
Qed.

Lemma ax25_addr_parse_reads text a : ax25_addr_parse text = Ok a → address_text text a.
Proof.
  unfold ax25_addr_parse. do 2 (case_match; [done|]).
  assert (∃ r tmp star, match last text with
      | Some c => if c =? STAR then (1, take (length text - 1) text) else (0, text)
      | None => (0, text) end = (r, tmp) ∧ text = tmp ++ star ∧ star_text star r) as (r & tmp & star & -> & -> & Hr).
  { destruct (last text) as [c|] eqn:El; [|exists 0, text, []; rewrite app_nil_r; by repeat split; left].
    destruct (Z.eqb_spec c STAR) as [->|]; [|exists 0, text, []; rewrite app_nil_r; by repeat split; left].
    apply last_Some in El as [l ->]. exists 1, l, [STAR]. split; [|by split; [|right]].
    f_equal. rewrite length_app. cbn [length]. rewrite Nat.add_sub. by apply take_app_length. }
  destruct (strchr DASH tmp) as [[call ds]|] eqn:Ed.
  - apply strchr_Some in Ed as [-> _]. destruct (Z.eqb_spec (len ds) 0) as [|Hd]; [done|].
    destruct (forallb isdigit ds) eqn:Hds; [|done]. cbn [negb]. cbv zeta. case_match; [done|]. intros Hc.
    rewrite <-app_assoc. eapply ax25_call_parse_reads; [exact Hc| |done].
    right. exists ds. split; [done|]. split; [by intros ->|done].
  - intros Hc. eapply (ax25_call_parse_reads tmp []); [exact Hc|by left|done].
Qed.

(** Text form of addresses: what the parser accepts is a well-formed address with
    an upper-case call sign; formatting it never fails and parses back to the same
    address, '*' and SSID included. *)
Theorem ax25_addr_text_roundtrip text a (Hparse : ax25_addr_parse text = Ok a) :
  ax25_addr_wf a ∧
  ∃ text', ax25_addr_format a 32 = Ok text' ∧ ax25_addr_parse text' = Ok a.
Proof.
  destruct (ax25_addr_parse_wf text a Hparse) as [Hwf Hup]. split; [done|].
  exists (ax25_addr_text a). rewrite ax25_addr_format_wf, ax25_addr_parse_text, Hup by done.
  done.
Qed.

Lemma ax25_addr_text_roundtrip_witness :
  ax25_addr_wf (Ax25Addr (str "DB0ABC") 10 1) ∧
  ∃ text', ax25_addr_format (Ax25Addr (str "DB0ABC") 10 1) 32 = Ok text' ∧
           ax25_addr_parse text' = Ok (Ax25Addr (str "DB0ABC") 10 1).
Proof. apply (ax25_addr_text_roundtrip (str "db0abc-010*")). by vm_compute. Defined.
