(* ===== verification/Tnc2.v ===== *)
(** TNC2 monitor lines (tnc2.c, tnc2.h): [SRC>DST,PATH:PAYLOAD], the text form the
    bridge puts on the air, parsed to and formatted from AX.25 frames.

    Lines are C strings: lists of non-NUL characters. *)
From S2P Require Import Prelude Ax25.

Definition GT : Z := 62.
Definition COLON : Z := 58.
Definition COMMA : Z := 44.
Definition CR : Z := 13.
Definition LF : Z := 10.

Definition is_eol (c : Z) : bool := (c =? LF) || (c =? CR).

Definition tnc2_strip_eol (line : list Z) : list Z := rstrip is_eol line.

(** The digipeater loop: [n] more entries fit [frame->path]. *)
Fixpoint tnc2_parse_repeaters (n : nat) (path : list ax25_addr_t) (p : list Z) :
    res (list ax25_addr_t) :=
  if len p =? 0 then Ok path
  else
    match n with
    | O => Err LHKT_ERR_LONG
    | S n =>
        let '(entry, comma) :=
          match strchr COMMA p with
          | Some (entry, rest) => (entry, Some rest)
          | None => (p, None)
          end in
        if len entry =? 0 then Err LHKT_ERR_FORMAT
        else
          addr ← ax25_addr_parse entry;
          match comma with
          | None => Ok (path ++ [addr])
          | Some rest => tnc2_parse_repeaters n (path ++ [addr]) rest
          end
    end.

Definition tnc2_parse_path (addr_part : list Z) : res (ax25_addr_t * list ax25_addr_t) :=
  if len addr_part =? 0 then Err LHKT_ERR_FORMAT
  else
    let '(p, comma) :=
      match strchr COMMA addr_part with
      | Some (p, rest) => (p, Some rest)
      | None => (addr_part, None)
      end in
    dst ← ax25_addr_parse p;
    let dst := ax25_station dst in
    match comma with
    | None => Ok (dst, [])
    | Some rest =>
        if len rest =? 0 then Err LHKT_ERR_FORMAT
        else
          path ← tnc2_parse_repeaters (Z.to_nat LHKT_AX25_MAX_REPEATERS) [] rest;
          mret (dst, path)
    end.

Definition tnc2_parse_line (line : list Z) : res ax25_frame_t :=
  if LHKT_TNC2_MAX_LINE <=? len line then Err LHKT_ERR_LONG
  else
    match strchr GT (tnc2_strip_eol line) with
    | None => Err LHKT_ERR_FORMAT
    | Some (src_text, after_gt) =>
        if len src_text =? 0 then Err LHKT_ERR_FORMAT
        else
          match strchr COLON after_gt with
          | None => Err LHKT_ERR_FORMAT
          | Some (addr_part, payload) =>
              if LHKT_AX25_MAX_PAYLOAD <? len payload then Err LHKT_ERR_LONG
              else
                src ← ax25_addr_parse src_text;
                '(dst, path) ← tnc2_parse_path addr_part;
                mret {| af_dst := dst; af_src := ax25_station src;
                        af_path := path; af_payload := payload |}
          end
    end.

Definition tnc2_format_station (addr : ax25_addr_t) (out_size : Z) : res (list Z) :=
  ax25_addr_format (ax25_station addr) out_size.

(** [out] is the filled prefix of the output, [*pos] its length. *)
Definition tnc2_append_mem (out : list Z) (out_size : Z) (data : list Z) : res (list Z) :=
  if out_size <=? len out + len data then Err LHKT_ERR_NOSPACE else Ok (out ++ data).

Fixpoint tnc2_append_path (out : list Z) (out_size : Z) (path : list ax25_addr_t) :
    res (list Z) :=
  match path with
  | [] => Ok out
  | a :: path =>
      out ← tnc2_append_mem out out_size [COMMA];
      addr ← ax25_addr_format a 32;
      out ← tnc2_append_mem out out_size addr;
      tnc2_append_path out out_size path
  end.

(** CR and LF become spaces. *)
Definition tnc2_oneline (payload : list Z) : list Z :=
  map (λ b, if is_eol b then SPACE else b) payload.

Definition tnc2_format_line (frame : ax25_frame_t) (out_size : Z) : res (list Z) :=
  if out_size =? 0 then Err LHKT_ERR
  else if LHKT_AX25_MAX_REPEATERS <? len (af_path frame) then Err LHKT_ERR_LONG
  else if LHKT_AX25_MAX_PAYLOAD <? len (af_payload frame) then Err LHKT_ERR_LONG
  else if existsb (Z.eqb 0) (af_payload frame) then Err LHKT_ERR_FORMAT
  else
    addr ← tnc2_format_station (af_src frame) 32;
    out ← tnc2_append_mem [] out_size addr;
    out ← tnc2_append_mem out out_size [GT];
    addr ← tnc2_format_station (af_dst frame) 32;
    out ← tnc2_append_mem out out_size addr;
    out ← tnc2_append_path out out_size (af_path frame);
    out ← tnc2_append_mem out out_size [COLON];
    if 0 <? len (af_payload frame)
    then tnc2_append_mem out out_size (tnc2_oneline (af_payload frame))
    else Ok out.

(** ** The text of a frame *)

Definition tnc2_path_text (path : list ax25_addr_t) : list Z :=
  concat (map (λ a, COMMA :: ax25_addr_text a) path).

Definition tnc2_header (f : ax25_frame_t) : list Z :=
  ax25_addr_base (af_src f) ++ [GT] ++ ax25_addr_base (af_dst f) ++
  tnc2_path_text (af_path f).

Definition tnc2_text (f : ax25_frame_t) : list Z :=
  tnc2_header f ++ [COLON] ++ tnc2_oneline (af_payload f).

(** What a frame becomes on its way through the text form. *)
Definition tnc2_norm (f : ax25_frame_t) : ax25_frame_t :=
  Ax25Frame (ax25_addr_upper (ax25_station (af_dst f)))
            (ax25_addr_upper (ax25_station (af_src f)))
            (map ax25_addr_upper (af_path f)) (tnc2_oneline (af_payload f)).

(** ** Characters of the header *)

(** A character that separates the parts of a line or ends it. *)
Definition tnc2_delim (c : Z) : Prop := c ∈ [GT; COLON; COMMA; CR; LF; 0].

Lemma ax25_text_no_delim a c : ax25_addr_wf a → tnc2_delim c → c ∉ ax25_addr_text a.
Proof.
  intros Hwf Hc. unfold ax25_addr_text. rewrite elem_of_app. intros [H|H].
  - revert H. apply ax25_base_not_star; [done|]. unfold tnc2_delim in Hc.
    repeat (apply elem_of_cons in Hc as [->|Hc]; [done|]). by apply elem_of_nil in Hc.
  - destruct (aa_repeated a =? 0); [by apply elem_of_nil in H|].
    apply list_elem_of_singleton in H as ->. unfold tnc2_delim in Hc.
    repeat (apply elem_of_cons in Hc as [Hc|Hc]; [done|]). by apply elem_of_nil in Hc.
Qed.

Lemma ax25_station_wf a : ax25_addr_wf a → ax25_addr_wf (ax25_station a).
Proof. intros [H1 H2 H3 _]. split; try done. by left. Qed.

Lemma ax25_station_text a : ax25_addr_text (ax25_station a) = ax25_addr_base a.
Proof. unfold ax25_addr_text. cbn. by rewrite app_nil_r. Qed.

Lemma ax25_base_no_delim a c : ax25_addr_wf a → tnc2_delim c → c ∉ ax25_addr_base a.
Proof.
  intros Hwf. rewrite <-ax25_station_text. apply ax25_text_no_delim.
  by apply ax25_station_wf.
Qed.

Lemma tnc2_path_no_delim path c :
  Forall ax25_addr_wf path → c ≠ COMMA → tnc2_delim c → c ∉ tnc2_path_text path.
Proof.
  intros Hwf Hne Hc. unfold tnc2_path_text. induction Hwf as [|a path Ha _ IH]; cbn.
  { apply not_elem_of_nil. }
  rewrite elem_of_cons, elem_of_app. intros [?|[H|H]]; [done| |done].
  by apply (ax25_text_no_delim a c).
Qed.

Lemma ax25_text_length a : ax25_addr_wf a → 1 ≤ len (ax25_addr_text a) ≤ 10.
Proof.
  intros Hwf. destruct (ax25_base_chars a Hwf) as [_ H]. unfold ax25_addr_text.
  rewrite length_app. case_match; cbn [length]; lia.
Qed.

Lemma tnc2_path_length path :
  Forall ax25_addr_wf path → len (tnc2_path_text path) ≤ 11 * len path.
Proof.
  unfold tnc2_path_text. induction 1 as [|a path Ha _ IH]; cbn -[Z.mul]; [lia|].
  pose proof (ax25_text_length a Ha). rewrite length_app. lia.
Qed.

Lemma tnc2_header_length f : ax25_frame_wf f → 3 ≤ len (tnc2_header f) ≤ 107.
Proof.
  intros [Hd Hs Hp Hpl _ _]. unfold tnc2_header. rewrite !length_app. cbn [length].
  pose proof (tnc2_path_length _ Hp). unfold LHKT_AX25_MAX_REPEATERS in *.
  destruct (ax25_base_chars _ Hd), (ax25_base_chars _ Hs). lia.
Qed.

Lemma tnc2_text_length f : ax25_frame_wf f → len (tnc2_text f) ≤ 364.
Proof.
  intros Hwf. pose proof (tnc2_header_length f Hwf). destruct Hwf as [_ _ _ _ Hy _].
  unfold tnc2_text, tnc2_oneline, LHKT_AX25_MAX_PAYLOAD in *.
  rewrite !length_app, length_map. cbn [length]. lia.
Qed.

(** ** Formatting *)

Lemma tnc2_append_path_wf path out n :
  Forall ax25_addr_wf path → len out + len (tnc2_path_text path) < n →
  tnc2_append_path out n path = Ok (out ++ tnc2_path_text path).
Proof.
  intros Hwf. revert out. unfold tnc2_path_text.
  induction Hwf as [|a path Ha _ IH]; intros out Hn; cbn in *.
  { by rewrite app_nil_r. }
  unfold tnc2_append_mem. rewrite length_app in Hn. cbn [length] in *. zdecide.
  cbn [mbind res_bind]. rewrite ax25_addr_format_wf by (done || lia).
  cbn [mbind res_bind]. zdecide. cbn [mbind res_bind].
  rewrite IH by solve_len. by rewrite <-!app_assoc.
Qed.

Lemma tnc2_format_wf f n :
  ax25_frame_wf f → 0 ∉ af_payload f → 364 < n →
  tnc2_format_line f n = Ok (tnc2_text f).
Proof.
  intros Hwf H0 Hn. pose proof (tnc2_text_length f Hwf) as Ht.
  destruct f as [dst src path payload]. destruct Hwf as [Hd Hs Hp Hpl Hyl _].
  unfold tnc2_text, tnc2_header in *. cbn [af_dst af_src af_path af_payload] in *.
  assert (len (tnc2_oneline payload) = len payload) as Ho
    by (unfold tnc2_oneline; by rewrite length_map).
  unfold tnc2_format_line, tnc2_format_station, tnc2_append_mem.
  cbn [af_dst af_src af_path af_payload].
  rewrite !length_app in Ht. cbn [length] in *.
  rewrite (proj2 (Z.eqb_neq n 0)) by lia. zdecide.
  assert (existsb (Z.eqb 0) payload = false) as ->.
  { apply not_true_is_false. rewrite existsb_exists. intros (c & Hin & <-%Z.eqb_eq).
    by apply list_elem_of_In in Hin. }
  rewrite !ax25_addr_format_wf, !ax25_station_text by (by apply ax25_station_wf || lia).
  repeat (cbn [mbind res_bind]; zdecide).
  rewrite tnc2_append_path_wf by (done || solve_len).
  cbn [mbind res_bind]. zdecide. cbn [mbind res_bind]. rewrite <-!app_assoc. cbn [app].
  destruct (Z.ltb_spec 0 (len payload)); [by zdecide|].
  by destruct payload; [|cbn [length] in *; lia].
Qed.

(** ** Parsing the text of a frame *)

Lemma delim_in c : tnc2_delim c ↔ c = GT ∨ c = COLON ∨ c = COMMA ∨ c = CR ∨ c = LF ∨ c = 0.
Proof. unfold tnc2_delim. rewrite !elem_of_cons, elem_of_nil. tauto. Qed.

Lemma tnc2_parse_repeaters_text path : ∀ n a acc,
  Forall ax25_addr_wf (a :: path) → (length (a :: path) ≤ n)%nat →
  tnc2_parse_repeaters n acc (ax25_addr_text a ++ tnc2_path_text path) =
    Ok (acc ++ map ax25_addr_upper (a :: path)).
Proof.
  induction path as [|b path IH]; intros n a acc Hwf Hn; apply Forall_cons in Hwf as [Ha Hwf];
    (destruct n as [|n]; [cbn in Hn; lia|]); pose proof (ax25_text_length a Ha);
    assert (COMMA ∉ ax25_addr_text a) as Hc
      by (apply ax25_text_no_delim; [done|apply delim_in; tauto]);
    cbn [tnc2_parse_repeaters]; rewrite length_app, (proj2 (Z.eqb_neq _ 0)) by lia.
  - unfold tnc2_path_text. cbn [map concat]. rewrite app_nil_r, strchr_None by done.
    rewrite (proj2 (Z.eqb_neq _ 0)) by lia. by rewrite ax25_addr_parse_text.
  - unfold tnc2_path_text. cbn [map concat]. rewrite <-app_comm_cons, strchr_app by done.
    rewrite (proj2 (Z.eqb_neq _ 0)) by lia. rewrite ax25_addr_parse_text by done.
    cbn [mbind res_bind]. fold (tnc2_path_text path).
    rewrite IH by (done || (cbn in *; lia)). by rewrite <-app_assoc.
Qed.

Lemma ax25_addr_parse_base a :
  ax25_addr_wf a →
  ax25_addr_parse (ax25_addr_base a) = Ok (ax25_addr_upper (ax25_station a)).
Proof.
  intros Hwf. rewrite <-ax25_station_text. by apply ax25_addr_parse_text, ax25_station_wf.
Qed.

Lemma tnc2_parse_path_text dst path :
  ax25_addr_wf dst → Forall ax25_addr_wf path → len path ≤ LHKT_AX25_MAX_REPEATERS →
  tnc2_parse_path (ax25_addr_base dst ++ tnc2_path_text path) =
    Ok (ax25_addr_upper (ax25_station dst), map ax25_addr_upper path).
Proof.
  intros Hd Hp Hl. destruct (ax25_base_chars dst Hd) as [_ Hb].
  assert (COMMA ∉ ax25_addr_base dst) as Hc
    by (apply ax25_base_no_delim; [done|apply delim_in; tauto]).
  unfold tnc2_parse_path. rewrite length_app, (proj2 (Z.eqb_neq _ 0)) by lia.
  destruct path as [|a path]; unfold tnc2_path_text; cbn [map concat].
  - rewrite app_nil_r, strchr_None by done. by rewrite ax25_addr_parse_base.
  - rewrite <-app_comm_cons, strchr_app by done. rewrite ax25_addr_parse_base by done.
    cbn [mbind res_bind]. fold (tnc2_path_text path).
    pose proof (ax25_text_length a (Forall_inv Hp)).
    rewrite length_app, (proj2 (Z.eqb_neq _ 0)) by lia.
    rewrite tnc2_parse_repeaters_text; [done|done|].
    unfold LHKT_AX25_MAX_REPEATERS in *. lia.
Qed.

Lemma tnc2_oneline_no_eol payload : Forall (λ c, is_eol c = false) (tnc2_oneline payload).
Proof.
  unfold tnc2_oneline. apply Forall_map, Forall_forall. intros c _.
  by destruct (is_eol c) eqn:E.
Qed.

Lemma tnc2_header_no c f :
  ax25_frame_wf f → c = CR ∨ c = LF ∨ c = 0 → c ∉ tnc2_header f.
Proof.
  intros [Hd Hs Hp _ _ _] Hc. unfold tnc2_header. rewrite !elem_of_app.
  assert (tnc2_delim c ∧ c ≠ COMMA ∧ c ∉ [GT]) as (Hc' & Hn & Hg).
  { split; [apply delim_in; tauto|]. split; [by destruct Hc as [->|[->| ->]]|].
    rewrite list_elem_of_singleton. by destruct Hc as [->|[->| ->]]. }
  intros [H|[H|[H|H]]]; [| done | |]; revert H.
  - by apply ax25_base_no_delim.
  - by apply ax25_base_no_delim.
  - by apply tnc2_path_no_delim.
Qed.

Lemma tnc2_text_no_eol f : ax25_frame_wf f → Forall (λ c, is_eol c = false) (tnc2_text f).
Proof.
  intros Hwf. unfold tnc2_text. apply Forall_app. split; [|constructor; [done|]].
  - apply Forall_forall. intros c Hin. apply not_true_is_false. unfold is_eol.
    rewrite orb_true_iff, !Z.eqb_eq. intros H. revert Hin. apply tnc2_header_no; [done|tauto].
  - apply tnc2_oneline_no_eol.
Qed.

Lemma tnc2_parse_text f : ax25_frame_wf f → tnc2_parse_line (tnc2_text f) = Ok (tnc2_norm f).
Proof.
  intros Hwf. pose proof (tnc2_text_length f Hwf) as Ht.
  unfold tnc2_parse_line, tnc2_strip_eol, LHKT_TNC2_MAX_LINE. zdecide.
  rewrite rstrip_id by by apply tnc2_text_no_eol.
  destruct f as [dst src path payload]. destruct Hwf as [Hd Hs Hp Hpl Hyl _].
  unfold tnc2_text, tnc2_header, tnc2_norm. cbn [af_dst af_src af_path af_payload] in *.
  rewrite <-!app_assoc. cbn [app]. destruct (ax25_base_chars src Hs) as [_ Hb].
  rewrite strchr_app by (apply ax25_base_no_delim; [done|apply delim_in; tauto]).
  rewrite (proj2 (Z.eqb_neq _ 0)) by lia. rewrite app_assoc, strchr_app.
  2: { rewrite elem_of_app. intros [H|H]; revert H.
       - apply ax25_base_no_delim; [done|apply delim_in; tauto].
       - apply tnc2_path_no_delim; [done|done|apply delim_in; tauto]. }
  unfold tnc2_oneline at 1. rewrite length_map. zdecide.
  rewrite ax25_addr_parse_base by done. cbn [mbind res_bind].
  by rewrite tnc2_parse_path_text.
Qed.

(** C21. Formatting: every well-formed frame without a NUL in its payload is formatted
    in the bridge's 512-byte buffer, never running out of space, to exactly
    [SRC>DST{,PATH[*]}:PAYLOAD], with the '*' suppressed on source and destination,
    and the result is a single line: no CR, LF or NUL, at most 364 characters. *)
Theorem tnc2_format_spec f (Hwf : ax25_frame_wf f) (H0 : 0 ∉ af_payload f) :
  tnc2_format_line f LHKT_TNC2_MAX_LINE = Ok (tnc2_text f) ∧
  Forall (λ c, c ≠ CR ∧ c ≠ LF ∧ c ≠ 0) (tnc2_text f) ∧ len (tnc2_text f) ≤ 364.
Proof.
  split; [by apply tnc2_format_wf|]. split; [|by apply tnc2_text_length].
  pose proof (tnc2_text_no_eol f Hwf) as He. rewrite Forall_forall in *.
  intros c Hin. specialize (He c Hin). unfold is_eol in He.
  destruct (Z.eqb_spec c LF), (Z.eqb_spec c CR); try done. repeat split; try done.
  intros ->. unfold tnc2_text in Hin. rewrite !elem_of_app in Hin.
  destruct Hin as [Hin|[Hin|Hin]].
  - revert Hin. apply tnc2_header_no; tauto.
  - by apply list_elem_of_singleton in Hin.
  - unfold tnc2_oneline in Hin. apply list_elem_of_fmap in Hin as (b & Hb & Hin).
    destruct (is_eol b); [done|]. by subst.
Qed.

Lemma tnc2_format_spec_witness :
  tnc2_format_line ax25_example LHKT_TNC2_MAX_LINE =
    Ok (str "DJ0CHE-10>APLG01,DB0ABC-10*,WIDE1-1:!hello").
Proof. apply (tnc2_format_spec ax25_example ax25_example_wf). by apply (bool_decide_unpack _). Defined.

(** C22. Round trip: parsing the formatted line gives the frame back, with call signs
    in upper case, CR and LF of the payload replaced by spaces and no '*' on source
    and destination; digipeaters keep their '*' and SSID. *)
Theorem tnc2_roundtrip f line (Hwf : ax25_frame_wf f)
    (Hfmt : tnc2_format_line f LHKT_TNC2_MAX_LINE = Ok line) :
  tnc2_parse_line line = Ok (tnc2_norm f).
Proof.
  assert (0 ∉ af_payload f) as H0.
  { intros Hin. unfold tnc2_format_line in Hfmt. do 3 (case_match; [done|]).
    destruct (existsb (Z.eqb 0) (af_payload f)) eqn:E; [done|].
    apply not_true_iff_false in E. destruct E. apply existsb_exists. exists 0.
    split; [by apply list_elem_of_In|done]. }
  rewrite tnc2_format_wf in Hfmt by done. injection Hfmt as <-. by apply tnc2_parse_text.
Qed.

Lemma tnc2_roundtrip_witness :
  tnc2_parse_line (str "DJ0CHE-10>APLG01,DB0ABC-10*,WIDE1-1:!hello") = Ok (tnc2_norm ax25_example).
Proof. apply tnc2_roundtrip; [apply ax25_example_wf|by vm_compute]. Defined.

(** ** What the parser accepts *)

(** Canonical frames: upper-case call signs, no '*' on the stations. *)
Definition tnc2_canonical (f : ax25_frame_t) : Prop :=
  ax25_norm f = f ∧ ax25_addr_upper (af_dst f) = af_dst f ∧
  ax25_addr_upper (af_src f) = af_src f ∧ map ax25_addr_upper (af_path f) = af_path f.

Lemma tnc2_parse_repeaters_wf n : ∀ path p path',
  tnc2_parse_repeaters n path p = Ok path' →
  Forall ax25_addr_wf path → map ax25_addr_upper path = path →
  Forall ax25_addr_wf path' ∧ map ax25_addr_upper path' = path' ∧
  (length path' ≤ length path + n)%nat.
Proof.
  induction n as [|n IH]; intros path p path' H Hwf Hup; cbn [tnc2_parse_repeaters] in H.
  - case_match; [|done]. injection H as <-. split; [done|]. split; [done|lia].
  - case_match; [injection H as <-; split; [done|]; split; [done|lia]|].
    destruct (match strchr COMMA p with Some (e, r) => _ | None => _ end) as [entry comma].
    case_match; [done|]. apply bind_Ok in H as (a & Ha & H).
    apply ax25_addr_parse_wf in Ha as [Ha Hu].
    assert (Forall ax25_addr_wf (path ++ [a])) as Hwf'
      by (apply Forall_app; split; [done|]; by apply Forall_singleton).
    assert (map ax25_addr_upper (path ++ [a]) = path ++ [a]) as Hup'
      by (rewrite map_app; cbn; congruence).
    destruct comma as [rest|].
    + apply IH in H as (H1' & H2' & H3'); [|done..]. split; [done|]. split; [done|solve_len].
    + injection H as <-. split; [done|]. split; [done|solve_len].
Qed.

Lemma ax25_station_upper a : ax25_addr_upper a = a →
  ax25_addr_upper (ax25_station a) = ax25_station a.
Proof. unfold ax25_addr_upper, ax25_station. destruct a; cbn. by intros [= ->]. Qed.

Lemma tnc2_parse_path_wf addr_part dst path :
  tnc2_parse_path addr_part = Ok (dst, path) →
  ax25_addr_wf dst ∧ aa_repeated dst = 0 ∧ ax25_addr_upper dst = dst ∧
  Forall ax25_addr_wf path ∧ map ax25_addr_upper path = path ∧
  len path ≤ LHKT_AX25_MAX_REPEATERS.
Proof.
  unfold tnc2_parse_path. case_match; [done|].
  destruct (match strchr COMMA addr_part with Some (e, r) => _ | None => _ end) as [p comma].
  intros (d & Hd & H')%bind_Ok. apply ax25_addr_parse_wf in Hd as [Hd Hu].
  pose proof (ax25_station_wf d Hd). pose proof (ax25_station_upper d Hu).
  destruct comma as [rest|].
  - case_match; [done|]. apply bind_Ok in H' as (q & Hq & [= <- <-]).
    apply tnc2_parse_repeaters_wf in Hq as (Hq1 & Hq2 & Hq3); [|done..].
    unfold LHKT_AX25_MAX_REPEATERS in *. cbn [length] in Hq3.
    repeat split; try done; try apply H0; lia.
  - injection H' as <- <-. repeat split; try done; apply H0.
Qed.

(** What an accepted line consists of. *)
Lemma tnc2_parse_inv line f :
  tnc2_parse_line line = Ok f →
  ∃ src addrs payload eol s dst path,
    line = src ++ [GT] ++ addrs ++ [COLON] ++ payload ++ eol ∧ (GT ∉ src) ∧ (COLON ∉ addrs) ∧
    forallb is_eol eol = true ∧ len payload ≤ LHKT_AX25_MAX_PAYLOAD ∧
    ax25_addr_parse src = Ok s ∧ tnc2_parse_path addrs = Ok (dst, path) ∧
    f = Ax25Frame dst (ax25_station s) path payload.
Proof.
  unfold tnc2_parse_line, tnc2_strip_eol. intros Hparse. case_match; [done|].
  destruct (rstrip_prefix is_eol line) as (eol & Heol & Hall).
  destruct (strchr GT (rstrip is_eol line)) as [[src rest]|] eqn:E1; [|done].
  case_match; [done|]. destruct (strchr COLON rest) as [[addrs payload]|] eqn:E2; [|done].
  destruct (Z.ltb_spec LHKT_AX25_MAX_PAYLOAD (len payload)) as [|Hpl]; [done|].
  apply bind_Ok in Hparse as (s & Hs & ([dst path] & Hp & [= <-])%bind_Ok).
  apply strchr_Some in E1 as [E1 Hg]. apply strchr_Some in E2 as [E2 Hc].
  exists src, addrs, payload, eol, s, dst, path. split_and!; try done.
  rewrite Heol, E1, E2. by rewrite <-!app_assoc; cbn; rewrite <-app_assoc.
Qed.

Lemma tnc2_parse_wf line f : bytes_ok line → tnc2_parse_line line = Ok f → ax25_frame_wf f.
Proof.
  intros Hb (src & addrs & payload & eol & s & dst & path & Hline & _ & _ & _ & Hpl & Hs & Hp & ->)%tnc2_parse_inv.
  apply ax25_addr_parse_wf in Hs as [Hs _]. apply tnc2_parse_path_wf in Hp as (Hd & Hd0 & Hdu & Hpw & Hpu & Hn).
  split; try done; cbn [af_src af_payload]; [by apply ax25_station_wf|].
  rewrite Hline, !Forall_app in Hb. tauto.
Qed.

(** The texts of the digipeaters, each behind a comma; [tail] is the comma that the
    parser tolerates behind the last one. *)
Definition path_text (entries : list (list Z)) : list Z := concat (map (cons COMMA) entries).

Lemma tnc2_parse_repeaters_reads n : ∀ path p path',
  tnc2_parse_repeaters n path p = Ok path' →
  ∃ entries new tail, path' = path ++ new ∧ COMMA :: p = path_text entries ++ tail ∧
    Forall2 address_text entries new ∧ (tail = [] ∨ tail = [COMMA]) ∧ (entries = [] → p = []).
Proof.
  induction n as [|n IH]; intros path p path' H; cbn [tnc2_parse_repeaters] in H;
    (destruct (Z.eqb_spec (len p) 0) as [Hp|Hp];
     [injection H as <-; exists [], [], [COMMA]; destruct p; [|done]; rewrite app_nil_r; split_and!; auto|]);
    [done|].
  destruct (strchr COMMA p) as [[entry rest]|] eqn:Ec.
  - apply strchr_Some in Ec as [-> _]. case_match; [done|].
    apply bind_Ok in H as (a & Ha & (entries & new & tail & -> & E & F & Ht & _)%IH).
    exists (entry :: entries), (a :: new), tail. split; [by rewrite <-app_assoc|].
    split; [unfold path_text in *; cbn; by rewrite <-app_assoc, <-E|]. split_and!; [|done|done].
    constructor; [by apply ax25_addr_parse_reads|done].
  - case_match; [done|]. apply bind_Ok in H as (a & Ha & [= <-]).
    exists [p], [a], []. split; [done|]. split; [unfold path_text; cbn; by rewrite !app_nil_r|]. split_and!; [|by left|done].
    constructor; [by apply ax25_addr_parse_reads|done].
Qed.

Lemma tnc2_parse_path_reads addrs dst path :
  tnc2_parse_path addrs = Ok (dst, path) →
  ∃ dst_text d entries tail, addrs = dst_text ++ path_text entries ++ tail ∧
    address_text dst_text d ∧ dst = ax25_station d ∧ Forall2 address_text entries path ∧
    (tail = [] ∨ tail = [COMMA] ∧ entries ≠ []).
Proof.
  unfold tnc2_parse_path. case_match; [done|]. destruct (strchr COMMA addrs) as [[p rest]|] eqn:Ec.
  - apply strchr_Some in Ec as [-> _]. intros (d & Hd%ax25_addr_parse_reads & H')%bind_Ok.
    destruct (Z.eqb_spec (len rest) 0) as [|Hr]; [done|]. apply bind_Ok in H' as (q & Hq & [= <- <-]).
    apply tnc2_parse_repeaters_reads in Hq as (entries & new & tail & -> & E & F & Ht & Hne).
    exists p, d, entries, tail. split; [by rewrite <-E|]. do 3 (split; [done|]).
    destruct Ht as [Ht|Ht]; [by left|right]. split; [done|]. intros He. by rewrite (Hne He) in Hr.
  - intros (d & Hd%ax25_addr_parse_reads & [= <- <-])%bind_Ok.
    exists addrs, d, [], []. cbn. rewrite !app_nil_r. split_and!; auto.
Qed.

(** C23. Soundness of the parser: an accepted line yields a well-formed frame in
    canonical form, whose parts are the parts of the line. The line is
    SRC>DST,DIGI,...,DIGI:PAYLOAD and its line end; source and destination of the frame
    are what SRC and DST say (the call sign in upper case, the SSID, without the '*'),
    the path is the digipeaters, all of them and in order, with their '*', and the
    payload is the text behind the first ':', unchanged. (One comma behind the last
    digipeater is ignored.) *)
Theorem tnc2_parse_sound line f (Hb : bytes_ok line) (Hparse : tnc2_parse_line line = Ok f) :
  ax25_frame_wf f ∧ tnc2_canonical f ∧
  ∃ src dst entries tail eol s d,
    let addrs := dst ++ path_text entries ++ tail in
    line = (src ++ [GT] ++ addrs ++ [COLON] ++ af_payload f ++ eol) ∧
    (GT ∉ src) ∧ (COLON ∉ addrs) ∧ forallb is_eol eol = true ∧
    (tail = [] ∨ tail = [COMMA] ∧ entries ≠ []) ∧
    address_text src s ∧ af_src f = ax25_station s ∧
    address_text dst d ∧ af_dst f = ax25_station d ∧
    Forall2 address_text entries (af_path f).
Proof.
  split; [by apply tnc2_parse_wf in Hparse|].
  apply tnc2_parse_inv in Hparse
    as (src & addrs & payload & eol & s & dst & path & Hline & Hg & Hc & Hall & _ & Hs & Hp & ->).
  pose proof (ax25_addr_parse_reads src s Hs) as Hsrc.
  pose proof (tnc2_parse_path_reads addrs dst path Hp) as (dt & d & entries & tail & Ea & Hdt & Ed & Hpath & Ht).
  apply ax25_addr_parse_wf in Hs as [_ Hsu]. apply tnc2_parse_path_wf in Hp as (_ & Hd0 & Hdu & _ & Hpu & _).
  split.
  - unfold tnc2_canonical, ax25_norm. cbn [af_dst af_src af_path af_payload].
    rewrite (ax25_station_id dst) by done. repeat split; try done. by apply ax25_station_upper.
  - exists src, dt, entries, tail, eol, s, d. cbv zeta. rewrite <-Ea. by split_and!.
Qed.

Lemma tnc2_parse_sound_witness :
  let line := str "dj0che-10*>APLG01,DB0ABC-10*,WIDE1-1:!hello" ++ [CR; LF] in
  let f := tnc2_norm ax25_example in
  ax25_frame_wf f ∧ tnc2_canonical f ∧
  ∃ src dst entries tail eol s d,
    let addrs := dst ++ path_text entries ++ tail in
    line = (src ++ [GT] ++ addrs ++ [COLON] ++ af_payload f ++ eol) ∧
    (GT ∉ src) ∧ (COLON ∉ addrs) ∧ forallb is_eol eol = true ∧
    (tail = [] ∨ tail = [COMMA] ∧ entries ≠ []) ∧
    address_text src s ∧ af_src f = ax25_station s ∧
    address_text dst d ∧ af_dst f = ax25_station d ∧
    Forall2 address_text entries (af_path f).
Proof.
  cbv zeta. apply tnc2_parse_sound; [|by vm_compute]. apply (bool_decide_unpack _). by vm_compute.
Defined.

(** ** The normal form is well-formed *)

Lemma ax25_addr_upper_wf a : ax25_addr_wf a → ax25_addr_wf (ax25_addr_upper a).
Proof.
  intros [H1 H2 H3 H4]. split; cbn; try done.
  - by rewrite length_map.
  - apply Forall_map. eapply Forall_impl; [exact H2|]. apply toupper_isalnum.
Qed.

Lemma tnc2_norm_wf f : ax25_frame_wf f → ax25_frame_wf (tnc2_norm f).
Proof.
  intros [H1 H2 H3 H4 H5 H6]. unfold tnc2_norm.
  split; cbn [af_dst af_src af_path af_payload].
  - by apply ax25_addr_upper_wf, ax25_station_wf.
  - by apply ax25_addr_upper_wf, ax25_station_wf.
  - apply Forall_map. eapply Forall_impl; [exact H3|]. apply ax25_addr_upper_wf.
  - by rewrite length_map.
  - unfold tnc2_oneline. by rewrite length_map.
  - unfold tnc2_oneline. apply Forall_map. eapply Forall_impl; [exact H6|].
    intros b Hb. by destruct (is_eol b).
Qed.

Lemma tnc2_norm_station f : ax25_norm (tnc2_norm f) = tnc2_norm f.
Proof. done. Qed.
