(* ===== verification/LorahamSock.v ===== *)
(** The daemon's DATA protocol (loraham_sock.c, loraham_sock.h): the framed stream
    decoder, [TX_RESULT] frames, LoRa-APRS packets and the scanner that finds TNC2
    text in received bytes. The functions that use the socket are in SockIo.v
    and LorahamConf.v. *)
From S2P Require Import Prelude.

Definition LORAHAM_APRS_HDR0 : Z := 0x3c.
Definition LORAHAM_APRS_HDR1 : Z := 0xff.
Definition LORAHAM_APRS_HDR2 : Z := 0x01.
Definition LHKT_LORAHAM_RX_PENDING : Z := 1024.
Definition LHKT_FRAMED_MAX_PAYLOAD : Z := 1024.

Definition LORAHAM_FRAME_RX_PACKET : Z := 0x01.
Definition LORAHAM_FRAME_TX_PACKET : Z := 0x02.
Definition LORAHAM_FRAME_ERROR : Z := 0x03.
Definition LORAHAM_FRAME_TX_RESULT : Z := 0x04.
Definition LORAHAM_TX_RESULT_LEN : Z := 4.
Definition LORAHAM_TX_STATUS_OK : Z := 0.
Definition LORAHAM_TX_STATUS_INVALID_BAND : Z := 6.

(** ** Framed stream

    [header] with [header_len] and [payload] with [payload_pos] are the lists of the
    bytes stored so far. *)
Record loraham_frame_t := LoraFrame {
  lf_type : Z;
  lf_payload : list Z;
}.

Record loraham_framed_rx_state_t := FramedRx {
  fr_header : list Z;
  fr_type : Z;
  fr_payload_len : Z;
  fr_payload : list Z;
}.

#[export] Instance loraham_frame_eq_dec : EqDecision loraham_frame_t.
Proof. solve_decision. Defined.

Definition loraham_framed_rx_state_init : loraham_framed_rx_state_t := FramedRx [] 0 0 [].

Definition loraham_frame_emit (st : loraham_framed_rx_state_t) : loraham_frame_t :=
  LoraFrame (fr_type st) (fr_payload st).

Definition loraham_framed_decode_byte (st : loraham_framed_rx_state_t) (byte : Z) :
    loraham_framed_rx_state_t * event loraham_frame_t :=
  if len (fr_header st) <? 3 then
    let header := fr_header st ++ [byte] in
    if len header <? 3 then
      (FramedRx header (fr_type st) (fr_payload_len st) (fr_payload st), Quiet)
    else
      let payload_len := Z.lor (header !!! 1%nat) (Z.shiftl (header !!! 2%nat) 8) in
      let st := FramedRx header (header !!! 0%nat) payload_len [] in
      if LHKT_FRAMED_MAX_PAYLOAD <? payload_len
      then (loraham_framed_rx_state_init, Fault LHKT_ERR_LONG)
      else if payload_len =? 0
      then (loraham_framed_rx_state_init, Frame (loraham_frame_emit st))
      else (st, Quiet)
  else
    let st := FramedRx (fr_header st) (fr_type st) (fr_payload_len st)
                (fr_payload st ++ [byte]) in
    if len (fr_payload st) <? fr_payload_len st then (st, Quiet)
    else (loraham_framed_rx_state_init, Frame (loraham_frame_emit st)).

Definition loraham_framed_decode :
    loraham_framed_rx_state_t → list Z → loraham_framed_rx_state_t * list (event loraham_frame_t) :=
  run loraham_framed_decode_byte.

(** ** TX_RESULT *)

Record loraham_tx_result_t := TxResult {
  tr_status : Z;
  tr_flags : Z;
  tr_seq : Z;
}.

Definition loraham_tx_result_status_valid (status : Z) : bool :=
  status <=? LORAHAM_TX_STATUS_INVALID_BAND.

Definition loraham_decode_tx_result (frame : loraham_frame_t) : res loraham_tx_result_t :=
  if negb (lf_type frame =? LORAHAM_FRAME_TX_RESULT) ||
     negb (len (lf_payload frame) =? LORAHAM_TX_RESULT_LEN) then Err LHKT_ERR_FORMAT
  else
    let p := lf_payload frame in
    if negb (loraham_tx_result_status_valid (p !!! 0%nat)) then Err LHKT_ERR_FORMAT
    else Ok {| tr_status := p !!! 0%nat; tr_flags := p !!! 1%nat;
               tr_seq := Z.lor (p !!! 2%nat) (Z.shiftl (p !!! 3%nat) 8) |}.

(** ** Outgoing packets *)

(** The bytes [loraham_send_framed_tx_packet] writes to the DATA socket. *)
Definition loraham_framed_tx_bytes (payload : list Z) : res (list Z) :=
  if LHKT_LORAHAM_TX_MAX <? len payload then Err LHKT_ERR_LONG
  else Ok ([LORAHAM_FRAME_TX_PACKET; Z.land (len payload) 0xff;
            Z.land (Z.shiftr (len payload) 8) 0xff] ++ payload).

Definition loraham_hdr : list Z := [LORAHAM_APRS_HDR0; LORAHAM_APRS_HDR1; LORAHAM_APRS_HDR2].

Definition loraham_build_aprs_packet (tnc2 : list Z) (out_size : Z) : res (list Z) :=
  if LHKT_LORAHAM_TX_MAX <? LHKT_LORAHAM_HDR_LEN + len tnc2 then Err LHKT_ERR_LONG
  else if out_size <? LHKT_LORAHAM_HDR_LEN + len tnc2 then Err LHKT_ERR_NOSPACE
  else Ok (loraham_hdr ++ tnc2).

(** ** The TNC2 scanner *)

Record loraham_rx_state_t := LoraRx {
  lx_buf : list Z;
  lx_seen_header : bool;
  lx_hdr_len : nat;
  lx_pending : list Z;
}.

Definition loraham_rx_state_init : loraham_rx_state_t := LoraRx [] false 0 [].

Definition loraham_hdr_byte (pos : nat) : Z := loraham_hdr !!! pos.

Definition loraham_rx_packet_clear (st : loraham_rx_state_t) : loraham_rx_state_t :=
  LoraRx [] false 0 (lx_pending st).

Definition loraham_append_payload (st : loraham_rx_state_t) (b : Z) : res loraham_rx_state_t :=
  if LHKT_TNC2_MAX_LINE - 1 <=? len (lx_buf st) then Err LHKT_ERR_LONG
  else Ok (LoraRx (lx_buf st ++ [b]) (lx_seen_header st) (lx_hdr_len st) (lx_pending st)).

(** The header bytes held back so far turn out to be text. *)
Fixpoint loraham_append_all (st : loraham_rx_state_t) (bs : list Z) : res loraham_rx_state_t :=
  match bs with
  | [] => Ok st
  | b :: bs => st ← loraham_append_payload st b; loraham_append_all st bs
  end.

Definition loraham_append_hdr_prefix (st : loraham_rx_state_t) : res loraham_rx_state_t :=
  st ← loraham_append_all st (take (lx_hdr_len st) loraham_hdr);
  mret (LoraRx (lx_buf st) (lx_seen_header st) 0 (lx_pending st)).

Definition loraham_emit_tnc2 (st : loraham_rx_state_t) (tnc2_size : Z)
    (flush_partial_header keep_header_seen : bool) :
    loraham_rx_state_t * event (list Z) :=
  if tnc2_size =? 0 then (st, Fault LHKT_ERR)
  else
    match (if flush_partial_header && lx_seen_header st && (0 <? lx_hdr_len st)%nat
           then loraham_append_hdr_prefix st else Ok st) with
    | Err e => (loraham_rx_state_init, Fault e)
    | Ok st =>
        if negb (lx_seen_header st) || (len (lx_buf st) =? 0) then
          (LoraRx (lx_buf st)
             (if negb keep_header_seen && (len (lx_buf st) =? 0) then false
              else lx_seen_header st) 0 (lx_pending st), Quiet)
        else if tnc2_size <=? len (lx_buf st) then
          (loraham_rx_packet_clear st, Fault LHKT_ERR_NOSPACE)
        else (LoraRx [] keep_header_seen 0 (lx_pending st), Frame (lx_buf st))
    end.

(** One byte of pending input, already consumed from [pending]. *)
Definition loraham_extract_text (st : loraham_rx_state_t) (tnc2_size b : Z) :
    loraham_rx_state_t * event (list Z) :=
  if (b =? 13) || (b =? 10) then loraham_emit_tnc2 st tnc2_size true false
  else if b =? LORAHAM_APRS_HDR0 then
    (LoraRx (lx_buf st) (lx_seen_header st) 1 (lx_pending st), Quiet)
  else
    match loraham_append_payload st b with
    | Err e => (loraham_rx_state_init, Fault e)
    | Ok st => (st, Quiet)
    end.

Definition loraham_extract_byte (st : loraham_rx_state_t) (tnc2_size b : Z) :
    loraham_rx_state_t * event (list Z) :=
  if negb (lx_seen_header st) then
    if b =? loraham_hdr_byte (lx_hdr_len st) then
      if (S (lx_hdr_len st) =? 3)%nat then (LoraRx [] true 0 (lx_pending st), Quiet)
      else (LoraRx (lx_buf st) false (S (lx_hdr_len st)) (lx_pending st), Quiet)
    else
      (LoraRx (lx_buf st) false (if b =? LORAHAM_APRS_HDR0 then 1 else 0) (lx_pending st), Quiet)
  else if (0 <? lx_hdr_len st)%nat then
    if b =? loraham_hdr_byte (lx_hdr_len st) then
      let st := LoraRx (lx_buf st) true (S (lx_hdr_len st)) (lx_pending st) in
      if (lx_hdr_len st =? 3)%nat then loraham_emit_tnc2 st tnc2_size false true
      else (st, Quiet)
    else
      match loraham_append_hdr_prefix st with
      | Err e => (loraham_rx_state_init, Fault e)
      | Ok st => loraham_extract_text st tnc2_size b
      end
  else loraham_extract_text st tnc2_size b.

(** [while (state->pending_len > 0)]; every iteration consumes one byte, so the
    number of pending bytes is enough fuel. *)
Fixpoint loraham_extract_loop (fuel : nat) (st : loraham_rx_state_t) (tnc2_size : Z) :
    loraham_rx_state_t * event (list Z) :=
  match fuel, lx_pending st with
  | S fuel, b :: pending =>
      let '(st, ev) :=
        loraham_extract_byte (LoraRx (lx_buf st) (lx_seen_header st) (lx_hdr_len st) pending)
          tnc2_size b in
      match ev with
      | Quiet => loraham_extract_loop fuel st tnc2_size
      | _ => (st, ev)
      end
  | _, _ => (st, Quiet)
  end.

(** [data = []] stands for [data_len == 0]: drain, or flush when nothing is pending. *)
Definition loraham_extract_tnc2 (st : loraham_rx_state_t) (data : list Z) (tnc2_size : Z) :
    loraham_rx_state_t * event (list Z) :=
  let flush_on_empty := (len data =? 0) && (len (lx_pending st) =? 0) in
  if (0 <? len data) && (LHKT_LORAHAM_RX_PENDING - len (lx_pending st) <? len data) then
    (loraham_rx_state_init, Fault LHKT_ERR_LONG)
  else
    let st := LoraRx (lx_buf st) (lx_seen_header st) (lx_hdr_len st) (lx_pending st ++ data) in
    let '(st, ev) := loraham_extract_loop (length (lx_pending st)) st tnc2_size in
    match ev with
    | Quiet =>
        if flush_on_empty then loraham_emit_tnc2 st tnc2_size true false else (st, Quiet)
    | _ => (st, ev)
    end.

(** ** Framed stream: round trip and invariant *)

(** The wire form of a frame: type, 16-bit little-endian length, payload. *)
Definition framed_bytes (f : loraham_frame_t) : list Z :=
  [lf_type f; len (lf_payload f) mod 256; len (lf_payload f) / 256] ++ lf_payload f.

Lemma le16 lo hi : is_u8 lo → 0 ≤ hi → Z.lor lo (Z.shiftl hi 8) = lo + 256 * hi.
Proof.
  intros Hlo Hhi. rewrite Z.shiftl_mul_pow2 by lia.
  pose proof (Z.add_lor_land lo (hi * 2 ^ 8)) as Hadd.
  assert (Z.land lo (hi * 2 ^ 8) = 0) as Hz; [|lia].
  apply Z.bits_inj'. intros n Hn. rewrite Z.land_spec, Z.bits_0.
  destruct (Z.ltb_spec n 8).
  - rewrite Z.mul_pow2_bits_low by done. apply andb_false_r.
  - rewrite (Z.bits_above_log2 lo n); [done|unfold is_u8 in Hlo; lia|].
    destruct (Z.eq_dec lo 0) as [->|]; [cbn; lia|].
    assert (Z.log2 lo < 8); [|lia]. apply Z.log2_lt_pow2; unfold is_u8 in Hlo; lia.
Qed.

Lemma framed_payload_run p : ∀ h t n acc rest,
  length h = 3%nat → n = len acc + len p → p ≠ [] →
  loraham_framed_decode (FramedRx h t n acc) (p ++ rest) =
    let '(s, evs) := loraham_framed_decode loraham_framed_rx_state_init rest in
    (s, Frame (LoraFrame t (acc ++ p)) :: evs).
Proof.
  induction p as [|b p IH]; intros h t n acc rest Hh -> Hp; [done|].
  rewrite <-app_comm_cons. unfold loraham_framed_decode. rewrite run_cons.
  unfold loraham_framed_decode_byte at 1. cbn [fr_header fr_type fr_payload_len fr_payload].
  rewrite (proj2 (Z.ltb_ge (len h) 3)) by lia. destruct p as [|b' p].
  - zdecide. done.
  - rewrite length_cons. zdecide. fold loraham_framed_decode. rewrite IH; try done.
    + rewrite <-app_assoc. cbn [app]. by destruct (loraham_framed_decode _ rest).
    + solve_len.
Qed.

(** The three header bytes. *)
Lemma framed_header_run t lo hi rest :
  loraham_framed_decode loraham_framed_rx_state_init (t :: lo :: hi :: rest) =
    let n := Z.lor lo (Z.shiftl hi 8) in
    let '(s1, ev) :=
      if LHKT_FRAMED_MAX_PAYLOAD <? n
      then (loraham_framed_rx_state_init, Fault LHKT_ERR_LONG)
      else if n =? 0 then (loraham_framed_rx_state_init, Frame (LoraFrame t []))
      else (FramedRx [t; lo; hi] t n [], Quiet) in
    let '(s2, evs) := loraham_framed_decode s1 rest in
    (s2, match ev with Quiet => evs | _ => ev :: evs end).
Proof.
  unfold loraham_framed_decode.
  rewrite (run_quiet _ _ (FramedRx [t] 0 0 [])) by done.
  rewrite (run_quiet _ _ (FramedRx [t; lo] 0 0 [])) by done.
  rewrite run_cons. unfold loraham_framed_decode_byte at 1.
  change (len (fr_header (FramedRx [t; lo] 0 0 [])) <? 3) with true.
  change (len (fr_header (FramedRx [t; lo] 0 0 []) ++ [hi]) <? 3) with false.
  cbv iota zeta.
  by destruct (if LHKT_FRAMED_MAX_PAYLOAD <? Z.lor lo (Z.shiftl hi 8) then _ else _) as [s1 ev].
Qed.

(** One whole frame from an idle decoder. *)
Lemma framed_decode_frame f rest :
  len (lf_payload f) ≤ LHKT_FRAMED_MAX_PAYLOAD →
  loraham_framed_decode loraham_framed_rx_state_init (framed_bytes f ++ rest) =
    let '(s, evs) := loraham_framed_decode loraham_framed_rx_state_init rest in
    (s, Frame f :: evs).
Proof.
  intros Hlen. destruct f as [t p]. unfold framed_bytes. cbn [lf_type lf_payload] in *.
  cbn [app]. rewrite framed_header_run. cbv zeta.
  rewrite le16 by (apply Z.mod_pos_bound; lia) || (apply Z.div_pos; lia).
  replace (len p mod 256 + 256 * (len p / 256)) with (len p)
    by (pose proof (Z.div_mod (len p) 256); lia).
  unfold LHKT_FRAMED_MAX_PAYLOAD in *. zdecide. destruct p as [|b p].
  - change (Z.of_nat (@length Z []) =? 0) with true. cbn [app].
    by destruct (loraham_framed_decode loraham_framed_rx_state_init rest).
  - rewrite (proj2 (Z.eqb_neq _ 0)) by (cbn [length]; lia).
    rewrite framed_payload_run by done.
    by destruct (loraham_framed_decode loraham_framed_rx_state_init rest).
Qed.

Lemma framed_decode_stream fs
    (Hfs : Forall (λ f, len (lf_payload f) ≤ LHKT_FRAMED_MAX_PAYLOAD) fs) :
  loraham_framed_decode loraham_framed_rx_state_init (concat (map framed_bytes fs)) =
    (loraham_framed_rx_state_init, map Frame fs).
Proof.
  induction Hfs as [|f fs Hf _ IH]; [done|]. cbn [map concat].
  by rewrite framed_decode_frame, IH.
Qed.

(** C24. Framed stream: any sequence of frames with at most 1024 payload bytes,
    written back to back, is decoded to exactly those frames in order, and leaves the
    decoder idle. Since the decoder works byte by byte, the chunks in which the bytes
    arrive do not matter. *)
Theorem framed_stream_roundtrip fs
    (Hfs : Forall (λ f, len (lf_payload f) ≤ LHKT_FRAMED_MAX_PAYLOAD) fs) :
  loraham_framed_decode loraham_framed_rx_state_init (concat (map framed_bytes fs)) =
    (loraham_framed_rx_state_init, map Frame fs).
Proof. by apply framed_decode_stream. Qed.

Lemma framed_stream_roundtrip_witness :
  loraham_framed_decode loraham_framed_rx_state_init
    (concat (map framed_bytes [LoraFrame 1 [0; 1; 2; 3; 65]; LoraFrame 4 []; LoraFrame 3 [69]])) =
    (loraham_framed_rx_state_init,
     map Frame [LoraFrame 1 [0; 1; 2; 3; 65]; LoraFrame 4 []; LoraFrame 3 [69]]).
Proof. apply framed_stream_roundtrip. repeat (constructor; [by vm_compute|]). constructor. Defined.

(** Before the header is complete nothing else is meaningful; once it is, the
    declared length is within the buffer and the write position before it. *)
Record framed_wf (st : loraham_framed_rx_state_t) : Prop := {
  fwf_header : len (fr_header st) ≤ 3;
  fwf_bytes : bytes_ok (fr_header st) ∧ bytes_ok (fr_payload st);
  fwf_body : len (fr_header st) = 3 →
    len (fr_payload st) < fr_payload_len st ≤ LHKT_FRAMED_MAX_PAYLOAD ∧ is_u8 (fr_type st);
}.

Lemma framed_wf_init : framed_wf loraham_framed_rx_state_init.
Proof. split; cbn; [lia|done|lia]. Qed.

Definition framed_event_ok (ev : event loraham_frame_t) : Prop :=
  match ev with
  | Frame f => is_u8 (lf_type f) ∧ len (lf_payload f) ≤ LHKT_FRAMED_MAX_PAYLOAD ∧
               bytes_ok (lf_payload f)
  | Fault e => e = LHKT_ERR_LONG
  | Quiet => True
  end.

Lemma framed_decode_byte_ok st b :
  framed_wf st → is_u8 b →
  framed_wf (loraham_framed_decode_byte st b).1 ∧
  framed_event_ok (loraham_framed_decode_byte st b).2.
Proof.
  intros [Hh [Hhb Hpb] Hbody] Hb. unfold loraham_framed_decode_byte.
  assert (bytes_ok (fr_header st ++ [b])) as Hhb'
    by (apply Forall_app; split; [done|]; by apply Forall_singleton).
  assert (bytes_ok (fr_payload st ++ [b])) as Hpb'
    by (apply Forall_app; split; [done|]; by apply Forall_singleton).
  destruct (Z.ltb_spec (len (fr_header st)) 3) as [H3|H3].
  - destruct (Z.ltb_spec (len (fr_header st ++ [b])) 3); cbn [fst snd].
    { split; [|done]. split; cbn; [lia|done|lia]. }
    destruct (Z.ltb_spec LHKT_FRAMED_MAX_PAYLOAD (Z.lor ((fr_header st ++ [b]) !!! 1%nat)
      (Z.shiftl ((fr_header st ++ [b]) !!! 2%nat) 8))) as [|Hl];
      [split; [apply framed_wf_init|done]|].
    destruct (fr_header st ++ [b]) as [|t [|lo [|hi [|]]]] eqn:E; try (cbn in *; lia);
      [|apply (f_equal length) in E; rewrite length_app in E; cbn in E; lia].
    repeat (apply Forall_cons in Hhb' as [? Hhb']).
    cbn [lookup_total list_lookup_total] in *. rewrite le16 in * by (unfold is_u8 in *; lia).
    destruct (Z.eqb_spec (lo + 256 * hi) 0); cbn [fst snd].
    + split; [apply framed_wf_init|]. cbn. unfold LHKT_FRAMED_MAX_PAYLOAD. split; [done|].
      split; [lia|done].
    + split; [|done]. unfold is_u8 in *. split; cbn; [lia| |intros _; split; [lia|done]].
      split; solve_Forall.
  - destruct Hbody as [Hlen Ht]; [lia|].
    cbn [fr_header fr_type fr_payload_len fr_payload].
    destruct (Z.ltb_spec (len (fr_payload st ++ [b])) (fr_payload_len st)); cbn [fst snd].
    + split; [|done]. split; cbn; [lia|done|intros _; split; [lia|done]].
    + split; [apply framed_wf_init|]. cbn. split; [done|]. split; [solve_len|done].
Qed.

#[export] Instance framed_safe : SafeDecoder loraham_framed_decode_byte :=
  {| dec_wf := framed_wf; dec_ok := framed_event_ok; dec_step := framed_decode_byte_ok |}.

(** Memory safety of the framed decoder: on any byte stream the unguarded write
    [payload[payload_pos++]] happens only at a position below the declared length,
    which is at most 1024, the size of the buffer; every emitted frame has at most
    1024 payload bytes, and the only fault is a declared length above 1024. *)
Theorem framed_decode_invariant st bs (Hst : framed_wf st) (Hbs : bytes_ok bs) :
  framed_wf (loraham_framed_decode st bs).1 ∧
  Forall framed_event_ok (loraham_framed_decode st bs).2.
Proof. exact (dec_run (step := loraham_framed_decode_byte) st bs Hst Hbs). Qed.

Lemma framed_decode_invariant_witness :
  framed_wf (loraham_framed_decode loraham_framed_rx_state_init [1; 0; 5; 2; 1; 0; 65]).1 ∧
  Forall framed_event_ok (loraham_framed_decode loraham_framed_rx_state_init [1; 0; 5; 2; 1; 0; 65]).2.
Proof.
  apply framed_decode_invariant; [apply framed_wf_init|].
  apply (bool_decide_unpack _). by vm_compute.
Defined.

(** ** TX_RESULT and TX_PACKET frames *)

(** [TX_RESULT]: a frame is accepted exactly when it has type 4, four payload
    bytes and a known status (0 to 6), and then carries that status, the flags and the
    little-endian sequence number. *)
Theorem decode_tx_result_spec f r (Hb : bytes_ok (lf_payload f)) :
  loraham_decode_tx_result f = Ok r ↔
    ∃ lo hi, f = LoraFrame LORAHAM_FRAME_TX_RESULT [tr_status r; tr_flags r; lo; hi] ∧
             tr_status r ≤ 6 ∧ tr_seq r = lo + 256 * hi.
Proof.
  unfold loraham_decode_tx_result, LORAHAM_TX_RESULT_LEN, loraham_tx_result_status_valid,
    LORAHAM_TX_STATUS_INVALID_BAND.
  destruct f as [t p], r as [s fl q]. cbn [lf_type lf_payload tr_status tr_flags tr_seq] in *.
  split.
  - destruct (Z.eqb_spec t LORAHAM_FRAME_TX_RESULT) as [->|]; [|done].
    destruct (Z.eqb_spec (len p) 4) as [Hl|]; [|done].
    destruct p as [|p0 [|p1 [|p2 [|p3 [|]]]]]; try (cbn in Hl; lia).
    repeat (apply Forall_cons in Hb as [? Hb]). cbn [lookup_total list_lookup_total].
    rewrite le16 by (unfold is_u8 in *; lia). cbn [negb orb].
    destruct (Z.leb_spec p0 6); [|done]. intros [= <- <- <-]. by exists p2, p3.
  - intros (lo & hi & [= -> ->] & Hs & ->). repeat (apply Forall_cons in Hb as [? Hb]).
    cbn [lookup_total list_lookup_total length].
    rewrite le16 by (unfold is_u8 in *; lia). cbn [negb orb Z.eqb Z.of_nat]. by zdecide.
Qed.

Lemma decode_tx_result_spec_witness :
  loraham_decode_tx_result (LoraFrame 4 [2; 1; 0x34; 0x12]) = Ok (TxResult 2 1 0x1234).
Proof.
  apply decode_tx_result_spec; [by apply (bool_decide_unpack _)|].
  by exists 0x34, 0x12.
Defined.

Lemma framed_tx_bytes_eq payload :
  len payload ≤ LHKT_LORAHAM_TX_MAX →
  loraham_framed_tx_bytes payload = Ok (framed_bytes (LoraFrame LORAHAM_FRAME_TX_PACKET payload)).
Proof.
  unfold loraham_framed_tx_bytes, framed_bytes, LHKT_LORAHAM_TX_MAX. intros Hl.
  cbn [lf_type lf_payload]. zdecide. do 2 f_equal. set (n := len payload) in *.
  change 0xff with (Z.ones 8). rewrite !Z.land_ones, Z.shiftr_div_pow2 by lia.
  change (2 ^ 8) with 256. rewrite (Z.mod_small (n / 256)); [done|].
  split; [apply Z.div_pos; lia|]. apply Z.div_lt_upper_bound; lia.
Qed.

(** Outgoing packets: TNC2 text of up to 252 characters becomes the three header
    bytes 3C FF 01 followed by the text, longer text is refused with
    [LHKT_ERR_LONG], and the frame written to the daemon is the [TX_PACKET] frame
    carrying exactly those bytes. *)
Theorem aprs_packet_spec tnc2 :
  loraham_build_aprs_packet tnc2 LHKT_LORAHAM_TX_MAX =
    (if 252 <? len tnc2 then Err LHKT_ERR_LONG else Ok ([0x3c; 0xff; 0x01] ++ tnc2)) ∧
  (loraham_build_aprs_packet tnc2 LHKT_LORAHAM_TX_MAX ≫= loraham_framed_tx_bytes) =
    (if 252 <? len tnc2 then Err LHKT_ERR_LONG
     else Ok (framed_bytes (LoraFrame LORAHAM_FRAME_TX_PACKET ([0x3c; 0xff; 0x01] ++ tnc2)))).
Proof.
  unfold loraham_build_aprs_packet, LHKT_LORAHAM_TX_MAX, LHKT_LORAHAM_HDR_LEN.
  destruct (Z.ltb_spec 252 (len tnc2)); zdecide; [done|]. split; [done|].
  cbn [mbind res_bind]. apply framed_tx_bytes_eq. unfold LHKT_LORAHAM_TX_MAX, loraham_hdr.
  rewrite length_app. cbn [length]. lia.
Qed.

(** ** The scanner: invariant and progress *)

Definition no_eol (l : list Z) : Prop := Forall (λ c, c ≠ 13 ∧ c ≠ 10) l.

Record lx_wf (st : loraham_rx_state_t) : Prop := {
  lwf_buf : len (lx_buf st) ≤ LHKT_TNC2_MAX_LINE - 1;
  lwf_text : no_eol (lx_buf st);
  lwf_hdr : (lx_hdr_len st < 3)%nat;
  lwf_unseen : lx_seen_header st = false → lx_buf st = [];
  lwf_pending : len (lx_pending st) ≤ LHKT_LORAHAM_RX_PENDING;
}.

Definition lx_event_ok (ev : event (list Z)) : Prop :=
  match ev with
  | Quiet => True
  | Frame l => l ≠ [] ∧ len l ≤ LHKT_TNC2_MAX_LINE - 1 ∧ no_eol l
  | Fault e => e = LHKT_ERR_LONG
  end.

(** A step keeps the invariant, never grows [pending], leaves it alone when it is
    quiet. *)
Definition lx_step_ok (pending : list Z) (r : loraham_rx_state_t * event (list Z)) : Prop :=
  lx_wf r.1 ∧ lx_event_ok r.2 ∧ (length (lx_pending r.1) ≤ length pending)%nat ∧
  (r.2 = Quiet → lx_pending r.1 = pending).

Lemma lx_wf_init : lx_wf loraham_rx_state_init.
Proof.
  split; cbn; unfold LHKT_TNC2_MAX_LINE, LHKT_LORAHAM_RX_PENDING; try done; try lia.
  constructor.
Qed.

Lemma lx_fault_ok pending : lx_step_ok pending (loraham_rx_state_init, Fault LHKT_ERR_LONG).
Proof. split; [apply lx_wf_init|]. split; [done|]. split; [cbn; lia|done]. Qed.

Lemma lx_append_payload_ok st b st' :
  loraham_append_payload st b = Ok st' → b ≠ 13 → b ≠ 10 →
  (len (lx_buf st) ≤ LHKT_TNC2_MAX_LINE - 1 ∧ no_eol (lx_buf st) →
   len (lx_buf st') ≤ LHKT_TNC2_MAX_LINE - 1 ∧ no_eol (lx_buf st')) ∧
  lx_buf st' = lx_buf st ++ [b] ∧ lx_seen_header st' = lx_seen_header st ∧
  lx_hdr_len st' = lx_hdr_len st ∧ lx_pending st' = lx_pending st.
Proof.
  unfold loraham_append_payload.
  destruct (Z.leb_spec (LHKT_TNC2_MAX_LINE - 1) (len (lx_buf st))); [done|].
  intros [= <-] H1 H2. cbn. split; [|done]. intros [_ H4]. split; [solve_len|].
  unfold no_eol in *. solve_Forall.
Qed.

Lemma lx_append_payload_err st b e : loraham_append_payload st b = Err e → e = LHKT_ERR_LONG.
Proof. unfold loraham_append_payload. case_match; [|done]. by intros [= <-]. Qed.

Lemma lx_append_all_ok bs : ∀ st st',
  loraham_append_all st bs = Ok st' → no_eol bs →
  (len (lx_buf st) ≤ LHKT_TNC2_MAX_LINE - 1 ∧ no_eol (lx_buf st) →
   len (lx_buf st') ≤ LHKT_TNC2_MAX_LINE - 1 ∧ no_eol (lx_buf st')) ∧
  lx_buf st' = lx_buf st ++ bs ∧ lx_seen_header st' = lx_seen_header st ∧
  lx_pending st' = lx_pending st.
Proof.
  induction bs as [|b bs IH]; intros st st' H Hbs; cbn in H.
  { injection H as <-. by rewrite app_nil_r. }
  apply Forall_cons in Hbs as [[H1 H2] Hbs]. apply bind_Ok in H as (s1 & E1 & E2).
  apply lx_append_payload_ok in E1 as (I1 & Eb & Es & _ & Ep); [|done..].
  apply IH in E2 as (I2 & Eb2 & Es2 & Ep2); [|done].
  split; [tauto|]. rewrite Eb2, Eb, <-app_assoc. split; [done|]. split; congruence.
Qed.

Lemma lx_append_all_err bs : ∀ st e, loraham_append_all st bs = Err e → e = LHKT_ERR_LONG.
Proof.
  induction bs as [|b bs IH]; intros st e; cbn; [done|].
  intros [H|(s & _ & H)]%bind_Err; [by eapply lx_append_payload_err|by eapply IH].
Qed.

Lemma lx_append_hdr_prefix_ok st :
  match loraham_append_hdr_prefix st with
  | Err e => e = LHKT_ERR_LONG
  | Ok st' => (lx_wf st → lx_seen_header st = true → lx_wf st') ∧
      lx_buf st' = lx_buf st ++ take (lx_hdr_len st) loraham_hdr ∧
      lx_seen_header st' = lx_seen_header st ∧ lx_hdr_len st' = 0%nat ∧
      lx_pending st' = lx_pending st
  end.
Proof.
  unfold loraham_append_hdr_prefix.
  destruct (loraham_append_all st (take (lx_hdr_len st) loraham_hdr)) as [s|e] eqn:E; cbn.
  - apply lx_append_all_ok in E as (I & Eb & Es & Ep).
    + split; [|done]. intros [H1 H2 H3 H4 H5] Hs. destruct I as [I1 I2]; [done|].
      split; cbn; try done; [lia|congruence|congruence].
    + apply Forall_take. unfold loraham_hdr, no_eol. by solve_Forall.
  - by eapply lx_append_all_err.
Qed.

Lemma lx_emit_body_ok st size keep :
  lx_wf st → 512 ≤ size →
  lx_step_ok (lx_pending st)
    (if negb (lx_seen_header st) || (len (lx_buf st) =? 0) then
       (LoraRx (lx_buf st)
          (if negb keep && (len (lx_buf st) =? 0) then false else lx_seen_header st)
          0 (lx_pending st), Quiet)
     else if size <=? len (lx_buf st) then
       (loraham_rx_packet_clear st, Fault LHKT_ERR_NOSPACE)
     else (LoraRx [] keep 0 (lx_pending st), Frame (lx_buf st))).
Proof.
  intros [H1 H2 H3 H4 H5] Hsize. unfold LHKT_TNC2_MAX_LINE in *.
  destruct (lx_seen_header st) eqn:Es; cbn [negb orb].
  - destruct (Z.eqb_spec (len (lx_buf st)) 0) as [E0|E0].
    + destruct (lx_buf st) eqn:Eb; [|cbn [length] in E0; lia].
      split; [|done]. split; cbn; unfold LHKT_TNC2_MAX_LINE; try done; lia.
    + zdecide. split; [split; cbn; unfold LHKT_TNC2_MAX_LINE; try done; try lia; constructor|].
      split; [|done]. cbn. unfold LHKT_TNC2_MAX_LINE.
      split; [|done]. intros E. by rewrite E in E0.
  - rewrite H4 in * by done. rewrite andb_true_r. split; [|done].
    split; cbn; unfold LHKT_TNC2_MAX_LINE; try done; lia.
Qed.

Lemma lx_emit_ok st size flush keep :
  lx_wf st → 512 ≤ size → lx_step_ok (lx_pending st) (loraham_emit_tnc2 st size flush keep).
Proof.
  intros Hwf Hsize. unfold loraham_emit_tnc2. rewrite (proj2 (Z.eqb_neq size 0)) by lia.
  destruct (flush && lx_seen_header st && (0 <? lx_hdr_len st)%nat) eqn:E;
    [|by apply lx_emit_body_ok].
  pose proof (lx_append_hdr_prefix_ok st) as H.
  destruct (loraham_append_hdr_prefix st) as [s|e]; [|subst e; apply lx_fault_ok].
  destruct H as (Hs & _ & _ & _ & <-). apply lx_emit_body_ok; [|done]. apply Hs; [done|].
  apply andb_prop in E as [E _]. by apply andb_prop in E as [_ E].
Qed.

Lemma lx_extract_text_ok st size b :
  lx_wf st → lx_seen_header st = true → 512 ≤ size →
  lx_step_ok (lx_pending st) (loraham_extract_text st size b).
Proof.
  intros Hwf Hs Hsize. unfold loraham_extract_text.
  destruct (Z.eqb_spec b 13), (Z.eqb_spec b 10); cbn [orb]; try by apply lx_emit_ok.
  destruct Hwf as [H1 H2 H3 H4 H5]. destruct (b =? LORAHAM_APRS_HDR0).
  - split; [|done]. split; cbn; try done; lia.
  - destruct (loraham_append_payload st b) as [s|e] eqn:E.
    + apply lx_append_payload_ok in E as (I & Eb & Es & Eh & Ep); [|done..].
      destruct I as [I1 I2]; [done|]. rewrite <-Ep. split; [|done].
      split; cbn; try done; congruence.
    + apply lx_append_payload_err in E as ->. apply lx_fault_ok.
Qed.

Lemma lx_extract_byte_ok st size b :
  lx_wf st → 512 ≤ size → lx_step_ok (lx_pending st) (loraham_extract_byte st size b).
Proof.
  intros Hwf Hsize. unfold loraham_extract_byte. pose proof Hwf as [H1 H2 H3 H4 H5].
  destruct (lx_seen_header st) eqn:Es; cbn [negb].
  - destruct (Nat.ltb_spec 0 (lx_hdr_len st)); [|by apply lx_extract_text_ok].
    destruct (b =? loraham_hdr_byte (lx_hdr_len st)).
    + cbn [lx_hdr_len]. destruct (Nat.eqb_spec (S (lx_hdr_len st)) 3).
      * unfold loraham_emit_tnc2. cbn [andb lx_seen_header lx_buf lx_pending].
        rewrite (proj2 (Z.eqb_neq size 0)) by lia.
        apply (lx_emit_body_ok (LoraRx (lx_buf st) true 0 (lx_pending st)) size true); [|done].
        split; cbn; try done; lia.
      * split; [|done]. split; cbn; try done; lia.
    + pose proof (lx_append_hdr_prefix_ok st) as H'.
      destruct (loraham_append_hdr_prefix st) as [s|e]; [|subst e; apply lx_fault_ok].
      destruct H' as (Hs & _ & Es' & _ & <-). apply lx_extract_text_ok; try done; [by apply Hs|].
      congruence.
  - specialize (H4 eq_refl). rewrite H4 in *.
    destruct (b =? loraham_hdr_byte (lx_hdr_len st)); [|destruct (b =? LORAHAM_APRS_HDR0)];
      [destruct (Nat.eqb_spec (S (lx_hdr_len st)) 3)|..];
      (split; [|done]); split; cbn; try done; lia.
Qed.

Lemma lx_extract_loop_ok fuel : ∀ st size,
  lx_wf st → 512 ≤ size → (length (lx_pending st) ≤ fuel)%nat →
  let r := loraham_extract_loop fuel st size in
  lx_wf r.1 ∧ lx_event_ok r.2 ∧ (r.2 = Quiet → lx_pending r.1 = []) ∧
  (r.2 ≠ Quiet → (length (lx_pending r.1) < length (lx_pending st))%nat).
Proof.
  induction fuel as [|fuel IH]; intros st size Hwf Hsize Hfuel; cbn.
  { destruct (lx_pending st) eqn:E; [done|cbn in Hfuel; lia]. }
  destruct (lx_pending st) as [|b p] eqn:E; [done|].
  set (st0 := LoraRx (lx_buf st) (lx_seen_header st) (lx_hdr_len st) p).
  assert (lx_wf st0) as Hwf0.
  { destruct Hwf as [H1 H2 H3 H4 H5]. split; cbn; try done. rewrite E in H5. solve_len. }
  destruct (lx_extract_byte_ok st0 size b Hwf0 Hsize) as (W & V & L & Q).
  destruct (loraham_extract_byte st0 size b) as [s1 ev]. cbn [fst snd lx_pending st0] in *.
  destruct ev; cbn [fst snd]; cbn [length] in *; [|split; [done|split; [done|split; [done|lia]]]..].
  rewrite Q in L by done. destruct (IH s1 size W Hsize) as (W' & V' & Q' & L').
  { rewrite Q by done. lia. }
  split; [done|]. split; [done|]. split; [done|]. intros Hne. specialize (L' Hne).
  rewrite Q in L' by done. lia.
Qed.

(** A call, whatever its input: invariant, event and progress. *)
Lemma lx_extract_ok st data size :
  lx_wf st → LHKT_TNC2_MAX_LINE ≤ size →
  let r := loraham_extract_tnc2 st data size in
  lx_wf r.1 ∧ lx_event_ok r.2 ∧ (r.2 = Quiet → lx_pending r.1 = []) ∧
  (lx_pending st ++ data = [] → lx_pending r.1 = []) ∧
  (lx_pending st ++ data ≠ [] → r.2 ≠ Quiet →
   (length (lx_pending r.1) < length (lx_pending st ++ data))%nat).
Proof.
  unfold LHKT_TNC2_MAX_LINE. intros Hwf Hsize. cbv zeta. unfold loraham_extract_tnc2.
  destruct ((0 <? len data) && _) eqn:E.
  { split; [apply lx_wf_init|]. split; [done|]. split; [done|]. split; [done|].
    intros Hne _. cbn. by destruct (lx_pending st ++ data); [|cbn; lia]. }
  set (st0 := LoraRx (lx_buf st) (lx_seen_header st) (lx_hdr_len st) (lx_pending st ++ data)).
  assert (lx_wf st0) as Hwf0.
  { destruct Hwf as [H1 H2 H3 H4 H5]. split; cbn; try done. unfold LHKT_LORAHAM_RX_PENDING in *.
    clear st0. destruct data; [by rewrite app_nil_r|]. rewrite length_app.
    apply andb_false_iff in E as [?%Z.ltb_ge|?%Z.ltb_ge]; cbn [length] in *; lia. }
  destruct (lx_extract_loop_ok (length (lx_pending st0)) st0 size Hwf0 Hsize (Nat.le_refl _))
    as (W & V & Q & L).
  assert (lx_pending st0 = lx_pending st ++ data) as Hp by done.
  destruct (loraham_extract_loop _ st0 size) as [s1 ev]. rewrite Hp in L. clearbody st0. cbn [fst snd] in *.
  assert (∀ A : Prop, ev ≠ Quiet → lx_pending st ++ data = [] → A) as Habs.
  { intros A Hev E0. specialize (L Hev). rewrite E0 in L. cbn in L. lia. }
  destruct ev; cbn [fst snd].
  - specialize (Q eq_refl). destruct ((len data =? 0) && (len (lx_pending st) =? 0)) eqn:Ef; cbn [fst snd];
      [|split_and!; try done; congruence].
    destruct (lx_emit_ok s1 size true false W Hsize) as (W2 & V2 & L2 & Q2).
    rewrite Q in *. assert (lx_pending (loraham_emit_tnc2 s1 size true false).1 = []) as Hnil.
    { apply nil_length_inv. cbn [length] in L2. lia. }
    split; [done|]. split; [done|]. split; [done|]. split; [done|].
    intros Hne _. apply andb_prop in Ef as [E1 E2].
    destruct data; [|done]. destruct (lx_pending st); done.
  - split; [done|]. split; [done|]. split; [done|]. split; [intros; by apply Habs|auto].
  - split; [done|]. split; [done|]. split; [done|]. split; [intros; by apply Habs|auto].
Qed.

(** C25. The scanner, on any input: its buffers stay within their bounds, an emitted
    line is non-empty, has at most 511 characters and no CR or LF, the only fault is
    [LHKT_ERR_LONG]; and it terminates and makes progress: a call that answers 0
    leaves nothing pending, one that answers anything else on input or pending bytes
    leaves fewer bytes pending than there were. *)
Theorem loraham_extract_invariant st data size
    (Hwf : lx_wf st) (Hsize : LHKT_TNC2_MAX_LINE ≤ size) :
  let r := loraham_extract_tnc2 st data size in
  lx_wf r.1 ∧ lx_event_ok r.2 ∧ (r.2 = Quiet → lx_pending r.1 = []) ∧
  (lx_pending st ++ data ≠ [] → r.2 ≠ Quiet →
   (length (lx_pending r.1) < length (lx_pending st ++ data))%nat).
Proof. destruct (lx_extract_ok st data size Hwf Hsize) as (? & ? & ? & _ & ?). by split_and!. Qed.

Lemma loraham_extract_invariant_witness :
  lx_wf (loraham_extract_tnc2 loraham_rx_state_init [60; 255; 1; 65; 13] LHKT_TNC2_MAX_LINE).1.
Proof.
  pose proof (loraham_extract_invariant loraham_rx_state_init [60; 255; 1; 65; 13]
    LHKT_TNC2_MAX_LINE lx_wf_init (Z.le_refl _)) as [H _]. exact H.
Defined.

(** ** The scanner finds the text of a packet *)

(** The three header bytes do not occur inside the text. *)
Definition no_hdr (t : list Z) : Prop := ∀ a b, t ≠ a ++ loraham_hdr ++ b.

Lemma loraham_append_all_fits bs : ∀ st,
  len (lx_buf st) + len bs ≤ LHKT_TNC2_MAX_LINE - 1 →
  loraham_append_all st bs =
    Ok (LoraRx (lx_buf st ++ bs) (lx_seen_header st) (lx_hdr_len st) (lx_pending st)).
Proof.
  induction bs as [|b bs IH]; intros st H; cbn [loraham_append_all].
  { rewrite app_nil_r. by destruct st. }
  unfold loraham_append_payload. cbn [length] in H. zdecide. cbn [mbind res_bind].
  rewrite IH by (cbn [lx_buf]; solve_len). cbn. by rewrite <-app_assoc.
Qed.

(** The text consumed so far is what is stored plus the header bytes held back. *)
Record scanning (u : list Z) (st : loraham_rx_state_t) : Prop := {
  sc_seen : lx_seen_header st = true;
  sc_hdr : (lx_hdr_len st < 3)%nat;
  sc_text : lx_buf st ++ take (lx_hdr_len st) loraham_hdr = u;
}.

Lemma scanning_flush u st :
  scanning u st → len u ≤ LHKT_TNC2_MAX_LINE - 1 →
  loraham_append_hdr_prefix st = Ok (LoraRx u true 0 (lx_pending st)).
Proof.
  intros [H1 H2 <-] Hl. unfold loraham_append_hdr_prefix.
  rewrite loraham_append_all_fits by solve_len. cbn. by rewrite H1.
Qed.

Lemma scanning_text u st b size :
  lx_seen_header st = true → lx_hdr_len st = 0%nat → lx_buf st = u →
  b ≠ 13 → b ≠ 10 → len u < LHKT_TNC2_MAX_LINE - 1 →
  let r := loraham_extract_text st size b in
  r.2 = Quiet ∧ scanning (u ++ [b]) r.1 ∧ lx_pending r.1 = lx_pending st.
Proof.
  intros Hs Hh <- H1 H2 Hl. unfold loraham_extract_text. cbv zeta.
  rewrite (proj2 (Z.eqb_neq b 13)), (proj2 (Z.eqb_neq b 10)) by done. cbn [orb].
  destruct (Z.eqb_spec b LORAHAM_APRS_HDR0) as [->|Hb]; cbn [fst snd].
  { split; [done|]. split; [|done]. split; cbn; [done|lia|done]. }
  unfold loraham_append_payload. zdecide. cbn [fst snd]. split; [done|]. split; [|done].
  split; cbn; [done|lia|]. rewrite Hh. cbn. by rewrite app_nil_r.
Qed.

Lemma scanning_step u st b size :
  scanning u st → b ≠ 13 → b ≠ 10 → len u < LHKT_TNC2_MAX_LINE - 1 → no_hdr (u ++ [b]) →
  let r := loraham_extract_byte st size b in
  r.2 = Quiet ∧ scanning (u ++ [b]) r.1 ∧ lx_pending r.1 = lx_pending st.
Proof.
  intros Hsc H1 H2 Hl Hno. pose proof Hsc as [Hs Hh Ht]. cbv zeta.
  unfold loraham_extract_byte. rewrite Hs. cbn [negb].
  destruct (Nat.ltb_spec 0 (lx_hdr_len st)) as [Hpos|Hpos].
  - destruct (Z.eqb_spec b (loraham_hdr_byte (lx_hdr_len st))) as [->|Hb].
    + cbn [lx_hdr_len]. destruct (Nat.eqb_spec (S (lx_hdr_len st)) 3) as [E|E].
      * destruct (Hno (lx_buf st) []). replace (lx_hdr_len st) with 2%nat in * by lia.
        rewrite <-Ht, app_nil_r, <-app_assoc. done.
      * cbn. split; [done|]. split; [|done]. split; cbn; [done|lia|].
        replace (lx_hdr_len st) with 1%nat in * by lia. rewrite <-Ht, <-app_assoc. done.
    + rewrite (scanning_flush u st Hsc) by lia.
      by apply (scanning_text u (LoraRx u true 0 (lx_pending st)) b size).
  - apply scanning_text; try done; [lia|].
    replace (lx_hdr_len st) with 0%nat in Ht by lia. by rewrite <-Ht, app_nil_r.
Qed.

Lemma scanning_loop fuel : ∀ u st size,
  scanning u st → (length (lx_pending st) ≤ fuel)%nat → no_eol (lx_pending st) →
  len u + len (lx_pending st) ≤ LHKT_TNC2_MAX_LINE - 1 → no_hdr (u ++ lx_pending st) →
  let r := loraham_extract_loop fuel st size in
  r.2 = Quiet ∧ scanning (u ++ lx_pending st) r.1 ∧ lx_pending r.1 = [].
Proof.
  induction fuel as [|fuel IH]; intros u st size Hsc Hf Heol Hl Hno; cbn.
  { destruct (lx_pending st); [by rewrite app_nil_r|cbn in Hf; lia]. }
  destruct (lx_pending st) as [|b p] eqn:E; [by rewrite app_nil_r|].
  apply Forall_cons in Heol as [[H1 H2] Heol]. cbn [length] in *.
  set (st0 := LoraRx (lx_buf st) (lx_seen_header st) (lx_hdr_len st) p).
  destruct (scanning_step u st0 b size) as (Q & S & P); try done.
  - by destruct Hsc.
  - lia.
  - intros x y Hxy. apply (Hno x (y ++ p)).
    rewrite (cons_middle b u p), app_assoc, Hxy. by rewrite <-!app_assoc.
  - destruct (loraham_extract_byte st0 size b) as [s1 ev]. cbn [fst snd] in *. subst ev.
    cbn [st0 lx_pending] in P. destruct (IH (u ++ [b]) s1 size) as (Q' & S' & P'); rewrite ?P.
    + done.
    + lia.
    + done.
    + solve_len.
    + by rewrite <-app_assoc.
    + rewrite P, <-app_assoc in S'. done.
Qed.

Lemma loraham_extract_flush st size :
  lx_pending st = [] → loraham_extract_tnc2 st [] size = loraham_emit_tnc2 st size true false.
Proof. destruct st as [sb ss sh sp]. cbn [lx_pending]. intros ->. reflexivity. Qed.

Lemma scanning_emit t st :
  scanning t st → lx_pending st = [] → t ≠ [] → len t < LHKT_TNC2_MAX_LINE →
  (loraham_extract_tnc2 st [] LHKT_TNC2_MAX_LINE).2 = Frame t.
Proof.
  intros S P Hne Hl. rewrite loraham_extract_flush by done. unfold loraham_emit_tnc2.
  change (LHKT_TNC2_MAX_LINE =? 0) with false. cbn iota.
  pose proof S as [Ss Sh St]. rewrite Ss. cbn [andb].
  assert ((len t =? 0) = false) as E0 by (destruct t; [done|]; cbn [length]; zdecide; done).
  destruct (Nat.ltb_spec 0 (lx_hdr_len st)) as [Hs|Hs].
  - rewrite (scanning_flush t _ S) by lia. cbn [lx_seen_header lx_buf negb orb lx_pending].
    rewrite E0. zdecide. done.
  - replace (lx_hdr_len st) with 0%nat in St by lia. cbn [take] in St. rewrite app_nil_r in St.
    rewrite Ss, St. cbn [negb orb]. rewrite E0. zdecide. done.
Qed.

(** The bytes of a packet: nothing on the way in, the text on the flush. *)
Lemma lx_extract_packet t :
  t ≠ [] → len t < LHKT_TNC2_MAX_LINE → no_eol t → no_hdr t →
  ∃ st, loraham_extract_tnc2 loraham_rx_state_init (loraham_hdr ++ t) LHKT_TNC2_MAX_LINE = (st, Quiet) ∧
        lx_pending st = [] ∧
        (loraham_extract_tnc2 st [] LHKT_TNC2_MAX_LINE).2 = Frame t.
Proof.
  intros Hne Hlen Heol Hno.
  unfold loraham_extract_tnc2 at 1. rewrite andb_false_intro2; cycle 1.
  { unfold LHKT_LORAHAM_RX_PENDING, LHKT_TNC2_MAX_LINE in *. cbn [loraham_rx_state_init lx_pending].
    rewrite length_app. cbn [length loraham_hdr]. apply Z.ltb_ge. lia. }
  change (loraham_extract_loop _ _ LHKT_TNC2_MAX_LINE) with
    (loraham_extract_loop (length t) (LoraRx [] true 0 t) LHKT_TNC2_MAX_LINE).
  destruct (scanning_loop (length t) [] (LoraRx [] true 0 t) LHKT_TNC2_MAX_LINE)
    as (Q & S & P); cbn [lx_pending]; try done.
  { split; cbn; [done|lia|done]. }
  { unfold LHKT_TNC2_MAX_LINE in *. cbn [length]. lia. }
  destruct (loraham_extract_loop (length t) _ _) as [st ev].
  cbn [fst snd app lx_pending] in *. subst ev. exists st. split; [done|]. split; [done|].
  apply scanning_emit; [done..|lia].
Qed.

(** The scanner recovers the text of a packet: feeding the bytes 3C FF 01
    followed by a line of 1 to 511 characters without CR, LF and without a further
    3C FF 01 yields nothing, and the flush that follows yields exactly that line,
    partial header look-alikes inside it included. *)
Theorem loraham_extract_packet t
    (Hne : t ≠ []) (Hlen : len t < LHKT_TNC2_MAX_LINE) (Heol : no_eol t) (Hno : no_hdr t) :
  ∃ st, loraham_extract_tnc2 loraham_rx_state_init (loraham_hdr ++ t) LHKT_TNC2_MAX_LINE = (st, Quiet) ∧
        lx_pending st = [] ∧
        (loraham_extract_tnc2 st [] LHKT_TNC2_MAX_LINE).2 = Frame t.
Proof. by apply lx_extract_packet. Qed.

Lemma loraham_extract_packet_witness :
  (loraham_extract_tnc2
    (loraham_extract_tnc2 loraham_rx_state_init (loraham_hdr ++ [60; 255; 65]) 512).1 [] 512).2 =
  Frame [60; 255; 65].
Proof.
  destruct (loraham_extract_packet [60; 255; 65]) as (st & E & _ & F).
  - done.
  - done.
  - by apply (bool_decide_unpack _).
  - intros a b E. do 3 (destruct a as [|? a]; [discriminate|injection E as _ E]). by destruct a.
  - unfold LHKT_TNC2_MAX_LINE in *. by rewrite E.
Defined.
