(* ===== verification/Tnc.v ===== *)
(** Shared data of the program (loraham_kiss_tnc.h and loraham_kiss_tnc.c): the
    configuration record, the statistics counters, the source allow-list.

    [double]s are IEEE binary64 values of the Standard Library's [SpecFloat]
    (mantissas and exponents as integers; no real numbers involved). A C [int] field
    is a [Z]. [char] arrays are the C strings they hold. *)
From S2P Require Import Prelude.
From Stdlib Require Import SpecFloat.

(** ** Doubles *)

Abbreviation double := spec_float.

(** The binary64 number nearest to [n / d]: the value of a decimal literal. *)
Definition double_lit (n d : positive) : double :=
  SFdiv 53 1024 (S754_finite false n 0) (S754_finite false d 0).

Definition double_sub : double → double → double := SFsub 53 1024.
Definition double_neg : double → double := SFopp.
Definition double_lt : double → double → bool := SFltb.
Definition double_gt (x y : double) : bool := SFltb y x.

(** ** lhkt_config_t *)

Record lhkt_config_t := Config {
  kiss_host : list Z;
  kiss_port : Z;
  bind_spec : list Z;
  bind_net : Z;
  bind_prefix : Z;
  data_socket : list Z;
  conf_socket : list Z;
  rx_only : Z;
  verbose : Z;
  rf_log : Z;
  rf_log_path : list Z;
  stats_interval : Z;
  tx_settle_ms : Z;
  tx_return_ms : Z;
  tx_busy_timeout_ms : Z;
  tx_queue_len : Z;
  tx_packet_ttl_ms : Z;
  rx_freq : double;
  tx_freq : double;
  have_rx_freq : Z;
  have_tx_freq : Z;
  sf : Z;
  bw : double;
  cr : Z;
  crc : Z;
  preamble : Z;
  syncword : Z;
  ldro : Z;
  ldro_auto : Z;
  power : Z;
}.

(** The assignments of [lhkt_bind_apply]. *)
Definition set_bind (cfg : lhkt_config_t) (net prefix : Z) (spec host : list Z) : lhkt_config_t :=
  Config host (kiss_port cfg) spec net prefix (data_socket cfg) (conf_socket cfg)
    (rx_only cfg) (verbose cfg) (rf_log cfg) (rf_log_path cfg) (stats_interval cfg)
    (tx_settle_ms cfg) (tx_return_ms cfg) (tx_busy_timeout_ms cfg) (tx_queue_len cfg)
    (tx_packet_ttl_ms cfg) (rx_freq cfg) (tx_freq cfg) (have_rx_freq cfg) (have_tx_freq cfg)
    (sf cfg) (bw cfg) (cr cfg) (crc cfg) (preamble cfg) (syncword cfg) (ldro cfg)
    (ldro_auto cfg) (power cfg).

(** ** Source allow-list *)

(** [addr_host & mask == net_host & mask], with the 32-bit shift of the mask. *)
Definition lhkt_ipv4_in_cidr (addr_host net_host prefix : Z) : bool :=
  if prefix <=? 0 then true
  else if 32 <=? prefix then addr_host =? net_host
  else
    let mask := u32 (Z.shiftl 0xFFFFFFFF (32 - prefix)) in
    Z.land addr_host mask =? Z.land net_host mask.

(** ["%u.%u.%u.%u/%d"] *)
Definition cidr_text (net prefix : Z) : list Z :=
  fmt_u (Z.land (Z.shiftr net 24) 0xFF) ++ str "." ++
  fmt_u (Z.land (Z.shiftr net 16) 0xFF) ++ str "." ++
  fmt_u (Z.land (Z.shiftr net 8) 0xFF) ++ str "." ++
  fmt_u (Z.land net 0xFF) ++ str "/" ++ fmt_u prefix.

(** The mask of [lhkt_bind_apply]. *)
Definition bind_mask (prefix : Z) : Z :=
  if prefix =? 0 then 0 else u32 (Z.shiftl 0xFFFFFFFF (32 - prefix)).

Section bind.
(** [inet_pton(AF_INET, ...)] followed by [ntohl]: the host-order address, [None]
    when the call does not answer 1. *)
Variable inet_pton : list Z → option Z.

(** The part of the argument before the slash and the prefix length after it. *)
Definition bind_split (arg : list Z) : res (list Z * Z) :=
  match strchr 47 arg with
  | None => Ok (arg, 32)
  | Some (host, p) =>
      match strtol p with
      | None => Err LHKT_ERR_FORMAT
      | Some (v, rest) =>
          if negb (len rest =? 0) || (v <? 0) || (32 <? v) then Err LHKT_ERR_FORMAT
          else Ok (host, v)
      end
  end.

Definition lhkt_bind_apply (cfg : lhkt_config_t) (arg : list Z) : res lhkt_config_t :=
  if len arg =? 0 then Err LHKT_ERR_FORMAT
  else if LHKT_HOST_MAX <=? len arg then Err LHKT_ERR_FORMAT
  else
    '(host, prefix) ← bind_split arg;
    match inet_pton host with
    | None => Err LHKT_ERR_FORMAT
    | Some ip_host =>
        let net := Z.land ip_host (bind_mask prefix) in
        let host :=
          if (Z.land (Z.shiftr net 24) 0xFF =? 127) && (8 <=? prefix)
          then str "127.0.0.1" else str "0.0.0.0" in
        Ok (set_bind cfg net prefix (cidr_text net prefix) host)
    end.

(** [stat] followed by [S_ISSOCK]. *)
Variable is_sock : list Z → bool.

Definition loraham_sockpath (runp tmpp : list Z) : list Z :=
  if is_sock runp then runp else tmpp.

(** The record after [memset], the bind call and the assignments. A failing
    [lhkt_bind_apply] leaves the zeroed fields (its return value is ignored). *)
Definition lhkt_config_defaults : lhkt_config_t :=
  let cfg := Config [] 8001 [] 0 0
    (loraham_sockpath (str "/run/loraham/lora433f.sock") (str "/tmp/lora433f.sock"))
    (loraham_sockpath (str "/run/loraham/loraconf433.sock") (str "/tmp/loraconf433.sock"))
    0 0 0 [] 900 100 1000 120000 8 180000
    (double_lit 433775 1000) (double_lit 433900 1000) 1 1
    12 (double_lit 125 1) 5 1 8 0x12 1 0 17 in
  match lhkt_bind_apply cfg (str "127.0.0.1") with Ok cfg' => cfg' | Err _ => cfg end.
End bind.

(** ** lhkt_stats_t

    The counters of the struct, by name, and the one [int] field. *)
Inductive counter :=
  | kiss_rx | kiss_tx | kiss_drop
  | ax25_rx | ax25_tx | ax25_drop
  | tnc2_rx | tnc2_tx | tnc2_drop
  | loraham_rx | loraham_tx | loraham_drop | loraham_framed_errors
  | cad_busy_events | cad_idle_events
  | tx_drop_oversize | tx_unconfirmed | tx_restore_failures
  | socket_reconnects | client_disconnects.

#[export] Instance counter_eq_dec : EqDecision counter.
Proof. solve_decision. Defined.

Record lhkt_stats_t := Stats {
  count : counter → Z;
  cad_current_busy : Z;
}.

Definition lhkt_stats_init : lhkt_stats_t := Stats (λ _, 0) 0.

(** [stats->c += n], on a [uint64_t]. *)
Definition bump_by (n : Z) (c : counter) (s : lhkt_stats_t) : lhkt_stats_t :=
  Stats (λ c', if decide (c' = c) then u64 (count s c + n) else count s c') (cad_current_busy s).
Abbreviation bump := (bump_by 1).

Lemma bump_eq n c s : count (bump_by n c s) c = u64 (count s c + n).
Proof. cbn. by rewrite decide_True. Qed.

Lemma bump_ne n c c' s : c' ≠ c → count (bump_by n c s) c' = count s c'.
Proof. intros. cbn. by rewrite decide_False. Qed.


(** ** The allow-list accepts a network *)

Definition is_u32 (z : Z) : Prop := 0 ≤ z < 2 ^ 32.

(** The top [prefix] of 32 bits agree. *)
Definition same_net (prefix a b : Z) : Prop :=
  ∀ i, 32 - prefix ≤ i < 32 → Z.testbit a i = Z.testbit b i.

Lemma u32_testbit a i : is_u32 a → 32 ≤ i → Z.testbit a i = false.
Proof.
  intros [H1 H2] Hi. rewrite <-(Z.mod_small a (2 ^ 32)) by done. by apply Z.mod_pow2_bits_high.
Qed.

Lemma mask_testbit prefix i :
  0 < prefix ≤ 32 → 0 ≤ i →
  Z.testbit (u32 (Z.shiftl 0xFFFFFFFF (32 - prefix))) i = (32 - prefix <=? i) && (i <? 32).
Proof.
  intros Hp Hi. unfold u32. change 0xFFFFFFFF with (Z.ones 32).
  destruct (Z.ltb_spec i 32).
  - rewrite Z.mod_pow2_bits_low, Z.shiftl_spec by lia. rewrite andb_true_r.
    destruct (Z.leb_spec (32 - prefix) i).
    + apply Z.ones_spec_low. lia.
    + apply Z.testbit_neg_r. lia.
  - rewrite Z.mod_pow2_bits_high by lia. by rewrite andb_false_r.
Qed.

Lemma in_cidr_same_net addr net prefix :
  is_u32 addr → is_u32 net → 0 ≤ prefix ≤ 32 →
  lhkt_ipv4_in_cidr addr net prefix = true ↔ same_net prefix addr net.
Proof.
  intros Ha Hn Hp. unfold lhkt_ipv4_in_cidr, same_net.
  destruct (Z.leb_spec prefix 0); [split; [lia|done]|].
  destruct (Z.leb_spec 32 prefix).
  - rewrite Z.eqb_eq. split; [by intros ->|]. intros H'. apply Z.bits_inj'. intros i Hi.
    destruct (decide (i < 32)); [apply H'; lia|]. rewrite !u32_testbit by lia || done. done.
  - cbv zeta. rewrite Z.eqb_eq. split.
    + intros E i Hi. apply (f_equal (λ z, Z.testbit z i)) in E.
      rewrite !Z.land_spec, !mask_testbit in E by lia. revert E. zdecide. cbn.
      by rewrite !andb_true_r.
    + intros E. apply Z.bits_inj'. intros i Hi. rewrite !Z.land_spec, !mask_testbit by lia.
      destruct (Z.leb_spec (32 - prefix) i), (Z.ltb_spec i 32); cbn; rewrite ?andb_false_r; try done.
      rewrite !andb_true_r. apply E. lia.
Qed.

Lemma bind_net_testbit ip prefix i :
  is_u32 ip → 0 ≤ prefix ≤ 32 → 0 ≤ i →
  Z.testbit (Z.land ip (bind_mask prefix)) i = Z.testbit ip i && (32 - prefix <=? i).
Proof.
  intros Hip Hp Hi. unfold bind_mask. rewrite Z.land_spec.
  destruct (Z.eqb_spec prefix 0) as [->|].
  - rewrite Z.bits_0, andb_false_r. destruct (Z.leb_spec (32 - 0) i); [|by rewrite andb_false_r].
    by rewrite u32_testbit.
  - rewrite mask_testbit by lia. destruct (Z.ltb_spec i 32); [by rewrite andb_true_r|].
    by rewrite u32_testbit.
Qed.

Lemma bits_u32 a : 0 ≤ a → (∀ i, 32 ≤ i → Z.testbit a i = false) → is_u32 a.
Proof.
  intros Ha H. split; [done|]. rewrite <-(Z.mod_small a (2 ^ 32)) at 1; [apply Z.mod_pos_bound; lia|].
  split; [done|]. destruct (decide (a = 0)) as [->|]; [lia|].
  apply Z.log2_lt_pow2; [lia|]. destruct (decide (Z.log2 a < 32)); [done|].
  specialize (H (Z.log2 a)). rewrite Z.bit_log2 in H by lia. discriminate H. lia.
Qed.

Lemma bind_net_u32 ip prefix :
  is_u32 ip → 0 ≤ prefix ≤ 32 → is_u32 (Z.land ip (bind_mask prefix)).
Proof.
  intros Hip Hp. apply bits_u32.
  - apply Z.land_nonneg. left. apply Hip.
  - intros i Hi. rewrite bind_net_testbit by lia || done. by rewrite u32_testbit.
Qed.

Lemma bind_same_net ip prefix a :
  is_u32 ip → 0 ≤ prefix ≤ 32 → same_net prefix a (Z.land ip (bind_mask prefix)) ↔ same_net prefix a ip.
Proof.
  intros Hip Hp. unfold same_net. split; intros H i Hi; rewrite H by done;
    rewrite bind_net_testbit by lia || done; zdecide; by rewrite andb_true_r.
Qed.

(** Every address of the network starts with 127. *)
Definition all_loopback (ip prefix : Z) : Prop :=
  ∀ a, is_u32 a → same_net prefix a ip → Z.shiftr a 24 = 127.

Lemma top_byte a : is_u32 a → Z.land (Z.shiftr a 24) 0xFF = Z.shiftr a 24.
Proof.
  intros [H1 H2]. change 0xFF with (Z.ones 8). rewrite Z.land_ones, Z.shiftr_div_pow2 by lia.
  apply Z.mod_small. split; [apply Z.div_pos; lia|]. apply Z.div_lt_upper_bound; lia.
Qed.

Lemma bind_loopback ip prefix :
  is_u32 ip → 0 ≤ prefix ≤ 32 →
  (Z.land (Z.shiftr (Z.land ip (bind_mask prefix)) 24) 0xFF =? 127) && (8 <=? prefix) = true ↔
  all_loopback ip prefix.
Proof.
  intros Hip Hp. pose proof (bind_net_u32 ip prefix Hip Hp) as Hn.
  pose proof (bind_same_net ip prefix) as Hs. set (net := Z.land ip (bind_mask prefix)) in *.
  assert (same_net prefix net ip) as Hnet by (apply Hs; done).
  rewrite top_byte, andb_true_iff, Z.eqb_eq, Z.leb_le by done. split.
  - intros [H1 H2] a Ha Hsame. rewrite <-H1. apply Z.bits_inj'. intros i Hi.
    rewrite !Z.shiftr_spec by done. destruct (decide (i + 24 < 32)).
    + apply Hs; [done..|lia].
    + rewrite !u32_testbit by done || lia. done.
  - intros Hall. pose proof (Hall net Hn Hnet) as H1. split; [done|].
    destruct (Z.leb_spec 8 prefix); [done|]. exfalso.
    assert (Z.shiftr (Z.lxor net (2 ^ 24)) 24 = 127) as H2.
    { apply Hall.
      - apply bits_u32; [apply Z.lxor_nonneg; unfold is_u32 in Hn; lia|]. intros i Hi.
        rewrite Z.lxor_spec, u32_testbit, Z.pow2_bits_false by done || lia. done.
      - intros i Hi. rewrite Z.lxor_spec, Z.pow2_bits_false by lia. rewrite xorb_false_r. by apply Hnet. }
    apply (f_equal (λ z, Z.testbit z 0)) in H1, H2. rewrite Z.shiftr_spec in H1, H2 by done.
    cbn [Z.add] in *. rewrite Z.lxor_spec, Z.pow2_bits_true, H1 in H2 by lia. done.
Qed.

Lemma bind_split_Ok arg host prefix :
  bind_split arg = Ok (host, prefix) →
  0 ≤ prefix ≤ 32 ∧
  ((arg = host ∧ prefix = 32 ∧ 47 ∉ arg) ∨
   (∃ p, arg = host ++ 47 :: p ∧ strtol p = Some (prefix, []))).
Proof.
  unfold bind_split. destruct (strchr 47 arg) as [[h p]|] eqn:E.
  - apply strchr_Some in E as [-> _]. destruct (strtol p) as [[v rest]|] eqn:Ev; [|done].
    destruct (Z.eqb_spec (len rest) 0) as [E0|], (Z.ltb_spec v 0), (Z.ltb_spec 32 v); cbn; try done.
    intros [= <- <-]. split; [lia|]. right. exists p. split; [done|]. rewrite Ev.
    by destruct rest.
  - intros [= <- <-]. split; [lia|]. left. split; [done|]. split; [done|].
    by apply strchr_None_inv.
Qed.

(** C26. The source allow-list: when [lhkt_bind_apply] accepts an argument, the
    argument is an address text without slash (prefix 32) or a text, a slash and a
    number from 0 to 32; the address test then accepts exactly the addresses that
    agree with the given one in the top [prefix] bits; and the server listens on the
    loopback address exactly when every accepted address starts with 127, otherwise on
    all interfaces. *)
Theorem lhkt_bind_apply_sound inet_pton cfg arg cfg'
    (Hpton : ∀ s ip, inet_pton s = Some ip → is_u32 ip)
    (Happly : lhkt_bind_apply inet_pton cfg arg = Ok cfg') :
  ∃ host prefix ip, 0 ≤ prefix ≤ 32 ∧ inet_pton host = Some ip ∧
    ((arg = host ∧ prefix = 32 ∧ 47 ∉ arg) ∨
     (∃ p, arg = host ++ 47 :: p ∧ strtol p = Some (prefix, []))) ∧
    (∀ a, is_u32 a →
      lhkt_ipv4_in_cidr a (bind_net cfg') (bind_prefix cfg') = true ↔ same_net prefix a ip) ∧
    (all_loopback ip prefix → kiss_host cfg' = str "127.0.0.1") ∧
    (¬ all_loopback ip prefix → kiss_host cfg' = str "0.0.0.0").
Proof.
  unfold lhkt_bind_apply in Happly. destruct (len arg =? 0); [done|].
  destruct (LHKT_HOST_MAX <=? len arg); [done|].
  apply bind_Ok in Happly as ([host prefix] & Hsplit & Happly).
  destruct (inet_pton host) as [ip|] eqn:Eip; [|done]. apply Hpton in Eip as Hip.
  apply Ok_inj in Happly as <-. apply bind_split_Ok in Hsplit as [Hp Harg].
  exists host, prefix, ip. split_and!; [lia..|done|done| | |]; cbn [bind_net bind_prefix kiss_host set_bind].
  - intros a Ha. rewrite in_cidr_same_net by first [done | by apply bind_net_u32].
    by apply bind_same_net.
  - intros H. by apply bind_loopback in H as ->.
  - intros H. rewrite <-bind_loopback in H by done. by apply not_true_is_false in H as ->.
Qed.

Definition example_pton (s : list Z) : option Z :=
  if decide (s = str "10.1.2.3") then Some 0x0A010203 else None.

Lemma lhkt_bind_apply_sound_witness :
  let cfg := lhkt_config_defaults (λ _, None) (λ _, false) in
  let cfg' := set_bind cfg 0x0A010200 24 (str "10.1.2.0/24") (str "0.0.0.0") in
  lhkt_bind_apply example_pton cfg (str "10.1.2.3/24") = Ok cfg' ∧
  ∃ host ip prefix, example_pton host = Some ip ∧
    (∀ a, is_u32 a → lhkt_ipv4_in_cidr a (bind_net cfg') (bind_prefix cfg') = true ↔
                     same_net prefix a ip).
Proof.
  cbv zeta. set (cfg := lhkt_config_defaults (λ _, None) (λ _, false)).
  set (cfg' := set_bind cfg _ _ _ _).
  assert (lhkt_bind_apply example_pton cfg (str "10.1.2.3/24") = Ok cfg') as E by by vm_compute.
  split; [exact E|].
  destruct (lhkt_bind_apply_sound example_pton cfg (str "10.1.2.3/24") cfg')
    as (host & prefix & ip & _ & Eh & _ & H & _).
  - intros s ip. unfold example_pton. case_decide; [intros [= <-]; by split|done].
  - exact E.
  - by exists host, ip, prefix.
Defined.
