(* ===== verification/Printf.v ===== *)
(** The [printf] conversions the program uses on numbers: [%d], [%02X], [%.<n>f].

    [%u] is [fmt_u] of the prelude. Every result is plain text: no control
    characters, no NUL. *)
From S2P Require Import Prelude Tnc.
From Stdlib Require Import SpecFloat.

(** The decimal digits of a non-negative number of any size. *)
Definition fmt_nat (z : Z) : list Z := udigits (S (Z.to_nat (Z.log2 z))) z [].

Definition fmt_d (z : Z) : list Z := if z <? 0 then str "-" ++ fmt_nat (- z) else fmt_nat z.

Definition hex_digit_upper (d : Z) : Z := if d <? 10 then 48 + d else 55 + d.

Fixpoint xdigits (fuel : nat) (z : Z) (acc : list Z) : list Z :=
  match fuel with
  | O => acc
  | S fuel =>
      let acc := hex_digit_upper (z mod 16) :: acc in
      if z / 16 =? 0 then acc else xdigits fuel (z / 16) acc
  end.

Definition pad0 (n : nat) (l : list Z) : list Z := replicate (n - length l) 48 ++ l.

(** [%02X] of an [int]: its bits as an [unsigned int]. *)
Definition fmt_02X (z : Z) : list Z := pad0 2 (xdigits 8 (u32 z) []).

(** The integer nearest to [m * 2^e], ties to even. *)
Definition round_half_even (m e : Z) : Z :=
  if 0 <=? e then m * 2 ^ e
  else
    let d := 2 ^ (- e) in
    let q := m / d in
    let r := m mod d in
    if (d <? 2 * r) || ((2 * r =? d) && Z.odd q) then q + 1 else q.

(** [%.<prec>f], for [prec] greater than 0. *)
Definition fmt_f (prec : nat) (x : double) : list Z :=
  match x with
  | S754_nan => str "nan"
  | S754_infinity s => if s then str "-inf" else str "inf"
  | S754_zero s => (if s then str "-" else []) ++ str "0." ++ replicate prec 48
  | S754_finite s m e =>
      let n := round_half_even (Zpos m * 10 ^ Z.of_nat prec) e in
      (if s then str "-" else []) ++ fmt_nat (n / 10 ^ Z.of_nat prec) ++ str "." ++
      pad0 prec (fmt_nat (n mod 10 ^ Z.of_nat prec))
  end.

Example fmt_f_example : fmt_f 6 (double_lit 433775 1000) = str "433.775000".
Proof. by vm_compute. Qed.
Example fmt_f_example2 : fmt_f 3 (double_lit 125 1) = str "125.000".
Proof. by vm_compute. Qed.
Example fmt_02X_example : fmt_02X 0x12 = str "12" ∧ fmt_02X 5 = str "05".
Proof. by vm_compute. Qed.

(** ** Printable text *)

Definition printable (l : list Z) : Prop := Forall (λ c, 32 ≤ c < 127) l.

#[export] Instance printable_dec l : Decision (printable l) := _.

Lemma printable_app a b : printable a → printable b → printable (a ++ b).
Proof. intros. by apply Forall_app. Qed.

Lemma printable_no_nul l : printable l → no_nul l.
Proof. intros H. eapply Forall_impl; [exact H|]. cbn. lia. Qed.

Lemma udigits_printable fuel : ∀ z acc, printable acc → printable (udigits fuel z acc).
Proof.
  induction fuel as [|fuel IH]; intros z acc Hacc; cbn; [done|].
  assert (printable ((48 + z mod 10) :: acc)).
  { apply Forall_cons. split; [|done]. pose proof (Z.mod_pos_bound z 10). lia. }
  case_match; [done|by apply IH].
Qed.

Lemma xdigits_printable fuel : ∀ z acc, printable acc → printable (xdigits fuel z acc).
Proof.
  induction fuel as [|fuel IH]; intros z acc Hacc; cbn; [done|].
  assert (printable (hex_digit_upper (z mod 16) :: acc)).
  { apply Forall_cons. split; [|done]. unfold hex_digit_upper.
    pose proof (Z.mod_pos_bound z 16). zcase; lia. }
  case_match; [done|by apply IH].
Qed.

Lemma pad0_printable n l : printable l → printable (pad0 n l).
Proof.
  intros. apply printable_app; [|done]. apply Forall_replicate. lia.
Qed.

Lemma fmt_nat_printable z : printable (fmt_nat z).
Proof. apply udigits_printable. constructor. Qed.

Lemma fmt_u_printable z : printable (fmt_u z).
Proof. apply udigits_printable. constructor. Qed.

Ltac solve_printable_str := apply (bool_decide_unpack _); by vm_compute.

Lemma fmt_d_printable z : printable (fmt_d z).
Proof.
  unfold fmt_d. case_match; [apply printable_app; [solve_printable_str|]|]; apply fmt_nat_printable.
Qed.

Lemma fmt_02X_printable z : printable (fmt_02X z).
Proof. apply pad0_printable, xdigits_printable. constructor. Qed.

Lemma fmt_f_printable prec x : printable (fmt_f prec x).
Proof.
  assert (∀ s : bool, printable (if s then str "-" else [])) as Hs.
  { intros []; [solve_printable_str|constructor]. }
  destruct x as [s|s| |s m e]; cbn [fmt_f].
  - apply printable_app; [done|]. apply printable_app; [solve_printable_str|].
    apply Forall_replicate. lia.
  - destruct s; solve_printable_str.
  - solve_printable_str.
  - apply printable_app; [done|]. apply printable_app; [apply fmt_nat_printable|].
    apply printable_app; [solve_printable_str|]. apply pad0_printable, fmt_nat_printable.
Qed.

Create HintDb printable.
#[export] Hint Resolve printable_app fmt_u_printable fmt_d_printable fmt_02X_printable
  fmt_f_printable fmt_nat_printable pad0_printable : printable.

(** A concatenation of literals and conversions. *)
Ltac solve_printable :=
  repeat first
    [ match goal with |- printable (_ ++ _) => apply printable_app end
    | solve [auto with printable]
    | solve_printable_str ].

(** ** The value of a conversion *)

(** [digits_value] of a text of digits. *)
Lemma digits_value_cons d l :
  digits_value (d :: l) = (d - 48) * 10 ^ len l + digits_value l.
Proof.
  unfold digits_value. cbn [foldl]. rewrite Z.mul_0_r, Z.add_0_l.
  assert (∀ a, foldl (λ acc d, 10 * acc + (d - 48)) a l = a * 10 ^ len l +
    foldl (λ acc d, 10 * acc + (d - 48)) 0 l) as H; [|apply H].
  induction l as [|x l IH]; intros a; cbn [foldl length]; [lia|].
  rewrite IH, (IH (10 * 0 + (x - 48))), Nat2Z.inj_succ, Z.pow_succ_r by lia. lia.
Qed.

Lemma digits_value_app a b :
  digits_value (a ++ b) = digits_value a * 10 ^ len b + digits_value b.
Proof.
  induction a as [|d a IH]; [done|]. cbn [app]. rewrite !digits_value_cons, IH, length_app, Nat2Z.inj_add,
    Z.pow_add_r by lia. lia.
Qed.

Lemma udigits_value fuel : ∀ z acc,
  0 ≤ z < 10 ^ Z.of_nat fuel →
  digits_value (udigits fuel z acc) = z * 10 ^ len acc + digits_value acc.
Proof.
  induction fuel as [|fuel IH]; intros z acc Hz; cbn [udigits].
  { change (10 ^ Z.of_nat 0) with 1 in Hz. assert (z = 0) as -> by lia. lia. }
  pose proof (Z.div_mod z 10 ltac:(lia)) as E. pose proof (Z.mod_pos_bound z 10 ltac:(lia)).
  rewrite Nat2Z.inj_succ, Z.pow_succ_r in Hz by lia.
  destruct (Z.eqb_spec (z / 10) 0) as [E0|E0].
  - rewrite digits_value_cons. nia.
  - rewrite IH, digits_value_cons; cbn [length].
    + rewrite Nat2Z.inj_succ, Z.pow_succ_r by lia. nia.
    + split; [apply Z.div_pos; lia|]. apply Z.div_lt_upper_bound; lia.
Qed.

Lemma fmt_nat_value z : 0 ≤ z → digits_value (fmt_nat z) = z.
Proof.
  intros Hz. unfold fmt_nat. rewrite udigits_value; [cbn; lia|]. split; [done|].
  destruct (decide (z = 0)) as [->|]; [by vm_compute|].
  rewrite Nat2Z.inj_succ, Z2Nat.id by apply Z.log2_nonneg.
  apply Z.lt_le_trans with (2 ^ Z.succ (Z.log2 z)); [by apply Z.log2_spec; lia|].
  apply Z.pow_le_mono_l. lia.
Qed.

Lemma udigits_length fuel : ∀ k z acc,
  (0 < k)%nat → 0 ≤ z < 10 ^ Z.of_nat k → (length (udigits fuel z acc) ≤ k + length acc)%nat.
Proof.
  induction fuel as [|fuel IH]; intros k z acc Hk Hz; cbn [udigits]; [lia|].
  destruct (Z.eqb_spec (z / 10) 0) as [E|E]; [cbn; lia|]. destruct k as [|[|k]]; [lia| |].
  - change (10 ^ Z.of_nat 1) with 10 in Hz. by rewrite Z.div_small in E.
  - etrans; [apply (IH (S k)); [lia|]|cbn; lia].
    rewrite Nat2Z.inj_succ, Z.pow_succ_r in Hz by lia.
    split; [apply Z.div_pos; lia|]. apply Z.div_lt_upper_bound; lia.
Qed.

Lemma fmt_nat_length k z : (0 < k)%nat → 0 ≤ z < 10 ^ Z.of_nat k → (length (fmt_nat z) ≤ k)%nat.
Proof. intros Hk Hz. etrans; [by apply (udigits_length _ k)|]. cbn. lia. Qed.

Lemma pad0_length k l : (length l ≤ k)%nat → length (pad0 k l) = k.
Proof. intros H. unfold pad0. rewrite length_app, length_replicate. lia. Qed.

Lemma pad0_value k l : digits_value (pad0 k l) = digits_value l.
Proof.
  unfold pad0. rewrite digits_value_app. assert (∀ n, digits_value (replicate n 48) = 0) as ->; [|lia].
  intros n. induction n as [|n IH]; [done|]. cbn [replicate]. rewrite digits_value_cons. lia.
Qed.

Lemma udigits_digits fuel : ∀ z acc,
  Forall (λ c, isdigit c = true) acc → Forall (λ c, isdigit c = true) (udigits fuel z acc).
Proof.
  induction fuel as [|fuel IH]; intros z acc Hacc; cbn; [done|].
  assert (Forall (λ c, isdigit c = true) ((48 + z mod 10) :: acc)).
  { apply Forall_cons. split; [|done]. unfold isdigit. pose proof (Z.mod_pos_bound z 10). lia. }
  case_match; [done|by apply IH].
Qed.

Lemma fmt_nat_digits z : Forall (λ c, isdigit c = true) (fmt_nat z).
Proof. by apply udigits_digits. Qed.

Lemma pad0_isdigit k l : Forall (λ c, isdigit c = true) l → Forall (λ c, isdigit c = true) (pad0 k l).
Proof. intros H. unfold pad0. apply Forall_app. split; [by apply Forall_replicate|done]. Qed.

Lemma round_half_even_nonneg m e : 0 ≤ m → 0 ≤ round_half_even m e.
Proof.
  intros Hm. unfold round_half_even. destruct (Z.leb_spec 0 e).
  - apply Z.mul_nonneg_nonneg; [done|]. by apply Z.pow_nonneg.
  - cbv zeta. assert (0 ≤ m / 2 ^ (- e)) by (apply Z.div_pos; [done|]; apply Z.pow_pos_nonneg; lia).
    case_match; lia.
Qed.

(** The number printed by [%.<prec>f] is within half a unit of the last place of the
    value [m * 2^e]. *)
Lemma round_half_even_near m e :
  0 ≤ m → e < 0 → 2 * Z.abs (round_half_even m e * 2 ^ (- e) - m) ≤ 2 ^ (- e).
Proof.
  intros Hm He. unfold round_half_even. rewrite (proj2 (Z.leb_gt 0 e)) by done.
  assert (0 < 2 ^ (- e)) as Hd by (apply Z.pow_pos_nonneg; lia). set (d := 2 ^ (- e)) in *.
  pose proof (Z.div_mod m d ltac:(lia)) as E. pose proof (Z.mod_pos_bound m d Hd).
  cbv zeta. set (q := m / d) in *. set (r := m mod d) in *.
  destruct (Z.ltb_spec d (2 * r)), (Z.eqb_spec (2 * r) d), (Z.odd q); cbn [orb andb]; nia.
Qed.
