(* ===== verification/Double.v ===== *)
(** The rounding of decimal numbers to [double]s: how far the nearest [double] can be
    from a quotient, and that six decimals of it give the quotient back. *)
From S2P Require Import Prelude Tnc Printf.
From Stdlib Require Import SpecFloat.

(** ** Shifting a mantissa *)

Lemma digits2_pos_spec p : 2 ^ (Zpos (digits2_pos p) - 1) ≤ Zpos p < 2 ^ Zpos (digits2_pos p).
Proof.
  induction p as [p IH|p IH|]; cbn [digits2_pos]; [| |by vm_compute].
  - rewrite Pos2Z.inj_succ, Z.pow_succ_r, <-Z.add_1_r, Z.add_simpl_r by lia.
    rewrite <-(Z.succ_pred (Z.pos (digits2_pos p))) at 1. rewrite Z.pow_succ_r, <-Z.sub_1_r by lia. lia.
  - rewrite Pos2Z.inj_succ, Z.pow_succ_r, <-Z.add_1_r, Z.add_simpl_r by lia.
    rewrite <-(Z.succ_pred (Z.pos (digits2_pos p))) at 1. rewrite Z.pow_succ_r, <-Z.sub_1_r by lia. lia.
Qed.

Lemma Zdigits2_spec m : 0 < m → 2 ^ (Zdigits2 m - 1) ≤ m < 2 ^ Zdigits2 m.
Proof. destruct m as [|p|p]; [lia| |lia]. intros _. apply digits2_pos_spec. Qed.

Lemma Zdigits2_nonneg m : 0 ≤ Zdigits2 m.
Proof. by destruct m. Qed.

Lemma shr_1_m r : 0 ≤ shr_m r → shr_m (shr_1 r) = shr_m r / 2.
Proof.
  destruct r as [[|[p|p|]|p] b s]; cbn [shr_m shr_1]; intros H; try done.
  - apply Z.div_unique with 1; lia.
  - apply Z.div_unique with 0; lia.
Qed.

Lemma iter_shr_m p : ∀ r, 0 ≤ shr_m r → shr_m (iter_pos shr_1 p r) = shr_m r / 2 ^ Zpos p.
Proof.
  assert (∀ a b, 0 ≤ a → 0 ≤ a / 2 ^ Zpos b) as Hpos.
  { intros. apply Z.div_pos; lia. }
  induction p as [p IH|p IH|]; intros r Hr; cbn [iter_pos].
  - assert (2 ^ Zpos p~1 = 2 * 2 ^ Zpos p * 2 ^ Zpos p) as ->.
    { rewrite (Pos2Z.inj_xI p), Z.add_1_r, Z.pow_succ_r by lia.
      rewrite <-(Z.add_diag (Zpos p)), Z.pow_add_r by lia. lia. }
    pose proof (shr_1_m r Hr) as E1.
    assert (0 ≤ shr_m (shr_1 r)) as H1 by (rewrite E1; apply Z.div_pos; lia).
    rewrite IH, IH, E1; [|done|rewrite IH by done; by apply Hpos]. rewrite !Z.div_div by lia. f_equal. lia.
  - rewrite IH, IH; [|done|rewrite IH by done; by apply Hpos]. rewrite Z.div_div by lia.
    by rewrite <-Z.pow_add_r, Z.add_diag by lia.
  - by rewrite shr_1_m.
Qed.

Abbreviation fexp64 := (fexp 53 1024).
Abbreviation shr_fexp64 := (shr_fexp 53 1024).

(** How far [shr_fexp] shifts. *)
Definition shift_of (m e : Z) : Z := Z.max 0 (fexp64 (Zdigits2 m + e) - e).

Lemma shr_fexp_spec m e l :
  0 ≤ m → shr_m (shr_fexp64 m e l).1 = m / 2 ^ shift_of m e ∧ (shr_fexp64 m e l).2 = e + shift_of m e.
Proof.
  intros Hm. unfold shr_fexp, shr, shift_of.
  assert (shr_m (shr_record_of_loc m l) = m) as E by by destruct l as [|[]].
  destruct (fexp64 (Zdigits2 m + e) - e) as [|p|p]; cbn [fst snd].
  - rewrite E. cbn [Z.max Z.compare]. rewrite Z.pow_0_r, Z.div_1_r. lia.
  - rewrite iter_shr_m, E by by rewrite E. done.
  - rewrite E. cbn [Z.max Z.compare]. rewrite Z.pow_0_r, Z.div_1_r. lia.
Qed.

(** What is left fits 53 bits. *)
Lemma shift_bound m e : 0 ≤ m → m / 2 ^ shift_of m e < 2 ^ 53.
Proof.
  intros Hm. assert (0 ≤ shift_of m e) by (unfold shift_of; lia).
  apply Z.div_lt_upper_bound; [by apply Z.pow_pos_nonneg|].
  destruct (decide (m = 0)) as [->|]; [by apply Z.mul_pos_pos; [apply Z.pow_pos_nonneg|]|].
  rewrite <-Z.pow_add_r by lia. eapply Z.lt_le_trans; [apply Zdigits2_spec; lia|].
  apply Z.pow_le_mono_r; [lia|]. unfold shift_of, fexp. lia.
Qed.

Lemma round_nearest_even_cases m l : round_nearest_even m l = m ∨ round_nearest_even m l = m + 1.
Proof. destruct l as [|[]]; cbn; auto. case_match; auto. Qed.

(** The result of rounding has at most 53 bits. *)
Lemma binary_round_aux_mantissa s m e l s' m' e' :
  0 ≤ m → binary_round_aux 53 1024 s m e l = S754_finite s' m' e' → Zpos m' < 2 ^ 53.
Proof.
  intros Hm. unfold binary_round_aux. pose proof (shr_fexp_spec m e l Hm) as [E1 _].
  destruct (shr_fexp64 m e l) as [r1 e1]. cbn [fst] in E1.
  set (M := round_nearest_even _ _).
  assert (0 ≤ M) as HM.
  { assert (0 ≤ shr_m r1). { rewrite E1. apply Z.div_pos; [done|]. apply Z.pow_pos_nonneg; [lia|].
      unfold shift_of. lia. }
    unfold M. destruct (round_nearest_even_cases (shr_m r1) (loc_of_shr_record r1)) as [-> | ->]; lia. }
  clearbody M. pose proof (shr_fexp_spec M e1 loc_Exact HM) as [E2 _].
  destruct (shr_fexp64 M e1 loc_Exact) as [r2 e2]. cbn [fst] in E2.
  pose proof (shift_bound M e1 HM) as Hb. rewrite <-E2 in Hb.
  destruct (shr_m r2) as [|p|p]; [done| |done]. destruct (e2 <=? 1024 - 53); [|done]. by intros [= _ -> _].
Qed.

Lemma double_lit_mantissa n d s m e : double_lit n d = S754_finite s m e → Zpos m < 2 ^ 53.
Proof.
  unfold double_lit, SFdiv. destruct (SFdiv_core_binary 53 1024 (Z.pos n) 0 (Z.pos d) 0) as [[q e'] l] eqn:E.
  apply binary_round_aux_mantissa. unfold SFdiv_core_binary in E.
  destruct (Z.div_eucl _ _) as [q' r] eqn:Eq in E. injection E as <- <- <-.
  apply (f_equal fst) in Eq. cbn [fst] in Eq. change (Z.div_eucl ?a ?b).1 with (a / b) in Eq.
  rewrite <-Eq. apply Z.div_pos; [|lia]. case_match; [lia| |lia]. apply Z.shiftl_nonneg. lia.
Qed.

(** ** The double nearest to a quotient *)

Lemma Zdigits2_unique m k : 2 ^ (k - 1) ≤ m < 2 ^ k → 0 < k → Zdigits2 m = k.
Proof.
  intros [H1 H2] Hk. assert (0 < m) as Hm.
  { eapply Z.lt_le_trans; [|exact H1]. apply Z.pow_pos_nonneg; lia. }
  destruct (Zdigits2_spec m Hm) as [H3 H4]. pose proof (Zdigits2_nonneg m).
  assert (k - 1 < Zdigits2 m) by (apply (Z.pow_lt_mono_r_iff 2); lia).
  assert (Zdigits2 m - 1 < k) by (apply (Z.pow_lt_mono_r_iff 2); lia). lia.
Qed.

(** Rounding a 53 or 54 bit mantissa in the middle of the exponent range. *)
Lemma binary_round_aux_spec q e l :
  2 ^ 52 ≤ q < 2 ^ 54 → -1000 ≤ e ≤ 900 →
  ∃ m k1 k2, binary_round_aux 53 1024 false q e l = S754_finite false m (e + k1 + k2) ∧
    0 ≤ k1 ≤ 1 ∧ 0 ≤ k2 ≤ 1 ∧ 2 ^ 52 ≤ Zpos m < 2 ^ 53 ∧
    (Zpos m * 2 ^ k2 = q / 2 ^ k1 ∨ Zpos m * 2 ^ k2 = q / 2 ^ k1 + 1).
Proof.
  intros Hq He. unfold binary_round_aux.
  destruct (shr_fexp_spec q e l) as [E1 E1']; [lia|]. destruct (shr_fexp64 q e l) as [r1 e1].
  cbn [fst snd] in E1, E1'. subst e1. set (k1 := shift_of q e) in *.
  assert (0 ≤ k1 ≤ 1 ∧ 2 ^ 52 ≤ q / 2 ^ k1 < 2 ^ 53) as [Hk1 HM0].
  { unfold k1, shift_of. destruct (decide (q < 2 ^ 53)).
    - rewrite (Zdigits2_unique q 53) by lia.
      replace (Z.max 0 (fexp64 (53 + e) - e)) with 0 by (unfold fexp, emin; lia).
      rewrite Z.pow_0_r, Z.div_1_r. lia.
    - rewrite (Zdigits2_unique q 54) by lia.
      replace (Z.max 0 (fexp64 (54 + e) - e)) with 1 by (unfold fexp, emin; lia).
      split; [lia|]. split; [apply Z.div_le_lower_bound; lia|apply Z.div_lt_upper_bound; lia]. }
  set (M := round_nearest_even _ _).
  assert (M = q / 2 ^ k1 ∨ M = q / 2 ^ k1 + 1) as HM.
  { unfold M. rewrite <-E1. apply round_nearest_even_cases. }
  clearbody M. destruct (shr_fexp_spec M (e + k1) loc_Exact) as [E2 E2']; [lia|].
  destruct (shr_fexp64 M (e + k1) loc_Exact) as [r2 e2]. cbn [fst snd] in E2, E2'. subst e2.
  set (k2 := shift_of M (e + k1)) in *.
  assert (0 ≤ k2 ≤ 1 ∧ 2 ^ 52 ≤ M / 2 ^ k2 < 2 ^ 53 ∧ M / 2 ^ k2 * 2 ^ k2 = M) as (Hk2 & Hm & Hex).
  { unfold k2, shift_of. destruct (decide (M < 2 ^ 53)).
    - rewrite (Zdigits2_unique M 53) by lia.
      replace (Z.max 0 (fexp64 (53 + (e + k1)) - (e + k1))) with 0 by (unfold fexp, emin; lia).
      rewrite Z.pow_0_r, Z.div_1_r. lia.
    - assert (M = 2 ^ 53) as -> by lia. change (Zdigits2 (2 ^ 53)) with 54.
      replace (Z.max 0 (fexp64 (54 + (e + k1)) - (e + k1))) with 1 by (unfold fexp, emin; lia).
      by vm_compute. }
  rewrite E2. destruct (M / 2 ^ k2) as [|m|m]; [lia| |lia].
  exists m, k1, k2. rewrite (proj2 (Z.leb_le _ _)) by lia. rewrite Hex. auto.
Qed.

(** The mantissa has 53 bits and is off by less than one unit. *)
Lemma double_lit_close n d :
  Zpos n < 2 ^ 50 * Zpos d → Zpos d < 2 ^ 200 * Zpos n →
  ∃ m e, double_lit n d = S754_finite false m e ∧ e < 0 ∧ 2 ^ 52 ≤ Zpos m < 2 ^ 53 ∧
    Z.abs (Zpos m * Zpos d - Zpos n * 2 ^ (- e)) ≤ Zpos d.
Proof.
  intros Hn Hd. unfold double_lit, SFdiv, SFdiv_core_binary. cbn [xorb].
  destruct (digits2_pos_spec n) as [Hn1 Hn2]. destruct (digits2_pos_spec d) as [Hd1 Hd2].
  cbn [Zdigits2]. set (d1 := Zpos (digits2_pos n)) in *. set (d2 := Zpos (digits2_pos d)) in *.
  assert (0 < d1 ∧ 0 < d2) as [P1 P2] by (split; apply Pos2Z.is_pos).
  assert (d1 - d2 ≤ 50) as B1.
  { assert (d1 - 1 < 50 + d2); [|lia]. apply (Z.pow_lt_mono_r_iff 2); [lia..|].
    rewrite (Z.pow_add_r 2 50) by lia. nia. }
  assert (-200 ≤ d1 - d2) as B2.
  { assert (d2 - 1 < 200 + d1); [|lia]. apply (Z.pow_lt_mono_r_iff 2); [lia..|].
    rewrite (Z.pow_add_r 2 200) by lia. nia. }
  replace (Z.min _ _) with (d1 - d2 - 53) by (unfold fexp, emin; lia).
  set (s := 53 - (d1 - d2)). replace (0 - 0 - (d1 - d2 - 53)) with s by (unfold s; lia).
  assert (0 < s) as Hs by (unfold s; lia). destruct s as [|sp|sp] eqn:Es; [lia| |lia].
  rewrite <-Es in *. clear Hs. assert (0 < s) as Hs by lia.
  rewrite Z.shiftl_mul_pow2 by lia. set (N := Zpos n * 2 ^ s).
  destruct (Z.div_eucl N (Zpos d)) as [q r] eqn:Eq.
  pose proof (Z_div_mod N (Zpos d) ltac:(lia)) as Hdm. rewrite Eq in Hdm. destruct Hdm as [HN Hr].
  assert (2 ^ (52 + d2) ≤ N < 2 ^ (53 + d2)) as [N1 N2].
  { unfold N. replace (52 + d2) with (d1 - 1 + s) by (unfold s in *; lia).
    replace (53 + d2) with (d1 + s) by (unfold s in *; lia). rewrite !Z.pow_add_r by lia.
    assert (0 < 2 ^ s) by (apply Z.pow_pos_nonneg; lia). nia. }
  rewrite Z.pow_add_r in N1, N2 by lia.
  replace (2 ^ d2) with (2 * 2 ^ (d2 - 1)) in N2 by (rewrite <-Z.pow_succ_r by lia; f_equal; lia).
  assert (2 ^ 52 ≤ q < 2 ^ 54) as Hq by nia.
  destruct (binary_round_aux_spec q (d1 - d2 - 53) (new_location (Zpos d) r))
    as (m & k1 & k2 & -> & Hk1 & Hk2 & Hm & HM); [done|lia|].
  exists m, (d1 - d2 - 53 + k1 + k2). split; [done|]. split; [unfold s in *; lia|]. split; [done|].
  replace (- (d1 - d2 - 53 + k1 + k2)) with (s - k1 - k2) by (unfold s; lia).
  assert (N = Zpos n * 2 ^ (s - k1 - k2) * 2 ^ k1 * 2 ^ k2) as EN.
  { unfold N. rewrite <-!Z.mul_assoc, <-!Z.pow_add_r by lia. do 2 f_equal. lia. }
  clearbody N s. clear -Hk1 Hk2 HM EN HN Hr.
  set (T := Zpos n * 2 ^ (s - k1 - k2)) in *. clearbody T.
  assert (k1 = 0 ∨ k1 = 1) as [-> | ->] by lia; assert (k2 = 0 ∨ k2 = 1) as [-> | ->] by lia;
    rewrite ?Z.pow_0_r, ?Z.pow_1_r, ?Z.div_1_r, ?Z.mul_1_r in *;
    try (pose proof (Z.div_mod q 2 ltac:(lia)); pose proof (Z.mod_pos_bound q 2 ltac:(lia))); nia.
Qed.

(** A quantity less than half a unit off is rounded away. *)
Lemma round_half_even_unique m e r :
  e < 0 → 2 * Z.abs (m - r * 2 ^ (- e)) < 2 ^ (- e) → round_half_even m e = r.
Proof.
  intros He H. unfold round_half_even. rewrite (proj2 (Z.leb_gt _ _)) by done.
  set (D := 2 ^ (- e)) in *. assert (0 < D) as HD by lia. clearbody D.
  pose proof (Z.div_mod m D ltac:(lia)) as Em. pose proof (Z.mod_pos_bound m D HD) as Hr.
  destruct (decide (r * D ≤ m)).
  - assert (m / D = r) as Eq by (symmetry; apply Z.div_unique with (m - r * D); lia).
    rewrite Eq in *. rewrite (proj2 (Z.ltb_ge _ _)), (proj2 (Z.eqb_neq _ _)) by lia. done.
  - assert (m / D = r - 1) as Eq by (symmetry; apply Z.div_unique with (m - (r - 1) * D); lia).
    rewrite Eq in *. rewrite (proj2 (Z.ltb_lt _ _)) by lia. cbn. lia.
Qed.

(** [p] decimals of the double nearest to [n / d] give [n / d] back when it has no more. *)
Lemma double_lit_decimals p n d r :
  0 ≤ p ≤ 50 → Zpos n * 10 ^ p = r * Zpos d → r < 2 ^ 50 →
  ∃ m e, double_lit n d = S754_finite false m e ∧ round_half_even (Zpos m * 10 ^ p) e = r.
Proof.
  intros Hp Er Hr. assert (1 ≤ 10 ^ p) as H1 by (pose proof (Z.pow_pos_nonneg 10 p); lia).
  assert (10 ^ p ≤ 10 ^ 50) as H2 by (apply Z.pow_le_mono_r; lia).
  assert (0 < r) as Hr0 by nia.
  destruct (double_lit_close n d) as (m & e & -> & He & Hm & Hc); [nia| |].
  { assert (Zpos d ≤ r * Zpos d) by nia. assert (10 ^ p < 2 ^ 200); [|nia].
    eapply Z.le_lt_trans; [exact H2|done]. }
  exists m, e. split; [done|]. apply round_half_even_unique; [done|].
  assert (0 < 2 ^ (- e)) as HD by (apply Z.pow_pos_nonneg; lia). set (D := 2 ^ (- e)) in *. clearbody D.
  set (P := 10 ^ p) in *. clearbody P.
  assert (Z.abs (Zpos m * P - r * D) ≤ P) as Hc'.
  { assert (Z.abs (Zpos m * P - r * D) * Zpos d = Z.abs (Zpos m * Zpos d - Zpos n * D) * P) by nia. nia. }
  assert (2 * P < D); [|lia]. nia.
Qed.

(** The text of a decimal number: [p] decimals of [n / d]. *)
Lemma fmt_f_double_lit (p : nat) n d r :
  (p ≤ 50)%nat → Zpos n * 10 ^ Z.of_nat p = r * Zpos d → r < 2 ^ 50 →
  fmt_f p (double_lit n d) =
    fmt_nat (r / 10 ^ Z.of_nat p) ++ str "." ++ pad0 p (fmt_nat (r mod 10 ^ Z.of_nat p)).
Proof.
  intros Hp Er Hr. destruct (double_lit_decimals (Z.of_nat p) n d r) as (m & e & -> & E); [lia|done..|].
  cbn [fmt_f app]. by rewrite E.
Qed.
