(* ===== verification/TxQueue.v ===== *)
(** The outgoing TX queue and its policy (bridge_tx_queue.c): a ring buffer of 16
    slots that implements a FIFO list of at most [cfg->tx_queue_len] packets, and the
    decision on the packet at the head.

    Clock readings ([bridge_runtime_now_ms]) are arguments. *)
From S2P Require Import Prelude Tnc.
From Stdlib Require Import ZifyNat.

Definition LHKT_TX_QUEUE_MAX : nat := 16.

(** [packet] holds the first [packet_len] bytes of the array; the rest is zero. *)
Record bridge_tx_item_t := TxItem {
  ti_packet : list Z;
  ti_queued_ms : Z;
  ti_tx_wait_start_ms : Z;
}.

Record bridge_tx_queue_t := TxQueue {
  tq_items : list bridge_tx_item_t;
  tq_head : nat;
  tq_count : nat;
}.

#[export] Instance bridge_tx_item_eq_dec : EqDecision bridge_tx_item_t.
Proof. solve_decision. Defined.
#[export] Instance bridge_tx_item_inhabited : Inhabited bridge_tx_item_t :=
  populate (TxItem [] 0 0).

(** A slot after [memset]. *)
Definition tx_item_zero : bridge_tx_item_t := TxItem [] 0 0.

Definition bridge_tx_queue_init : bridge_tx_queue_t :=
  TxQueue (replicate LHKT_TX_QUEUE_MAX tx_item_zero) 0 0.

Definition bridge_tx_queue_limit (cfg : lhkt_config_t) : nat :=
  if tx_queue_len cfg <? 1 then 1
  else if Z.of_nat LHKT_TX_QUEUE_MAX <? tx_queue_len cfg then LHKT_TX_QUEUE_MAX
  else Z.to_nat (tx_queue_len cfg).

Definition bridge_tx_queue_empty (q : bridge_tx_queue_t) : bool := (tq_count q =? 0)%nat.

(** The pointer to the head slot, as the item it points to; writes through the
    pointer are [bridge_tx_queue_set_head]. *)
Definition bridge_tx_queue_head (q : bridge_tx_queue_t) : option bridge_tx_item_t :=
  if (tq_count q =? 0)%nat then None else Some (tq_items q !!! tq_head q).

Definition bridge_tx_queue_set_head (item : bridge_tx_item_t) (q : bridge_tx_queue_t) :
    bridge_tx_queue_t :=
  TxQueue (<[tq_head q := item]> (tq_items q)) (tq_head q) (tq_count q).

Definition bridge_tx_queue_pop (q : bridge_tx_queue_t) : bridge_tx_queue_t :=
  if (tq_count q =? 0)%nat then q
  else TxQueue (<[tq_head q := tx_item_zero]> (tq_items q))
         ((tq_head q + 1) mod LHKT_TX_QUEUE_MAX) (tq_count q - 1).

Definition bridge_tx_queue_push (q : bridge_tx_queue_t) (cfg : lhkt_config_t)
    (packet : list Z) (now : Z) : res bridge_tx_queue_t :=
  if (len packet =? 0) || (LHKT_LORAHAM_TX_MAX <? len packet) then Err LHKT_ERR_FORMAT
  else if (bridge_tx_queue_limit cfg <=? tq_count q)%nat then Err LHKT_ERR_NOSPACE
  else
    let index := ((tq_head q + tq_count q) mod LHKT_TX_QUEUE_MAX)%nat in
    Ok (TxQueue (<[index := TxItem packet now 0]> (tq_items q)) (tq_head q) (tq_count q + 1)).

(** ** The decision on the head *)

Inductive tx_decision := TX_WAIT | TX_SEND | TX_DROP.

#[export] Instance tx_decision_eq_dec : EqDecision tx_decision.
Proof. solve_decision. Defined.

(** The decision and the item as the call leaves it; [tx_busy] is
    [conf_state && conf_state->tx_busy]. *)
Definition bridge_tx_head_decision (cfg : lhkt_config_t) (tx_busy : bool)
    (item : bridge_tx_item_t) (now : Z) : tx_decision * bridge_tx_item_t :=
  if (0 <? tx_packet_ttl_ms cfg) && (tx_packet_ttl_ms cfg <=? now - ti_queued_ms item) then
    (TX_DROP, item)
  else if tx_busy then
    let start := if ti_tx_wait_start_ms item =? 0 then now else ti_tx_wait_start_ms item in
    let item' := TxItem (ti_packet item) (ti_queued_ms item) start in
    if tx_busy_timeout_ms cfg <=? now - start then (TX_DROP, item') else (TX_WAIT, item')
  else (TX_SEND, TxItem (ti_packet item) (ti_queued_ms item) 0).

(** ** Specification: a FIFO list *)

Module Spec.
(** The stored packets, oldest first. *)
Definition contents (q : bridge_tx_queue_t) : list bridge_tx_item_t :=
  map (λ i, tq_items q !!! ((tq_head q + i) mod LHKT_TX_QUEUE_MAX)%nat) (seq 0 (tq_count q)).

(** The ring is inside its array, unused slots are zero, a stored packet fits its
    slot. *)
Record wf (q : bridge_tx_queue_t) : Prop := {
  wf_items : length (tq_items q) = LHKT_TX_QUEUE_MAX;
  wf_head : (tq_head q < LHKT_TX_QUEUE_MAX)%nat;
  wf_count : (tq_count q ≤ LHKT_TX_QUEUE_MAX)%nat;
  wf_packets : Forall (λ it, 1 ≤ len (ti_packet it) ≤ LHKT_LORAHAM_TX_MAX) (contents q);
}.

Definition push (cfg : lhkt_config_t) (packet : list Z) (now : Z) (l : list bridge_tx_item_t) :
    res (list bridge_tx_item_t) :=
  if (len packet =? 0) || (255 <? len packet) then Err LHKT_ERR_FORMAT
  else if Z.max 1 (Z.min 16 (tx_queue_len cfg)) <=? len l then Err LHKT_ERR_NOSPACE
  else Ok (l ++ [TxItem packet now 0]).
End Spec.

Section ring.
#[local] Ltac Zify.zify_post_hook ::= Z.to_euclidean_division_equations.

Lemma slot_lt i : (i mod LHKT_TX_QUEUE_MAX < LHKT_TX_QUEUE_MAX)%nat.
Proof. unfold LHKT_TX_QUEUE_MAX. lia. Qed.

Lemma slot_small i : (i < LHKT_TX_QUEUE_MAX)%nat → (i mod LHKT_TX_QUEUE_MAX = i)%nat.
Proof. unfold LHKT_TX_QUEUE_MAX. lia. Qed.

Lemma slot_ne h i j :
  (i < j)%nat → (j < i + LHKT_TX_QUEUE_MAX)%nat →
  ((h + i) mod LHKT_TX_QUEUE_MAX ≠ (h + j) mod LHKT_TX_QUEUE_MAX)%nat.
Proof. unfold LHKT_TX_QUEUE_MAX. lia. Qed.

Lemma slot_step h i :
  (((h + 1) mod LHKT_TX_QUEUE_MAX + i) mod LHKT_TX_QUEUE_MAX =
   (h + S i) mod LHKT_TX_QUEUE_MAX)%nat.
Proof. unfold LHKT_TX_QUEUE_MAX. lia. Qed.
End ring.

Lemma contents_length q : length (Spec.contents q) = tq_count q.
Proof. unfold Spec.contents. by rewrite length_map, length_seq. Qed.

Lemma bridge_tx_queue_init_wf : Spec.wf bridge_tx_queue_init ∧ Spec.contents bridge_tx_queue_init = [].
Proof. split; [|done]. split; cbn; unfold LHKT_TX_QUEUE_MAX; try lia; constructor. Qed.

(** Writing a slot outside the first [n] used ones does not change them. *)
Lemma contents_insert items h n k x :
  (n ≤ k < LHKT_TX_QUEUE_MAX)%nat →
  Spec.contents (TxQueue (<[((h + k) mod LHKT_TX_QUEUE_MAX)%nat := x]> items) h n) =
  Spec.contents (TxQueue items h n).
Proof.
  intros Hk. unfold Spec.contents; cbn [tq_items tq_head tq_count]. apply map_ext_in.
  intros i Hi%in_seq. apply list_lookup_total_insert_ne. intros E. symmetry in E. revert E.
  apply slot_ne; lia.
Qed.

(** The head slot and the rest. *)
Lemma contents_cons q c :
  tq_count q = S c →
  Spec.contents q = tq_items q !!! (tq_head q mod LHKT_TX_QUEUE_MAX)%nat ::
    Spec.contents (TxQueue (tq_items q) ((tq_head q + 1) mod LHKT_TX_QUEUE_MAX) c).
Proof.
  intros E. unfold Spec.contents; cbn [tq_items tq_head tq_count]. rewrite E. cbn [seq map].
  rewrite Nat.add_0_r. f_equal. rewrite <-seq_shift, map_map. apply map_ext. intros i.
  by rewrite slot_step.
Qed.

(** The last used slot. *)
Lemma contents_snoc items h n :
  Spec.contents (TxQueue items h (n + 1)) =
  Spec.contents (TxQueue items h n) ++ [items !!! ((h + n) mod LHKT_TX_QUEUE_MAX)%nat].
Proof.
  unfold Spec.contents; cbn [tq_items tq_head tq_count]. by rewrite seq_app, map_app.
Qed.

Lemma contents_wrap q :
  Spec.wf q → (tq_head q mod LHKT_TX_QUEUE_MAX = tq_head q)%nat.
Proof. intros [_ H _ _]. by apply slot_small. Qed.

Lemma contents_insert_head q x :
  Spec.wf q → tq_count q ≠ 0%nat →
  Spec.contents (bridge_tx_queue_set_head x q) = x :: tail (Spec.contents q).
Proof.
  intros Hwf Hc. destruct (tq_count q) as [|c] eqn:E; [done|].
  rewrite (contents_cons q c) by done.
  rewrite (contents_cons (bridge_tx_queue_set_head x q) c) by done. cbn [tq_items tq_head bridge_tx_queue_set_head tail].
  pose proof (contents_wrap q Hwf) as Hw. rewrite Hw. f_equal.
  - apply list_lookup_total_insert_eq. rewrite (Spec.wf_items _ Hwf). apply Hwf.
  - unfold Spec.contents; cbn [tq_items tq_head tq_count]. apply map_ext_in.
    intros i Hi%in_seq. rewrite slot_step. apply list_lookup_total_insert_ne.
    rewrite <-Hw at 1. rewrite <-(Nat.add_0_r (tq_head q)) at 1. apply slot_ne; [lia|].
    pose proof (Spec.wf_count _ Hwf). lia.
Qed.

Lemma bridge_tx_queue_limit_eq cfg :
  Z.of_nat (bridge_tx_queue_limit cfg) = Z.max 1 (Z.min 16 (tx_queue_len cfg)).
Proof.
  unfold bridge_tx_queue_limit, LHKT_TX_QUEUE_MAX. repeat zcase; lia.
Qed.

(** ** Refinement *)

Lemma set_head_wf q x :
  Spec.wf q → tq_count q ≠ 0%nat → 1 ≤ len (ti_packet x) ≤ LHKT_LORAHAM_TX_MAX →
  Spec.wf (bridge_tx_queue_set_head x q).
Proof.
  intros Hwf Hc Hx. pose proof (contents_insert_head q x Hwf Hc) as E. destruct Hwf as [H1 H2 H3 H4].
  split; [cbn; by rewrite length_insert|done|done|]. rewrite E. apply Forall_cons. split; [done|].
  destruct (Spec.contents q); [constructor|]. by apply Forall_cons in H4 as [_ H4].
Qed.

Lemma pop_contents q :
  Spec.wf q → Spec.contents (bridge_tx_queue_pop q) = tail (Spec.contents q).
Proof.
  intros Hwf. unfold bridge_tx_queue_pop. destruct (tq_count q) as [|c] eqn:E; cbn [Nat.eqb].
  { unfold Spec.contents. by rewrite E. }
  rewrite (contents_cons q c E). cbn [tail]. replace (S c - 1)%nat with c by lia.
  unfold Spec.contents; cbn [tq_items tq_head tq_count]. apply map_ext_in.
  intros i Hi%in_seq. rewrite slot_step. apply list_lookup_total_insert_ne.
  rewrite <-(contents_wrap q Hwf) at 1. rewrite <-(Nat.add_0_r (tq_head q)) at 1.
  apply slot_ne; [lia|]. pose proof (Spec.wf_count _ Hwf). lia.
Qed.

Lemma pop_wf q : Spec.wf q → Spec.wf (bridge_tx_queue_pop q).
Proof.
  intros Hwf. pose proof (pop_contents q Hwf) as E. revert E.
  unfold bridge_tx_queue_pop. destruct (tq_count q) as [|c] eqn:Ec; cbn [Nat.eqb]; [done|].
  intros E. destruct Hwf as [H1 H2 H3 H4].
  split; cbn [tq_items tq_head tq_count]; [by rewrite length_insert|apply slot_lt|lia|].
  rewrite E. destruct (Spec.contents q); [constructor|]. by apply Forall_cons in H4 as [_ H4].
Qed.

Lemma push_spec q cfg packet now :
  Spec.wf q →
  match bridge_tx_queue_push q cfg packet now with
  | Err e => Spec.push cfg packet now (Spec.contents q) = Err e
  | Ok q' => Spec.push cfg packet now (Spec.contents q) = Ok (Spec.contents q') ∧ Spec.wf q'
  end.
Proof.
  intros Hwf. unfold bridge_tx_queue_push, Spec.push, LHKT_LORAHAM_TX_MAX.
  rewrite contents_length, <-bridge_tx_queue_limit_eq.
  destruct (Z.eqb_spec (len packet) 0), (Z.ltb_spec 255 (len packet)); cbn [orb]; try done.
  destruct (Nat.leb_spec (bridge_tx_queue_limit cfg) (tq_count q)) as [Hl|Hl];
    zdecide; [done|].
  pose proof (bridge_tx_queue_limit_eq cfg) as Hlim.
  set (i := ((tq_head q + tq_count q) mod LHKT_TX_QUEUE_MAX)%nat).
  assert (Spec.contents (TxQueue (<[i:=TxItem packet now 0]> (tq_items q)) (tq_head q) (tq_count q + 1)) =
          Spec.contents q ++ [TxItem packet now 0]) as E.
  { unfold i. rewrite contents_snoc, contents_insert.
    - rewrite list_lookup_total_insert_eq by (rewrite (Spec.wf_items _ Hwf); apply slot_lt).
      by destruct q.
    - split; [done|]. unfold LHKT_TX_QUEUE_MAX. lia. }
  split; [by rewrite E|]. destruct Hwf as [H1 H2 H3 H4].
  split; cbn [tq_items tq_head tq_count]; [by rewrite length_insert|done| |].
  - unfold LHKT_TX_QUEUE_MAX. lia.
  - rewrite E. apply Forall_app. split; [done|]. apply Forall_singleton. cbn.
    unfold LHKT_LORAHAM_TX_MAX. lia.
Qed.

Lemma head_contents q :
  Spec.wf q → bridge_tx_queue_head q = head (Spec.contents q).
Proof.
  intros Hwf. unfold bridge_tx_queue_head. destruct (tq_count q) as [|c] eqn:E; cbn [Nat.eqb].
  - unfold Spec.contents. by rewrite E.
  - rewrite (contents_cons q c E). cbn [head]. by rewrite (contents_wrap q Hwf).
Qed.

(** C27. The ring buffer implements a FIFO list: from a well-formed queue, [head] is
    the oldest packet, [empty] says whether there is none, [pop] removes exactly the
    oldest, a write through the head pointer replaces it and [push] appends a packet
    of 1 to 255 bytes at the end unless [cfg->tx_queue_len] (at least 1, at most 16)
    packets wait, with the C error codes otherwise; all of them keep the queue
    well-formed. *)
Theorem tx_queue_refines_fifo q cfg packet now x (Hwf : Spec.wf q) :
  bridge_tx_queue_head q = head (Spec.contents q) ∧
  bridge_tx_queue_empty q = bool_decide (Spec.contents q = []) ∧
  Spec.contents (bridge_tx_queue_pop q) = tail (Spec.contents q) ∧ Spec.wf (bridge_tx_queue_pop q) ∧
  (Spec.contents q ≠ [] → 1 ≤ len (ti_packet x) ≤ LHKT_LORAHAM_TX_MAX →
   Spec.contents (bridge_tx_queue_set_head x q) = x :: tail (Spec.contents q) ∧
   Spec.wf (bridge_tx_queue_set_head x q)) ∧
  match bridge_tx_queue_push q cfg packet now with
  | Err e => Spec.push cfg packet now (Spec.contents q) = Err e
  | Ok q' => Spec.push cfg packet now (Spec.contents q) = Ok (Spec.contents q') ∧ Spec.wf q'
  end.
Proof.
  assert (Spec.contents q ≠ [] ↔ tq_count q ≠ 0%nat) as Hne.
  { rewrite <-(contents_length q). by destruct (Spec.contents q). }
  split_and!.
  - by apply head_contents.
  - unfold bridge_tx_queue_empty. rewrite <-(contents_length q). by destruct (Spec.contents q).
  - by apply pop_contents.
  - by apply pop_wf.
  - intros Hc Hx. rewrite Hne in Hc. split; [by apply contents_insert_head|by apply set_head_wf].
  - by apply push_spec.
Qed.

Lemma tx_queue_refines_fifo_witness :
  Spec.contents (bridge_tx_queue_pop (TxQueue (<[15%nat := TxItem [7] 5 0]>
    (<[0%nat := TxItem [8] 6 0]> (replicate 16 tx_item_zero))) 15 2)) = [TxItem [8] 6 0].
Proof.
  refine (eq_trans (proj1 (proj2 (proj2 (tx_queue_refines_fifo _
    (lhkt_config_defaults (λ _, None) (λ _, false)) [] 0 tx_item_zero _)))) _); [|by vm_compute].
  split; [by vm_compute|cbn; unfold LHKT_TX_QUEUE_MAX; lia..|]. by apply (bool_decide_unpack _).
Defined.

(** The decision on the head: an expired packet is dropped before anything else;
    otherwise a packet is sent exactly when the daemon is not transmitting, and while
    it is, the packet waits until the busy timeout, counted from the first decision
    that saw it busy, has passed, and is then dropped. The decision changes nothing of
    the item but the start of its wait. *)
Theorem tx_head_decision_spec cfg tx_busy item now :
  let '(d, item') := bridge_tx_head_decision cfg tx_busy item now in
  let expired := 0 < tx_packet_ttl_ms cfg ∧ ti_queued_ms item + tx_packet_ttl_ms cfg ≤ now in
  let start := if ti_tx_wait_start_ms item =? 0 then now else ti_tx_wait_start_ms item in
  ti_packet item' = ti_packet item ∧ ti_queued_ms item' = ti_queued_ms item ∧
  (d = TX_SEND ↔ ¬ expired ∧ tx_busy = false) ∧
  (d = TX_WAIT ↔ ¬ expired ∧ tx_busy = true ∧ now < start + tx_busy_timeout_ms cfg) ∧
  (d = TX_DROP ↔ expired ∨ (tx_busy = true ∧ start + tx_busy_timeout_ms cfg ≤ now)) ∧
  (d = TX_WAIT → ti_tx_wait_start_ms item' = start) ∧
  (d = TX_SEND → ti_tx_wait_start_ms item' = 0).
Proof.
  unfold bridge_tx_head_decision.
  destruct (Z.ltb_spec 0 (tx_packet_ttl_ms cfg)),
    (Z.leb_spec (tx_packet_ttl_ms cfg) (now - ti_queued_ms item)), tx_busy; cbn [andb];
    try (set (start := if ti_tx_wait_start_ms item =? 0 then now else ti_tx_wait_start_ms item);
         destruct (Z.leb_spec (tx_busy_timeout_ms cfg) (now - start)));
    cbn; intuition (done || lia).
Qed.
