(* ===== verification/Io.v ===== *)
(** System calls: the effect monad of the components that talk to sockets.

    The kernel is not part of the program, so its answers are data: a [world] holds,
    for each kind of call, the answers it will give, in order, and the trace of what
    the program has done so far. Every behaviour of the environment is some world, and
    a theorem for all worlds is a theorem for all environments. A call for which the
    world holds no answer any more leaves the program waiting ([None]): a finite
    prefix of a run. What the environment promises is built into the calls: [read]
    yields at most what was asked for, [write] accepts at most what it was given, a new
    descriptor is not negative, [select] reports only descriptors it was asked about.

    A C loop is [loop]; its fuel is the number of answers left, which is enough
    because every round of every loop of the program makes at least one call
    ([loop_unfold]). *)
From S2P Require Import Prelude.

(** ** Answers *)

(** [EAGAIN] stands for [EWOULDBLOCK] as well, [EOTHER] for every other error. *)
Inductive errno := EINTR | EAGAIN | EOTHER.

(** [RdData []] is end of file. *)
Inductive read_answer := RdData (bs : list Z) | RdErr (e : errno).
Inductive write_answer := WrN (n : nat) | WrErr (e : errno).
(** [select] on one descriptor. *)
Inductive select_answer := SelReady | SelTimeout | SelErr (e : errno).

(** [accept]: the new descriptor with the peer's address (host byte order) and port. *)
Inductive accept_answer := AccPeer (fd addr port : Z) | AccAgain | AccErr.
(** [select] of the main loop: the descriptors that are ready. *)
Inductive poll_answer := PollReady (fds : list Z) | PollTimeout | PollErr (e : errno).

(** What an observer of the process sees: the bytes a [write] accepted, the lines
    handed to the RF log, the descriptors that come and go, and, of the files, the
    truncations and what a [pread] found at which offset. *)
Inductive output :=
  | Wrote (fd : Z) (bs : list Z)
  | RfRx (rssi snr : Z) (packet : list Z)
  | RfTx (outcome packet : list Z)
  | Opened (fd : Z)
  | Accepted (fd addr port : Z)
  | Closed (fd : Z)
  | Truncated (fd : Z)
  | ReadAt (fd off : Z) (bs : list Z).

Record world := World {
  w_read : list read_answer;
  w_write : list write_answer;
  w_select : list select_answer;
  w_ok : list bool;
  w_socket : list (option Z);
  w_accept : list accept_answer;
  w_poll : list poll_answer;
  w_clock : list Z;
  w_stop : list bool;
  w_stat : list (option Z);
  w_out : list output;
}.

(** The number of answers left. *)
Definition size (w : world) : nat :=
  length (w_read w) + length (w_write w) + length (w_select w) + length (w_ok w) +
  length (w_socket w) + length (w_accept w) + length (w_poll w) + length (w_clock w) +
  length (w_stop w) + length (w_stat w).

(** Replacing one list of the world. *)
Definition set_read (l : list read_answer) (w : world) : world :=
  World l (w_write w) (w_select w) (w_ok w) (w_socket w) (w_accept w) (w_poll w) (w_clock w)
    (w_stop w) (w_stat w) (w_out w).
Definition set_write (l : list write_answer) (w : world) : world :=
  World (w_read w) l (w_select w) (w_ok w) (w_socket w) (w_accept w) (w_poll w) (w_clock w)
    (w_stop w) (w_stat w) (w_out w).
Definition set_select (l : list select_answer) (w : world) : world :=
  World (w_read w) (w_write w) l (w_ok w) (w_socket w) (w_accept w) (w_poll w) (w_clock w)
    (w_stop w) (w_stat w) (w_out w).
Definition set_ok (l : list bool) (w : world) : world :=
  World (w_read w) (w_write w) (w_select w) l (w_socket w) (w_accept w) (w_poll w) (w_clock w)
    (w_stop w) (w_stat w) (w_out w).
Definition set_socket (l : list (option Z)) (w : world) : world :=
  World (w_read w) (w_write w) (w_select w) (w_ok w) l (w_accept w) (w_poll w) (w_clock w)
    (w_stop w) (w_stat w) (w_out w).
Definition set_accept (l : list accept_answer) (w : world) : world :=
  World (w_read w) (w_write w) (w_select w) (w_ok w) (w_socket w) l (w_poll w) (w_clock w)
    (w_stop w) (w_stat w) (w_out w).
Definition set_poll (l : list poll_answer) (w : world) : world :=
  World (w_read w) (w_write w) (w_select w) (w_ok w) (w_socket w) (w_accept w) l (w_clock w)
    (w_stop w) (w_stat w) (w_out w).
Definition set_clock (l : list Z) (w : world) : world :=
  World (w_read w) (w_write w) (w_select w) (w_ok w) (w_socket w) (w_accept w) (w_poll w) l
    (w_stop w) (w_stat w) (w_out w).
Definition set_stop (l : list bool) (w : world) : world :=
  World (w_read w) (w_write w) (w_select w) (w_ok w) (w_socket w) (w_accept w) (w_poll w)
    (w_clock w) l (w_stat w) (w_out w).
Definition set_out (l : list output) (w : world) : world :=
  World (w_read w) (w_write w) (w_select w) (w_ok w) (w_socket w) (w_accept w) (w_poll w)
    (w_clock w) (w_stop w) (w_stat w) l.
Definition set_stat (l : list (option Z)) (w : world) : world :=
  World (w_read w) (w_write w) (w_select w) (w_ok w) (w_socket w) (w_accept w) (w_poll w)
    (w_clock w) (w_stop w) l (w_out w).

(** ** The monad *)

Definition io (A : Type) : Type := world → option (A * world).

#[export] Instance io_ret : MRet io := λ A a w, Some (a, w).
#[export] Instance io_bind : MBind io := λ A B f m w,
  match m w with Some (a, w') => f a w' | None => None end.

(** A [for (;;)] or [while] loop: [inl] goes round again, [inr] leaves it. *)
Fixpoint iter {S A} (fuel : nat) (body : S → io (S + A)) (s : S) : io A :=
  match fuel with
  | O => λ _, None
  | Datatypes.S fuel =>
      x ← body s;
      match x with inl s' => iter fuel body s' | inr a => mret a end
  end.

Definition loop {S A} (body : S → io (S + A)) (s : S) : io A :=
  λ w, iter (Datatypes.S (size w)) body s w.

(** ** Calls

    The next answer of a kind. *)
Definition ask {A} (get : world → list A) (put : list A → world → world) : io A := λ w,
  match get w with
  | [] => None
  | a :: l => Some (a, put l w)
  end.

Definition sys_read (fd : Z) (max : nat) : io read_answer :=
  r ← ask w_read set_read;
  mret (match r with RdData bs => RdData (take max bs) | RdErr e => RdErr e end).

(** An observable action that needs no answer. *)
Definition emit (o : output) : io unit := λ w, Some ((), set_out (w_out w ++ [o]) w).

(** The trace records the accepted bytes. *)
Definition sys_write (fd : Z) (bs : list Z) : io write_answer :=
  r ← ask w_write set_write;
  match r with
  | WrN n => _ ← emit (Wrote fd (take n bs)); mret (WrN (length (take n bs)))
  | WrErr e => mret (WrErr e)
  end.

(** Without a descriptor, as [bridge_runtime_sleep_ms] calls it, nothing gets ready. *)
Definition sys_select (fd : Z) (timeout_ms : Z) : io select_answer :=
  r ← ask w_select set_select;
  mret (match r with SelReady => if fd <? 0 then SelTimeout else SelReady | r => r end).

(** Calls that succeed or fail: [fcntl], [connect], [setsockopt], [bind], [listen]. *)
Definition sys_ok (fd : Z) : io bool := ask w_ok set_ok.

(** [socket]: the descriptor, [None] when the call fails. *)
Definition sys_socket : io (option Z) :=
  r ← ask w_socket set_socket;
  match r with
  | Some fd => if fd <? 0 then mret None else _ ← emit (Opened fd); mret (Some fd)
  | None => mret None
  end.

Definition sys_accept (fd : Z) : io accept_answer :=
  r ← ask w_accept set_accept;
  match r with
  | AccPeer new addr port =>
      if new <? 0 then mret AccErr
      else _ ← emit (Accepted new addr port); mret (AccPeer new addr port)
  | r => mret r
  end.

(** Only descriptors that were asked for are reported. *)
Definition sys_poll (fds : list Z) (timeout_us : Z) : io poll_answer :=
  r ← ask w_poll set_poll;
  mret (match r with PollReady l => PollReady (filter (λ fd, fd ∈ fds) l) | r => r end).

Definition sys_close (fd : Z) : io unit := emit (Closed fd).

(** [clock_gettime(CLOCK_MONOTONIC)] in milliseconds (0 when the call fails):
    [bridge_runtime_now_ms] and [loraham_sock_now_ms]. *)
Definition bridge_runtime_now_ms : io Z := ask w_clock set_clock.

(** [fstat]: the size of the file. *)
Definition sys_fstat (fd : Z) : io (option Z) := ask w_stat set_stat.

Definition sys_ftruncate (fd : Z) : io bool :=
  r ← ask w_ok set_ok;
  if (r : bool) then _ ← emit (Truncated fd); mret true else mret false.

(** [open] with [O_CREAT | O_TRUNC]: the file is empty afterwards. *)
Definition sys_open_trunc : io (option Z) :=
  r ← sys_socket;
  match r with
  | Some fd => _ ← emit (Truncated fd); mret (Some fd)
  | None => mret None
  end.

(** [pread]: the answers are those of [read], the offset is seen. *)
Definition sys_pread (fd off : Z) (max : nat) : io read_answer :=
  r ← sys_read fd max;
  match r with
  | RdData bs => _ ← emit (ReadAt fd off bs); mret r
  | RdErr e => mret r
  end.

(** The flag the signal handler sets, at the moment it is read. *)
Definition bridge_runtime_should_stop : io bool := ask w_stop set_stop.

(** ** Reasoning *)

(** Every answer the program gets from here satisfies [Q], if the run gets that far. *)
Definition wp {A} (m : io A) (Q : A → world → Prop) (w : world) : Prop :=
  match m w with Some (a, w') => Q a w' | None => True end.

Lemma wp_ret {A} (a : A) Q w : Q a w → wp (mret a) Q w.
Proof. done. Qed.

Lemma wp_bind {A B} (m : io A) (k : A → io B) Q w :
  wp m (λ a w', wp (k a) Q w') w → wp (m ≫= k) Q w.
Proof. unfold wp, mbind, io_bind. by destruct (m w) as [[a w']|]. Qed.

Lemma wp_mono {A} (m : io A) (P Q : A → world → Prop) w :
  wp m P w → (∀ a w', P a w' → Q a w') → wp m Q w.
Proof. unfold wp. destruct (m w) as [[a w']|]; naive_solver. Qed.

Lemma wp_elim {A} (m : io A) Q w a w' : wp m Q w → m w = Some (a, w') → Q a w'.
Proof. unfold wp. intros H E. by rewrite E in H. Qed.

Lemma wp_intro {A} (m : io A) (Q : A → world → Prop) w :
  (∀ a w', m w = Some (a, w') → Q a w') → wp m Q w.
Proof. unfold wp. destruct (m w) as [[a w']|]; naive_solver. Qed.

(** A call without output: the trace stays and an answer is used up. *)
Definition quiet (w w' : world) : Prop := w_out w' = w_out w ∧ (size w' < size w)%nat.

(** A kind of answers: taking one leaves the trace and makes the world smaller. *)
Definition askable {A} (get : world → list A) (put : list A → world → world) : Prop :=
  ∀ w a l, get w = a :: l → quiet w (put l w).

Lemma wp_ask {A} (get : world → list A) put Q w :
  askable get put → (∀ a w', quiet w w' → Q a w') → wp (ask get put) Q w.
Proof.
  intros Hask H. unfold wp, ask. destruct (get w) as [|a l] eqn:E; [done|].
  apply H. by eapply Hask.
Qed.

Ltac solve_askable :=
  intros w a l E; split; [done|]; unfold size; cbn; rewrite E; cbn; lia.

Lemma askable_read : askable w_read set_read.
Proof. solve_askable. Qed.
Lemma askable_write : askable w_write set_write.
Proof. solve_askable. Qed.
Lemma askable_select : askable w_select set_select.
Proof. solve_askable. Qed.
Lemma askable_ok : askable w_ok set_ok.
Proof. solve_askable. Qed.
Lemma askable_socket : askable w_socket set_socket.
Proof. solve_askable. Qed.
Lemma askable_accept : askable w_accept set_accept.
Proof. solve_askable. Qed.
Lemma askable_poll : askable w_poll set_poll.
Proof. solve_askable. Qed.
Lemma askable_clock : askable w_clock set_clock.
Proof. solve_askable. Qed.
Lemma askable_stop : askable w_stop set_stop.
Proof. solve_askable. Qed.
Lemma askable_stat : askable w_stat set_stat.
Proof. solve_askable. Qed.

Create HintDb askable.
#[export] Hint Resolve askable_read askable_write askable_select askable_ok askable_socket
  askable_accept askable_poll askable_clock askable_stop askable_stat : askable.

Lemma wp_read fd max Q w :
  (∀ r w', quiet w w' → match r with RdData bs => (length bs ≤ max)%nat | RdErr _ => True end → Q r w') →
  wp (sys_read fd max) Q w.
Proof.
  intros H. apply wp_bind, wp_ask; [auto with askable|]. intros r w' Hw. apply wp_ret, H; [done|].
  destruct r; [|done]. rewrite length_take. lia.
Qed.

Lemma wp_write fd bs Q w :
  (∀ e w', quiet w w' → Q (WrErr e) w') →
  (∀ a b w', bs = a ++ b → w_out w' = w_out w ++ [Wrote fd a] → (size w' < size w)%nat →
     Q (WrN (length a)) w') →
  wp (sys_write fd bs) Q w.
Proof.
  intros He Hn. apply wp_bind, wp_ask; [auto with askable|]. intros [n|e] w' [Ho Hs].
  - apply wp_bind. unfold wp. cbn. eapply (Hn _ (drop n bs)); [by rewrite take_drop| |done].
    cbn. by rewrite Ho.
  - apply wp_ret. by apply He.
Qed.

Lemma wp_select fd ms Q w : (∀ r w', quiet w w' → Q r w') → wp (sys_select fd ms) Q w.
Proof.
  intros H. apply wp_bind, wp_ask; [auto with askable|]. intros r w' Hw. by apply wp_ret, H.
Qed.
Lemma wp_ok fd Q w : (∀ r w', quiet w w' → Q r w') → wp (sys_ok fd) Q w.
Proof. apply wp_ask, askable_ok. Qed.
Lemma wp_poll fds us Q w : (∀ r w', quiet w w' → Q r w') → wp (sys_poll fds us) Q w.
Proof.
  intros H. apply wp_bind, wp_ask; [auto with askable|]. intros r w' Hw. by apply wp_ret, H.
Qed.
Lemma wp_now Q w : (∀ r w', quiet w w' → Q r w') → wp bridge_runtime_now_ms Q w.
Proof. apply wp_ask, askable_clock. Qed.
Lemma wp_should_stop Q w : (∀ r w', quiet w w' → Q r w') → wp bridge_runtime_should_stop Q w.
Proof. apply wp_ask, askable_stop. Qed.

Lemma wp_emit o Q w :
  (∀ w', w_out w' = w_out w ++ [o] → size w' = size w → Q () w') → wp (emit o) Q w.
Proof. intros H. by apply H. Qed.

(** What a call does when its answer is known. *)
Lemma ask_eq {A} (get : world → list A) put a l w :
  get w = a :: l → ask get put w = Some (a, put l w).
Proof. unfold ask. by intros ->. Qed.

Lemma sys_write_eq fd bs n ws w :
  w_write w = WrN n :: ws →
  sys_write fd bs w = Some (WrN (length (take n bs)),
    set_out (w_out w ++ [Wrote fd (take n bs)]) (set_write ws w)).
Proof. intros E. unfold sys_write, mbind, io_bind. by rewrite (ask_eq _ _ _ _ _ E). Qed.

(** The rule of a loop: an invariant of its rounds. *)
Lemma wp_loop {S A} (body : S → io (S + A)) (I : S → world → Prop) (Q : A → world → Prop) s w :
  (∀ s w, I s w → wp (body s) (λ x w', match x with inl s' => I s' w' | inr a => Q a w' end) w) →
  I s w → wp (loop body s) Q w.
Proof.
  intros Hbody. unfold loop, wp at 1. generalize (Datatypes.S (size w)) as fuel. intros fuel.
  revert s w. induction fuel as [|fuel IH]; intros s w HI; cbn; [done|].
  specialize (Hbody s w HI). unfold mbind, io_bind, wp in *.
  destruct (body s w) as [[[s'|a] w']|]; [by apply IH|done|done].
Qed.

(** ** Fuel

    A round that goes on has used an answer. *)
Definition shrinking {S A} (body : S → io (S + A)) : Prop :=
  ∀ s w, wp (body s) (λ x w', match x with inl _ => (size w' < size w)%nat | inr _ => True end) w.

Lemma iter_fuel {S A} (body : S → io (S + A)) n : ∀ m s w,
  shrinking body → (size w < n)%nat → (size w < m)%nat → iter n body s w = iter m body s w.
Proof.
  induction n as [|n IH]; intros m s w Hb Hn Hm; [lia|]. destruct m as [|m]; [lia|].
  cbn. unfold mbind, io_bind. pose proof (Hb s w) as H. unfold wp in H.
  destruct (body s w) as [[[s'|a] w']|]; [|done|done]. apply IH; [done|lia|lia].
Qed.

(** The loop runs until its body leaves it or the environment's answers end: the fuel
    is never what stops it. *)
Lemma loop_unfold {S A} (body : S → io (S + A)) s w :
  shrinking body →
  loop body s w =
    (x ← body s; match x with inl s' => loop body s' | inr a => mret a end) w.
Proof.
  intros Hb. unfold loop at 1. cbn. unfold mbind, io_bind. pose proof (Hb s w) as H. unfold wp in H.
  destruct (body s w) as [[[s'|a] w']|]; [|done|done]. apply iter_fuel; [done|lia|lia].
Qed.

(** ** The bytes written to a descriptor *)

Fixpoint written (fd : Z) (out : list output) : list Z :=
  match out with
  | [] => []
  | Wrote fd' bs :: out' => if fd' =? fd then bs ++ written fd out' else written fd out'
  | _ :: out' => written fd out'
  end.

Lemma written_app fd a b : written fd (a ++ b) = written fd a ++ written fd b.
Proof.
  induction a as [|o a IH]; [done|]. cbn. destruct o as [fd' bs| | | | | | |]; rewrite IH; try done.
  case_match; [by rewrite app_assoc|done].
Qed.

(** The world [w'] has, compared with [w], the additional trace [o]. *)
Definition extends (w w' : world) (o : list output) : Prop := w_out w' = w_out w ++ o.

Lemma extends_refl w : extends w w [].
Proof. unfold extends. by rewrite app_nil_r. Qed.

Lemma extends_quiet w w' : quiet w w' → extends w w' [].
Proof. intros [H _]. unfold extends. by rewrite H, app_nil_r. Qed.

Lemma extends_trans w1 w2 w3 a b : extends w1 w2 a → extends w2 w3 b → extends w1 w3 (a ++ b).
Proof. unfold extends. intros E ->. by rewrite E, app_assoc. Qed.

(** From [w] to [w'] the program wrote the bytes [bs] to [fd] and did nothing else
    that can be seen. *)
Definition wrote (fd : Z) (bs : list Z) (w w' : world) : Prop :=
  ∃ o, extends w w' o ∧ Forall (λ x, ∃ b, x = Wrote fd b) o ∧ written fd o = bs.

Lemma wrote_nil fd w w' : w_out w' = w_out w → wrote fd [] w w'.
Proof.
  intros H. exists []. split; [|done]. unfold extends. by rewrite H, app_nil_r.
Qed.

Lemma wrote_one fd bs w w' : w_out w' = w_out w ++ [Wrote fd bs] → wrote fd bs w w'.
Proof.
  intros H. exists [Wrote fd bs]. split; [done|]. split; [|cbn; by rewrite Z.eqb_refl, app_nil_r].
  apply Forall_singleton. by exists bs.
Qed.

Lemma wrote_trans fd a b w1 w2 w3 : wrote fd a w1 w2 → wrote fd b w2 w3 → wrote fd (a ++ b) w1 w3.
Proof.
  intros (o1 & E1 & F1 & <-) (o2 & E2 & F2 & <-). exists (o1 ++ o2).
  split; [by eapply extends_trans|]. split; [by apply Forall_app|]. by rewrite written_app.
Qed.

Lemma wrote_written fd bs w w' : wrote fd bs w w' → written fd (w_out w') = written fd (w_out w) ++ bs.
Proof. intros (o & -> & _ & <-). by rewrite written_app. Qed.

Lemma wrote_other fd fd' bs w w' :
  wrote fd bs w w' → fd' ≠ fd → written fd' (w_out w') = written fd' (w_out w).
Proof.
  intros (o & -> & F & _) Hne. rewrite written_app.
  assert (written fd' o = []) as ->; [|by rewrite app_nil_r].
  induction F as [|x o (b & ->) _ IH]; [done|]. cbn.
  rewrite (proj2 (Z.eqb_neq fd fd')); [done|congruence].
Qed.

(** ** The trace of a call

    [yields m Q]: whatever the environment answers, when [m] returns [a] and the
    program has done [o] meanwhile, then [Q a o]; and [m] invents no answers. *)
Definition yields {A} (m : io A) (Q : A → list output → Prop) : Prop :=
  ∀ w, wp m (λ a w', ∃ o, extends w w' o ∧ (size w' ≤ size w)%nat ∧ Q a o) w.

Lemma yields_ret {A} (a : A) (Q : A → list output → Prop) : Q a [] → yields (mret a) Q.
Proof. intros H w. apply wp_ret. exists []. split; [apply extends_refl|done]. Qed.

Lemma yields_bind {A B} (m : io A) (k : A → io B) P Q :
  yields m P → (∀ a o, P a o → yields (k a) (λ b o', Q b (o ++ o'))) → yields (m ≫= k) Q.
Proof.
  intros Hm Hk w. apply wp_bind. eapply wp_mono; [apply Hm|]. intros a w1 (o1 & E1 & L1 & HP).
  eapply wp_mono; [by apply Hk|]. intros b w2 (o2 & E2 & L2 & HQ).
  exists (o1 ++ o2). split; [by eapply extends_trans|]. split; [lia|done].
Qed.

Lemma yields_mono {A} (m : io A) (P Q : A → list output → Prop) :
  yields m P → (∀ a o, P a o → Q a o) → yields m Q.
Proof. intros Hm H w. eapply wp_mono; [apply Hm|]. naive_solver. Qed.

Lemma yields_and {A} (m : io A) (P Q : A → list output → Prop) :
  yields m P → yields m Q → yields m (λ a o, P a o ∧ Q a o).
Proof.
  intros HP HQ w. apply wp_intro. intros a w' E.
  destruct (wp_elim _ _ _ _ _ (HP w) E) as (o & Eo & L & H).
  destruct (wp_elim _ _ _ _ _ (HQ w) E) as (o' & Eo' & _ & H').
  unfold extends in Eo, Eo'. rewrite Eo in Eo'. apply app_inv_head in Eo' as <-. by exists o.
Qed.

Lemma yields_emit x (Q : unit → list output → Prop) : Q () [x] → yields (emit x) Q.
Proof. intros H w. apply wp_emit. intros w' E L. exists [x]. split; [done|]. split; [lia|done]. Qed.

Lemma yields_loop {S A} (body : S → io (S + A)) (I : S → list output → Prop)
    (Q : A → list output → Prop) s :
  I s [] →
  (∀ s o, I s o → yields (body s)
     (λ x o', match x with inl s' => I s' (o ++ o') | inr a => Q a (o ++ o') end)) →
  yields (loop body s) Q.
Proof.
  intros H0 Hb w.
  apply (wp_loop body (λ s w', ∃ o, extends w w' o ∧ (size w' ≤ size w)%nat ∧ I s o)).
  - intros s' w1 (o1 & E1 & L1 & HI). eapply wp_mono; [by apply (Hb s' o1)|].
    intros [s2|a] w2 (o2 & E2 & L2 & H); exists (o1 ++ o2);
      (split; [by eapply extends_trans|]); (split; [lia|done]).
  - exists []. split; [apply extends_refl|done].
Qed.

(** Nothing in [o] is a write to [fd]. *)
Lemma written_none fd o :
  Forall (λ x, match x with Wrote fd' _ => fd' ≠ fd | _ => True end) o → written fd o = [].
Proof.
  induction 1 as [|x o Hx _ IH]; [done|]. cbn. destruct x as [fd' bs| | | | | | |]; try done.
  by rewrite (proj2 (Z.eqb_neq fd' fd)).
Qed.

Lemma yields_ask {A} (get : world → list A) put (Q : A → list output → Prop) :
  askable get put → (∀ a, Q a []) → yields (ask get put) Q.
Proof.
  intros Ha H w. apply wp_ask; [done|]. intros a w' [E L]. exists [].
  split; [by apply extends_quiet|]. split; [lia|done].
Qed.

Lemma yields_socket (Q : option Z → list output → Prop) :
  Q None [] → (∀ fd, 0 ≤ fd → Q (Some fd) [Opened fd]) → yields sys_socket Q.
Proof.
  intros HN HS. eapply yields_bind; [apply (yields_ask _ _ (λ _ o, o = [])); [auto with askable|done]|].
  intros [fd|] ? ->; [|by apply yields_ret]. destruct (Z.ltb_spec fd 0); [by apply yields_ret|].
  eapply yields_bind; [apply (yields_emit _ (λ _ o, o = [Opened fd])); done|].
  intros [] ? ->. by apply yields_ret, HS.
Qed.

Lemma yields_accept fd (Q : accept_answer → list output → Prop) :
  Q AccAgain [] → Q AccErr [] →
  (∀ new addr port, 0 ≤ new → Q (AccPeer new addr port) [Accepted new addr port]) →
  yields (sys_accept fd) Q.
Proof.
  intros HA HE HP. eapply yields_bind; [apply (yields_ask _ _ (λ _ o, o = [])); [auto with askable|done]|].
  intros [new addr port| |] ? ->; [|by apply yields_ret..].
  destruct (Z.ltb_spec new 0); [by apply yields_ret|].
  eapply yields_bind; [apply (yields_emit _ (λ _ o, o = [Accepted new addr port])); done|].
  intros [] ? ->. by apply yields_ret, HP.
Qed.

(** ** Descriptors

    How often a descriptor was obtained, less how often it was closed. *)
Definition balance1 (fd : Z) (x : output) : Z :=
  match x with
  | Opened fd' | Accepted fd' _ _ => if fd' =? fd then 1 else 0
  | Closed fd' => if fd' =? fd then -1 else 0
  | _ => 0
  end.
Definition balance (fd : Z) (o : list output) : Z := foldr (λ x z, balance1 fd x + z) 0 o.

Lemma balance_app fd a b : balance fd (a ++ b) = balance fd a + balance fd b.
Proof. unfold balance. induction a as [|x a IH]; cbn [app foldr]; lia. Qed.

(** A call that neither obtains nor closes a descriptor. *)
Definition no_fd (x : output) : Prop :=
  match x with Opened _ | Accepted _ _ _ | Closed _ => False | _ => True end.
Definition fdless {A} (m : io A) : Prop := yields m (λ _ o, Forall no_fd o).

Lemma balance_no_fd fd o : Forall no_fd o → balance fd o = 0.
Proof.
  induction 1 as [|x o Hx _ IH]; [done|]. cbn. fold (balance fd o). rewrite IH. by destruct x.
Qed.

Lemma fdless_ret {A} (a : A) : fdless (mret a).
Proof. by apply yields_ret. Qed.

Lemma fdless_bind {A B} (m : io A) (k : A → io B) :
  fdless m → (∀ a, fdless (k a)) → fdless (m ≫= k).
Proof.
  intros Hm Hk. eapply yields_bind; [exact Hm|]. intros a o F. eapply yields_mono; [apply Hk|].
  intros b o' F'. by apply Forall_app.
Qed.

Lemma fdless_loop {S A} (body : S → io (S + A)) s : (∀ s, fdless (body s)) → fdless (loop body s).
Proof.
  intros Hb. apply (yields_loop _ (λ _ o, Forall no_fd o)); [done|]. intros s' o F.
  eapply yields_mono; [apply Hb|]. intros [s2|a] o' F'; by apply Forall_app.
Qed.

Lemma fdless_ask {A} (get : world → list A) put : askable get put → fdless (ask get put).
Proof. intros H. by apply yields_ask. Qed.

Lemma fdless_emit x : no_fd x → fdless (emit x).
Proof. intros H. apply yields_emit. by apply Forall_singleton. Qed.

(** Straight-line code: [fdless] of the parts, which the hint database knows. *)
Create HintDb fdless.
#[export] Hint Resolve fdless_ret : fdless.

Ltac solve_fdless :=
  repeat match goal with
  | |- fdless (mret _) => apply fdless_ret
  | |- fdless (_ ≫= _) => apply fdless_bind; [|intros ?]
  | |- fdless (loop _ _) => apply fdless_loop; intros ?
  | |- fdless (ask _ _) => apply fdless_ask; auto with askable
  | |- fdless (emit _) => by apply fdless_emit
  | |- fdless (if ?b then _ else _) => destruct b
  | |- fdless (match ?x with _ => _ end) => destruct x
  | |- fdless _ => solve [eauto with fdless]
  end.

Lemma fdless_read fd max : fdless (sys_read fd max).
Proof. unfold sys_read. solve_fdless. Qed.
Lemma fdless_write fd bs : fdless (sys_write fd bs).
Proof. unfold sys_write. solve_fdless. Qed.
Lemma fdless_select fd ms : fdless (sys_select fd ms).
Proof. unfold sys_select. solve_fdless. Qed.
Lemma fdless_ok fd : fdless (sys_ok fd).
Proof. unfold sys_ok. solve_fdless. Qed.
Lemma fdless_poll fds us : fdless (sys_poll fds us).
Proof. unfold sys_poll. solve_fdless. Qed.
Lemma fdless_now : fdless bridge_runtime_now_ms.
Proof. unfold bridge_runtime_now_ms. solve_fdless. Qed.
Lemma fdless_should_stop : fdless bridge_runtime_should_stop.
Proof. unfold bridge_runtime_should_stop. solve_fdless. Qed.
#[export] Hint Resolve fdless_read fdless_write fdless_select fdless_ok fdless_poll fdless_now
  fdless_should_stop : fdless.
