(* ===== verification/SockIo.v ===== *)
(** Sockets and waiting (loraham_sock.c: loraham_sock_connect, loraham_sock_read,
    loraham_wait_writable, loraham_sock_write, loraham_send_framed_tx_packet;
    bridge_rx.c: bridge_rx_wait_fd_writable, bridge_rx_write_all_fd; bridge_runtime.c:
    bridge_runtime_sleep_ms, bridge_runtime_set_fd_nonblocking; tcp_server.c:
    lhkt_tcp_server_close).

    [errno] is not kept after a call returns: no caller looks at it. *)
From S2P Require Import Prelude Io LorahamSock.

Definition FD_SETSIZE : Z := 1024.
Definition LHKT_LORAHAM_WRITE_TIMEOUT_SEC : Z := 2.
Definition BRIDGE_RX_CLIENT_WRITE_TIMEOUT_SEC : Z := 2.

Definition fd_bad (fd : Z) : bool := (fd <? 0) || (FD_SETSIZE <=? fd).

(** ** Waiting *)

(** The wait has one deadline: an interrupted [select] does not extend it. *)
Definition loraham_wait_writable (fd : Z) : io Z :=
  if fd_bad fd then mret (-1)
  else
    start ← bridge_runtime_now_ms;
    let deadline := start + LHKT_LORAHAM_WRITE_TIMEOUT_SEC * 1000 in
    loop (λ _ : unit,
      now ← bridge_runtime_now_ms;
      if deadline <=? now then mret (inr (-1))
      else
        r ← sys_select fd (deadline - now);
        match r with
        | SelErr EINTR => mret (inl ())
        | SelErr _ => mret (inr (-1))
        | SelTimeout => mret (inr (-1))
        | SelReady => mret (inr 0)
        end) ().

Definition bridge_rx_wait_fd_writable (fd : Z) : io Z :=
  if fd_bad fd then mret LHKT_ERR
  else
    loop (λ _ : unit,
      stop ← bridge_runtime_should_stop;
      if (stop : bool) then mret (inr LHKT_ERR)
      else
        r ← sys_select fd (BRIDGE_RX_CLIENT_WRITE_TIMEOUT_SEC * 1000);
        match r with
        | SelErr EINTR =>
            stop ← bridge_runtime_should_stop;
            if (stop : bool) then mret (inr LHKT_ERR) else mret (inl ())
        | SelErr _ => mret (inr LHKT_ERR)
        | SelTimeout => mret (inr LHKT_ERR)
        | SelReady => mret (inr LHKT_OK)
        end) ().

(** [select] with no descriptor: an interrupted sleep starts again. *)
Definition bridge_runtime_sleep_ms (ms : Z) : io Z :=
  if ms <=? 0 then mret LHKT_OK
  else
    stop ← bridge_runtime_should_stop;
    if (stop : bool) then mret LHKT_ERR
    else
      loop (λ _ : unit,
        r ← sys_select (-1) ms;
        match r with
        | SelErr EINTR =>
            stop ← bridge_runtime_should_stop;
            if (stop : bool) then mret (inr LHKT_ERR) else mret (inl ())
        | _ =>
            stop ← bridge_runtime_should_stop;
            mret (inr (if (stop : bool) then LHKT_ERR else LHKT_OK))
        end) ().

(** ** Writing *)

(** One round of the loop over [write]: [rest] is [buf + done]; the loop is left with
    0 when all is written, with -1 on an error. *)
Definition write_round (wait : Z → io Z) (fd : Z) (rest : list Z) : io (list Z + Z) :=
  if len rest =? 0 then mret (inr 0)
  else
    r ← sys_write fd rest;
    match r with
    | WrErr EINTR => mret (inl rest)
    | WrErr EAGAIN =>
        ret ← wait fd;
        if ret =? 0 then mret (inl rest) else mret (inr (-1))
    | WrErr EOTHER => mret (inr (-1))
    | WrN n => if (n =? 0)%nat then mret (inr (-1)) else mret (inl (drop n rest))
    end.

(** The two [fcntl] calls that set [O_NONBLOCK] and the one that restores the flags. *)
Definition loraham_sock_write (fd : Z) (buf : list Z) : io Z :=
  if fd_bad fd then mret (-1)
  else if len buf =? 0 then mret 0
  else
    getfl ← sys_ok fd;
    if negb getfl then mret (-1)
    else
      setfl ← sys_ok fd;
      if negb setfl then mret (-1)
      else
        ret ← loop (write_round loraham_wait_writable fd) buf;
        restored ← sys_ok fd;
        mret (if (ret =? 0) && restored then len buf else -1).

Definition bridge_rx_write_all_fd (fd : Z) (buf : list Z) : io Z :=
  if fd_bad fd then mret LHKT_ERR
  else loop (write_round bridge_rx_wait_fd_writable fd) buf.

Definition loraham_send_framed_tx_packet (fd : Z) (payload : list Z) : io Z :=
  if fd <? 0 then mret LHKT_ERR
  else
    match loraham_framed_tx_bytes payload with
    | Err e => mret e
    | Ok frame =>
        ret ← loraham_sock_write fd frame;
        mret (if ret <? 0 then LHKT_ERR else LHKT_OK)
    end.

(** ** Connecting and reading *)

(** [sizeof(addr.sun_path)] *)
Definition SUN_PATH_SIZE : Z := 108.

Definition loraham_sock_connect (path : list Z) : io Z :=
  if len path =? 0 then mret LHKT_ERR_FORMAT
  else
    s ← sys_socket;
    match s with
    | None => mret LHKT_ERR
    | Some fd =>
        if SUN_PATH_SIZE <=? len path then _ ← sys_close fd; mret LHKT_ERR_LONG
        else
          connected ← sys_ok fd;
          if negb connected then _ ← sys_close fd; mret LHKT_ERR else mret fd
    end.

(** The [n < 0] answer carries the [errno] its callers look at; for a bad descriptor
    no call is made and [errno] is whatever it was before, [stale]. *)
Definition loraham_sock_read (fd : Z) (max : nat) (stale : errno) : io read_answer :=
  if fd <? 0 then mret (RdErr stale) else sys_read fd max.

Definition bridge_runtime_set_fd_nonblocking (fd : Z) : io Z :=
  if fd <? 0 then mret LHKT_ERR
  else
    getfl ← sys_ok fd;
    if negb getfl then mret LHKT_ERR
    else
      setfl ← sys_ok fd;
      mret (if negb setfl then LHKT_ERR else LHKT_OK).

Definition lhkt_tcp_server_close (fd : Z) : io unit :=
  if 0 <=? fd then sys_close fd else mret ().

(** ** Waiting has no visible effect *)

(** The call leaves the trace alone and does not invent answers. *)
Definition silent {A} (m : io A) (Q : A → Prop) : Prop :=
  ∀ w, wp m (λ a w', w_out w' = w_out w ∧ (size w' ≤ size w)%nat ∧ Q a) w.

Lemma yields_silent {A} (m : io A) (Q : A → Prop) :
  silent m Q → yields m (λ a o, o = [] ∧ Q a).
Proof.
  intros H w. eapply wp_mono; [apply H|]. intros a w' (E & L & HQ). exists [].
  split; [|done]. unfold extends. by rewrite E, app_nil_r.
Qed.

Lemma yields_silent_bind {A B} (m : io A) (k : A → io B) P Q :
  silent m P → (∀ a, P a → yields (k a) Q) → yields (m ≫= k) Q.
Proof.
  intros Hm Hk. eapply yields_bind; [by apply yields_silent|]. intros a o [-> HP]. by apply Hk.
Qed.

Lemma silent_loop {S A} (body : S → io (S + A)) (Q : A → Prop) s :
  (∀ s, silent (body s) (λ x, match x with inl _ => True | inr a => Q a end)) →
  silent (loop body s) Q.
Proof.
  intros Hb w. apply (wp_loop body (λ _ w', w_out w' = w_out w ∧ (size w' ≤ size w)%nat)); [|done].
  intros s' w1 [E1 L1]. eapply wp_mono; [apply Hb|]. cbn. intros [s2|a] w2 (E2 & L2 & HQ);
    (split; [congruence|]); [lia|]. split; [lia|done].
Qed.

Lemma silent_intro {A} (m : io A) (Q : A → Prop) :
  (∀ w, wp m (λ a w', quiet w w' ∧ Q a) w) → silent m Q.
Proof.
  intros H w. eapply wp_mono; [apply H|]. intros a w' [[E L] HQ]. split; [done|]. split; [lia|done].
Qed.

Lemma silent_ret {A} (a : A) (Q : A → Prop) : Q a → silent (mret a) Q.
Proof. intros H w. apply wp_ret. split_and!; [done|lia|done]. Qed.

Lemma silent_bind {A B} (m : io A) (k : A → io B) P Q :
  silent m P → (∀ a, P a → silent (k a) Q) → silent (m ≫= k) Q.
Proof.
  intros Hm Hk w. apply wp_bind. eapply wp_mono; [apply Hm|]. intros a w1 (E1 & L1 & HP).
  eapply wp_mono; [by apply Hk|]. intros b w2 (E2 & L2 & HQ). split; [congruence|]. split; [lia|done].
Qed.

Lemma silent_now : silent bridge_runtime_now_ms (λ _, True).
Proof. apply silent_intro. intros w. apply wp_now. done. Qed.
Lemma silent_should_stop : silent bridge_runtime_should_stop (λ _, True).
Proof. apply silent_intro. intros w. apply wp_should_stop. done. Qed.
Lemma silent_select fd ms : silent (sys_select fd ms) (λ _, True).
Proof. apply silent_intro. intros w. apply wp_select. done. Qed.
Lemma silent_poll fds us : silent (sys_poll fds us) (λ _, True).
Proof. apply silent_intro. intros w. apply wp_poll. done. Qed.
Lemma silent_ok fd : silent (sys_ok fd) (λ _, True).
Proof. apply silent_intro. intros w. apply wp_ok. done. Qed.

Lemma silent_read fd max : silent (sys_read fd max) (λ _, True).
Proof. apply silent_intro. intros w. apply wp_read. done. Qed.

Ltac silent_step :=
  match goal with
  | |- silent (mret _) _ => apply silent_ret
  | |- silent (if ?b then _ else _) _ => destruct b eqn:?
  | |- silent (match ?r with _ => _ end) _ => destruct r
  | |- silent (bridge_runtime_now_ms ≫= _) _ =>
      apply (silent_bind _ _ _ _ silent_now); intros ? _
  | |- silent (bridge_runtime_should_stop ≫= _) _ =>
      apply (silent_bind _ _ _ _ silent_should_stop); intros ? _
  | |- silent (sys_select ?fd ?ms ≫= _) _ =>
      apply (silent_bind _ _ _ _ (silent_select fd ms)); intros ? _
  | |- silent (sys_ok ?fd ≫= _) _ =>
      apply (silent_bind _ _ _ _ (silent_ok fd)); intros ? _
  | |- silent (sys_read ?fd ?max ≫= _) _ =>
      apply (silent_bind _ _ _ _ (silent_read fd max)); intros ? _
  | |- silent (loop _ _) _ => apply silent_loop; intros
  end.
Ltac solve_silent := repeat silent_step; repeat case_match; auto.

Lemma loraham_wait_writable_silent fd : silent (loraham_wait_writable fd) (λ r, r = 0 ∨ r = -1).
Proof. unfold loraham_wait_writable. solve_silent. Qed.

Lemma bridge_rx_wait_fd_writable_silent fd :
  silent (bridge_rx_wait_fd_writable fd) (λ r, r = LHKT_OK ∨ r = LHKT_ERR).
Proof. unfold bridge_rx_wait_fd_writable. solve_silent. Qed.

Lemma bridge_runtime_sleep_ms_silent ms :
  silent (bridge_runtime_sleep_ms ms) (λ r, r = LHKT_OK ∨ r = LHKT_ERR).
Proof. unfold bridge_runtime_sleep_ms. solve_silent. Qed.

Lemma loraham_sock_read_silent fd max stale : silent (loraham_sock_read fd max stale) (λ _, True).
Proof. unfold loraham_sock_read. destruct (fd <? 0); [by apply silent_ret|apply silent_read]. Qed.

(** Writing does not invent answers either. *)
Lemma write_round_spec wait fd rest :
  (∀ fd, silent (wait fd) (λ r, r = 0 ∨ r = -1)) →
  ∀ w, wp (write_round wait fd rest) (λ x w',
    match x with
    | inl rest' => ∃ a, rest = a ++ rest' ∧ wrote fd a w w' ∧ (size w' < size w)%nat
    | inr r => wrote fd [] w w' ∧ (size w' ≤ size w)%nat ∧ (r = 0 ∧ rest = [] ∨ r = -1 ∧ rest ≠ [])
    end) w.
Proof.
  intros Hwait w. unfold write_round. destruct (Z.eqb_spec (len rest) 0) as [E|E].
  { apply wp_ret. split; [by apply wrote_nil|]. split; [done|]. left. by destruct rest. }
  assert (rest ≠ []) as Hne by (by intros ->). apply wp_bind. apply wp_write.
  - intros e w1 [E1 L1]. destruct e.
    + apply wp_ret. exists []. split; [done|]. split; [by apply wrote_nil|done].
    + apply wp_bind. eapply wp_mono; [apply Hwait|]. intros r w2 (E2 & L2 & _).
      destruct (r =? 0); apply wp_ret.
      * exists []. split; [done|]. split; [apply wrote_nil; congruence|lia].
      * split; [apply wrote_nil; congruence|]. split; [lia|by right].
    + apply wp_ret. split; [by apply wrote_nil|]. split; [lia|by right].
  - intros a b w1 -> E1 L1. destruct a as [|c a]; cbn [length Nat.eqb]; apply wp_ret.
    + split; [|split; [lia|by right]]. by apply wrote_one.
    + exists (c :: a). split; [by rewrite <-(length_cons c a), drop_app_length|]. split; [by apply wrote_one|done].
Qed.

Lemma write_round_shrinking wait fd :
  (∀ fd, silent (wait fd) (λ r, r = 0 ∨ r = -1)) → shrinking (write_round wait fd).
Proof.
  intros Hwait rest w. eapply wp_mono; [by apply write_round_spec|].
  intros [rest'|r] w'; [|done]. by intros (? & _ & _ & H).
Qed.

(** The loop writes a prefix of the buffer, all of it exactly when it answers 0. *)
Lemma write_loop_spec wait fd buf w :
  (∀ fd, silent (wait fd) (λ r, r = 0 ∨ r = -1)) →
  wp (loop (write_round wait fd) buf) (λ r w', ∃ a b, buf = a ++ b ∧ wrote fd a w w' ∧
    (size w' ≤ size w)%nat ∧ (r = 0 ∧ b = [] ∨ r = -1 ∧ b ≠ [])) w.
Proof.
  intros Hwait.
  apply (wp_loop _ (λ rest w', ∃ a, buf = a ++ rest ∧ wrote fd a w w' ∧ (size w' ≤ size w)%nat)).
  - intros rest w1 (a & -> & Ha & La). eapply wp_mono; [by apply write_round_spec|].
    intros [rest'|r] w2.
    + intros (a' & -> & Ha' & La'). exists (a ++ a'). split; [by rewrite app_assoc|].
      split; [by eapply wrote_trans|lia].
    + intros (Hw & Lw & Hr). exists a, rest. split; [done|].
      split; [rewrite <-(app_nil_r a); by eapply wrote_trans|]. split; [lia|done].
  - exists []. split; [done|]. split; [by apply wrote_nil|done].
Qed.

(** A kernel that takes at least one byte per [write] lets the loop finish. *)
Definition accepting (r : write_answer) : Prop := ∃ n, r = WrN (S n).

Lemma write_loop_live wait fd n : ∀ buf w,
  (∀ fd, silent (wait fd) (λ r, r = 0 ∨ r = -1)) →
  (length buf ≤ n)%nat → (n ≤ length (w_write w))%nat → Forall accepting (w_write w) →
  ∃ w', loop (write_round wait fd) buf w = Some (0, w') ∧ w_ok w' = w_ok w.
Proof.
  induction n as [|n IH]; intros buf w Hwait Hn Hw Hacc;
    rewrite loop_unfold by (by apply write_round_shrinking); unfold mbind, io_bind, write_round.
  { destruct buf; [|cbn in Hn; lia]. by exists w. }
  destruct (Z.eqb_spec (len buf) 0); [by exists w|].
  destruct (w_write w) as [|r ws] eqn:E; [cbn in Hw; lia|].
  apply Forall_cons in Hacc as [[k ->] Hacc]. destruct buf as [|b buf]; [done|].
  unfold mbind, io_bind. rewrite (sys_write_eq _ _ _ _ _ E). cbn in *.
  edestruct (IH (drop (length (take k buf)) buf)) as (w' & E' & F'); [exact Hwait|..].
  4: { exists w'. split; [exact E'|exact F']. }
  - rewrite length_drop. lia.
  - cbn. lia.
  - done.
Qed.

Lemma loraham_sock_write_safe fd buf w :
  wp (loraham_sock_write fd buf) (λ r w', ∃ a b, buf = a ++ b ∧ wrote fd a w w' ∧
    (size w' ≤ size w)%nat ∧ (r = len buf ∧ b = [] ∨ r = -1)) w.
Proof.
  unfold loraham_sock_write.
  assert (∀ w', w_out w' = w_out w → (size w' ≤ size w)%nat → ∃ a b, buf = a ++ b ∧
    wrote fd a w w' ∧ (size w' ≤ size w)%nat ∧ (-1 = len buf ∧ b = [] ∨ -1 = -1)) as Hfail.
  { intros w' Hw Hl. exists [], buf. split; [done|]. split; [by apply wrote_nil|]. split; [done|by right]. }
  destruct (fd_bad fd); [apply wp_ret; by apply Hfail|].
  destruct (Z.eqb_spec (len buf) 0) as [E|E].
  { apply wp_ret. exists [], []. destruct buf; [|done]. split; [done|].
    split; [by apply wrote_nil|]. split; [done|by left]. }
  apply wp_bind, wp_ok. intros getfl w1 [E1 L1].
  destruct getfl; cbn [negb]; [|apply wp_ret, Hfail; [done|lia]].
  apply wp_bind, wp_ok. intros setfl w2 [E2 L2].
  destruct setfl; cbn [negb]; [|apply wp_ret, Hfail; [congruence|lia]].
  apply wp_bind. eapply wp_mono; [apply write_loop_spec, loraham_wait_writable_silent|].
  intros ret w3 (a & b & -> & Ha & L3 & Hret). apply wp_bind, wp_ok. intros restored w4 [E4 L4].
  apply wp_ret. exists a, b. split; [done|].
  split.
  { rewrite <-(app_nil_r a), <-(app_nil_l a).
    eapply wrote_trans; [eapply wrote_trans; [|exact Ha]; apply wrote_nil; congruence|by apply wrote_nil]. }
  split; [lia|]. destruct Hret as [[-> ->]|[-> _]]; cbn; [|by right]. destruct restored; [by left|by right].
Qed.

(** C28. [loraham_sock_write] on any environment: what reaches the socket is a prefix
    of the buffer and nothing else becomes visible; the call answers the length of the
    buffer only when all of it was written, and -1 otherwise. And it is not stuck: when
    [fcntl] succeeds and every [write] takes at least one byte, it returns the length,
    within as many writes as there are bytes. *)
Theorem loraham_sock_write_spec fd buf w :
  wp (loraham_sock_write fd buf) (λ r w', ∃ a b, buf = a ++ b ∧ wrote fd a w w' ∧
    (size w' ≤ size w)%nat ∧ (r = len buf ∧ b = [] ∨ r = -1)) w ∧
  (fd_bad fd = false → w_ok w = [true; true; true] → Forall accepting (w_write w) →
   (length buf ≤ length (w_write w))%nat → ∃ w', loraham_sock_write fd buf w = Some (len buf, w')).
Proof.
  split; [apply loraham_sock_write_safe|]. intros Hfd Hf Hacc Hlen. unfold loraham_sock_write.
  rewrite Hfd. destruct (Z.eqb_spec (len buf) 0) as [E|E]; [rewrite E; by exists w|].
  unfold mbind, io_bind, sys_ok. rewrite (ask_eq _ _ _ _ _ Hf). cbn [negb].
  rewrite (ask_eq w_ok set_ok true [true] (set_ok [true; true] w) eq_refl).
  cbn [negb]. set (w2 := set_ok [true] (set_ok [true; true] w)).
  destruct (write_loop_live loraham_wait_writable fd (length buf) buf w2) as (w' & E' & F'); try done.
  { apply loraham_wait_writable_silent. }
  rewrite E', (ask_eq w_ok set_ok true [] w' F'). cbn. by eexists.
Qed.

Lemma loraham_sock_write_spec_witness :
  let w := World [] [WrN 2; WrN 9; WrN 1; WrN 1] [] [true; true; true] [] [] [] [] [] [] [] in
  ∃ w', loraham_sock_write 5 [1; 2; 3; 4] w = Some (4, w').
Proof.
  apply (loraham_sock_write_spec 5 [1; 2; 3; 4]).
  - done.
  - done.
  - repeat (apply Forall_cons; split; [by eexists|]). apply Forall_nil_2.
  - cbn. lia.
Defined.
