(* ===== verification/LorahamConf.v ===== *)
(** Commands on the CONF socket (the end of loraham_sock.c). *)
From S2P Require Import Prelude Tnc Printf Io SockIo.
From Stdlib Require Import SpecFloat.

Definition double_le0 (x : double) : bool := SFleb x (S754_zero false).

Definition loraham_ldro_value (cfg : lhkt_config_t) : list Z :=
  if negb (ldro_auto cfg =? 0) then str "AUTO"
  else fmt_d (if ldro cfg =? 0 then 0 else 1).

(** The text [snprintf] produces; [freq] is present when [have_freq] is set. *)
Definition loraham_config_line (cfg : lhkt_config_t) (freq : option double) : list Z :=
  str "SET MODE=LORA" ++
  match freq with Some f => str " FREQ=" ++ fmt_f 6 f | None => [] end ++
  str " SF=" ++ fmt_d (sf cfg) ++ str " BW=" ++ fmt_f 3 (bw cfg) ++
  str " CR=" ++ fmt_d (cr cfg) ++ str " CRC=" ++ fmt_d (crc cfg) ++
  str " PREAMBLE=" ++ fmt_d (preamble cfg) ++ str " SYNC=0x" ++ fmt_02X (syncword cfg) ++
  str " LDRO=" ++ loraham_ldro_value cfg ++ str " POWER=" ++ fmt_d (power cfg) ++ [10].

Definition loraham_send_config_line (conf_fd : Z) (cfg : lhkt_config_t) (freq : option double) :
    io Z :=
  if conf_fd <? 0 then mret LHKT_ERR
  else
    let line := loraham_config_line cfg freq in
    if 256 <=? len line then mret LHKT_ERR_NOSPACE
    else
      ret ← loraham_sock_write conf_fd line;
      mret (if ret <? 0 then LHKT_ERR else LHKT_OK).

Definition loraham_send_config_freq (conf_fd : Z) (cfg : lhkt_config_t) (freq : double) : io Z :=
  if double_le0 freq then mret LHKT_ERR_FORMAT
  else loraham_send_config_line conf_fd cfg (Some freq).

Definition loraham_send_txresult_enable (conf_fd : Z) : io Z :=
  if conf_fd <? 0 then mret LHKT_ERR
  else
    ret ← loraham_sock_write conf_fd (str "SET TXRESULT=1" ++ [10]);
    mret (if ret <? 0 then LHKT_ERR else LHKT_OK).

Definition loraham_send_config (conf_fd : Z) (cfg : lhkt_config_t) : io Z :=
  if negb (have_rx_freq cfg =? 0) then loraham_send_config_freq conf_fd cfg (rx_freq cfg)
  else loraham_send_config_line conf_fd cfg None.

Example config_line_example :
  loraham_config_line (lhkt_config_defaults (λ _, None) (λ _, false)) (Some (double_lit 433900 1000)) =
  str "SET MODE=LORA FREQ=433.900000 SF=12 BW=125.000 CR=5 CRC=1 PREAMBLE=8 SYNC=0x12 LDRO=1 POWER=17"
  ++ [10].
Proof. by vm_compute. Qed.

(** ** What reaches the socket *)

(** A command: the call writes a prefix of [line] to [fd] and nothing else, and
    answers 0 only after all of it, a negative code otherwise. *)
Definition sends (fd : Z) (line : list Z) (m : io Z) : Prop :=
  ∀ w, wp m (λ r w', ∃ a b, line = a ++ b ∧ wrote fd a w w' ∧ (size w' ≤ size w)%nat ∧
                     (r = LHKT_OK ∧ b = [] ∨ r < 0)) w.

Lemma sends_fail fd line e : e < 0 → sends fd line (mret e).
Proof.
  intros He w. apply wp_ret. exists [], line. split; [done|]. split; [by apply wrote_nil|].
  split; [done|by right].
Qed.

Lemma sends_write fd line :
  sends fd line (ret ← loraham_sock_write fd line; mret (if ret <? 0 then LHKT_ERR else LHKT_OK)).
Proof.
  intros w. apply wp_bind. eapply wp_mono; [apply loraham_sock_write_safe|].
  intros r w' (a & b & -> & Ha & L & Hr). apply wp_ret. exists a, b. split_and!; try done.
  destruct Hr as [[-> ->]| ->]; [left|by right]. by rewrite (proj2 (Z.ltb_ge _ _)) by lia.
Qed.

Lemma loraham_send_config_line_sends fd cfg freq :
  sends fd (loraham_config_line cfg freq) (loraham_send_config_line fd cfg freq).
Proof.
  unfold loraham_send_config_line. destruct (fd <? 0); [by apply sends_fail|].
  destruct (256 <=? _); [by apply sends_fail|]. apply sends_write.
Qed.

Lemma loraham_send_config_freq_sends fd cfg freq :
  sends fd (loraham_config_line cfg (Some freq)) (loraham_send_config_freq fd cfg freq).
Proof.
  unfold loraham_send_config_freq. destruct (double_le0 freq); [by apply sends_fail|].
  apply loraham_send_config_line_sends.
Qed.

Lemma loraham_send_txresult_enable_sends fd :
  sends fd (str "SET TXRESULT=1" ++ [10]) (loraham_send_txresult_enable fd).
Proof.
  unfold loraham_send_txresult_enable. destruct (fd <? 0); [by apply sends_fail|].
  apply sends_write.
Qed.

Lemma loraham_config_line_text cfg freq :
  ∃ text, loraham_config_line cfg freq = text ++ [10] ∧ printable text.
Proof.
  unfold loraham_config_line, loraham_ldro_value. rewrite !app_assoc. eexists. split; [done|].
  destruct freq, (negb (ldro_auto cfg =? 0)); rewrite <-!app_assoc; solve_printable.
Qed.

(** The frequency in the text: an integer number of Hertz. *)
Definition freq_hz (f : double) : option Z :=
  match f with
  | S754_finite false m e => Some (round_half_even (Zpos m * 10 ^ 6) e)
  | _ => None
  end.

Lemma fmt_f_hz f hz :
  freq_hz f = Some hz →
  ∃ a b, fmt_f 6 f = a ++ str "." ++ b ∧ digits_value (a ++ b) = hz ∧ length b = 6%nat ∧
    Forall (λ c, isdigit c = true) a ∧ Forall (λ c, isdigit c = true) b.
Proof.
  destruct f as [| | |[] m e]; try done. intros [= <-]. cbn [fmt_f app].
  change (Z.of_nat 6) with 6. set (n := round_half_even _ e).
  assert (0 ≤ n) as Hn by (apply round_half_even_nonneg; lia).
  pose proof (Z.mod_pos_bound n (10 ^ 6) ltac:(lia)) as Hm.
  exists (fmt_nat (n / 10 ^ 6)), (pad0 6 (fmt_nat (n mod 10 ^ 6))). split; [done|].
  assert (length (pad0 6 (fmt_nat (n mod 10 ^ 6))) = 6%nat) as Hl by (apply pad0_length, fmt_nat_length; lia).
  split; [|split_and!; [done|apply fmt_nat_digits|apply pad0_isdigit, fmt_nat_digits]].
  rewrite digits_value_app, Hl, pad0_value, !fmt_nat_value.
  - pose proof (Z.div_mod n (10 ^ 6)). lia.
  - lia.
  - apply Z.div_pos; lia.
Qed.

(** How the frequency is read off a command: the digits around the point, six of them
    behind it, as a number of Hertz. *)
Definition command_hz (line : list Z) : option Z :=
  let head := str "SET MODE=LORA FREQ=" in
  if bool_decide (take (length head) line = head) then
    '(a, rest) ← strchr 46 (drop (length head) line);
    '(b, _) ← strchr 32 rest;
    if forallb isdigit (a ++ b) && (length b =? 6)%nat then Some (digits_value (a ++ b)) else None
  else None.

Lemma digits_not_in c l : isdigit c = false → Forall (λ c, isdigit c = true) l → c ∉ l.
Proof. intros Hc Hl Hin. rewrite Forall_forall in Hl. apply Hl in Hin. congruence. Qed.

Lemma command_hz_line cfg f hz :
  freq_hz f = Some hz → command_hz (loraham_config_line cfg (Some f)) = Some hz.
Proof.
  intros (a & b & E & Hv & Hl & Ha & Hb)%fmt_f_hz. unfold command_hz, loraham_config_line. rewrite E.
  set (rest := str " SF=" ++ _). set (head := str "SET MODE=LORA FREQ=").
  assert (∃ rest', rest = 32 :: rest') as [rest' ->] by by eexists.
  assert (str "SET MODE=LORA" ++ (str " FREQ=" ++ a ++ str "." ++ b) ++ 32 :: rest' =
          head ++ a ++ 46 :: b ++ 32 :: rest') as -> by (unfold head; by rewrite <-!app_assoc).
  cbv zeta. rewrite take_app_length, bool_decide_true, drop_app_length by done.
  rewrite (strchr_app 46) by by apply digits_not_in. cbn [mbind option_bind].
  rewrite (strchr_app 32) by by apply digits_not_in. cbn.
  assert (forallb isdigit (a ++ b) = true) as ->.
  { apply forallb_forall. intros c Hc%list_elem_of_In.
    assert (Forall (λ c, isdigit c = true) (a ++ b)) as Hab by by apply Forall_app.
    rewrite Forall_forall in Hab. by apply Hab. }
  by rewrite Hl, Hv.
Qed.

(** Setting the frequency: on any environment the call writes to the CONF socket
    a prefix of one configuration command and nothing else, and reports success only
    after the whole command; the command is one line (its only control character is
    the final newline) and carries the frequency as the decimal number with six
    places, i.e. in Hertz, that is nearest to the binary64 value. *)
Theorem send_config_freq_spec fd cfg freq :
  let line := loraham_config_line cfg (Some freq) in
  sends fd line (loraham_send_config_freq fd cfg freq) ∧
  (∃ text, line = text ++ [10] ∧ printable text) ∧
  (∀ hz, freq_hz freq = Some hz →
     ∃ a b rest, line = str "SET MODE=LORA FREQ=" ++ a ++ str "." ++ b ++ str " SF=" ++ rest ∧
                 digits_value (a ++ b) = hz ∧ length b = 6%nat) ∧
  (∀ m e, freq = S754_finite false m e → e < 0 →
     ∃ hz, freq_hz freq = Some hz ∧ 2 * Z.abs (hz * 2 ^ (- e) - Zpos m * 10 ^ 6) ≤ 2 ^ (- e)).
Proof.
  cbv zeta. split_and!.
  - apply loraham_send_config_freq_sends.
  - apply loraham_config_line_text.
  - intros hz (a & b & E & Hv & Hl & _)%fmt_f_hz. unfold loraham_config_line. rewrite E.
    do 3 eexists. split; [|done]. rewrite <-!app_assoc. change (str "SET MODE=LORA FREQ=") with
      (str "SET MODE=LORA" ++ str " FREQ="). rewrite <-!app_assoc. do 6 f_equal.
  - intros m e -> He. eexists. split; [done|]. by apply round_half_even_near.
Qed.

Lemma send_config_freq_spec_witness :
  freq_hz (double_lit 433775 1000) = Some 433775000 ∧
  ∃ a b rest, loraham_config_line (lhkt_config_defaults (λ _, None) (λ _, false))
                (Some (double_lit 433775 1000)) =
              str "SET MODE=LORA FREQ=" ++ a ++ str "." ++ b ++ str " SF=" ++ rest ∧
    digits_value (a ++ b) = 433775000 ∧ length b = 6%nat.
Proof.
  assert (freq_hz (double_lit 433775 1000) = Some 433775000) as E by by vm_compute.
  split; [exact E|].
  exact (proj1 (proj2 (proj2 (send_config_freq_spec 3 (lhkt_config_defaults (λ _, None) (λ _, false))
    (double_lit 433775 1000)))) 433775000 E).
Defined.
