(* ===== verification/BridgeConf.v ===== *)
(** The CONF socket of the daemon (bridge_conf.c): status lines and TX/CAD events.

    [bridge_conf_state_t] is the record below; [cs_line] holds the first [line_len]
    characters of [state->line]. The log lines the code prints are not modelled. *)
From S2P Require Import Prelude Tnc Io SockIo.

Definition LHKT_CONF_LINE_MAX : Z := 512.

Record bridge_conf_state_t := ConfState {
  cs_tx_busy : Z;
  cs_cad_busy : Z;
  cs_radio_ready : Z;
  cs_have_status : Z;
  cs_txresult_known : Z;
  cs_txresult_enabled : Z;
  cs_tx_seq : Z;
  cs_tx_busy_seq : Z;
  cs_tx_idle_seq : Z;
  cs_cad_seq : Z;
  cs_cad_busy_seq : Z;
  cs_cad_idle_seq : Z;
  cs_line : list Z;
  cs_discard : bool;
}.

Definition bridge_conf_state_init : bridge_conf_state_t :=
  ConfState 0 0 0 0 0 0 0 0 0 0 0 0 [] false.

Definition bridge_conf_txresult_enabled (st : bridge_conf_state_t) : bool :=
  negb (cs_txresult_known st =? 0) && negb (cs_txresult_enabled st =? 0).

(** The flag of a line that is [prefix] followed by exactly "0" or "1". *)
Definition bridge_parse_flag_line (line prefix : list Z) : option Z :=
  match strip_prefix prefix line with
  | Some [49] => Some 1
  | Some [48] => Some 0
  | _ => None
  end.

(** The flag after the first occurrence of [key] in the line. *)
Definition bridge_status_flag_token (line key : list Z) : option Z :=
  match strstr line key with
  | Some (c :: _) => if c =? 49 then Some 1 else if c =? 48 then Some 0 else None
  | _ => None
  end.

(** *** Assignments *)

Definition set_line (line : list Z) (discard : bool) (st : bridge_conf_state_t) : bridge_conf_state_t :=
  ConfState (cs_tx_busy st) (cs_cad_busy st) (cs_radio_ready st) (cs_have_status st)
    (cs_txresult_known st) (cs_txresult_enabled st) (cs_tx_seq st) (cs_tx_busy_seq st)
    (cs_tx_idle_seq st) (cs_cad_seq st) (cs_cad_busy_seq st) (cs_cad_idle_seq st) line discard.

(** [TX=v]: the flag and the event counters ([unsigned long]). *)
Definition conf_tx_event (v : Z) (st : bridge_conf_state_t) : bridge_conf_state_t :=
  ConfState v (cs_cad_busy st) (cs_radio_ready st) (cs_have_status st)
    (cs_txresult_known st) (cs_txresult_enabled st) (u64 (cs_tx_seq st + 1))
    (if v =? 0 then cs_tx_busy_seq st else u64 (cs_tx_busy_seq st + 1))
    (if v =? 0 then u64 (cs_tx_idle_seq st + 1) else cs_tx_idle_seq st)
    (cs_cad_seq st) (cs_cad_busy_seq st) (cs_cad_idle_seq st) (cs_line st) (cs_discard st).

Definition conf_cad_event (v : Z) (st : bridge_conf_state_t) : bridge_conf_state_t :=
  ConfState (cs_tx_busy st) v (cs_radio_ready st) (cs_have_status st)
    (cs_txresult_known st) (cs_txresult_enabled st) (cs_tx_seq st) (cs_tx_busy_seq st)
    (cs_tx_idle_seq st) (u64 (cs_cad_seq st + 1))
    (if v =? 0 then cs_cad_busy_seq st else u64 (cs_cad_busy_seq st + 1))
    (if v =? 0 then u64 (cs_cad_idle_seq st + 1) else cs_cad_idle_seq st)
    (cs_line st) (cs_discard st).

(** [STATUS ...]: every token that is present updates its field. *)
Definition conf_status (line : list Z) (st : bridge_conf_state_t) : bridge_conf_state_t :=
  ConfState
    (default (cs_tx_busy st) (bridge_status_flag_token line (str "TX=")))
    (default (cs_cad_busy st) (bridge_status_flag_token line (str "CAD=")))
    (if strstr line (str "RADIO=READY") is Some _ then 1
     else if strstr line (str "RADIO=FAILED") is Some _ then 0
     else if strstr line (str "RADIO=UNINITIALIZED") is Some _ then 0
     else cs_radio_ready st)
    1
    (match bridge_status_flag_token line (str "TXRESULT=") with
     | Some _ => 1 | None => cs_txresult_known st end)
    (default (cs_txresult_enabled st) (bridge_status_flag_token line (str "TXRESULT=")))
    (cs_tx_seq st) (cs_tx_busy_seq st) (cs_tx_idle_seq st)
    (cs_cad_seq st) (cs_cad_busy_seq st) (cs_cad_idle_seq st) (cs_line st) (cs_discard st).

Definition bridge_conf_handle_line (st : bridge_conf_state_t) (line : list Z) : bridge_conf_state_t :=
  if len line =? 0 then st
  else match bridge_parse_flag_line line (str "TX=") with
  | Some v => conf_tx_event v st
  | None =>
      match bridge_parse_flag_line line (str "CAD=") with
      | Some v => conf_cad_event v st
      | None =>
          match strip_prefix (str "STATUS ") line with
          | Some _ => conf_status line st
          | None => st
          end
      end
  end.

(** One byte of the loop of [bridge_conf_feed]. The line handed on is the C string in
    the buffer: it ends at a NUL byte, if there is one. *)
Definition bridge_conf_feed_byte (st : bridge_conf_state_t) (c : Z) : bridge_conf_state_t :=
  if c =? 13 then st
  else if c =? 10 then
    if cs_discard st then set_line [] false st
    else set_line [] (cs_discard st) (bridge_conf_handle_line st (cstr (cs_line st)))
  else if cs_discard st then st
  else if LHKT_CONF_LINE_MAX <=? len (cs_line st) + 1 then set_line [] true st
  else set_line (cs_line st ++ [c]) (cs_discard st) st.

Definition bridge_conf_feed (st : bridge_conf_state_t) (buf : list Z) : bridge_conf_state_t :=
  foldl bridge_conf_feed_byte st buf.

(** The events of counter [c] since the sequence number [last]. *)
Definition collect_add (c : counter) (seq : Z) (stats : lhkt_stats_t) (last : Z) :
    lhkt_stats_t * Z :=
  if last <? seq then (bump_by (seq - last) c stats, seq) else (stats, last).

(** The last sequence numbers accounted for, with the statistics: [(stats,
    last_busy_seq, last_idle_seq)]. *)
Definition bridge_conf_collect_cad_stats (st : bridge_conf_state_t)
    (s : lhkt_stats_t * Z * Z) : lhkt_stats_t * Z * Z :=
  let '(stats, last_busy, last_idle) := s in
  let last_busy := if cs_cad_busy_seq st <? last_busy then cs_cad_busy_seq st else last_busy in
  let last_idle := if cs_cad_idle_seq st <? last_idle then cs_cad_idle_seq st else last_idle in
  let '(stats, last_busy) := collect_add cad_busy_events (cs_cad_busy_seq st) stats last_busy in
  let '(stats, last_idle) := collect_add cad_idle_events (cs_cad_idle_seq st) stats last_idle in
  (Stats (count stats) (cs_cad_busy st), last_busy, last_idle).

(** ** Reading *)

(** Read until the socket would block: [LHKT_ERR] on end of file and errors. *)
Definition bridge_conf_read_available (conf_fd : Z) (st : bridge_conf_state_t) :
    io (Z * bridge_conf_state_t) :=
  if conf_fd <? 0 then mret (LHKT_ERR, st)
  else
    loop (λ st : bridge_conf_state_t,
      r ← sys_read conf_fd 256;
      match r with
      | RdData [] => mret (inr (LHKT_ERR, st))
      | RdData buf => mret (inl (bridge_conf_feed st buf))
      | RdErr EINTR => mret (inl st)
      | RdErr EAGAIN => mret (inr (LHKT_OK, st))
      | RdErr EOTHER => mret (inr (LHKT_ERR, st))
      end) st.

Definition bridge_conf_wait_read (conf_fd : Z) (st : bridge_conf_state_t) (wait_ms : Z) :
    io (Z * bridge_conf_state_t) :=
  if conf_fd <? 0 then mret (LHKT_ERR, st)
  else
    let wait_ms := if wait_ms <? 0 then 0 else wait_ms in
    r ← sys_select conf_fd wait_ms;
    match r with
    | SelErr EINTR => mret (0, st)
    | SelErr _ => mret (LHKT_ERR, st)
    | SelTimeout => mret (0, st)
    | SelReady =>
        '(ret, st) ← bridge_conf_read_available conf_fd st;
        mret (if negb (ret =? LHKT_OK) then LHKT_ERR else 1, st)
    end.

(** ** The line assembler *)

Lemma set_line_eta st : set_line (cs_line st) (cs_discard st) st = st.
Proof. by destruct st. Qed.

Lemma set_line_twice l d l' d' st : set_line l d (set_line l' d' st) = set_line l d st.
Proof. done. Qed.

(** A line changes everything but the line buffer, and does not look at it. *)
Lemma handle_line_set_line l d st line :
  bridge_conf_handle_line (set_line l d st) line = set_line l d (bridge_conf_handle_line st line).
Proof. unfold bridge_conf_handle_line. by repeat case_match. Qed.

(** What the code makes of a line of the input: carriage returns do not count, a line
    of more than 511 characters is dropped whole. *)
Definition strip_cr (l : list Z) : list Z := filter (λ c, c ≠ 13) l.
Definition conf_line (st : bridge_conf_state_t) (l : list Z) : bridge_conf_state_t :=
  if len (strip_cr l) <? 512 then bridge_conf_handle_line st (cstr (strip_cr l)) else st.

(** The buffer after an unfinished line. *)
Definition conf_partial (l : list Z) (st : bridge_conf_state_t) : bridge_conf_state_t :=
  if len (strip_cr l) <? 512 then set_line (strip_cr l) false st else set_line [] true st.

Lemma strip_cr_snoc l c :
  strip_cr (l ++ [c]) = if c =? 13 then strip_cr l else strip_cr l ++ [c].
Proof.
  unfold strip_cr. rewrite filter_app. destruct (Z.eqb_spec c 13).
  - rewrite filter_cons_False by naive_solver. by rewrite app_nil_r.
  - by rewrite filter_cons_True.
Qed.

Lemma feed_partial l st :
  Forall (λ c, c ≠ 10) l → cs_line st = [] → cs_discard st = false →
  bridge_conf_feed st l = conf_partial l st.
Proof.
  intros Hl Hline Hd. induction l as [|c l IH] using rev_ind.
  { unfold conf_partial; cbn. rewrite <-Hline, <-Hd. by rewrite set_line_eta. }
  apply Forall_app in Hl as [Hl [Hc _]%Forall_cons]. unfold bridge_conf_feed in *.
  rewrite foldl_app, IH by done. cbn [foldl]. unfold bridge_conf_feed_byte, conf_partial.
  rewrite strip_cr_snoc, (proj2 (Z.eqb_neq c 10)) by done. unfold LHKT_CONF_LINE_MAX.
  destruct (c =? 13); [done|]. rewrite length_app. cbn [length].
  destruct (Z.ltb_spec (len (strip_cr l)) 512); cbn [cs_discard cs_line set_line].
  - destruct (Z.leb_spec 512 (len (strip_cr l) + 1)); zdecide; by rewrite set_line_twice.
  - zdecide. done.
Qed.

Lemma feed_line l st :
  Forall (λ c, c ≠ 10) l → cs_line st = [] → cs_discard st = false →
  bridge_conf_feed st (l ++ [10]) = conf_line st l.
Proof.
  intros Hl Hline Hd. unfold bridge_conf_feed. rewrite foldl_app.
  change (foldl bridge_conf_feed_byte st l) with (bridge_conf_feed st l).
  rewrite (feed_partial l st Hl Hline Hd). cbn [foldl].
  unfold bridge_conf_feed_byte, conf_partial, conf_line. cbn [Z.eqb Z.ltb].
  destruct (len (strip_cr l) <? 512); cbn [cs_discard cs_line set_line Z.eqb Pos.eqb].
  - rewrite handle_line_set_line, set_line_twice.
    transitivity (bridge_conf_handle_line (set_line [] false st) (cstr (strip_cr l)));
      [by rewrite handle_line_set_line|].
    by rewrite <-Hline, <-Hd, set_line_eta.
  - rewrite set_line_twice. by rewrite <-Hline, <-Hd, set_line_eta.
Qed.

Lemma conf_line_idle st l :
  cs_line st = [] → cs_discard st = false →
  cs_line (conf_line st l) = [] ∧ cs_discard (conf_line st l) = false.
Proof.
  intros Hline Hd. rewrite <-(set_line_eta st), Hline, Hd. unfold conf_line.
  case_match; [|done]. by rewrite handle_line_set_line.
Qed.

(** C29. The CONF stream as lines: for any input, cut into its complete lines [ls] and
    the unfinished rest [r], the state is the state after handling the lines in order
    (carriage returns removed, lines of more than 511 characters dropped whole, so
    that no part of them is taken for an event), with the rest kept as the beginning
    of the next line. In particular it does not matter how the kernel cuts the stream
    into reads. *)
Theorem conf_feed_lines st ls r
    (Hls : Forall (Forall (λ c, c ≠ 10)) ls) (Hr : Forall (λ c, c ≠ 10) r)
    (Hline : cs_line st = []) (Hdiscard : cs_discard st = false) :
  bridge_conf_feed st (concat (map (λ l, l ++ [10]) ls) ++ r) =
    conf_partial r (foldl conf_line st ls) ∧
  (∀ a b, concat (map (λ l, l ++ [10]) ls) ++ r = a ++ b →
     bridge_conf_feed (bridge_conf_feed st a) b = conf_partial r (foldl conf_line st ls)).
Proof.
  assert (bridge_conf_feed st (concat (map (λ l, l ++ [10]) ls) ++ r) =
          conf_partial r (foldl conf_line st ls)) as E.
  { revert st Hline Hdiscard. induction Hls as [|l ls Hl _ IH]; intros st Hline Hd; cbn [map concat foldl].
    - by apply feed_partial.
    - rewrite <-app_assoc. unfold bridge_conf_feed in *. rewrite foldl_app.
      change (foldl bridge_conf_feed_byte st (l ++ [10])) with (bridge_conf_feed st (l ++ [10])).
      rewrite feed_line by done. destruct (conf_line_idle st l Hline Hd). by apply IH. }
  split; [done|]. intros a b Hab. rewrite <-E, Hab. unfold bridge_conf_feed. by rewrite foldl_app.
Qed.

Lemma conf_feed_lines_witness :
  bridge_conf_feed bridge_conf_state_init (str "TX=1" ++ [13; 10] ++ str "CAD=") =
    set_line (str "CAD=") false (conf_tx_event 1 bridge_conf_state_init).
Proof.
  refine (eq_trans (proj1 (conf_feed_lines bridge_conf_state_init [str "TX=1" ++ [13]] (str "CAD=")
    _ _ _ _)) _); [| |done|done|by vm_compute].
  - apply (bool_decide_unpack _). by vm_compute.
  - apply (bool_decide_unpack _). by vm_compute.
Defined.

(** ** Counting events *)

Lemma parse_flag_line_spec line prefix v :
  bridge_parse_flag_line line prefix = Some v ↔
    v = 1 ∧ line = prefix ++ str "1" ∨ v = 0 ∧ line = prefix ++ str "0".
Proof.
  unfold bridge_parse_flag_line. split.
  - destruct (strip_prefix prefix line) as [r|] eqn:E; [|done]. apply strip_prefix_Some in E as ->.
    repeat case_match; naive_solver.
  - intros [[-> ->]|[-> ->]]; by rewrite (proj2 (strip_prefix_Some _ _ _) eq_refl).
Qed.

(** The line [l] of the input is the event [e]. *)
Definition is_event (e : list Z) (l : list Z) : Prop :=
  len (strip_cr l) < 512 ∧ cstr (strip_cr l) = e.
#[export] Instance is_event_dec e l : Decision (is_event e l) := _.

Definition events (e : list Z) (ls : list (list Z)) : Z := len (filter (is_event e) ls).

Definition bump_if (P : Prop) `{Decision P} (z : Z) : Z := if decide P then u64 (z + 1) else z.

(** The four event counters after a line, whatever it is. *)
Lemma handle_line_counters st x :
  cs_tx_busy_seq (bridge_conf_handle_line st x) = bump_if (x = str "TX=1") (cs_tx_busy_seq st) ∧
  cs_tx_idle_seq (bridge_conf_handle_line st x) = bump_if (x = str "TX=0") (cs_tx_idle_seq st) ∧
  cs_cad_busy_seq (bridge_conf_handle_line st x) = bump_if (x = str "CAD=1") (cs_cad_busy_seq st) ∧
  cs_cad_idle_seq (bridge_conf_handle_line st x) = bump_if (x = str "CAD=0") (cs_cad_idle_seq st).
Proof.
  unfold bridge_conf_handle_line, bump_if.
  destruct (Z.eqb_spec (len x) 0) as [E|_]; [destruct x; [done|cbn in E; lia]|].
  destruct (bridge_parse_flag_line x (str "TX=")) as [v|] eqn:Et.
  { apply parse_flag_line_spec in Et as [[-> ->]|[-> ->]]; done. }
  destruct (bridge_parse_flag_line x (str "CAD=")) as [v|] eqn:Ec.
  { apply parse_flag_line_spec in Ec as [[-> ->]|[-> ->]]; done. }
  assert (∀ e, x = e → bridge_parse_flag_line e (str "TX=") = None ∧
                       bridge_parse_flag_line e (str "CAD=") = None) as Hno by (by intros e <-).
  rewrite !decide_False by (intros H; by apply Hno in H as []).
  by case_match.
Qed.

Lemma bump_if_iff P Q `{Decision P, Decision Q} z : (P ↔ Q) → bump_if P z = bump_if Q z.
Proof. intros HPQ. unfold bump_if. repeat case_decide; naive_solver. Qed.

Lemma conf_line_counters st l :
  cs_tx_busy_seq (conf_line st l) = bump_if (is_event (str "TX=1") l) (cs_tx_busy_seq st) ∧
  cs_tx_idle_seq (conf_line st l) = bump_if (is_event (str "TX=0") l) (cs_tx_idle_seq st) ∧
  cs_cad_busy_seq (conf_line st l) = bump_if (is_event (str "CAD=1") l) (cs_cad_busy_seq st) ∧
  cs_cad_idle_seq (conf_line st l) = bump_if (is_event (str "CAD=0") l) (cs_cad_idle_seq st).
Proof.
  unfold conf_line, is_event. destruct (Z.ltb_spec (len (strip_cr l)) 512).
  - destruct (handle_line_counters st (cstr (strip_cr l))) as (-> & -> & -> & ->).
    split_and!; apply bump_if_iff; naive_solver.
  - unfold bump_if. rewrite !decide_False by lia. done.
Qed.

(** A counter that one kind of event moves counts the events of that kind. *)
Lemma count_events (f : bridge_conf_state_t → Z) e :
  (∀ st l, f (conf_line st l) = bump_if (is_event e l) (f st)) →
  ∀ ls st, u64 (f st) = f st → f (foldl conf_line st ls) = u64 (f st + events e ls).
Proof.
  intros Hf ls. induction ls as [|l ls IH]; intros st Hst; cbn [foldl].
  { unfold events. cbn. by rewrite Z.add_0_r. }
  assert (u64 (f (conf_line st l)) = f (conf_line st l)) as Hst'.
  { rewrite Hf. unfold bump_if. case_decide; [|done]. unfold u64. by rewrite Z.mod_mod by lia. }
  rewrite IH, Hf by done. unfold bump_if, events. rewrite filter_cons. case_decide; [|done].
  cbn [length]. unfold u64. rewrite Z.add_mod_idemp_l by lia. f_equal. lia.
Qed.

Lemma collect_add_spec c n stats last :
  0 ≤ n → u64 (count stats c) = count stats c →
  ∃ stats', collect_add c (last + n) stats last = (stats', last + n) ∧
    count stats' c = u64 (count stats c + n) ∧
    (∀ c', c' ≠ c → count stats' c' = count stats c').
Proof.
  intros Hn Hc. unfold collect_add. destruct (Z.ltb_spec last (last + n)).
  - eexists. split; [done|]. split; [|intros; by apply bump_ne].
    rewrite bump_eq. f_equal. lia.
  - replace n with 0 by lia. eexists. rewrite !Z.add_0_r. split_and!; done.
Qed.

(** Counting: for any sequence of lines, each of the four event counters of the
    state grows by the number of the lines that are its event ("TX=1", "TX=0",
    "CAD=1", "CAD=0"), modulo 2^64; and as long as the CAD counters do not wrap,
    collecting the statistics after any number of lines adds to [cad_busy_events] and
    [cad_idle_events] exactly the events since the last collection, changes no other
    counter and remembers the new sequence numbers. *)
Theorem conf_events_counted st ls stats
    (Htb : u64 (cs_tx_busy_seq st) = cs_tx_busy_seq st)
    (Hti : u64 (cs_tx_idle_seq st) = cs_tx_idle_seq st)
    (Hcb : 0 ≤ cs_cad_busy_seq st ∧ cs_cad_busy_seq st + events (str "CAD=1") ls < 2 ^ 64)
    (Hci : 0 ≤ cs_cad_idle_seq st ∧ cs_cad_idle_seq st + events (str "CAD=0") ls < 2 ^ 64)
    (Hstats : ∀ c, u64 (count stats c) = count stats c) :
  let st' := foldl conf_line st ls in
  cs_tx_busy_seq st' = u64 (cs_tx_busy_seq st + events (str "TX=1") ls) ∧
  cs_tx_idle_seq st' = u64 (cs_tx_idle_seq st + events (str "TX=0") ls) ∧
  cs_cad_busy_seq st' = cs_cad_busy_seq st + events (str "CAD=1") ls ∧
  cs_cad_idle_seq st' = cs_cad_idle_seq st + events (str "CAD=0") ls ∧
  ∃ stats', bridge_conf_collect_cad_stats st' (stats, cs_cad_busy_seq st, cs_cad_idle_seq st) =
              (stats', cs_cad_busy_seq st', cs_cad_idle_seq st') ∧
    cad_current_busy stats' = cs_cad_busy st' ∧
    count stats' cad_busy_events = u64 (count stats cad_busy_events + events (str "CAD=1") ls) ∧
    count stats' cad_idle_events = u64 (count stats cad_idle_events + events (str "CAD=0") ls) ∧
    (∀ c, c ≠ cad_busy_events → c ≠ cad_idle_events → count stats' c = count stats c).
Proof.
  assert (∀ e, 0 ≤ events e ls) as Hpos by (intros e; unfold events; lia).
  assert (∀ z, 0 ≤ z < 2 ^ 64 → u64 z = z) as Hu by (intros; by apply Z.mod_small).
  pose proof (Hpos (str "CAD=1")). pose proof (Hpos (str "CAD=0")).
  assert (cs_cad_busy_seq (foldl conf_line st ls) = cs_cad_busy_seq st + events (str "CAD=1") ls) as Eb.
  { rewrite (count_events cs_cad_busy_seq (str "CAD=1")), Hu; [done|lia| |apply Hu; lia].
    intros; apply conf_line_counters. }
  assert (cs_cad_idle_seq (foldl conf_line st ls) = cs_cad_idle_seq st + events (str "CAD=0") ls) as Ei.
  { rewrite (count_events cs_cad_idle_seq (str "CAD=0")), Hu; [done|lia| |apply Hu; lia].
    intros; apply conf_line_counters. }
  cbv zeta. split_and!; try done.
  - apply (count_events cs_tx_busy_seq); [|done]. intros; apply conf_line_counters.
  - apply (count_events cs_tx_idle_seq); [|done]. intros; apply conf_line_counters.
  - unfold bridge_conf_collect_cad_stats. rewrite Eb, Ei.
    rewrite !(proj2 (Z.ltb_ge (_ + _) _)) by lia.
    destruct (collect_add_spec cad_busy_events (events (str "CAD=1") ls) stats (cs_cad_busy_seq st))
      as (s1 & -> & E1 & O1); [done..|].
    destruct (collect_add_spec cad_idle_events (events (str "CAD=0") ls) s1 (cs_cad_idle_seq st))
      as (s2 & -> & E2 & O2); [done|by rewrite O1|].
    eexists. split; [done|]. cbn. split; [done|]. split_and!.
    + by rewrite O2.
    + by rewrite E2, O1.
    + intros c H1 H2. by rewrite O2, O1.
Qed.

Lemma conf_events_counted_witness :
  let ls := [str "CAD=1"; str "TX=1"; str "CAD=0"; str "CAD=1"] in
  let st' := foldl conf_line bridge_conf_state_init ls in
  cs_cad_busy_seq st' = 2 ∧
  ∃ stats', bridge_conf_collect_cad_stats st' (lhkt_stats_init, 0, 0) =
              (stats', cs_cad_busy_seq st', cs_cad_idle_seq st') ∧ count stats' cad_busy_events = 2.
Proof.
  cbv zeta.
  destruct (conf_events_counted bridge_conf_state_init
    [str "CAD=1"; str "TX=1"; str "CAD=0"; str "CAD=1"] lhkt_stats_init)
    as (_ & _ & E & _ & s & H & _ & B & _).
  - by vm_compute.
  - by vm_compute.
  - by vm_compute.
  - by vm_compute.
  - by vm_compute.
  - split; [rewrite E; by vm_compute|]. exists s. split; [exact H|]. rewrite B. by vm_compute.
Defined.
