(* ===== verification/BridgeKiss.v ===== *)
(** KISS ingress (bridge_kiss.c): a frame of the KISS client becomes a LoRa-APRS packet
    in the TX queue.

    The handlers return the C return value with the statistics and the queue they
    leave; [now] is the clock reading of [bridge_tx_queue_push]. Log lines are not
    modelled. *)
From S2P Require Import Prelude Tnc Kiss Ax25 Tnc2 LorahamSock TxQueue.

Definition bridge_kiss_handle_data_frame (frame : kiss_frame_t) (cfg : lhkt_config_t)
    (stats : lhkt_stats_t) (queue : bridge_tx_queue_t) (now : Z) :
    Z * lhkt_stats_t * bridge_tx_queue_t :=
  match ax25_decode_ui (kf_data frame) with
  | Err e => (e, bump ax25_drop stats, queue)
  | Ok ax25 =>
      let stats := bump ax25_rx stats in
      match tnc2_format_line ax25 LHKT_TNC2_MAX_LINE with
      | Err e => (e, bump tnc2_drop stats, queue)
      | Ok tnc2 =>
          let stats := bump tnc2_tx stats in
          match loraham_build_aprs_packet (cstr tnc2) LHKT_LORAHAM_TX_MAX with
          | Err e =>
              let stats := bump loraham_drop stats in
              let stats := if e =? LHKT_ERR_LONG then bump tx_drop_oversize stats else stats in
              (e, stats, queue)
          | Ok lora_pkt =>
              if negb (rx_only cfg =? 0) then (LHKT_OK, stats, queue)
              else
                match bridge_tx_queue_push queue cfg lora_pkt now with
                | Err e => (e, bump loraham_drop stats, queue)
                | Ok queue => (LHKT_OK, stats, queue)
                end
          end
      end
  end.

Definition bridge_kiss_handle_frame (frame : kiss_frame_t) (params : kiss_params_t)
    (cfg : lhkt_config_t) (stats : lhkt_stats_t) (queue : bridge_tx_queue_t) (now : Z) :
    Z * kiss_params_t * lhkt_stats_t * bridge_tx_queue_t :=
  let params := kiss_handle_command params frame in
  if kf_command frame =? KISS_CMD_DATA then
    if negb (kf_port frame =? 0) then (LHKT_ERR_UNSUPPORTED, params, bump kiss_drop stats, queue)
    else
      let '(ret, stats, queue) := bridge_kiss_handle_data_frame frame cfg stats queue now in
      (ret, params, stats, queue)
  else (LHKT_OK, params, stats, queue).

(** ** Specification *)

(** The packet a KISS frame stands for: a data frame on port 0 whose AX.25 frame has a
    text form of at most 252 characters. *)
Definition kiss_tx_packet (frame : kiss_frame_t) : option (list Z) :=
  if negb (kf_command frame =? 0) || negb (kf_port frame =? 0) then None
  else
    match ax25_decode_ui (kf_data frame) with
    | Err _ => None
    | Ok f =>
        if bool_decide (0 ∈ af_payload f) || (252 <? len (tnc2_text f)) then None
        else Some (loraham_hdr ++ tnc2_text f)
    end.

(** Is there room in the queue. *)
Definition queue_room (cfg : lhkt_config_t) (queue : bridge_tx_queue_t) : bool :=
  len (TxQueue.Spec.contents queue) <? Z.max 1 (Z.min 16 (tx_queue_len cfg)).

Lemma existsb_0 l : existsb (Z.eqb 0) l = bool_decide (0 ∈ l).
Proof.
  apply eq_true_iff_eq. rewrite existsb_exists, bool_decide_eq_true. split.
  - intros (c & Hin & <-%Z.eqb_eq). by apply list_elem_of_In.
  - intros Hin. exists 0. split; [by apply list_elem_of_In|done].
Qed.

Lemma tnc2_format_nul f n :
  364 < n → ax25_frame_wf f → 0 ∈ af_payload f → tnc2_format_line f n = Err LHKT_ERR_FORMAT.
Proof.
  intros Hn [_ _ _ Hp Hy _] H0. unfold tnc2_format_line.
  rewrite (proj2 (Z.eqb_neq n 0)), (proj2 (Z.ltb_ge _ _) Hp), (proj2 (Z.ltb_ge _ _) Hy) by lia.
  by rewrite existsb_0, bool_decide_true.
Qed.

Lemma tnc2_text_no_nul f : ax25_frame_wf f → 0 ∉ af_payload f → no_nul (tnc2_text f).
Proof.
  intros Hwf H0. apply Forall_forall. intros c Hin ->. unfold tnc2_text in Hin.
  rewrite !elem_of_app in Hin. destruct Hin as [Hin|[Hin|Hin]].
  - revert Hin. apply tnc2_header_no; tauto.
  - by apply list_elem_of_singleton in Hin.
  - unfold tnc2_oneline in Hin. apply list_elem_of_fmap in Hin as (b & Hb & Hin).
    destruct (is_eol b); [done|]. by subst.
Qed.

Lemma loraham_build_aprs_packet_eq tnc2 :
  loraham_build_aprs_packet tnc2 LHKT_LORAHAM_TX_MAX =
    if 252 <? len tnc2 then Err LHKT_ERR_LONG else Ok (loraham_hdr ++ tnc2).
Proof.
  unfold loraham_build_aprs_packet, LHKT_LORAHAM_TX_MAX, LHKT_LORAHAM_HDR_LEN.
  destruct (Z.ltb_spec 252 (len tnc2)); by zdecide.
Qed.

(** The data handler, frame by frame: the counter of the stage that drops the frame,
    or the packet. *)
Lemma bridge_kiss_handle_data_frame_eq frame cfg stats queue now :
  bytes_ok (kf_data frame) →
  bridge_kiss_handle_data_frame frame cfg stats queue now =
    match ax25_decode_ui (kf_data frame) with
    | Err e => (e, bump ax25_drop stats, queue)
    | Ok f =>
        if bool_decide (0 ∈ af_payload f)
        then (LHKT_ERR_FORMAT, bump tnc2_drop (bump ax25_rx stats), queue)
        else
          let stats := bump tnc2_tx (bump ax25_rx stats) in
          if 252 <? len (tnc2_text f)
          then (LHKT_ERR_LONG, bump tx_drop_oversize (bump loraham_drop stats), queue)
          else if negb (rx_only cfg =? 0) then (LHKT_OK, stats, queue)
          else match bridge_tx_queue_push queue cfg (loraham_hdr ++ tnc2_text f) now with
               | Err e => (e, bump loraham_drop stats, queue)
               | Ok queue => (LHKT_OK, stats, queue)
               end
    end.
Proof.
  intros Hb. unfold bridge_kiss_handle_data_frame.
  destruct (ax25_decode_ui (kf_data frame)) as [f|e] eqn:E; [|done].
  apply ax25_decode_ui_wf in E as [Hwf _]; [|done].
  case_bool_decide as H0; [by rewrite tnc2_format_nul|].
  rewrite tnc2_format_wf, cstr_id, loraham_build_aprs_packet_eq by (done || by apply tnc2_text_no_nul).
  by destruct (252 <? _).
Qed.

Lemma push_room queue cfg p now :
  TxQueue.Spec.wf queue → 1 ≤ len p ≤ 255 →
  match bridge_tx_queue_push queue cfg p now with
  | Err e => queue_room cfg queue = false ∧ e = LHKT_ERR_NOSPACE
  | Ok q' => queue_room cfg queue = true ∧ TxQueue.Spec.wf q' ∧
             TxQueue.Spec.contents q' = TxQueue.Spec.contents queue ++ [TxItem p now 0]
  end.
Proof.
  intros Hwf Hp. pose proof (push_spec queue cfg p now Hwf) as H.
  assert ((len p =? 0) || (255 <? len p) = false) as E by (apply orb_false_iff; split; lia).
  unfold TxQueue.Spec.push in H. rewrite E in H. unfold queue_room. revert H. zcase; zdecide.
  - destruct (bridge_tx_queue_push queue cfg p now) as [q'|e]; [|done]. by intros [[= <-] ?].
  - destruct (bridge_tx_queue_push queue cfg p now) as [q'|e]; [by intros []|]. by intros [= <-].
Qed.

Lemma tnc2_text_nonempty f : ax25_frame_wf f → 1 ≤ len (loraham_hdr ++ tnc2_text f).
Proof. intros Hwf. rewrite length_app. cbn. lia. Qed.

Lemma ax25_decode_addrs_err n : ∀ addrs last data e,
  ax25_decode_addrs n addrs last data = Err e → e < 0.
Proof.
  induction n as [|n IH]; intros addrs last data e; cbn [ax25_decode_addrs]; [done|].
  case_match; [done|]. intros [H1|(a & _ & H1)]%bind_Err.
  - revert H1. unfold ax25_decode_addr. repeat case_match; try done; by intros [= <-].
  - case_match; [done|]. by eapply IH.
Qed.

Lemma ax25_decode_ui_err data e : ax25_decode_ui data = Err e → e < 0.
Proof.
  unfold ax25_decode_ui. intros [H|([[addrs last] rest] & _ & H)]%bind_Err.
  - by eapply ax25_decode_addrs_err.
  - revert H. repeat case_match; try done; by intros [= <-].
Qed.

Lemma handle_frame_spec frame params cfg stats queue now
    (Hb : bytes_ok (kf_data frame)) (Hq : TxQueue.Spec.wf queue) :
  let '(ret, params', stats', queue') := bridge_kiss_handle_frame frame params cfg stats queue now in
  TxQueue.Spec.wf queue' ∧
  match kiss_tx_packet frame with
  | Some p =>
      if negb (rx_only cfg =? 0) then ret = LHKT_OK ∧ queue' = queue
      else if queue_room cfg queue
      then ret = LHKT_OK ∧
           TxQueue.Spec.contents queue' = TxQueue.Spec.contents queue ++ [TxItem p now 0]
      else ret = LHKT_ERR_NOSPACE ∧ queue' = queue
  | None => queue' = queue ∧ (ret = LHKT_OK ↔ kf_command frame ≠ KISS_CMD_DATA)
  end.
Proof.
  unfold bridge_kiss_handle_frame, kiss_tx_packet, KISS_CMD_DATA.
  destruct (Z.eqb_spec (kf_command frame) 0) as [Hc|Hc]; cbn [negb orb]; [|done].
  destruct (Z.eqb_spec (kf_port frame) 0) as [Hp|Hp]; cbn [negb orb].
  2:{ split; [done|]. split; [done|]. split; [done|lia]. }
  rewrite bridge_kiss_handle_data_frame_eq by done.
  destruct (ax25_decode_ui (kf_data frame)) as [f|e] eqn:E.
  2:{ apply ax25_decode_ui_err in E. unfold LHKT_OK. split; [done|]. split; [done|]. lia. }
  apply ax25_decode_ui_wf in E as [Hwf _]; [|done].
  assert (queue = queue ∧ (LHKT_ERR_FORMAT = LHKT_OK ↔ kf_command frame ≠ 0)) as Hf
    by (split; [done|]; split; [done|lia]).
  case_bool_decide; cbn [orb]; [done|].
  destruct (Z.ltb_spec 252 (len (tnc2_text f))) as [|Hl]; [done|].
  destruct (negb (rx_only cfg =? 0)); [done|].
  assert (1 ≤ len (loraham_hdr ++ tnc2_text f) ≤ 255) as Hlen.
  { split; [by apply tnc2_text_nonempty|]. rewrite length_app. cbn. lia. }
  pose proof (push_room queue cfg (loraham_hdr ++ tnc2_text f) now Hq Hlen) as Hpush.
  destruct (bridge_tx_queue_push _ _ _ _) as [q'|e]; destruct Hpush as (-> & Hpush).
  - destruct Hpush. done.
  - by rewrite Hpush.
Qed.

(** C30. KISS ingress, completely: the frame of the client is appended to the TX queue
    as 3C FF 01 followed by its TNC2 text exactly when it is a data frame on port 0
    that decodes as AX.25, has no NUL in its payload and at most 252 characters of
    text, transmission is not disabled and the queue has room; in every other case the
    queue is untouched. Success is reported for commands, for enqueued packets and for
    packets suppressed by RX-only mode, and only for those. *)
Theorem kiss_frame_enqueues frame params cfg stats queue now
    (Hb : bytes_ok (kf_data frame)) (Hq : TxQueue.Spec.wf queue) :
  let '(ret, params', stats', queue') := bridge_kiss_handle_frame frame params cfg stats queue now in
  TxQueue.Spec.wf queue' ∧
  match kiss_tx_packet frame with
  | Some p =>
      if negb (rx_only cfg =? 0) then ret = LHKT_OK ∧ queue' = queue
      else if queue_room cfg queue
      then ret = LHKT_OK ∧
           TxQueue.Spec.contents queue' = TxQueue.Spec.contents queue ++ [TxItem p now 0]
      else ret = LHKT_ERR_NOSPACE ∧ queue' = queue
  | None => queue' = queue ∧ (ret = LHKT_OK ↔ kf_command frame ≠ KISS_CMD_DATA)
  end.
Proof. by apply handle_frame_spec. Qed.

Definition kiss_example_cfg : lhkt_config_t := lhkt_config_defaults (λ _, None) (λ _, false).

Lemma kiss_frame_enqueues_witness :
  let '(ret, _, _, queue') := bridge_kiss_handle_frame (KissFrame 0 0 ax25_example_bytes)
    kiss_params_init kiss_example_cfg lhkt_stats_init bridge_tx_queue_init 7 in
  TxQueue.Spec.wf queue' ∧ ret = LHKT_OK ∧
  TxQueue.Spec.contents queue' =
    [TxItem (loraham_hdr ++ str "DJ0CHE-10>APLG01,DB0ABC-10*,WIDE1-1:!hello") 7 0].
Proof.
  pose proof (kiss_frame_enqueues (KissFrame 0 0 ax25_example_bytes) kiss_params_init
    kiss_example_cfg lhkt_stats_init bridge_tx_queue_init 7) as H.
  apply H.
  - apply (bool_decide_unpack _). by vm_compute.
  - apply bridge_tx_queue_init_wf.
Defined.

(** The drop counters of the KISS ingress. *)
Definition kiss_drops : list counter := [kiss_drop; ax25_drop; tnc2_drop; loraham_drop].

(** [c] counts one more, the other drop counters are as they were. *)
Definition one_drop (stats stats' : lhkt_stats_t) : Prop :=
  ∃ c, c ∈ kiss_drops ∧ ∀ c', c' ∈ kiss_drops →
    count stats' c' = if decide (c' = c) then u64 (count stats c + 1) else count stats c'.
Definition no_drop (stats stats' : lhkt_stats_t) : Prop :=
  ∀ c, c ∈ kiss_drops → count stats' c = count stats c.

Lemma in_kiss_drops (P : counter → Prop) :
  (∀ c, c ∈ kiss_drops → P c) ↔ P kiss_drop ∧ P ax25_drop ∧ P tnc2_drop ∧ P loraham_drop.
Proof.
  unfold kiss_drops. split; [intros H; split_and!; apply H; set_solver|].
  intros (? & ? & ? & ?) c Hc. rewrite !elem_of_cons, elem_of_nil in Hc. naive_solver.
Qed.

Lemma no_drop_intro stats stats' :
  count stats' kiss_drop = count stats kiss_drop ∧ count stats' ax25_drop = count stats ax25_drop ∧
  count stats' tnc2_drop = count stats tnc2_drop ∧
  count stats' loraham_drop = count stats loraham_drop → no_drop stats stats'.
Proof. intros H. exact (proj2 (in_kiss_drops (λ c, count stats' c = count stats c)) H). Qed.

Lemma push_err queue cfg p now e : bridge_tx_queue_push queue cfg p now = Err e → e < 0.
Proof. unfold bridge_tx_queue_push. repeat case_match; try done; by intros [= <-]. Qed.

(** C31. No frame is lost silently: a frame that is not handled successfully is counted
    in exactly one of the drop counters (KISS, AX.25, TNC2, LoRaHAM), once, and a
    handled one in none. *)
Theorem kiss_frame_accounting frame params cfg stats queue now (Hb : bytes_ok (kf_data frame)) :
  let '(ret, params', stats', queue') := bridge_kiss_handle_frame frame params cfg stats queue now in
  (ret = LHKT_OK ∧ no_drop stats stats') ∨ (ret < 0 ∧ one_drop stats stats').
Proof.
  unfold bridge_kiss_handle_frame. destruct (kf_command frame =? KISS_CMD_DATA); [|by left].
  destruct (negb (kf_port frame =? 0)).
  { right. split; [done|]. exists kiss_drop. split; [set_solver|]. by apply in_kiss_drops. }
  rewrite bridge_kiss_handle_data_frame_eq by done.
  destruct (ax25_decode_ui (kf_data frame)) as [f|e] eqn:E.
  2:{ apply ax25_decode_ui_err in E. right. split; [done|]. exists ax25_drop. split; [set_solver|].
      by apply in_kiss_drops. }
  case_bool_decide.
  { right. split; [done|]. exists tnc2_drop. split; [set_solver|]. by apply in_kiss_drops. }
  cbv zeta. destruct (252 <? len (tnc2_text f)).
  { right. split; [done|]. exists loraham_drop. split; [set_solver|]. by apply in_kiss_drops. }
  destruct (negb (rx_only cfg =? 0)); [left; split; [done|]; by apply no_drop_intro|].
  destruct (bridge_tx_queue_push _ _ _ _) as [q'|e] eqn:Ep.
  - left. split; [done|]. by apply no_drop_intro.
  - apply push_err in Ep. right. split; [done|]. exists loraham_drop. split; [set_solver|].
    by apply in_kiss_drops.
Qed.

Lemma kiss_frame_accounting_witness :
  let '(ret, _, stats', _) := bridge_kiss_handle_frame (KissFrame 0 0 [1; 2; 3])
    kiss_params_init kiss_example_cfg lhkt_stats_init bridge_tx_queue_init 7 in
  (ret = LHKT_OK ∧ no_drop lhkt_stats_init stats') ∨ (ret < 0 ∧ one_drop lhkt_stats_init stats').
Proof.
  pose proof (kiss_frame_accounting (KissFrame 0 0 [1; 2; 3]) kiss_params_init kiss_example_cfg
    lhkt_stats_init bridge_tx_queue_init 7) as H.
  apply H. apply (bool_decide_unpack _). by vm_compute.
Defined.
