(* ===== verification/BridgeRx.v ===== *)
(** The receive path (bridge_rx.c): frames of the daemon become KISS frames for the
    client.

    A handler is an [io] program: it returns the C return value with the statistics it
    leaves, and its writes to the client socket are in the trace. The RF log calls are
    recorded in the trace as well (Rflog.v models what they do); other log lines are not
    modelled. *)
From S2P Require Import Prelude Tnc Kiss Ax25 Tnc2 LorahamSock Io SockIo.

Definition BRIDGE_RX_LORAHAM_META_LEN : Z := 4.

(** [tnc2] is a C string. *)
Definition bridge_rx_send_tnc2_to_kiss_client (client_fd : Z) (tnc2 : list Z)
    (stats : lhkt_stats_t) : io (Z * lhkt_stats_t) :=
  if client_fd <? 0 then mret (LHKT_ERR, stats)
  else
    match tnc2_parse_line tnc2 with
    | Err e => mret (e, bump tnc2_drop stats)
    | Ok ax25 =>
        let stats := bump tnc2_rx stats in
        match ax25_encode_ui ax25 LHKT_AX25_MAX_FRAME with
        | Err e => mret (e, bump ax25_drop stats)
        | Ok ax25_raw =>
            let stats := bump ax25_tx stats in
            match kiss_encode_data_frame ax25_raw LHKT_KISS_MAX_FRAME with
            | Err e => mret (e, bump kiss_drop stats)
            | Ok kiss_raw =>
                ret ← bridge_rx_write_all_fd client_fd kiss_raw;
                if negb (ret =? LHKT_OK) then mret (LHKT_ERR_CLIENT_SOCKET, bump kiss_drop stats)
                else mret (LHKT_OK, bump kiss_tx stats)
            end
        end
    end.

(** The loop that drains the scanner: every round but the last takes bytes from
    [pending] ([rx_chunk_fuel]). *)
Fixpoint rx_chunk_loop (fuel : nat) (client_fd : Z) (rx : loraham_rx_state_t) (buf : list Z)
    (stats : lhkt_stats_t) : io (Z * loraham_rx_state_t * lhkt_stats_t) :=
  match fuel with
  | O => λ _, None
  | S fuel =>
      let again rx stats :=
        if len (lx_pending rx) =? 0 then mret (LHKT_OK, rx, stats)
        else rx_chunk_loop fuel client_fd rx [] stats in
      let '(rx, ev) := loraham_extract_tnc2 rx buf LHKT_TNC2_MAX_LINE in
      match ev with
      | Frame tnc2 =>
          '(ret, stats) ← bridge_rx_send_tnc2_to_kiss_client client_fd (cstr tnc2)
                            (bump loraham_rx stats);
          if negb (ret =? LHKT_OK) then mret (ret, rx, stats) else again rx stats
      | Fault e => mret (e, rx, bump loraham_drop stats)
      | Quiet => again rx stats
      end
  end.

Definition bridge_rx_handle_loraham_chunk (client_fd : Z) (rx : loraham_rx_state_t)
    (buf : list Z) (stats : lhkt_stats_t) : io (Z * loraham_rx_state_t * lhkt_stats_t) :=
  rx_chunk_loop (S (length (lx_pending rx ++ buf))) client_fd rx buf stats.

Definition bridge_rx_send_loraham_packet_to_kiss_client (client_fd : Z) (packet : list Z)
    (stats : lhkt_stats_t) : io (Z * lhkt_stats_t) :=
  if client_fd <? 0 then mret (LHKT_ERR, stats)
  else
    let before := count stats loraham_rx in
    '(ret, rx, stats) ← bridge_rx_handle_loraham_chunk client_fd loraham_rx_state_init packet stats;
    if negb (ret =? LHKT_OK) then mret (ret, stats)
    else
      '(ret, rx, stats) ← bridge_rx_handle_loraham_chunk client_fd rx [] stats;
      if negb (ret =? LHKT_OK) then mret (ret, stats)
      else if count stats loraham_rx =? before
      then mret (LHKT_ERR_FORMAT, bump loraham_drop stats)
      else mret (LHKT_OK, stats).

(** [(int16_t)(lo | (hi << 8))]. *)
Definition s16 (lo hi : Z) : Z :=
  let z := Z.lor lo (Z.shiftl hi 8) in if z <? 2 ^ 15 then z else z - 2 ^ 16.

Definition bridge_rx_handle_framed_frame (client_fd : Z) (frame : loraham_frame_t)
    (stats : lhkt_stats_t) : io (Z * lhkt_stats_t) :=
  let p := lf_payload frame in
  if lf_type frame =? LORAHAM_FRAME_RX_PACKET then
    _ ← (if BRIDGE_RX_LORAHAM_META_LEN <=? len p
         then emit (RfRx (s16 (p !!! 0%nat) (p !!! 1%nat)) (s16 (p !!! 2%nat) (p !!! 3%nat)) (drop 4 p))
         else mret ());
    if client_fd <? 0 then mret (LHKT_OK, bump loraham_drop stats)
    else if len p <? BRIDGE_RX_LORAHAM_META_LEN then mret (LHKT_OK, bump loraham_drop stats)
    else bridge_rx_send_loraham_packet_to_kiss_client client_fd (drop 4 p) stats
  else if lf_type frame =? LORAHAM_FRAME_ERROR
  then mret (LHKT_OK, bump loraham_framed_errors stats)
  else mret (LHKT_OK, bump loraham_drop stats).

Fixpoint bridge_rx_handle_framed_chunk (client_fd : Z) (fs : loraham_framed_rx_state_t)
    (buf : list Z) (stats : lhkt_stats_t) : io (Z * loraham_framed_rx_state_t * lhkt_stats_t) :=
  match buf with
  | [] => mret (LHKT_OK, fs, stats)
  | b :: buf =>
      let '(fs, ev) := loraham_framed_decode_byte fs b in
      match ev with
      | Frame frame =>
          '(ret, stats) ← bridge_rx_handle_framed_frame client_fd frame stats;
          if negb (ret =? LHKT_OK) then mret (ret, fs, stats)
          else bridge_rx_handle_framed_chunk client_fd fs buf stats
      | Fault e => mret (e, fs, bump loraham_drop stats)
      | Quiet => bridge_rx_handle_framed_chunk client_fd fs buf stats
      end
  end.

(** ** The drain loop ends *)

Lemma rx_chunk_fuel fuel : ∀ fuel' client_fd rx buf stats w,
  lx_wf rx → (length (lx_pending rx ++ buf) < fuel)%nat → (length (lx_pending rx ++ buf) < fuel')%nat →
  rx_chunk_loop fuel client_fd rx buf stats w = rx_chunk_loop fuel' client_fd rx buf stats w.
Proof.
  induction fuel as [|fuel IH]; intros fuel' fd rx buf stats w Hwf H1 H2; [lia|].
  destruct fuel' as [|fuel']; [lia|]. cbn [rx_chunk_loop].
  destruct (lx_extract_ok rx buf LHKT_TNC2_MAX_LINE Hwf (Z.le_refl _)) as (W & _ & Q & N & P).
  destruct (loraham_extract_tnc2 rx buf LHKT_TNC2_MAX_LINE) as [rx' ev]. cbn [fst snd] in *.
  assert (∀ stats w, ev ≠ Fault 0 → (ev = Quiet → lx_pending rx' = []) →
    (if len (lx_pending rx') =? 0 then mret (LHKT_OK, rx', stats)
     else rx_chunk_loop fuel fd rx' [] stats) w =
    (if len (lx_pending rx') =? 0 then mret (LHKT_OK, rx', stats)
     else rx_chunk_loop fuel' fd rx' [] stats) w) as Hagain.
  { intros stats' w' _ HQ. destruct (Z.eqb_spec (len (lx_pending rx')) 0) as [|Hp]; [done|].
    assert (lx_pending rx' ≠ []) as Hp' by (by intros E; rewrite E in Hp).
    assert (lx_pending rx ++ buf ≠ []) as Hne by (by intros E; apply Hp', N).
    assert (ev ≠ Quiet) as Hev by (by intros E; apply Hp', HQ). specialize (P Hne Hev).
    apply IH; rewrite ?app_nil_r; [done|lia|lia]. }
  destruct ev as [|t|e]; [by apply Hagain| |done].
  unfold mbind, io_bind. destruct (bridge_rx_send_tnc2_to_kiss_client _ _ _ w) as [[[ret s'] w']|]; [|done].
  destruct (negb (ret =? LHKT_OK)); [done|]. by apply Hagain.
Qed.

(** ** What reaches the client *)

(** The KISS bytes of an AX.25 frame, and that the client finds the frame in them. *)
Definition kiss_bytes_of (f : ax25_frame_t) (bs : list Z) : Prop :=
  ∃ raw, ax25_encode_ui f LHKT_AX25_MAX_FRAME = Ok raw ∧ bs = Kiss.Spec.wire raw ∧
         ax25_decode_ui raw = Ok (ax25_norm f) ∧ len raw ≤ 328.

Lemma kiss_bytes_exist f : ax25_frame_wf f → ∃ bs, kiss_bytes_of f bs.
Proof.
  intros Hwf. pose proof (ax25_need_bound f Hwf) as Hneed.
  destruct (ax25_encode_decode f LHKT_AX25_MAX_FRAME Hwf) as (raw & E & L & _ & D).
  { unfold LHKT_AX25_MAX_FRAME. lia. }
  exists (Kiss.Spec.wire raw), raw. split_and!; try done. lia.
Qed.

(** Writing [bs] to the client and accounting for it: what all successful conversions
    end in. *)
Definition deliver (fd : Z) (bs : list Z) (stats : lhkt_stats_t) : io (Z * lhkt_stats_t) :=
  ret ← bridge_rx_write_all_fd fd bs;
  mret (if ret =? LHKT_OK then (LHKT_OK, bump kiss_tx stats)
        else (LHKT_ERR_CLIENT_SOCKET, bump kiss_drop stats)).

(** The outcome of a delivery: all of [bs] reached the client, or the client's
    connection failed after a proper prefix. *)
Definition delivered (fd : Z) (bs : list Z) (w : world) (ret : Z) (w' : world) : Prop :=
  ∃ a b, bs = a ++ b ∧ wrote fd a w w' ∧
    (ret = LHKT_OK ∧ b = [] ∨ ret = LHKT_ERR_CLIENT_SOCKET ∧ b ≠ []).

Lemma deliver_spec fd bs stats w :
  fd_bad fd = false →
  wp (deliver fd bs stats) (λ r w', delivered fd bs w r.1 w' ∧
    r.2 = bump (if r.1 =? LHKT_OK then kiss_tx else kiss_drop) stats) w.
Proof.
  intros Hfd. unfold deliver, bridge_rx_write_all_fd. rewrite Hfd. apply wp_bind.
  eapply wp_mono; [apply write_loop_spec, bridge_rx_wait_fd_writable_silent|].
  intros r w' (a & b & E & Ha & _ & Hr). apply wp_ret.
  destruct Hr as [[-> ->]|[-> Hb]]; cbn; (split; [|done]); exists a.
  - exists []. split; [done|]. split; [done|by left].
  - exists b. split; [done|]. split; [done|by right].
Qed.

Lemma deliver_live fd bs stats w :
  fd_bad fd = false → Forall accepting (w_write w) → (length bs ≤ length (w_write w))%nat →
  ∃ w', deliver fd bs stats w = Some ((LHKT_OK, bump kiss_tx stats), w').
Proof.
  intros Hfd Hacc Hlen. unfold deliver, bridge_rx_write_all_fd, mbind, io_bind. rewrite Hfd.
  destruct (write_loop_live bridge_rx_wait_fd_writable fd (length bs) bs w) as (w' & -> & _); try done.
  { apply bridge_rx_wait_fd_writable_silent. }
  by exists w'.
Qed.

Lemma fd_bad_neg fd : fd_bad fd = false → (fd <? 0) = false.
Proof. unfold fd_bad. by intros [? _]%orb_false_iff. Qed.

Lemma send_tnc2_eq fd t f bs stats w :
  fd_bad fd = false → tnc2_parse_line t = Ok f → kiss_bytes_of f bs →
  bridge_rx_send_tnc2_to_kiss_client fd t stats w = deliver fd bs (bump ax25_tx (bump tnc2_rx stats)) w.
Proof.
  intros Hfd Hp (raw & He & -> & _ & Hl). unfold bridge_rx_send_tnc2_to_kiss_client, deliver.
  rewrite (fd_bad_neg fd Hfd), Hp, He, kiss_encode_wire. pose proof (kiss_wire_length raw).
  unfold LHKT_KISS_MAX_FRAME. rewrite (proj2 (Z.ltb_ge _ _)) by lia.
  unfold mbind, io_bind. destruct (bridge_rx_write_all_fd fd _ w) as [[r w']|]; [|done].
  by destruct (r =? LHKT_OK).
Qed.

(** *** The header of a packet does not occur in its text *)

Lemma tnc2_header_no_hdr0 f : ax25_frame_wf f → LORAHAM_APRS_HDR0 ∉ tnc2_header f ++ [COLON].
Proof.
  intros [Hd Hs Hp _ _ _] Hin. unfold tnc2_header in Hin. rewrite !elem_of_app in Hin.
  assert (∀ a, ax25_addr_wf a → LORAHAM_APRS_HDR0 ∉ ax25_addr_base a) as Hbase
    by (intros; by apply ax25_base_not_star).
  assert (LORAHAM_APRS_HDR0 ∉ tnc2_path_text (af_path f)) as Hpath.
  { clear Hin. unfold tnc2_path_text. induction Hp as [|a path Ha _ IH]; cbn [map concat].
    { apply not_elem_of_nil. }
    unfold ax25_addr_text. rewrite elem_of_app, elem_of_cons, elem_of_app.
    intros [[H|[H|H]]|H]; [done|by apply (Hbase _ Ha)| |by apply IH].
    destruct (aa_repeated a =? 0); [by apply elem_of_nil in H|by apply list_elem_of_singleton in H]. }
  destruct Hin as [[H|[H|[H|H]]]|H].
  - by apply (Hbase _ Hs).
  - by apply list_elem_of_singleton in H.
  - by apply (Hbase _ Hd).
  - apply (Hpath H).
  - by apply list_elem_of_singleton in H.
Qed.

Lemma oneline_hdr payload : no_hdr payload → no_hdr (tnc2_oneline payload).
Proof.
  intros Hno a b E. unfold tnc2_oneline in E.
  assert (∀ x, (if is_eol x then SPACE else x) ∈ loraham_hdr → is_eol x = false) as Hx.
  { intros x. destruct (is_eol x); [|done]. unfold loraham_hdr. rewrite !elem_of_cons, elem_of_nil. naive_solver. }
  apply map_eq_app in E as (p1 & p2 & -> & _ & E).
  destruct p2 as [|x [|y [|z p2]]]; cbn [map app loraham_hdr] in E; try done.
  injection E as Ex Ey Ez _. apply (Hno p1 p2). f_equal. unfold loraham_hdr.
  rewrite (Hx x) in Ex by (rewrite Ex; set_solver). rewrite (Hx y) in Ey by (rewrite Ey; set_solver).
  rewrite (Hx z) in Ez by (rewrite Ez; set_solver). by rewrite Ex, Ey, Ez.
Qed.

Lemma tnc2_text_no_hdr f : ax25_frame_wf f → no_hdr (af_payload f) → no_hdr (tnc2_text f).
Proof.
  intros Hwf Hno%oneline_hdr a b E. pose proof (tnc2_header_no_hdr0 f Hwf) as Hh.
  unfold tnc2_text in E. rewrite app_assoc in E.
  apply app_eq_app in E as (l & [[E1 E2]|[E1 E2]]); [|by apply (Hno l b)].
  destruct l as [|x l].
  - apply (Hno [] b). exact (eq_sym E2).
  - injection E2 as <- _. apply Hh. rewrite E1. set_solver.
Qed.

Lemma eol_no_eol l : Forall (λ c, is_eol c = false) l → no_eol l.
Proof.
  intros H. eapply Forall_impl; [exact H|]. cbn. unfold is_eol, CR, LF. intros c Hc.
  apply orb_false_iff in Hc as [?%Z.eqb_neq ?%Z.eqb_neq]. done.
Qed.

(** *** One packet *)

(** A line that can be the text of a packet. *)
Record packet_text (t : list Z) : Prop := {
  pt_nonempty : t ≠ [];
  pt_len : len t < LHKT_TNC2_MAX_LINE;
  pt_eol : no_eol t;
  pt_nul : no_nul t;
  pt_hdr : no_hdr t;
}.

Lemma u64_succ z : u64 (z + 1) ≠ z.
Proof.
  unfold u64. intros E. pose proof (Z.mod_pos_bound (z + 1) (2 ^ 64) ltac:(lia)) as Hb.
  rewrite E in Hb. destruct (decide (z + 1 = 2 ^ 64)) as [E1|E1].
  - rewrite E1, Z.mod_same in E by lia. lia.
  - rewrite Z.mod_small in E by lia. lia.
Qed.

Lemma chunk_quiet fd rx buf stats rx' :
  loraham_extract_tnc2 rx buf LHKT_TNC2_MAX_LINE = (rx', Quiet) → lx_pending rx' = [] →
  bridge_rx_handle_loraham_chunk fd rx buf stats = mret (LHKT_OK, rx', stats).
Proof.
  intros E P. unfold bridge_rx_handle_loraham_chunk. cbn [rx_chunk_loop]. by rewrite E, P.
Qed.

Lemma chunk_line fd rx buf stats rx' t w :
  loraham_extract_tnc2 rx buf LHKT_TNC2_MAX_LINE = (rx', Frame t) → lx_pending rx' = [] →
  bridge_rx_handle_loraham_chunk fd rx buf stats w =
    (r ← bridge_rx_send_tnc2_to_kiss_client fd (cstr t) (bump loraham_rx stats);
     mret (r.1, rx', r.2)) w.
Proof.
  intros E P. unfold bridge_rx_handle_loraham_chunk. cbn [rx_chunk_loop]. rewrite E, P. cbn [length].
  unfold mbind, io_bind. destruct (bridge_rx_send_tnc2_to_kiss_client _ _ _ w) as [[[ret s] w']|]; [|done].
  cbn [fst snd]. by destruct (Z.eqb_spec ret LHKT_OK) as [->|].
Qed.

(** A packet with a text the client can get is exactly one delivery. *)
Lemma rx_packet_eq fd t f bs stats w :
  fd_bad fd = false → packet_text t → tnc2_parse_line t = Ok f → kiss_bytes_of f bs →
  bridge_rx_send_loraham_packet_to_kiss_client fd (loraham_hdr ++ t) stats w =
    deliver fd bs (bump ax25_tx (bump tnc2_rx (bump loraham_rx stats))) w.
Proof.
  intros Hfd [Hne Hlen Heol Hnul Hhdr] Hp Hbs. unfold bridge_rx_send_loraham_packet_to_kiss_client.
  rewrite (fd_bad_neg fd Hfd). destruct (lx_extract_packet t) as (st & E1 & P1 & F1); [done..|].
  assert (lx_wf st) as Hwf.
  { destruct (lx_extract_ok loraham_rx_state_init (loraham_hdr ++ t) LHKT_TNC2_MAX_LINE lx_wf_init
      (Z.le_refl _)) as [H _]. by rewrite E1 in H. }
  destruct (lx_extract_ok st [] LHKT_TNC2_MAX_LINE Hwf (Z.le_refl _)) as (_ & _ & _ & N & _).
  rewrite P1 in N. specialize (N eq_refl).
  rewrite (chunk_quiet fd _ _ stats st E1 P1). unfold mbind at 1, io_bind at 1.
  cbn [mret io_ret negb Z.eqb LHKT_OK].
  destruct (loraham_extract_tnc2 st [] LHKT_TNC2_MAX_LINE) as [st' ev] eqn:E2.
  cbn [fst snd] in *. subst ev. unfold mbind, io_bind.
  rewrite (chunk_line fd _ _ stats st' t w E2 N), cstr_id by done. unfold mbind, io_bind.
  rewrite (send_tnc2_eq fd t f bs) by done.
  unfold deliver, mbind, io_bind. destruct (bridge_rx_write_all_fd fd bs w) as [[r w']|]; [|done].
  cbn [mret io_ret]. destruct (Z.eqb_spec r LHKT_OK); cbn [fst snd negb Z.eqb]; [|done].
  change (LHKT_OK =? LHKT_OK) with true. cbn [negb]. rewrite (proj2 (Z.eqb_neq _ _)); [done|]. cbn. apply u64_succ.
Qed.

Lemma tnc2_packet_text f :
  ax25_frame_wf f → 0 ∉ af_payload f → no_hdr (af_payload f) → packet_text (tnc2_text f).
Proof.
  intros Hwf H0 Hno. pose proof (tnc2_text_length f Hwf). split.
  - unfold tnc2_text. by destruct (tnc2_header f).
  - unfold LHKT_TNC2_MAX_LINE. lia.
  - by apply eol_no_eol, tnc2_text_no_eol.
  - apply Forall_forall. intros c Hin ->. unfold tnc2_text in Hin. rewrite !elem_of_app in Hin.
    destruct Hin as [Hin|[Hin|Hin]].
    + revert Hin. apply tnc2_header_no; tauto.
    + by apply list_elem_of_singleton in Hin.
    + unfold tnc2_oneline in Hin. apply list_elem_of_fmap in Hin as (b & Hb & Hin).
      destruct (is_eol b); [done|]. by subst.
  - by apply tnc2_text_no_hdr.
Qed.

Lemma rx_frame_delivers fd meta f stats w
    (Hfd : fd_bad fd = false) (Hmeta : length meta = 4%nat) (Hwf : ax25_frame_wf f)
    (H0 : 0 ∉ af_payload f) (Hno : no_hdr (af_payload f)) :
  let packet := loraham_hdr ++ tnc2_text f in
  let frame := LoraFrame LORAHAM_FRAME_RX_PACKET (meta ++ packet) in
  ∃ raw rssi snr,
    let bs := Kiss.Spec.wire raw in
    let stats' := bump ax25_tx (bump tnc2_rx (bump loraham_rx stats)) in
    ax25_encode_ui (tnc2_norm f) LHKT_AX25_MAX_FRAME = Ok raw ∧ ax25_decode_ui raw = Ok (tnc2_norm f) ∧
    (∀ dec, kiss_decode dec bs = (kiss_synced, (kiss_decode dec [KISS_FEND]).2 ++ [kiss_data_frame raw])) ∧
    wp (bridge_rx_handle_framed_frame fd frame stats) (λ r w', ∃ w1,
      w_out w1 = w_out w ++ [RfRx rssi snr packet] ∧ delivered fd bs w1 r.1 w' ∧
      r.2 = bump (if r.1 =? LHKT_OK then kiss_tx else kiss_drop) stats') w ∧
    (Forall accepting (w_write w) → (length bs ≤ length (w_write w))%nat →
     ∃ w', bridge_rx_handle_framed_frame fd frame stats w = Some ((LHKT_OK, bump kiss_tx stats'), w')).
Proof.
  cbv zeta. pose proof (tnc2_norm_wf f Hwf) as Hn.
  destruct (kiss_bytes_exist (tnc2_norm f) Hn) as (bs & raw & He & -> & Hd & Hl).
  rewrite tnc2_norm_station in Hd. set (packet := loraham_hdr ++ tnc2_text f).
  destruct meta as [|m0 [|m1 [|m2 [|m3 [|]]]]]; try done.
  exists raw, (s16 m0 m1), (s16 m2 m3). split; [done|]. split; [done|].
  split. { intros dec. apply kiss_decode_wire. unfold LHKT_KISS_MAX_FRAME. lia. }
  set (w1 := set_out (w_out w ++ [RfRx (s16 m0 m1) (s16 m2 m3) packet]) w).
  assert (bridge_rx_handle_framed_frame fd
      (LoraFrame LORAHAM_FRAME_RX_PACKET ([m0; m1; m2; m3] ++ packet)) stats w =
    deliver fd (Kiss.Spec.wire raw) (bump ax25_tx (bump tnc2_rx (bump loraham_rx stats))) w1) as E.
  { unfold bridge_rx_handle_framed_frame. cbn [lf_type lf_payload app]. rewrite Z.eqb_refl.
    unfold BRIDGE_RX_LORAHAM_META_LEN. cbn [length]. rewrite (proj2 (Z.leb_le _ _)) by lia.
    unfold mbind at 1, io_bind at 1. cbn [emit]. rewrite (fd_bad_neg fd Hfd), (proj2 (Z.ltb_ge _ _)) by lia.
    cbn [drop]. rewrite (rx_packet_eq fd (tnc2_text f) (tnc2_norm f) (Kiss.Spec.wire raw)); try done.
    - by apply tnc2_packet_text.
    - by apply tnc2_parse_text.
    - by exists raw. }
  split.
  - unfold wp. rewrite E. eapply wp_mono; [by apply deliver_spec|]. intros r w' [H1 H2]. by exists w1.
  - intros Hacc Hlen. rewrite E. by apply deliver_live.
Qed.

(** C32. Reception: when the daemon delivers a packet that carries the TNC2 text of a
    well-formed frame [f] (any metadata; no NUL and no further 3C FF 01 in the
    payload), the bridge logs the packet and sends the client the KISS form of an
    AX.25 frame that decodes to [f] in its text normal form, whatever state the
    client's KISS decoder is in; the result is success exactly when all of it was
    written, with every stage counted. If the kernel takes the bytes, it succeeds. *)
Theorem rx_delivers fd meta f stats w
    (Hfd : fd_bad fd = false) (Hmeta : length meta = 4%nat) (Hwf : ax25_frame_wf f)
    (H0 : 0 ∉ af_payload f) (Hno : no_hdr (af_payload f)) :
  let packet := loraham_hdr ++ tnc2_text f in
  let frame := LoraFrame LORAHAM_FRAME_RX_PACKET (meta ++ packet) in
  ∃ raw rssi snr,
    let bs := Kiss.Spec.wire raw in
    let stats' := bump ax25_tx (bump tnc2_rx (bump loraham_rx stats)) in
    ax25_encode_ui (tnc2_norm f) LHKT_AX25_MAX_FRAME = Ok raw ∧ ax25_decode_ui raw = Ok (tnc2_norm f) ∧
    (∀ dec, kiss_decode dec bs = (kiss_synced, (kiss_decode dec [KISS_FEND]).2 ++ [kiss_data_frame raw])) ∧
    wp (bridge_rx_handle_framed_frame fd frame stats) (λ r w', ∃ w1,
      w_out w1 = w_out w ++ [RfRx rssi snr packet] ∧ delivered fd bs w1 r.1 w' ∧
      r.2 = bump (if r.1 =? LHKT_OK then kiss_tx else kiss_drop) stats') w ∧
    (Forall accepting (w_write w) → (length bs ≤ length (w_write w))%nat →
     ∃ w', bridge_rx_handle_framed_frame fd frame stats w = Some ((LHKT_OK, bump kiss_tx stats'), w')).
Proof. by apply rx_frame_delivers. Qed.

Definition rx_example_world : world := World [] (replicate 100 (WrN 1)) [] [] [] [] [] [] [] [] [].

Lemma rx_delivers_witness :
  ∃ raw w', ax25_decode_ui raw = Ok (tnc2_norm ax25_example) ∧
    bridge_rx_handle_framed_frame 5 (LoraFrame LORAHAM_FRAME_RX_PACKET
      ([0; 0; 0; 0] ++ loraham_hdr ++ tnc2_text ax25_example)) lhkt_stats_init rx_example_world =
      Some ((LHKT_OK, bump kiss_tx (bump ax25_tx (bump tnc2_rx (bump loraham_rx lhkt_stats_init)))), w').
Proof.
  destruct (rx_delivers 5 [0; 0; 0; 0] ax25_example lhkt_stats_init rx_example_world)
    as (raw & rssi & snr & He & Hd & Hk & _ & Hlive).
  - done.
  - done.
  - apply ax25_example_wf.
  - by apply (bool_decide_unpack _).
  - intros a b E. do 6 (destruct a as [|? a]; [discriminate|injection E as _ E]). by destruct a.
  - exists raw. destruct Hlive as [w' Hw].
    + apply Forall_replicate. by exists 0%nat.
    + assert (Ok ax25_example_bytes = Ok raw) as <-%Ok_inj by (rewrite <-He; by vm_compute).
      assert ((length (Kiss.Spec.wire ax25_example_bytes) <=? length (w_write rx_example_world))%nat = true)
        as Hle by by vm_compute.
      exact (proj1 (Nat.leb_le _ _) Hle).
    + exists w'. split; [exact Hd|exact Hw].
Defined.

(** ** Chunks *)

(** The frame handler on decoded events, in order, until one is not handled
    successfully; a decoding fault ends it as well. *)
Fixpoint handle_events (fd : Z) (evs : list (event loraham_frame_t)) (stats : lhkt_stats_t) :
    io (Z * lhkt_stats_t) :=
  match evs with
  | [] => mret (LHKT_OK, stats)
  | Quiet :: evs => handle_events fd evs stats
  | Frame frame :: evs =>
      '(ret, stats) ← bridge_rx_handle_framed_frame fd frame stats;
      if ret =? LHKT_OK then handle_events fd evs stats else mret (ret, stats)
  | Fault e :: _ => mret (e, bump loraham_drop stats)
  end.

Lemma framed_fault fs b fs' e : loraham_framed_decode_byte fs b = (fs', Fault e) → e = LHKT_ERR_LONG.
Proof.
  unfold loraham_framed_decode_byte. repeat case_match; try done; by intros [= _ <-].
Qed.

Lemma framed_chunk_events fd fs buf stats w :
  (r ← bridge_rx_handle_framed_chunk fd fs buf stats; mret (r.1.1, r.2)) w =
    handle_events fd (loraham_framed_decode fs buf).2 stats w ∧
  wp (bridge_rx_handle_framed_chunk fd fs buf stats)
    (λ r _, r.1.1 = LHKT_OK → r.1.2 = (loraham_framed_decode fs buf).1) w.
Proof.
  revert fs stats w. induction buf as [|b buf IH]; intros fs stats w.
  { split; [done|]. by apply wp_ret. }
  unfold loraham_framed_decode in *. cbn [bridge_rx_handle_framed_chunk run].
  destruct (loraham_framed_decode_byte fs b) as [fs1 ev] eqn:Eb.
  destruct ev as [|frame|e].
  - destruct (IH fs1 stats w) as [E W]. destruct (run loraham_framed_decode_byte fs1 buf). by split.
  - unfold mbind, io_bind in *. unfold wp in *.
    destruct (run loraham_framed_decode_byte fs1 buf) as [fs2 evs] eqn:Er. cbn [fst snd handle_events].
    unfold mbind, io_bind. destruct (bridge_rx_handle_framed_frame fd frame stats w) as [[[ret s1] w1]|]; [|done].
    destruct (Z.eqb_spec ret LHKT_OK) as [->|Hret]; cbn [negb].
    + specialize (IH fs1 s1 w1). rewrite Er in IH. cbn [fst snd] in IH. destruct IH as [E W].
      by split.
    + split; [done|]. cbn. intros ->. done.
  - destruct (run loraham_framed_decode_byte fs1 buf) as [fs2 evs]. cbn [fst snd handle_events].
    split; [done|]. apply wp_ret. cbn. apply framed_fault in Eb. by intros ->.
Qed.

(** A chunk of the daemon's stream is handled as the sequence of the frames it
    completes: return code, statistics and visible effects are those of the frame
    handler applied to the decoded frames in order up to the first failure; and when
    all are handled, the decoder is where the bytes of the chunk take it, so the
    chunks into which the stream is cut do not matter. *)
Theorem framed_chunk_refines fd fs buf stats w :
  (r ← bridge_rx_handle_framed_chunk fd fs buf stats; mret (r.1.1, r.2)) w =
    handle_events fd (loraham_framed_decode fs buf).2 stats w ∧
  wp (bridge_rx_handle_framed_chunk fd fs buf stats)
    (λ r _, r.1.1 = LHKT_OK → r.1.2 = (loraham_framed_decode fs buf).1) w.
Proof. apply framed_chunk_events. Qed.

(** What the RF log gets from a frame. *)
Definition rflog_of (f : loraham_frame_t) : list output :=
  let p := lf_payload f in
  if (lf_type f =? LORAHAM_FRAME_RX_PACKET) && (BRIDGE_RX_LORAHAM_META_LEN <=? len p)
  then [RfRx (s16 (p !!! 0%nat) (p !!! 1%nat)) (s16 (p !!! 2%nat) (p !!! 3%nat)) (drop 4 p)]
  else [].

(** What a frame counts when there is no client. *)
Definition unclaimed (stats : lhkt_stats_t) (f : loraham_frame_t) : lhkt_stats_t :=
  bump (if lf_type f =? LORAHAM_FRAME_ERROR then loraham_framed_errors else loraham_drop) stats.

Lemma unclaimed_frame fd f s w :
  fd < 0 → ∃ w', bridge_rx_handle_framed_frame fd f s w = Some ((LHKT_OK, unclaimed s f), w') ∧
                 w_out w' = w_out w ++ rflog_of f.
Proof.
  intros Hfd. unfold bridge_rx_handle_framed_frame, unclaimed, rflog_of.
  destruct (Z.eqb_spec (lf_type f) LORAHAM_FRAME_RX_PACKET) as [->|Ht]; cbn [andb].
  - rewrite (proj2 (Z.ltb_lt fd 0)) by done. unfold mbind, io_bind. change (LORAHAM_FRAME_RX_PACKET =? LORAHAM_FRAME_ERROR) with false.
    destruct (BRIDGE_RX_LORAHAM_META_LEN <=? len (lf_payload f)); eexists; (split; [done|]); [done|].
    by rewrite app_nil_r.
  - destruct (lf_type f =? LORAHAM_FRAME_ERROR); exists w; by rewrite app_nil_r.
Qed.

(** Without a KISS client the daemon's stream is still decoded to the end: for any
    sequence of frames the handler answers success, writes nothing, logs every
    received packet, counts every frame, and leaves the decoder idle, in sync with the
    next frame. *)
Theorem rx_without_client frames stats w fd (Hfd : fd < 0)
    (Hframes : Forall (λ f, len (lf_payload f) ≤ LHKT_FRAMED_MAX_PAYLOAD) frames) :
  ∃ w', bridge_rx_handle_framed_chunk fd loraham_framed_rx_state_init (concat (map framed_bytes frames)) stats w =
          Some ((LHKT_OK, loraham_framed_rx_state_init, foldl unclaimed stats frames), w') ∧
        w_out w' = w_out w ++ concat (map rflog_of frames).
Proof.
  assert (∀ s w, ∃ w', handle_events fd (map Frame frames) s w = Some ((LHKT_OK, foldl unclaimed s frames), w') ∧
    w_out w' = w_out w ++ concat (map rflog_of frames)) as H.
  { clear stats w Hframes. induction frames as [|f frames IH]; intros s w; cbn [map handle_events foldl concat].
    { exists w. by rewrite app_nil_r. }
    unfold mbind, io_bind. destruct (unclaimed_frame fd f s w Hfd) as (w1 & -> & E1).
    cbn [fst snd]. rewrite Z.eqb_refl. destruct (IH (unclaimed s f) w1) as (w2 & -> & E2).
    exists w2. split; [done|]. by rewrite E2, E1, <-app_assoc. }
  destruct (framed_chunk_events fd loraham_framed_rx_state_init (concat (map framed_bytes frames)) stats w)
    as [E W].
  rewrite framed_decode_stream in E, W by done. cbn [fst snd] in *.
  destruct (H stats w) as (w' & Hev & Hout). rewrite Hev in E. clear H Hev.
  unfold mbind, io_bind, wp in *.
  destruct (bridge_rx_handle_framed_chunk _ _ _ stats w) as [[[[r f] s] w2]|]; [|done].
  cbn in E, W. injection E as -> -> ->. rewrite W by done. by exists w'.
Qed.

Lemma rx_without_client_witness :
  ∃ w', bridge_rx_handle_framed_chunk (-1) loraham_framed_rx_state_init
          (concat (map framed_bytes [LoraFrame 1 [1; 255; 2; 0; 65]; LoraFrame 3 [69]])) lhkt_stats_init
          rx_example_world =
        Some ((LHKT_OK, loraham_framed_rx_state_init,
               foldl unclaimed lhkt_stats_init [LoraFrame 1 [1; 255; 2; 0; 65]; LoraFrame 3 [69]]), w') ∧
        w_out w' = [RfRx (-255) 2 [65]].
Proof.
  apply (rx_without_client [LoraFrame 1 [1; 255; 2; 0; 65]; LoraFrame 3 [69]] lhkt_stats_init
    rx_example_world (-1)); [done|].
  apply (bool_decide_unpack _). by vm_compute.
Defined.

(** ** Packets of other systems *)

Lemma extract_foreign_loop fuel : ∀ p,
  LORAHAM_APRS_HDR0 ∉ p → (length p ≤ fuel)%nat →
  loraham_extract_loop fuel (LoraRx [] false 0 p) LHKT_TNC2_MAX_LINE = (loraham_rx_state_init, Quiet).
Proof.
  induction fuel as [|fuel IH]; intros p Hp Hf; [by destruct p; [|cbn in Hf; lia]|].
  destruct p as [|b p]; [done|]. apply not_elem_of_cons in Hp as [Hb Hp].
  cbn [loraham_extract_loop lx_pending lx_buf lx_seen_header lx_hdr_len].
  unfold loraham_extract_byte. cbn [lx_pending lx_buf lx_seen_header lx_hdr_len negb].
  change (loraham_hdr_byte 0) with LORAHAM_APRS_HDR0.
  rewrite (proj2 (Z.eqb_neq b LORAHAM_APRS_HDR0)) by congruence. apply IH; [done|cbn in Hf; lia].
Qed.

Lemma extract_foreign p :
  LORAHAM_APRS_HDR0 ∉ p → len p ≤ LHKT_LORAHAM_RX_PENDING →
  loraham_extract_tnc2 loraham_rx_state_init p LHKT_TNC2_MAX_LINE = (loraham_rx_state_init, Quiet).
Proof.
  intros Hp Hl. unfold loraham_extract_tnc2. cbn [loraham_rx_state_init lx_pending lx_buf lx_seen_header lx_hdr_len app].
  rewrite andb_false_intro2 by (cbn [length]; apply Z.ltb_ge; lia).
  rewrite extract_foreign_loop by done. by destruct ((len p =? 0) && _).
Qed.

Lemma foreign_packet fd p stats w :
  0 ≤ fd → LORAHAM_APRS_HDR0 ∉ p → len p ≤ LHKT_LORAHAM_RX_PENDING →
  bridge_rx_send_loraham_packet_to_kiss_client fd p stats w =
    Some ((LHKT_ERR_FORMAT, bump loraham_drop stats), w).
Proof.
  intros Hfd Hp Hl. unfold bridge_rx_send_loraham_packet_to_kiss_client.
  rewrite (proj2 (Z.ltb_ge fd 0)) by done.
  assert (∀ q, LORAHAM_APRS_HDR0 ∉ q → len q ≤ LHKT_LORAHAM_RX_PENDING →
    bridge_rx_handle_loraham_chunk fd loraham_rx_state_init q stats =
      mret (LHKT_OK, loraham_rx_state_init, stats)) as Hq.
  { intros q Hq1 Hq2. apply chunk_quiet; [by apply extract_foreign|done]. }
  unfold mbind, io_bind. rewrite (Hq p) by done. cbn [mret io_ret].
  change (LHKT_OK =? LHKT_OK) with true. cbn [negb].
  rewrite (Hq []); [|apply not_elem_of_nil|cbn; unfold LHKT_LORAHAM_RX_PENDING; lia].
  cbn [mret io_ret]. change (LHKT_OK =? LHKT_OK) with true. cbn [negb]. by rewrite Z.eqb_refl.
Qed.

(** A packet with a line that is no TNC2 line of AX.25 stations. *)
Lemma bad_line_packet fd t e stats w :
  fd_bad fd = false → packet_text t → tnc2_parse_line t = Err e → e < 0 →
  bridge_rx_send_loraham_packet_to_kiss_client fd (loraham_hdr ++ t) stats w =
    Some ((e, bump tnc2_drop (bump loraham_rx stats)), w).
Proof.
  intros Hfd [Hne Hlen Heol Hnul Hhdr] Hp He. unfold bridge_rx_send_loraham_packet_to_kiss_client.
  rewrite (fd_bad_neg fd Hfd). destruct (lx_extract_packet t) as (st & E1 & P1 & F1); [done..|].
  assert (lx_wf st) as Hwf.
  { destruct (lx_extract_ok loraham_rx_state_init (loraham_hdr ++ t) LHKT_TNC2_MAX_LINE lx_wf_init
      (Z.le_refl _)) as [H _]. by rewrite E1 in H. }
  destruct (lx_extract_ok st [] LHKT_TNC2_MAX_LINE Hwf (Z.le_refl _)) as (_ & _ & _ & N & _).
  rewrite P1 in N. specialize (N eq_refl).
  rewrite (chunk_quiet fd _ _ stats st E1 P1). unfold mbind at 1, io_bind at 1.
  cbn [mret io_ret negb Z.eqb LHKT_OK].
  destruct (loraham_extract_tnc2 st [] LHKT_TNC2_MAX_LINE) as [st' ev] eqn:E2.
  cbn [fst snd] in *. subst ev. unfold mbind, io_bind.
  rewrite (chunk_line fd _ _ stats st' t w E2 N), cstr_id by done. unfold mbind, io_bind.
  unfold bridge_rx_send_tnc2_to_kiss_client. rewrite (fd_bad_neg fd Hfd), Hp.
  change (LHKT_OK =? LHKT_OK) with true. cbn [mret io_ret fst snd negb].
  rewrite (proj2 (Z.eqb_neq e LHKT_OK)) by (unfold LHKT_OK; lia). done.
Qed.

(** The packets the receive path refuses, with its answer and what it counts: no byte
    3C at all, so no LoRa-APRS text, or a line that the TNC2 parser refuses. *)
Inductive refused_packet : list Z → Z → (lhkt_stats_t → lhkt_stats_t) → Prop :=
  | refused_foreign p : LORAHAM_APRS_HDR0 ∉ p → refused_packet p LHKT_ERR_FORMAT (bump loraham_drop)
  | refused_line t e :
      packet_text t → tnc2_parse_line t = Err e → e = LHKT_ERR_FORMAT ∨ e = LHKT_ERR_LONG →
      refused_packet (loraham_hdr ++ t) e (λ stats, bump tnc2_drop (bump loraham_rx stats)).

Lemma refused_packet_eq fd p e count stats w :
  fd_bad fd = false → refused_packet p e count → len p ≤ LHKT_LORAHAM_RX_PENDING →
  bridge_rx_send_loraham_packet_to_kiss_client fd p stats w = Some ((e, count stats), w).
Proof.
  intros Hfd [q Hq|t e' Ht Hp He] Hl.
  - apply foreign_packet; [|done|done]. pose proof (fd_bad_neg fd Hfd) as H. by apply Z.ltb_ge in H.
  - apply bad_line_packet; [done|done|done|]. by destruct He as [-> | ->].
Qed.

(** Because the chunk handler passes every failure of a frame on, it abandons the rest of
    the chunk behind a refused packet, whatever frames it holds, although the framed
    stream is in sync. *)
Lemma rx_refused_chunk fd meta p e count rest stats w :
  fd_bad fd = false → length meta = 4%nat → refused_packet p e count →
  len p ≤ LHKT_FRAMED_MAX_PAYLOAD - 4 →
  let frame := LoraFrame LORAHAM_FRAME_RX_PACKET (meta ++ p) in
  ∃ fs w', bridge_rx_handle_framed_chunk fd loraham_framed_rx_state_init (framed_bytes frame ++ rest) stats w =
             Some ((e, fs, count stats), w') ∧
           w_out w' = w_out w ++ rflog_of frame.
Proof.
  intros Hfd Hmeta Hp Hlen. cbv zeta. set (frame := LoraFrame _ _). unfold LHKT_FRAMED_MAX_PAYLOAD in Hlen.
  assert (e <> LHKT_OK) as He by (destruct Hp as [|? ? _ _ [-> | ->]]; done).
  assert (∃ w', bridge_rx_handle_framed_frame fd frame stats w = Some ((e, count stats), w') ∧
          w_out w' = w_out w ++ rflog_of frame) as (w' & Ef & Eo).
  { unfold bridge_rx_handle_framed_frame, rflog_of, frame, BRIDGE_RX_LORAHAM_META_LEN.
    cbn [lf_type lf_payload]. rewrite Z.eqb_refl, (fd_bad_neg fd Hfd). cbn [andb].
    rewrite (proj2 (Z.leb_le 4 _)), (proj2 (Z.ltb_ge _ 4)) by (rewrite ?length_app; lia).
    rewrite <-Hmeta, drop_app_length. unfold mbind, io_bind, emit.
    rewrite (refused_packet_eq fd p e count) by first [done | unfold LHKT_LORAHAM_RX_PENDING; lia]. by eexists. }
  assert (len (lf_payload frame) ≤ LHKT_FRAMED_MAX_PAYLOAD) as Hl.
  { unfold frame, LHKT_FRAMED_MAX_PAYLOAD. cbn [lf_payload]. rewrite length_app. lia. }
  destruct (framed_chunk_events fd loraham_framed_rx_state_init (framed_bytes frame ++ rest) stats w)
    as [E _].
  rewrite (framed_decode_frame frame rest Hl) in E.
  destruct (loraham_framed_decode loraham_framed_rx_state_init rest) as [fs2 evs].
  cbn [snd handle_events] in E. unfold mbind, io_bind in E. rewrite Ef in E.
  rewrite (proj2 (Z.eqb_neq e LHKT_OK)) in E by done. cbn iota in E.
  destruct (bridge_rx_handle_framed_chunk _ _ _ _ w) as [[[[r f] s] w2]|]; [|done].
  injection E as -> -> ->. by exists f, w'.
Qed.
