(* ===== verification/BridgeLoraham.v ===== *)
(** The connection to the daemon and the life of a transmission (bridge_loraham.c).

    Pointers to state are state passing: [tx_env] is what the transmission path reads
    and writes through its pointers. [conf_state] and [stats] are never NULL in the
    program; [frame_state] is, when the queue is drained without the framed stream
    ([bridge_loraham_tx_queue_drain]). Log lines are not modelled. *)
From S2P Require Import Prelude Kiss Ax25 Tnc2 LorahamSock Tnc TxQueue Io SockIo LorahamConf BridgeConf BridgeRx.
From Stdlib Require Import SpecFloat.

Definition LHKT_TX_RESTORE_RETRY_DELAY_MS : Z := 100.
Definition LHKT_TX_START_WAIT_MS : Z := 500.

(** ** Connecting *)

Definition bridge_loraham_send_status_request (conf_fd : Z) : io Z :=
  if conf_fd <? 0 then mret LHKT_ERR
  else
    ret ← loraham_sock_write conf_fd (str "GET STATUS" ++ [10]);
    mret (if ret <? 0 then LHKT_ERR else LHKT_OK).

(** A connected descriptor made non-blocking, closed when that fails. *)
Definition connect_nonblocking (path : list Z) : io Z :=
  fd ← loraham_sock_connect path;
  if fd <? 0 then mret LHKT_ERR
  else
    ret ← bridge_runtime_set_fd_nonblocking fd;
    if negb (ret =? LHKT_OK) then _ ← lhkt_tcp_server_close fd; mret LHKT_ERR else mret fd.

(** The CONF state is reset only on success. *)
Definition bridge_loraham_connect_conf_socket (cfg : lhkt_config_t) (state : bridge_conf_state_t) :
    io (Z * bridge_conf_state_t) :=
  fd ← connect_nonblocking (conf_socket cfg);
  mret (fd, if fd <? 0 then state else bridge_conf_state_init).

Definition bridge_loraham_connect_data_socket (cfg : lhkt_config_t) : io Z :=
  connect_nonblocking (data_socket cfg).

Definition bridge_loraham_send_config_freq (cfg : lhkt_config_t) (conf_fd : Z) (freq : double) :
    io Z :=
  if double_le0 freq then mret LHKT_ERR_FORMAT
  else if conf_fd <? 0 then mret LHKT_ERR_CONF_SOCKET
  else
    ret ← loraham_send_config_freq conf_fd cfg freq;
    mret (if negb (ret =? LHKT_OK) then LHKT_ERR_CONF_SOCKET else LHKT_OK).

(** The status is unknown until the daemon has answered the request. *)
Definition forget_status (st : bridge_conf_state_t) : bridge_conf_state_t :=
  ConfState (cs_tx_busy st) (cs_cad_busy st) (cs_radio_ready st) 0 0 0
    (cs_tx_seq st) (cs_tx_busy_seq st) (cs_tx_idle_seq st)
    (cs_cad_seq st) (cs_cad_busy_seq st) (cs_cad_idle_seq st) (cs_line st) (cs_discard st).

Definition bridge_loraham_send_initial_config_with_state (cfg : lhkt_config_t) (conf_fd : Z)
    (st : bridge_conf_state_t) : io (Z * bridge_conf_state_t) :=
  if conf_fd <? 0 then mret (LHKT_ERR_CONF_SOCKET, st)
  else
    let st := forget_status st in
    ret ← loraham_send_config conf_fd cfg;
    if negb (ret =? LHKT_OK) then mret (LHKT_ERR_CONF_SOCKET, st)
    else
      ret ← loraham_send_txresult_enable conf_fd;
      if negb (ret =? LHKT_OK) then mret (LHKT_ERR_CONF_SOCKET, st)
      else
        ret ← bridge_loraham_send_status_request conf_fd;
        mret (if negb (ret =? LHKT_OK) then LHKT_ERR_CONF_SOCKET else LHKT_OK, st).

Definition bridge_loraham_should_reconnect_data_socket (ret : Z) : bool :=
  (ret =? LHKT_ERR_TX_SOCKET) || (ret =? LHKT_ERR_TX_RESULT).
Definition bridge_loraham_should_reconnect_conf_socket (ret : Z) : bool :=
  ret =? LHKT_ERR_CONF_SOCKET.

(** The descriptor, the CONF state and the statistics after the call. *)
Definition bridge_loraham_disconnect_conf_socket (conf_fd : Z) (st : bridge_conf_state_t)
    (stats : lhkt_stats_t) : io (Z * bridge_conf_state_t * lhkt_stats_t) :=
  if conf_fd <? 0 then mret (conf_fd, st, stats)
  else
    _ ← lhkt_tcp_server_close conf_fd;
    mret (-1, bridge_conf_state_init, bump socket_reconnects stats).

Definition bridge_loraham_disconnect_data_socket (data_fd : Z) (stats : lhkt_stats_t) :
    io (Z * lhkt_stats_t) :=
  if data_fd <? 0 then mret (data_fd, stats)
  else
    _ ← lhkt_tcp_server_close data_fd;
    mret (-1, bump socket_reconnects stats).

(** ** Transmission *)

Definition bridge_loraham_write (fd : Z) (buf : list Z) : io Z :=
  ret ← loraham_send_framed_tx_packet fd buf;
  mret (if negb (ret =? LHKT_OK) then -1 else len buf).

(** The tolerance of 1 Hz is compared in binary64. *)
Definition bridge_loraham_tx_shift_needed (cfg : lhkt_config_t) : bool :=
  if (have_tx_freq cfg =? 0) || (have_rx_freq cfg =? 0) then true
  else
    let diff := double_sub (tx_freq cfg) (rx_freq cfg) in
    let diff := if double_lt diff (S754_zero false) then double_neg diff else diff in
    double_gt diff (double_lit 1 1000000).

Definition bridge_loraham_restore_rx_freq (cfg : lhkt_config_t) (stats : lhkt_stats_t) (conf_fd : Z) :
    io (Z * lhkt_stats_t) :=
  if have_rx_freq cfg =? 0 then mret (LHKT_ERR_FORMAT, stats)
  else if negb (bridge_loraham_tx_shift_needed cfg) then mret (LHKT_OK, stats)
  else
    ret ← bridge_loraham_send_config_freq cfg conf_fd (rx_freq cfg);
    if ret =? LHKT_OK then mret (LHKT_OK, stats)
    else
      let stats := bump tx_restore_failures stats in
      slept ← bridge_runtime_sleep_ms LHKT_TX_RESTORE_RETRY_DELAY_MS;
      if negb (slept =? LHKT_OK) then mret (ret, stats)
      else
        ret ← bridge_loraham_send_config_freq cfg conf_fd (rx_freq cfg);
        if ret =? LHKT_OK then mret (LHKT_OK, stats)
        else mret (ret, bump tx_restore_failures stats).

(** *** Waiting for the daemon's confirmation *)

(** The first loop of [bridge_loraham_wait_tx_complete]: [None] when the transmission
    was seen to start, else the code to return. *)
Definition wait_tx_start (conf_fd : Z) (start_busy_seq deadline : Z) (st : bridge_conf_state_t) :
    io (option Z * bridge_conf_state_t) :=
  loop (λ st : bridge_conf_state_t,
    if negb (cs_tx_busy_seq st =? start_busy_seq) then mret (inr (None, st))
    else
      now ← bridge_runtime_now_ms;
      if deadline <=? now then mret (inr (Some LHKT_ERR_UNSUPPORTED, st))
      else
        '(ret, st) ← bridge_conf_wait_read conf_fd st (deadline - now);
        mret (if ret <? 0 then inr (Some LHKT_ERR, st) else inl st)) st.

(** The second loop: until the radio is idle again. *)
Definition wait_tx_idle (conf_fd : Z) (deadline : Z) (st : bridge_conf_state_t) :
    io (Z * bridge_conf_state_t) :=
  loop (λ st : bridge_conf_state_t,
    if cs_tx_busy st =? 0 then mret (inr (LHKT_OK, st))
    else
      stop ← bridge_runtime_should_stop;
      if (stop : bool) then mret (inr (LHKT_ERR, st))
      else
        now ← bridge_runtime_now_ms;
        if deadline <=? now then mret (inr (LHKT_ERR, st))
        else
          '(ret, st) ← bridge_conf_wait_read conf_fd st (deadline - now);
          mret (if ret <? 0 then inr (LHKT_ERR, st) else inl st)) st.

Definition bridge_loraham_wait_tx_complete (conf_fd : Z) (st : bridge_conf_state_t)
    (cfg : lhkt_config_t) : io (Z * bridge_conf_state_t) :=
  if conf_fd <? 0 then mret (LHKT_ERR_UNSUPPORTED, st)
  else
    let start_busy_seq := cs_tx_busy_seq st in
    let start_idle_seq := cs_tx_idle_seq st in
    now ← bridge_runtime_now_ms;
    '(err, st) ← (if negb (cs_tx_busy st =? 0) then mret (None, st)
                  else wait_tx_start conf_fd start_busy_seq (now + LHKT_TX_START_WAIT_MS) st);
    match (err : option Z) with
    | Some e => mret (e, st)
    | None =>
        if (cs_tx_busy st =? 0) && negb (cs_tx_busy_seq st =? start_busy_seq) &&
           negb (cs_tx_idle_seq st =? start_idle_seq)
        then mret (LHKT_OK, st)
        else
          now ← bridge_runtime_now_ms;
          wait_tx_idle conf_fd (now + tx_busy_timeout_ms cfg) st
    end.

(** What [bridge_loraham_wait_tx_result] changes: the decoder of the data socket, the
    client descriptor it goes on with (-1 after a failed write), [client_error] and the
    statistics. *)
Record txr_state := TxrState {
  xr_frames : loraham_framed_rx_state_t;
  xr_client : Z;
  xr_error : Z;
  xr_stats : lhkt_stats_t;
}.

(** A received frame in the middle of a transmission: the client's share. *)
Definition txr_frame (frame : loraham_frame_t) (s : txr_state) : io txr_state :=
  '(ret, stats) ← bridge_rx_handle_framed_frame (xr_client s) frame (xr_stats s);
  mret (if ret =? LHKT_ERR_CLIENT_SOCKET then TxrState (xr_frames s) (-1) ret stats
        else TxrState (xr_frames s) (xr_client s) (xr_error s) stats).

Definition txr_decode (b : Z) (s : txr_state) : txr_state * event loraham_frame_t :=
  let '(fs, ev) := loraham_framed_decode_byte (xr_frames s) b in
  (TxrState fs (xr_client s) (xr_error s) (xr_stats s), ev).

Definition txr_drop (s : txr_state) : txr_state :=
  TxrState (xr_frames s) (xr_client s) (xr_error s) (bump loraham_drop (xr_stats s)).

(** The rest of the buffer behind the result. *)
Fixpoint txr_rest (buf : list Z) (s : txr_state) : io (Z * txr_state) :=
  match buf with
  | [] => mret (LHKT_OK, s)
  | b :: buf =>
      let '(s, ev) := txr_decode b s in
      match ev with
      | Quiet => txr_rest buf s
      | Frame frame =>
          if lf_type frame =? LORAHAM_FRAME_TX_RESULT then txr_rest buf (txr_drop s)
          else s ← txr_frame frame s; txr_rest buf s
      | Fault _ => mret (LHKT_ERR_TX_RESULT, txr_drop s)
      end
  end.

(** The buffer of one read: [None] when it held no result. *)
Fixpoint txr_bytes (buf : list Z) (s : txr_state) :
    io (option (res loraham_tx_result_t) * txr_state) :=
  match buf with
  | [] => mret (None, s)
  | b :: buf =>
      let '(s, ev) := txr_decode b s in
      match ev with
      | Quiet => txr_bytes buf s
      | Frame frame =>
          if lf_type frame =? LORAHAM_FRAME_TX_RESULT then
            match loraham_decode_tx_result frame with
            | Err _ => mret (Some (Err LHKT_ERR_TX_RESULT), s)
            | Ok result =>
                '(ret, s) ← txr_rest buf s;
                mret (Some (if ret =? LHKT_OK then Ok result else Err ret), s)
            end
          else s ← txr_frame frame s; txr_bytes buf s
      | Fault _ => mret (Some (Err LHKT_ERR_TX_RESULT), txr_drop s)
      end
  end.

(** One round of its [for (;;)]. *)
Definition wait_tx_result_round (data_fd deadline : Z) (s : txr_state) :
    io (txr_state + res loraham_tx_result_t * txr_state) :=
  stop ← bridge_runtime_should_stop;
  if (stop : bool) then mret (inr (Err LHKT_ERR_TX_RESULT, s))
  else
    now ← bridge_runtime_now_ms;
    if deadline <=? now then mret (inr (Err LHKT_ERR_TX_RESULT, s))
    else
      ready ← sys_select data_fd (deadline - now);
      match ready with
      | SelErr EINTR => mret (inl s)
      | SelErr _ => mret (inr (Err LHKT_ERR_TX_RESULT, s))
      | SelTimeout => mret (inr (Err LHKT_ERR_TX_RESULT, s))
      | SelReady =>
          n ← loraham_sock_read data_fd 512 EOTHER;
          match n with
          | RdErr EOTHER => mret (inr (Err LHKT_ERR_TX_RESULT, s))
          | RdErr _ => mret (inl s)
          | RdData [] => mret (inr (Err LHKT_ERR_TX_RESULT, s))
          | RdData buf =>
              '(r, s) ← txr_bytes buf s;
              mret (match r with Some r => inr (r, s) | None => inl s end)
          end
      end.

Definition bridge_loraham_wait_tx_result (data_fd client_fd : Z) (fs : loraham_framed_rx_state_t)
    (cfg : lhkt_config_t) (stats : lhkt_stats_t) : io (res loraham_tx_result_t * txr_state) :=
  let s := TxrState fs client_fd LHKT_OK stats in
  if fd_bad data_fd then mret (Err LHKT_ERR_TX_RESULT, s)
  else
    start ← bridge_runtime_now_ms;
    loop (wait_tx_result_round data_fd (start + tx_busy_timeout_ms cfg)) s.

(** *** One packet *)

Record tx_env := TxEnv {
  te_stats : lhkt_stats_t;
  te_conf : bridge_conf_state_t;
  te_frames : option loraham_framed_rx_state_t;
}.

Definition env_bump (c : counter) (e : tx_env) : tx_env :=
  TxEnv (bump c (te_stats e)) (te_conf e) (te_frames e).

(** The wait and the restore as operations on the whole state. *)
Definition env_restore (cfg : lhkt_config_t) (conf_fd : Z) (e : tx_env) : io (Z * tx_env) :=
  '(ret, stats) ← bridge_loraham_restore_rx_freq cfg (te_stats e) conf_fd;
  mret (ret, TxEnv stats (te_conf e) (te_frames e)).

(** What follows a written packet when the daemon reports results. *)
Definition send_with_txresult (cfg : lhkt_config_t) (client_fd data_fd conf_fd : Z)
    (packet : list Z) (e : tx_env) : io (Z * tx_env) :=
  match te_frames e with
  | None =>
      _ ← emit (RfTx (str "unconfirmed") packet);
      mret (LHKT_ERR_TX_RESULT, env_bump tx_unconfirmed e)
  | Some fs =>
      '(r, s) ← bridge_loraham_wait_tx_result data_fd client_fd fs cfg (te_stats e);
      let e := TxEnv (xr_stats s) (te_conf e) (Some (xr_frames s)) in
      match r with
      | Err _ =>
          let e := env_bump tx_unconfirmed e in
          _ ← emit (RfTx (str "unconfirmed") packet);
          '(_, e) ← env_restore cfg conf_fd e;
          mret (LHKT_ERR_TX_RESULT, e)
      | Ok result =>
          _ ← (if tr_status result =? LORAHAM_TX_STATUS_OK then emit (RfTx (str "ok") packet)
               else mret ());
          '(ret, e) ← env_restore cfg conf_fd e;
          if negb (ret =? LHKT_OK) then mret (ret, e)
          else if negb (tr_status result =? LORAHAM_TX_STATUS_OK) then
            mret (xr_error s, env_bump loraham_drop e)
          else mret (xr_error s, env_bump loraham_tx e)
      end
  end.

(** What follows it when only the events of the CONF socket tell. *)
Definition send_with_events (cfg : lhkt_config_t) (conf_fd : Z) (packet : list Z) (e : tx_env) :
    io (Z * tx_env) :=
  '(confirm_ret, st) ← bridge_loraham_wait_tx_complete conf_fd (te_conf e) cfg;
  let e := TxEnv (te_stats e) st (te_frames e) in
  e ← (if negb (confirm_ret =? LHKT_OK) then
         _ ← bridge_runtime_sleep_ms (tx_return_ms cfg); mret (env_bump tx_unconfirmed e)
       else mret e);
  _ ← emit (RfTx (if confirm_ret =? LHKT_OK then str "ok" else str "unconfirmed") packet);
  '(ret, e) ← env_restore cfg conf_fd e;
  if negb (ret =? LHKT_OK) then mret (ret, e) else mret (LHKT_OK, env_bump loraham_tx e).

(** Return code, [packet_written] and the state. *)
Definition bridge_loraham_send_packet_with_client (cfg : lhkt_config_t)
    (client_fd data_fd conf_fd : Z) (packet : list Z) (e : tx_env) : io (Z * bool * tx_env) :=
  if len packet =? 0 then mret (LHKT_ERR, false, e)
  else if data_fd <? 0 then mret (LHKT_ERR, false, env_bump loraham_drop e)
  else if (have_tx_freq cfg =? 0) || (have_rx_freq cfg =? 0) then
    mret (LHKT_ERR_FORMAT, false, env_bump loraham_drop e)
  else
    let shift := bridge_loraham_tx_shift_needed cfg in
    ret ← (if shift then bridge_loraham_send_config_freq cfg conf_fd (tx_freq cfg)
           else mret LHKT_OK);
    if negb (ret =? LHKT_OK) then mret (ret, false, env_bump loraham_drop e)
    else
      settled ← (if shift then bridge_runtime_sleep_ms (tx_settle_ms cfg) else mret LHKT_OK);
      if negb (settled =? LHKT_OK) then
        '(ret, e) ← env_restore cfg conf_fd e;
        mret (if negb (ret =? LHKT_OK) then ret else LHKT_ERR, false, e)
      else
        n ← bridge_loraham_write data_fd packet;
        if n <? 0 then
          _ ← bridge_runtime_sleep_ms (tx_return_ms cfg);
          '(_, e) ← env_restore cfg conf_fd (env_bump loraham_drop e);
          mret (LHKT_ERR_TX_SOCKET, false, e)
        else
          '(ret, e) ← (if bridge_conf_txresult_enabled (te_conf e)
                       then send_with_txresult cfg client_fd data_fd conf_fd packet e
                       else send_with_events cfg conf_fd packet e);
          mret (ret, true, e).

(** *** The queue *)

(** The state of the drain: the queue and what a transmission changes. *)
Record drain_state := DrainState { dr_queue : bridge_tx_queue_t; dr_env : tx_env }.

(** One round of the [for (;;)]. *)
Definition drain_round (cfg : lhkt_config_t) (client_fd data_fd conf_fd : Z) (d : drain_state) :
    io (drain_state + Z * drain_state) :=
  let q := dr_queue d in
  let e := dr_env d in
  match bridge_tx_queue_head q with
  | None => mret (inr (LHKT_OK, d))
  | Some item =>
      '(ret, st) ← (if 0 <=? conf_fd then bridge_conf_read_available conf_fd (te_conf e)
                    else mret (LHKT_OK, te_conf e));
      let e := TxEnv (te_stats e) st (te_frames e) in
      if negb (ret =? LHKT_OK) then mret (inr (LHKT_OK, DrainState q e))
      else if (0 <=? conf_fd) && (cs_have_status st =? 0) then mret (inr (LHKT_OK, DrainState q e))
      else if negb (cs_txresult_known st =? 0) && (cs_txresult_enabled st =? 0) then
        mret (inr (LHKT_ERR_CONF_SOCKET, DrainState q e))
      else
        now ← bridge_runtime_now_ms;
        let '(decision, item) :=
          bridge_tx_head_decision cfg ((0 <=? conf_fd) && negb (cs_tx_busy st =? 0)) item now in
        let q := bridge_tx_queue_set_head item q in
        match decision with
        | TX_WAIT => mret (inr (LHKT_OK, DrainState q e))
        | TX_DROP => mret (inl (DrainState (bridge_tx_queue_pop q) (env_bump loraham_drop e)))
        | TX_SEND =>
            if data_fd <? 0 then mret (inr (LHKT_OK, DrainState q e))
            else if conf_fd <? 0 then mret (inr (LHKT_OK, DrainState q e))
            else
              '(ret, packet_written, e) ←
                bridge_loraham_send_packet_with_client cfg client_fd data_fd conf_fd
                  (ti_packet item) e;
              let q := if (packet_written : bool) || (ret =? LHKT_OK)
                       then bridge_tx_queue_pop q else q in
              mret (inr (ret, DrainState q e))
        end
  end.

Definition bridge_loraham_tx_queue_drain_with_client (cfg : lhkt_config_t)
    (client_fd data_fd conf_fd : Z) (d : drain_state) : io (Z * drain_state) :=
  loop (drain_round cfg client_fd data_fd conf_fd) d.

(** Without the framed stream; [frame_state] is not the caller's. *)
Definition bridge_loraham_tx_queue_drain (cfg : lhkt_config_t) (data_fd conf_fd : Z)
    (q : bridge_tx_queue_t) (stats : lhkt_stats_t) (st : bridge_conf_state_t) :
    io (Z * drain_state) :=
  bridge_loraham_tx_queue_drain_with_client cfg (-1) data_fd conf_fd
    (DrainState q (TxEnv stats st None)).

(** ** What a transmission does *)

Definition is_write (fd : Z) (x : output) : Prop := ∃ bs, x = Wrote fd bs.

(** The outputs of the receive path. *)
Definition rx_output (client : Z) (x : output) : Prop :=
  match x with RfRx _ _ _ => True | Wrote fd _ => fd = client ∧ 0 ≤ client | _ => False end.

(** The entries of the RF log about transmissions. *)
Definition tx_log (o : list output) : list (list Z * list Z) :=
  omap (λ x, match x with RfTx outcome packet => Some (outcome, packet) | _ => None end) o.

Definition tx_line (cfg : lhkt_config_t) : list Z := loraham_config_line cfg (Some (tx_freq cfg)).
Definition rx_line (cfg : lhkt_config_t) : list Z := loraham_config_line cfg (Some (rx_freq cfg)).

Lemma yields_sends fd line (m : io Z) :
  sends fd line m →
  yields m (λ r o, Forall (is_write fd) o ∧
    (r = LHKT_OK ∧ written fd o = line ∨ r < 0 ∧ written fd o `prefix_of` line)).
Proof.
  intros H w. eapply wp_mono; [apply H|]. intros r w' (a & b & -> & (o & E & F & <-) & L & Hr).
  exists o. split; [done|]. split; [done|]. split; [done|].
  destruct Hr as [[-> ->]|Hr]; [left; by rewrite app_nil_r|]. right. split; [done|by exists b].
Qed.

Lemma send_config_freq_yields cfg fd freq :
  yields (bridge_loraham_send_config_freq cfg fd freq) (λ r o, Forall (is_write fd) o ∧
    (r = LHKT_OK ∧ written fd o = loraham_config_line cfg (Some freq) ∨
     r < 0 ∧ written fd o `prefix_of` loraham_config_line cfg (Some freq))).
Proof.
  assert (∀ e, e < 0 → yields (mret e) (λ r o, Forall (is_write fd) o ∧
    (r = LHKT_OK ∧ written fd o = loraham_config_line cfg (Some freq) ∨
     r < 0 ∧ written fd o `prefix_of` loraham_config_line cfg (Some freq)))) as Hfail.
  { intros e He. apply yields_ret. split; [done|]. right. split; [done|by eexists]. }
  unfold bridge_loraham_send_config_freq. destruct (double_le0 freq); [by apply Hfail|].
  destruct (fd <? 0); [by apply Hfail|].
  eapply yields_bind; [apply yields_sends, loraham_send_config_freq_sends|].
  intros r o [F H]. apply yields_ret. rewrite app_nil_r. split; [done|].
  destruct H as [[-> H]|[Hr H]]; [by left|right]. rewrite (proj2 (Z.eqb_neq r LHKT_OK)); [done|].
  unfold LHKT_OK. lia.
Qed.

(** [restored cfg r cs k]: the restore answers [r] after sending [cs], with [k]
    failures counted. *)
Inductive restored (cfg : lhkt_config_t) : Z → list Z → nat → Prop :=
  | restored_unshifted : bridge_loraham_tx_shift_needed cfg = false → restored cfg LHKT_OK [] 0
  | restored_first : bridge_loraham_tx_shift_needed cfg = true → restored cfg LHKT_OK (rx_line cfg) 0
  | restored_retry p :
      bridge_loraham_tx_shift_needed cfg = true → p `prefix_of` rx_line cfg →
      restored cfg LHKT_OK (p ++ rx_line cfg) 1
  | restore_stopped r p :
      bridge_loraham_tx_shift_needed cfg = true → r < 0 → p `prefix_of` rx_line cfg →
      restored cfg r p 1
  | restore_failed r p p' :
      bridge_loraham_tx_shift_needed cfg = true → r < 0 → p `prefix_of` rx_line cfg →
      p' `prefix_of` rx_line cfg → restored cfg r (p ++ p') 2.

Lemma restore_yields cfg stats fd :
  have_rx_freq cfg ≠ 0 →
  yields (bridge_loraham_restore_rx_freq cfg stats fd) (λ r o, ∃ k, Forall (is_write fd) o ∧
    restored cfg r.1 (written fd o) k ∧ r.2 = Nat.iter k (bump tx_restore_failures) stats).
Proof.
  intros Hrx. unfold bridge_loraham_restore_rx_freq. rewrite (proj2 (Z.eqb_neq _ _)) by done.
  destruct (bridge_loraham_tx_shift_needed cfg) eqn:Es; cbn [negb].
  2: { apply yields_ret. exists 0%nat. split; [done|]. split; [by apply restored_unshifted|done]. }
  eapply yields_bind; [apply send_config_freq_yields|]. intros r o [F1 H1].
  destruct (Z.eqb_spec r LHKT_OK) as [->|Hr].
  { destruct H1 as [[_ H1]|[Hr _]]; [|by unfold LHKT_OK in Hr].
    apply yields_ret. exists 0%nat. rewrite app_nil_r, H1. split; [done|].
    split; [by apply restored_first|done]. }
  destruct H1 as [[-> _]|[Hneg H1]]; [done|].
  eapply yields_bind; [apply yields_silent, bridge_runtime_sleep_ms_silent|].
  intros slept ? [-> _]. destruct (Z.eqb_spec slept LHKT_OK) as [_|_]; cbn [negb].
  2: { apply yields_ret. exists 1%nat. rewrite !app_nil_r. split; [done|].
       split; [by apply restore_stopped|done]. }
  eapply yields_bind; [apply send_config_freq_yields|]. intros r2 o2 [F2 H2].
  destruct (Z.eqb_spec r2 LHKT_OK) as [->|Hr2]; apply yields_ret; cbn [app]; rewrite app_nil_r.
  - destruct H2 as [[_ H2]|[Hr2 _]]; [|by unfold LHKT_OK in Hr2].
    exists 1%nat. split; [by apply Forall_app|]. rewrite written_app, H2. split; [by apply restored_retry|done].
  - destruct H2 as [[-> _]|[Hneg2 H2]]; [done|].
    exists 2%nat. split; [by apply Forall_app|]. rewrite written_app. split; [by apply restore_failed|done].
Qed.

(** *** The receive path in the middle of a transmission *)

(** The counters the transmission path owns. *)
Definition tx_counters (s : lhkt_stats_t) : Z * Z * Z :=
  (count s loraham_tx, count s tx_unconfirmed, count s tx_restore_failures).

(** A call of the receive path. *)
Definition receives (client : Z) (stats : lhkt_stats_t) (stats' : lhkt_stats_t) (o : list output) : Prop :=
  Forall (rx_output client) o ∧ tx_counters stats' = tx_counters stats.

Lemma write_all_yields fd buf :
  yields (bridge_rx_write_all_fd fd buf) (λ _ o, Forall (rx_output fd) o).
Proof.
  unfold bridge_rx_write_all_fd. destruct (fd_bad fd) eqn:Hfd; [by apply yields_ret|]. intros w.
  eapply wp_mono; [apply write_loop_spec, bridge_rx_wait_fd_writable_silent|].
  intros r w' (a & b & _ & (o & E & F & _) & L & _). exists o. split; [done|]. split; [done|].
  apply (Forall_impl _ _ _ F). intros x [bs ->]. split; [done|].
  unfold fd_bad in Hfd. apply orb_false_elim in Hfd as [Hfd _]. by apply Z.ltb_ge.
Qed.

Lemma send_tnc2_yields fd tnc2 stats :
  yields (bridge_rx_send_tnc2_to_kiss_client fd tnc2 stats) (λ r o, receives fd stats r.2 o).
Proof.
  unfold bridge_rx_send_tnc2_to_kiss_client. destruct (fd <? 0); [by apply yields_ret|].
  destruct (tnc2_parse_line tnc2); [|by apply yields_ret].
  destruct (ax25_encode_ui _ _); [|by apply yields_ret].
  destruct (kiss_encode_data_frame _ _); [|by apply yields_ret].
  eapply yields_bind; [apply write_all_yields|]. intros r o F.
  destruct (negb (r =? LHKT_OK)); apply yields_ret; by rewrite app_nil_r.
Qed.

Lemma rx_chunk_yields fuel : ∀ fd rx buf stats,
  yields (rx_chunk_loop fuel fd rx buf stats) (λ r o, receives fd stats r.2 o).
Proof.
  induction fuel as [|fuel IH]; intros fd rx buf stats; [by intros w|]. cbn [rx_chunk_loop].
  destruct (loraham_extract_tnc2 rx buf LHKT_TNC2_MAX_LINE) as [rx' ev].
  assert (∀ s, tx_counters s = tx_counters stats → yields (if len (lx_pending rx') =? 0
    then mret (LHKT_OK, rx', s) else rx_chunk_loop fuel fd rx' [] s) (λ r o, receives fd stats r.2 o)) as Hagain.
  { intros s Hs. destruct (len (lx_pending rx') =? 0); [by apply yields_ret|].
    eapply yields_mono; [apply IH|]. intros r o [F E]. split; [done|congruence]. }
  destruct ev as [|t|e]; [by apply Hagain| |by apply yields_ret].
  eapply yields_bind; [apply send_tnc2_yields|]. intros [ret s] o [F E].
  destruct (negb (ret =? LHKT_OK)); [apply yields_ret; by rewrite app_nil_r|].
  eapply yields_mono; [by apply Hagain|]. intros r o' [F' E']. split; [by apply Forall_app|done].
Qed.

Lemma framed_frame_yields fd frame stats :
  yields (bridge_rx_handle_framed_frame fd frame stats) (λ r o, receives fd stats r.2 o).
Proof.
  unfold bridge_rx_handle_framed_frame. destruct (lf_type frame =? LORAHAM_FRAME_RX_PACKET).
  2: { destruct (lf_type frame =? LORAHAM_FRAME_ERROR); by apply yields_ret. }
  apply (yields_bind _ _ (λ _ o, Forall (rx_output fd) o)).
  { destruct (_ <=? _); [apply yields_emit; by repeat constructor|by apply yields_ret]. }
  intros _ o F. destruct (fd <? 0); [apply yields_ret; by rewrite app_nil_r|].
  destruct (_ <? _); [apply yields_ret; by rewrite app_nil_r|].
  unfold bridge_rx_send_loraham_packet_to_kiss_client.
  destruct (fd <? 0); [apply yields_ret; by rewrite app_nil_r|].
  eapply yields_bind; [apply rx_chunk_yields|]. intros [[ret rx] s1] o1 [F1 E1].
  destruct (negb (ret =? LHKT_OK)).
  { apply yields_ret. rewrite app_nil_r. split; [by apply Forall_app|done]. }
  eapply yields_bind; [apply rx_chunk_yields|]. intros [[ret2 rx2] s2] o2 [F2 E2].
  assert (Forall (rx_output fd) (o ++ o1 ++ o2 ++ [])) as HF by (rewrite app_nil_r; by repeat apply Forall_app_2).
  cbn [snd] in *.
  destruct (negb (ret2 =? LHKT_OK)); [apply yields_ret; by split; [|exact (eq_trans E2 E1)]|].
  destruct (_ =? _); apply yields_ret; by split; [|exact (eq_trans E2 E1)].
Qed.

(** The client of a wait is the caller's, or none any more. *)
Definition txr_ok (client : Z) (stats : lhkt_stats_t) (s : txr_state) (o : list output) : Prop :=
  receives client stats (xr_stats s) o ∧ (xr_client s = client ∨ xr_client s = -1) ∧
  (xr_error s = LHKT_OK ∨ xr_error s = LHKT_ERR_CLIENT_SOCKET).

Lemma txr_frame_yields client stats frame s o :
  txr_ok client stats s o → yields (txr_frame frame s) (λ s' o', txr_ok client stats s' (o ++ o')).
Proof.
  intros ([F E] & Hc & He). unfold txr_frame.
  eapply yields_bind; [apply framed_frame_yields|]. intros [ret s1] o1 [F1 E1]. cbn [snd] in E1.
  assert (receives client stats s1 (o ++ o1)) as Hr.
  { split; [|congruence]. apply Forall_app_2; [done|]. apply (Forall_impl _ _ _ F1).
    intros [] Hx; try done. cbn in *. destruct Hc as [Hc|Hc]; rewrite Hc in Hx; [done|lia]. }
  apply yields_ret. rewrite app_nil_r.
  destruct (Z.eqb_spec ret LHKT_ERR_CLIENT_SOCKET) as [->|]; (split; [done|]); cbn; auto.
Qed.

Lemma txr_decode_ok client stats s o b :
  txr_ok client stats s o → txr_ok client stats (txr_decode b s).1 o ∧
  txr_ok client stats (txr_drop (txr_decode b s).1) o.
Proof. unfold txr_decode. by destruct (loraham_framed_decode_byte (xr_frames s) b). Qed.

Lemma txr_rest_yields client stats buf : ∀ s o,
  txr_ok client stats s o →
  yields (txr_rest buf s) (λ r o', txr_ok client stats r.2 (o ++ o')).
Proof.
  induction buf as [|b buf IH]; intros s o H; cbn [txr_rest].
  { apply yields_ret. by rewrite app_nil_r. }
  destruct (txr_decode_ok client stats s o b H) as [H1 H2]. destruct (txr_decode b s) as [s1 ev].
  cbn [fst] in H1, H2.
  destruct ev as [|frame|e]; [by apply IH| |].
  - destruct (_ =? _); [by apply IH|]. eapply yields_bind; [exact (txr_frame_yields _ _ _ _ _ H1)|].
    intros s2 o2 H3. eapply yields_mono; [exact (IH _ _ H3)|]. intros r o3 H4. by rewrite app_assoc.
  - apply yields_ret. by rewrite app_nil_r.
Qed.

Lemma txr_bytes_yields client stats buf : ∀ s o,
  txr_ok client stats s o →
  yields (txr_bytes buf s) (λ r o', txr_ok client stats r.2 (o ++ o')).
Proof.
  induction buf as [|b buf IH]; intros s o H; cbn [txr_bytes].
  { apply yields_ret. by rewrite app_nil_r. }
  destruct (txr_decode_ok client stats s o b H) as [H1 H2]. destruct (txr_decode b s) as [s1 ev].
  cbn [fst] in H1, H2.
  destruct ev as [|frame|e]; [by apply IH| |by apply yields_ret; rewrite app_nil_r].
  destruct (_ =? _).
  - destruct (loraham_decode_tx_result frame); [|by apply yields_ret; rewrite app_nil_r].
    eapply yields_bind; [exact (txr_rest_yields _ _ _ _ _ H1)|]. intros [ret s2] o2 H3.
    apply yields_ret. by rewrite app_nil_r.
  - eapply yields_bind; [exact (txr_frame_yields _ _ _ _ _ H1)|]. intros s2 o2 H3.
    eapply yields_mono; [exact (IH _ _ H3)|]. intros r o3 H4. by rewrite app_assoc.
Qed.

Lemma wait_tx_result_yields data client fs cfg stats :
  yields (bridge_loraham_wait_tx_result data client fs cfg stats)
    (λ r o, txr_ok client stats r.2 o).
Proof.
  assert (txr_ok client stats (TxrState fs client LHKT_OK stats) []) as H0.
  { split; [done|]. cbn. auto. }
  unfold bridge_loraham_wait_tx_result. destruct (fd_bad data); [by apply yields_ret|].
  eapply yields_silent_bind; [apply silent_now|]. intros start _.
  apply (yields_loop _ (txr_ok client stats)); [done|]. intros s o H. unfold wait_tx_result_round.
  eapply yields_silent_bind; [apply silent_should_stop|]. intros [] _;
    [apply yields_ret; by rewrite app_nil_r|].
  eapply yields_silent_bind; [apply silent_now|]. intros now _.
  destruct (_ <=? _); [apply yields_ret; by rewrite app_nil_r|].
  eapply yields_silent_bind; [apply silent_select|]. intros [| |[]] _;
    try (apply yields_ret; by rewrite app_nil_r).
  eapply yields_silent_bind; [apply loraham_sock_read_silent|]. intros [[|b buf]|[]] _;
    try (apply yields_ret; by rewrite app_nil_r).
  eapply yields_bind; [exact (txr_bytes_yields _ _ _ _ _ H)|]. intros [[r|] s1] o1 H1;
    apply yields_ret; by rewrite app_nil_r.
Qed.

(** Reading the CONF socket is silent. *)
Lemma bridge_conf_read_available_silent fd st :
  silent (bridge_conf_read_available fd st) (λ _, True).
Proof. unfold bridge_conf_read_available. solve_silent. Qed.

Lemma bridge_conf_wait_read_silent fd st ms : silent (bridge_conf_wait_read fd st ms) (λ _, True).
Proof.
  unfold bridge_conf_wait_read. destruct (fd <? 0); [by apply silent_ret|].
  eapply silent_bind; [apply silent_select|]. intros [| |[]] _; try by apply silent_ret.
  eapply silent_bind; [apply bridge_conf_read_available_silent|]. intros [ret st'] _.
  by apply silent_ret.
Qed.

Lemma wait_tx_complete_silent fd st cfg : silent (bridge_loraham_wait_tx_complete fd st cfg) (λ _, True).
Proof.
  unfold bridge_loraham_wait_tx_complete. destruct (fd <? 0); [by apply silent_ret|].
  eapply silent_bind; [apply silent_now|]. intros now _. eapply (silent_bind _ _ (λ _, True)).
  { destruct (negb _); [by apply silent_ret|]. unfold wait_tx_start. apply silent_loop. intros s.
    destruct (negb _); [by apply silent_ret|].
    eapply silent_bind; [apply silent_now|]. intros now' _. destruct (_ <=? _); [by apply silent_ret|].
    eapply silent_bind; [apply bridge_conf_wait_read_silent|]. intros [ret st'] _. apply silent_ret.
    by destruct (ret <? 0). }
  intros [[e|] st'] _; [by apply silent_ret|]. destruct (_ && _); [by apply silent_ret|].
  eapply silent_bind; [apply silent_now|]. intros now' _. unfold wait_tx_idle. apply silent_loop.
  intros s. destruct (cs_tx_busy s =? 0); [by apply silent_ret|].
  eapply silent_bind; [apply silent_should_stop|]. intros [] _; [by apply silent_ret|].
  eapply silent_bind; [apply silent_now|]. intros now'' _. destruct (_ <=? _); [by apply silent_ret|].
  eapply silent_bind; [apply bridge_conf_wait_read_silent|]. intros [ret st''] _. apply silent_ret.
  by destruct (ret <? 0).
Qed.

(** ** The drain terminates *)

(** A round that goes on has read the clock. *)
Lemma drain_round_shrinking cfg client data conf : shrinking (drain_round cfg client data conf).
Proof.
  intros [q e] w. unfold drain_round. cbn [dr_queue dr_env].
  destruct (bridge_tx_queue_head q) as [item|]; [|by apply wp_ret]. apply wp_bind.
  eapply (wp_mono _ (λ _ w', (size w' ≤ size w)%nat)).
  { destruct (0 <=? conf); [|by apply wp_ret].
    eapply wp_mono; [apply bridge_conf_read_available_silent|]. by intros r w' (_ & L & _). }
  intros [ret st] w1 L1. destruct (negb (ret =? LHKT_OK)); [by apply wp_ret|].
  destruct (_ && _); [by apply wp_ret|]. destruct (_ && _); [by apply wp_ret|].
  apply wp_bind, wp_now. intros now w2 [_ L2].
  destruct (bridge_tx_head_decision _ _ _ _) as [[| |] item']; [by apply wp_ret| |apply wp_ret; lia].
  destruct (data <? 0); [by apply wp_ret|]. destruct (conf <? 0); [by apply wp_ret|].
  apply wp_bind, wp_intro. by intros [[? ?] ?] ? _; apply wp_ret.
Qed.

(** It has removed one packet. *)
Lemma drain_round_pops cfg client data conf d d' w w' n :
  drain_round cfg client data conf d w = Some (inl d', w') → S n = tq_count (dr_queue d) →
  n = tq_count (dr_queue d').
Proof.
  intros E Hn. eapply (wp_elim (drain_round cfg client data conf d)
    (λ x _, match x with inl d' => n = tq_count (dr_queue d') | inr _ => True end)) in E; [exact E|].
  clear E. destruct d as [q e]. unfold drain_round. cbn [dr_queue dr_env] in *.
  destruct (bridge_tx_queue_head q) as [item|]; [|by apply wp_ret]. apply wp_bind, wp_intro.
  intros [ret st] w1 _. destruct (negb (ret =? LHKT_OK)); [by apply wp_ret|].
  destruct (_ && _); [by apply wp_ret|]. destruct (_ && _); [by apply wp_ret|].
  apply wp_bind, wp_intro. intros now w2 _.
  destruct (bridge_tx_head_decision _ _ _ _) as [[| |] item']; [by apply wp_ret| |apply wp_ret].
  - destruct (data <? 0); [by apply wp_ret|]. destruct (conf <? 0); [by apply wp_ret|].
    apply wp_bind, wp_intro. by intros [[? ?] ?] ? _; apply wp_ret.
  - cbn [dr_queue]. unfold bridge_tx_queue_pop, bridge_tx_queue_set_head. cbn [tq_count]. rewrite <-Hn.
    cbn. lia.
Qed.

(** C33. The drain terminates: it is at most one more round than there are packets in
    the queue, whatever the environment answers. *)
Theorem drain_terminates cfg client data conf d w :
  bridge_loraham_tx_queue_drain_with_client cfg client data conf d w =
    iter (S (tq_count (dr_queue d))) (drain_round cfg client data conf) d w.
Proof.
  unfold bridge_loraham_tx_queue_drain_with_client. remember (tq_count (dr_queue d)) as n eqn:En.
  revert d w En. induction n as [|n IH]; intros d w En;
    rewrite loop_unfold by apply drain_round_shrinking; cbn [iter]; unfold mbind, io_bind;
    destruct (drain_round cfg client data conf d w) as [[[d'|r] w']|] eqn:E; try done.
  - unfold drain_round, bridge_tx_queue_head in E. rewrite <-En in E. done.
  - apply IH. eapply drain_round_pops, En. exact E.
Qed.
