(* ===== verification/BridgeTx.v ===== *)
(** Transmissions: what bridge_loraham.c does with a packet and with the queue, on any
    environment, in terms of the trace ([yields]). *)
From S2P Require Import Prelude Kiss Ax25 Tnc2 LorahamSock Tnc TxQueue Io SockIo LorahamConf BridgeConf BridgeRx BridgeLoraham.

(** *** One packet *)

(** The bytes of a packet on the DATA socket. *)
Definition tx_frame (packet : list Z) : list Z :=
  framed_bytes (LoraFrame LORAHAM_FRAME_TX_PACKET packet).

Lemma loraham_write_yields fd packet :
  packet ≠ [] →
  yields (bridge_loraham_write fd packet) (λ n o, Forall (is_write fd) o ∧
    (0 ≤ n ∧ written fd o = tx_frame packet ∨ n < 0 ∧ written fd o `prefix_of` tx_frame packet)).
Proof.
  intros Hne. unfold bridge_loraham_write, loraham_send_framed_tx_packet.
  assert (yields (ret ← mret LHKT_ERR; mret (if negb (ret =? LHKT_OK) then -1 else len packet))
    (λ n o, Forall (is_write fd) o ∧
      (0 ≤ n ∧ written fd o = tx_frame packet ∨ n < 0 ∧ written fd o `prefix_of` tx_frame packet))) as Hfail.
  { apply (yields_ret (-1)). split; [done|]. right. split; [done|by eexists]. }
  destruct (fd <? 0); [done|].
  destruct (Z.leb_spec (len packet) LHKT_LORAHAM_TX_MAX) as [Hl|Hl].
  2: { unfold loraham_framed_tx_bytes. by rewrite (proj2 (Z.ltb_lt _ _)). }
  rewrite framed_tx_bytes_eq by done. fold (tx_frame packet).
  eapply yields_bind; [apply yields_sends, sends_write|]. intros r o [F H]. apply yields_ret.
  rewrite app_nil_r. split; [done|].
  destruct H as [[-> H]|[Hr H]]; [left; by split; [cbn; lia|]|right].
  by rewrite (proj2 (Z.eqb_neq r LHKT_OK)) by (unfold LHKT_OK; lia).
Qed.

(** The transmission counters after [sent], [unconfirmed] (0 or 1) and [k] events. *)
Definition ticks (k : nat) (z : Z) : Z := Nat.iter k (λ z, u64 (z + 1)) z.
Definition ticked (sent unconfirmed k : nat) (c : Z * Z * Z) : Z * Z * Z :=
  let '(t, u, f) := c in (ticks sent t, ticks unconfirmed u, ticks k f).

Lemma tx_counters_restore k s :
  tx_counters (Nat.iter k (bump tx_restore_failures) s) = ticked 0 0 k (tx_counters s).
Proof.
  induction k as [|k IH]; [done|]. rewrite Nat.iter_succ.
  change (tx_counters (bump tx_restore_failures ?x)) with (ticked 0 0 1 (tx_counters x)).
  by rewrite IH.
Qed.

(** What the RF log and the counters say of a packet that was written, [r] being the
    result of the restore: confirmed, unconfirmed, or refused by the daemon. *)
Inductive verdict (packet : list Z) (r : Z) : list (list Z * list Z) → nat → nat → Prop :=
  | confirmed : verdict packet r [(str "ok", packet)] (if r =? LHKT_OK then 1 else 0) 0
  | unconfirmed (sent : bool) :
      (sent = true → r = LHKT_OK) →
      verdict packet r [(str "unconfirmed", packet)] (if sent then 1 else 0) 1
  | refused : verdict packet r [] 0 0.

Lemma ticked_twice a b k a' b' k' c :
  ticked a' b' k' (ticked a b k c) = ticked (a' + a) (b' + b) (k' + k) c.
Proof. destruct c as [[t u] f]. unfold ticked, ticks. by rewrite !Nat.iter_add. Qed.

Lemma ticked_0 c : ticked 0 0 0 c = c.
Proof. by destruct c as [[]]. Qed.

Section packet.
Context (cfg : lhkt_config_t) (client data conf : Z) (packet : list Z).
Context (Hcd : conf ≠ data) (Hkc : client ≠ conf) (Hkd : client ≠ data).
Context (Hrx : have_rx_freq cfg ≠ 0).

Lemma rx_output_written fd o :
  client ≠ fd → Forall (rx_output client) o → written fd o = [].
Proof.
  intros Hne F. apply written_none, (Forall_impl _ _ _ F). intros [] H; try done.
  cbn in H. destruct H as [-> _]. done.
Qed.

Lemma writes_other fd fd' o : fd ≠ fd' → Forall (is_write fd) o → written fd' o = [].
Proof.
  intros Hne F. apply written_none, (Forall_impl _ _ _ F). by intros ? [bs ->].
Qed.

Lemma no_tx_log o : Forall (rx_output client) o ∨ (∃ fd, Forall (is_write fd) o) → tx_log o = [].
Proof.
  intros [F|[fd F]]; induction F as [|x o Hx _ IH]; [done| |done|]; unfold tx_log in *; cbn.
  - destruct x; try done.
  - by destruct Hx as [bs ->].
Qed.

Lemma env_restore_yields e :
  yields (env_restore cfg conf e) (λ r o, ∃ k, Forall (is_write conf) o ∧
    restored cfg r.1 (written conf o) k ∧
    tx_counters (te_stats r.2) = ticked 0 0 k (tx_counters (te_stats e)) ∧
    te_frames r.2 = te_frames e).
Proof.
  unfold env_restore. eapply yields_bind; [by apply restore_yields|].
  intros [r s] o (k & F & R & E). cbn [fst snd] in *. apply yields_ret. exists k.
  rewrite app_nil_r. split; [done|]. split; [done|]. split; [|done].
  cbn [te_stats snd]. by rewrite E, tx_counters_restore.
Qed.

(** What follows the write of a packet: [mid] before the restore, [back] the restore. *)
Definition aftermath (e : tx_env) (ret : Z) (e' : tx_env) (o : list output) : Prop :=
  ∃ mid back r k sent unc, o = mid ++ back ∧
    written conf mid = [] ∧ written data mid = [] ∧
    Forall (is_write conf) back ∧ restored cfg r (written conf back) k ∧
    (ret = LHKT_OK → r = LHKT_OK) ∧ (ret = r ∨ ret = LHKT_ERR_TX_RESULT ∨ ret = LHKT_ERR_CLIENT_SOCKET) ∧
    verdict packet r (tx_log mid) sent unc ∧
    tx_counters (te_stats e') = ticked sent unc k (tx_counters (te_stats e)).

(** Up to the restore: neither CONF nor DATA, and these entries of the RF log. *)
Definition midway (mid : list output) (log : list (list Z * list Z)) : Prop :=
  written conf mid = [] ∧ written data mid = [] ∧ tx_log mid = log.

Lemma midway_nil : midway [] [].
Proof. done. Qed.

Lemma midway_rx o : Forall (rx_output client) o → midway o [].
Proof.
  intros F. split; [by apply rx_output_written|]. split; [by apply rx_output_written|].
  apply no_tx_log. by left.
Qed.

Lemma midway_log mid outcome : midway mid [] → midway (mid ++ [RfTx outcome packet]) [(outcome, packet)].
Proof.
  intros (H1 & H2 & H3). unfold midway, tx_log in *.
  by rewrite !written_app, H1, H2, omap_app, H3.
Qed.

(** The common end: the log entry, then the restore, then [s] and [u] for the two
    counters. *)
Lemma aftermath_intro e e1 ret r k sent unc mid log back (e2 : tx_env) s u :
  midway mid log → verdict packet r log sent unc → Forall (is_write conf) back →
  restored cfg r (written conf back) k →
  tx_counters (te_stats e1) = ticked s u 0 (tx_counters (te_stats e)) →
  tx_counters (te_stats e2) = ticked (sent - s) (unc - u) k (tx_counters (te_stats e1)) →
  (s ≤ sent ∧ u ≤ unc)%nat → (ret = LHKT_OK → r = LHKT_OK) →
  (ret = r ∨ ret = LHKT_ERR_TX_RESULT ∨ ret = LHKT_ERR_CLIENT_SOCKET) →
  aftermath e ret e2 (mid ++ back).
Proof.
  intros (H1 & H2 & H3) V F R E1 E2 [Hs Hu] Hok Hret. subst log.
  exists mid, back, r, k, sent, unc. do 8 (split; [done|]).
  by rewrite E2, E1, ticked_twice, !Nat.sub_add, Nat.add_0_r.
Qed.

(** The restore and the code after it: [fin] is the change of the statistics. *)
Lemma finish_yields e e1 mid log (ret : Z) (sent : bool) unc :
  midway mid log → (∀ r, verdict packet r log (if (r =? LHKT_OK) && sent then 1 else 0) unc) →
  tx_counters (te_stats e1) = ticked 0 unc 0 (tx_counters (te_stats e)) →
  ret = LHKT_OK ∨ ret = LHKT_ERR_CLIENT_SOCKET →
  yields ('(r, e2) ← env_restore cfg conf e1;
          if negb (r =? LHKT_OK) then mret (r, e2)
          else mret (ret, if sent then env_bump loraham_tx e2 else env_bump loraham_drop e2))
    (λ r o, aftermath e r.1 r.2 (mid ++ o)).
Proof.
  intros Hmid V E Hret. eapply yields_bind; [apply env_restore_yields|].
  intros [r e2] back (k & F & R & Et & _). cbn [fst snd] in *. specialize (V r).
  destruct (Z.eqb_spec r LHKT_OK) as [Hr|Hr]; cbn [negb andb] in *; apply yields_ret;
    rewrite app_nil_r; cbn [fst snd].
  - subst r. eapply (aftermath_intro e e1 _ LHKT_OK); [done|exact V|done|done|exact E| |by destruct sent; lia|done|].
    + rewrite Nat.sub_diag, Nat.sub_0_r.
      destruct sent.
      * change (tx_counters (te_stats (env_bump loraham_tx e2))) with (ticked 1 0 0 (tx_counters (te_stats e2))).
        by rewrite Et, ticked_twice.
      * exact Et.
    + destruct Hret as [-> | ->]; auto.
  - eapply (aftermath_intro e e1 _ r); [done|exact V|done|done|exact E| |lia|done|by left].
    by rewrite !Nat.sub_diag.
Qed.

Lemma send_with_txresult_yields e fs :
  te_frames e = Some fs →
  yields (send_with_txresult cfg client data conf packet e) (λ r o, aftermath e r.1 r.2 o).
Proof.
  intros Hfs. unfold send_with_txresult. rewrite Hfs.
  eapply yields_bind; [apply wait_tx_result_yields|].
  intros [r s] o ([F E] & _ & He). cbn [fst snd] in *. pose proof (midway_rx o F) as Hmid.
  set (e1 := TxEnv (xr_stats s) (te_conf e) (Some (xr_frames s))).
  assert (tx_counters (te_stats e1) = ticked 0 0 0 (tx_counters (te_stats e))) as E1
    by (by rewrite ticked_0).
  destruct r as [result|err].
  - destruct (Z.eqb_spec (tr_status result) LORAHAM_TX_STATUS_OK) as [Hok|Hok]; cbn [negb].
    + eapply yields_bind; [apply (yields_emit _ (λ _ o', o' = [RfTx (str "ok") packet])); done|].
      intros [] ? ->. eapply yields_mono; [apply (finish_yields e e1 (o ++ [RfTx (str "ok") packet]) [(str "ok", packet)] (xr_error s) true 0);
        [by apply midway_log| |exact E1|exact He]|].
      * intros r. rewrite andb_true_r. apply confirmed.
      * intros r o' H. by rewrite app_assoc.
    + eapply (yields_bind _ _ (λ _ o', o' = [])); [by apply yields_ret|]. intros [] ? ->.
      apply (finish_yields e e1 o [] (xr_error s) false 0 Hmid); [|exact E1|exact He].
      intros r. rewrite andb_false_r. apply refused.
  - eapply yields_bind; [apply (yields_emit _ (λ _ o', o' = [RfTx (str "unconfirmed") packet])); done|].
    intros [] ? ->. eapply yields_bind; [apply env_restore_yields|].
    intros [ret e'] back (k & Fb & R & Et & _). cbn [fst snd] in *.
    apply yields_ret. rewrite app_nil_r, app_assoc. cbn [fst snd].
    eapply (aftermath_intro e (env_bump tx_unconfirmed e1) _ ret k 0 1 _ _ _ _ 0 1);
      [by apply midway_log|by apply (unconfirmed packet ret false)|done|done| |done|lia|done|by auto].
    change (tx_counters (te_stats (env_bump tx_unconfirmed e1))) with (ticked 0 1 0 (tx_counters (te_stats e1))).
    by rewrite E1, ticked_0.
Qed.

Lemma send_with_events_yields e :
  yields (send_with_events cfg conf packet e) (λ r o, aftermath e r.1 r.2 o).
Proof.
  unfold send_with_events. eapply yields_silent_bind; [apply wait_tx_complete_silent|].
  intros [confirm st] _. set (e0 := TxEnv (te_stats e) st (te_frames e)).
  set (ok := confirm =? LHKT_OK). eapply (yields_silent_bind _ _ (λ e1, tx_counters (te_stats e1) =
    ticked 0 (if ok then 0 else 1) 0 (tx_counters (te_stats e)))).
  { destruct ok; cbn [negb].
    - apply silent_ret. by rewrite ticked_0.
    - eapply silent_bind; [apply bridge_runtime_sleep_ms_silent|]. intros slept _. by apply silent_ret;
        destruct (tx_counters (te_stats e)) as [[]] eqn:Ec; unfold tx_counters in *; cbn; injection Ec as -> -> ->. }
  intros e1 E1. set (outcome := if ok then str "ok" else str "unconfirmed").
  eapply yields_bind; [apply (yields_emit _ (λ _ o', o' = [RfTx outcome packet])); done|].
  intros [] ? ->. eapply yields_mono; [apply (finish_yields e e1 ([] ++ [RfTx outcome packet]) [(outcome, packet)] LHKT_OK true
    (if ok then 0 else 1)); [apply midway_log, midway_nil| |exact E1|by left]|].
  - intros r. rewrite andb_true_r. unfold outcome. destruct ok; [apply confirmed|].
    destruct (Z.eqb_spec r LHKT_OK); [by apply (unconfirmed packet r true)|by apply (unconfirmed packet r false)].
  - done.
Qed.
End packet.

(** A packet that was not handed over, and one that was, at least in part. *)
Definition kept_back (cfg : lhkt_config_t) (conf : Z) (e : tx_env) (ret : Z) (flag : bool)
    (e' : tx_env) (o : list output) : Prop :=
  flag = false ∧ ret < 0 ∧ Forall (is_write conf) o ∧
  written conf o `prefix_of` (if bridge_loraham_tx_shift_needed cfg then tx_line cfg else []) ∧
  tx_counters (te_stats e') = tx_counters (te_stats e).

Definition handed_over (cfg : lhkt_config_t) (data conf : Z) (packet : list Z) (e : tx_env)
    (ret : Z) (flag : bool) (e' : tx_env) (o : list output) : Prop :=
  ∃ tune xmit after, o = tune ++ xmit ++ after ∧ Forall (is_write conf) tune ∧
    written conf tune = (if bridge_loraham_tx_shift_needed cfg then tx_line cfg else []) ∧
    Forall (is_write data) xmit ∧ written data xmit `prefix_of` tx_frame packet ∧
    if flag then written data xmit = tx_frame packet ∧ aftermath cfg data conf packet e ret e' after
    else ret < 0 ∧ (written data xmit = [] ∨ ret = LHKT_ERR_TX_SOCKET) ∧
      ∃ r k, Forall (is_write conf) after ∧ restored cfg r (written conf after) k ∧
      tx_counters (te_stats e') = ticked 0 0 k (tx_counters (te_stats e)).

Lemma restored_code cfg r cs k : restored cfg r cs k → r = LHKT_OK ∨ r < 0.
Proof. destruct 1; auto. Qed.

(** The restore of a failed attempt. *)
Lemma attempt_over cfg data conf packet e e0 ret tune xmit :
  have_rx_freq cfg ≠ 0 → (∀ r, r = LHKT_OK ∨ r < 0 → ret r < 0) →
  (∀ r, written data xmit = [] ∨ ret r = LHKT_ERR_TX_SOCKET) → Forall (is_write conf) tune →
  written conf tune = (if bridge_loraham_tx_shift_needed cfg then tx_line cfg else []) →
  Forall (is_write data) xmit → written data xmit `prefix_of` tx_frame packet →
  tx_counters (te_stats e0) = tx_counters (te_stats e) →
  yields ('(r, e') ← env_restore cfg conf e0; mret (ret r, false, e'))
    (λ x o, handed_over cfg data conf packet e x.1.1 x.1.2 x.2 (tune ++ xmit ++ o)).
Proof.
  intros Hrx Hret Hsock Ft Et Fx Px E0. eapply yields_bind; [by apply env_restore_yields|].
  intros [r e'] back (k & Fb & R & E & _). cbn [fst snd] in *. apply yields_ret. rewrite app_nil_r.
  exists tune, xmit, back. do 5 (split; [done|]). cbn [fst snd]. split; [eapply Hret, restored_code, R|].
  split; [done|]. exists r, k. split; [done|]. split; [done|]. congruence.
Qed.

Lemma send_packet_run cfg client data conf packet e fs :
  conf ≠ data → client ≠ conf → client ≠ data → te_frames e = Some fs →
  yields (bridge_loraham_send_packet_with_client cfg client data conf packet e)
    (λ x o, kept_back cfg conf e x.1.1 x.1.2 x.2 o ∨
            handed_over cfg data conf packet e x.1.1 x.1.2 x.2 o).
Proof.
  intros Hcd Hkc Hkd Hfs. unfold bridge_loraham_send_packet_with_client.
  assert (∀ ret e', ret < 0 → tx_counters (te_stats e') = tx_counters (te_stats e) →
    yields (mret (ret, false, e')) (λ x o, kept_back cfg conf e x.1.1 x.1.2 x.2 o ∨
            handed_over cfg data conf packet e x.1.1 x.1.2 x.2 o)) as Hearly.
  { intros ret e' Hret He. apply yields_ret. left. split; [done|]. split; [done|]. split; [done|].
    split; [|done]. apply prefix_nil. }
  destruct (Z.eqb_spec (len packet) 0) as [|Hp]; [by apply Hearly|].
  destruct (data <? 0); [by apply Hearly|].
  destruct (Z.eqb_spec (have_tx_freq cfg) 0) as [|Htx]; [by apply Hearly|].
  destruct (Z.eqb_spec (have_rx_freq cfg) 0) as [|Hrx]; [by apply Hearly|]. cbn [orb].
  set (shift := bridge_loraham_tx_shift_needed cfg) in *.
  eapply (yields_bind _ _ (λ r o, Forall (is_write conf) o ∧
    let tuning := if shift then tx_line cfg else [] in
    (r = LHKT_OK ∧ written conf o = tuning ∨ r < 0 ∧ written conf o `prefix_of` tuning))).
  { destruct shift; [apply send_config_freq_yields|apply yields_ret; split; [done|by left]]. }
  intros r tune [Ft Ht]. cbv zeta in Ht. destruct (Z.eqb_spec r LHKT_OK) as [->|Hr]; cbn [negb].
  2: { destruct Ht as [[-> _]|[Hneg Ht]]; [done|]. apply yields_ret. left. rewrite app_nil_r. done. }
  destruct Ht as [[_ Ht]|[Hr _]]; [|by unfold LHKT_OK in Hr].
  eapply (yields_silent_bind _ _ (λ _, True)).
  { destruct shift; [|by apply silent_ret]. intros w. eapply wp_mono; [apply bridge_runtime_sleep_ms_silent|].
    by intros r w' (H1 & H2 & _). }
  intros settled _. destruct (settled =? LHKT_OK); cbn [negb].
  2: { eapply yields_mono; [apply (attempt_over cfg data conf packet e e
         (λ r, if negb (r =? LHKT_OK) then r else LHKT_ERR) tune []); try done|].
       - intros r [-> |Hr]; [done|]. by rewrite (proj2 (Z.eqb_neq r LHKT_OK)) by (unfold LHKT_OK; lia).
       - intros r. by left.
       - apply prefix_nil.
       - intros x o H. by right. }
  eapply yields_bind; [apply loraham_write_yields; by intros ->|]. intros n xmit [Fx Hx].
  destruct (Z.ltb_spec n 0) as [Hn|Hn].
  - destruct Hx as [[? _]|[_ Hx]]; [lia|].
    eapply yields_silent_bind; [apply bridge_runtime_sleep_ms_silent|]. intros slept _.
    eapply yields_mono; [apply (attempt_over cfg data conf packet e (env_bump loraham_drop e)
      (λ _, LHKT_ERR_TX_SOCKET) tune xmit); try done; by right|]. intros x o H. by right.
  - destruct Hx as [[_ Hx]|[? _]]; [|lia].
    eapply (yields_bind _ _ (λ r o, aftermath cfg data conf packet e r.1 r.2 o)).
    { destruct (bridge_conf_txresult_enabled (te_conf e)).
      - by eapply send_with_txresult_yields.
      - by eapply send_with_events_yields. }
    intros [ret e'] o H. apply yields_ret. right. rewrite app_nil_r.
    exists tune, xmit, o. do 4 (split; [done|]). split; [by rewrite Hx|done].
Qed.

(** ** The life of a packet *)

Definition packets (q : bridge_tx_queue_t) : list (list Z) := map ti_packet (Spec.contents q).

(** One round: nothing to do yet, the head dropped, or the head handed to
    [bridge_loraham_send_packet_with_client]. *)
Definition round_post (cfg : lhkt_config_t) (data conf : Z) (d : drain_state)
    (x : drain_state + Z * drain_state) (o : list output) : Prop :=
  match x with
  | inl d' => o = [] ∧ te_frames (dr_env d') = te_frames (dr_env d) ∧ Spec.wf (dr_queue d') ∧
      (∃ p, packets (dr_queue d) = p :: packets (dr_queue d')) ∧
      count (te_stats (dr_env d')) loraham_drop = u64 (count (te_stats (dr_env d)) loraham_drop + 1)
  | inr (ret, d') => Spec.wf (dr_queue d') ∧
      (o = [] ∧ packets (dr_queue d') = packets (dr_queue d) ∧ te_stats (dr_env d') = te_stats (dr_env d) ∨
       ∃ p rest e flag, packets (dr_queue d) = p :: rest ∧ te_frames e = te_frames (dr_env d) ∧
         te_stats e = te_stats (dr_env d) ∧
         packets (dr_queue d') = (if (flag : bool) then rest else p :: rest) ∧
         (kept_back cfg conf e ret flag (dr_env d') o ∨
          handed_over cfg data conf p e ret flag (dr_env d') o))
  end.

Lemma head_packets q item :
  Spec.wf q → bridge_tx_queue_head q = Some item →
  ∃ rest, packets q = ti_packet item :: rest ∧
    ∀ item', ti_packet item' = ti_packet item →
      let q' := bridge_tx_queue_set_head item' q in
      Spec.wf q' ∧ packets q' = packets q ∧
      Spec.wf (bridge_tx_queue_pop q') ∧ packets (bridge_tx_queue_pop q') = rest.
Proof.
  intros Hwf Hh. rewrite head_contents in Hh by done. unfold packets.
  destruct (Spec.contents q) as [|item0 rest] eqn:E; [done|]. injection Hh as ->.
  exists (map ti_packet rest). split; [done|]. intros item' Hi. cbv zeta.
  assert (tq_count q ≠ 0%nat) as Hc by (rewrite <-contents_length, E; done).
  assert (Spec.wf (bridge_tx_queue_set_head item' q)) as Hwf'.
  { apply set_head_wf; [done|done|]. rewrite Hi. pose proof (Spec.wf_packets _ Hwf) as F.
    rewrite E in F. by apply Forall_cons in F as [F _]. }
  split; [done|]. rewrite contents_insert_head, E by done. cbn [tail map]. split; [by rewrite Hi|].
  split; [by apply pop_wf|]. by rewrite pop_contents, contents_insert_head, E.
Qed.

Lemma head_decision_packet cfg busy item now :
  ti_packet (bridge_tx_head_decision cfg busy item now).2 = ti_packet item.
Proof. unfold bridge_tx_head_decision. by repeat case_match. Qed.

(** Of the two cases of a handed packet only a complete one lets the call succeed. *)
Lemma run_flag cfg data conf p e ret flag e' o :
  kept_back cfg conf e ret flag e' o ∨ handed_over cfg data conf p e ret flag e' o →
  flag || (ret =? LHKT_OK) = flag.
Proof.
  assert (ret < 0 → false || (ret =? LHKT_OK) = false) as Hneg.
  { intros H. cbn. apply Z.eqb_neq. unfold LHKT_OK. lia. }
  intros [(-> & H & _)|(? & ? & ? & _ & _ & _ & _ & _ & H)]; [by apply Hneg|].
  destruct flag; [done|]. apply Hneg, H.
Qed.

Lemma drain_round_yields cfg client data conf d fs :
  conf ≠ data → client ≠ conf → client ≠ data →
  te_frames (dr_env d) = Some fs → Spec.wf (dr_queue d) →
  yields (drain_round cfg client data conf d) (λ x o, round_post cfg data conf d x o).
Proof.
  intros Hcd Hkc Hkd Hfs Hwf. destruct d as [q e]. cbn [dr_queue dr_env] in *. unfold drain_round.
  cbn [dr_queue dr_env]. destruct (bridge_tx_queue_head q) as [item|] eqn:Hh.
  2: { apply yields_ret. split; [done|]. by left. }
  destruct (head_packets q item Hwf Hh) as (rest & Ep & Hset).
  assert (∀ ret q' st, Spec.wf q' → packets q' = packets q →
    yields (mret (inr (ret, DrainState q' (TxEnv (te_stats e) st (te_frames e)))))
      (λ x o, round_post cfg data conf (DrainState q e) x o)) as Hstay.
  { intros ret q' st Hw Hp. apply yields_ret. split; [done|]. by left. }
  eapply (yields_silent_bind _ _ (λ _, True)).
  { destruct (0 <=? conf); [apply bridge_conf_read_available_silent|by apply silent_ret]. }
  intros [ret st] _. destruct (negb (ret =? LHKT_OK)); [by apply Hstay|].
  destruct (_ && _); [by apply Hstay|]. destruct (_ && _); [by apply Hstay|].
  eapply yields_silent_bind; [apply silent_now|]. intros now _.
  pose proof (head_decision_packet cfg ((0 <=? conf) && negb (cs_tx_busy st =? 0)) item now) as Hi.
  destruct (bridge_tx_head_decision _ _ _ _) as [decision item']. cbn [snd] in Hi.
  destruct (Hset item' Hi) as (Hw & Hp & Hpw & Hpp). destruct decision; [by apply Hstay| |].
  - destruct (data <? 0); [by apply Hstay|]. destruct (conf <? 0); [by apply Hstay|].
    eapply yields_bind; [by eapply send_packet_run|]. intros [[ret2 flag] e'] o H. cbn [fst snd] in H.
    apply yields_ret. rewrite app_nil_r, (run_flag _ _ _ _ _ _ _ _ _ H). rewrite Hi in H.
    split; [by destruct flag|]. right. exists (ti_packet item), rest, (TxEnv (te_stats e) st (te_frames e)), flag.
    split; [done|]. split; [done|]. split; [done|]. split; [|done].
    destruct flag; [done|]. cbn [dr_queue]. by rewrite Hp.
  - apply yields_ret. split; [done|]. split; [done|]. split; [done|]. split; [|done].
    exists (ti_packet item). cbn [dr_queue]. by rewrite Hpp.
Qed.

(** What reaches the DATA socket. *)
Lemma run_data cfg data conf p e ret flag e' o :
  conf ≠ data →
  kept_back cfg conf e ret flag e' o ∨ handed_over cfg data conf p e ret flag e' o →
  if flag then written data o = tx_frame p
  else ret < 0 ∧ written data o `prefix_of` tx_frame p ∧
       (written data o = [] ∨ ret = LHKT_ERR_TX_SOCKET).
Proof.
  intros Hcd [(-> & H & F & _)|(tune & xmit & after & -> & Ft & _ & _ & Px & H)].
  { split; [done|]. rewrite (writes_other conf) by done. split; [apply prefix_nil|by left]. }
  rewrite !written_app, (writes_other conf data tune) by done. cbn [app]. destruct flag.
  - destruct H as [-> (mid & back & r & k & s & u & -> & _ & Hm & Fb & _)].
    by rewrite written_app, Hm, (writes_other conf data back), !app_nil_r.
  - destruct H as (Hr & Hs & r & k & Fb & _). by rewrite (writes_other conf data after), app_nil_r.
Qed.

(** The whole drain. *)
Definition drain_post (data : Z) (d : drain_state) (x : Z * drain_state) (o : list output) : Prop :=
  let '(ret, d') := x in
  Spec.wf (dr_queue d') ∧ ∃ dropped rest,
    packets (dr_queue d) = dropped ++ rest ∧
    (o = [] ∧ packets (dr_queue d') = rest ∧
       count (te_stats (dr_env d')) loraham_drop =
         ticks (length dropped) (count (te_stats (dr_env d)) loraham_drop) ∨
     ∃ p rest', rest = p :: rest' ∧
       (packets (dr_queue d') = rest' ∧ written data o = tx_frame p ∨
        packets (dr_queue d') = rest ∧ ret < 0 ∧ written data o `prefix_of` tx_frame p ∧
        (written data o = [] ∨ ret = LHKT_ERR_TX_SOCKET))).

Lemma drain_yields cfg client data conf d fs :
  conf ≠ data → client ≠ conf → client ≠ data →
  te_frames (dr_env d) = Some fs → Spec.wf (dr_queue d) →
  yields (bridge_loraham_tx_queue_drain_with_client cfg client data conf d) (drain_post data d).
Proof.
  intros Hcd Hkc Hkd Hfs Hwf. unfold bridge_loraham_tx_queue_drain_with_client.
  apply (yields_loop _ (λ d1 o, o = [] ∧ te_frames (dr_env d1) = Some fs ∧ Spec.wf (dr_queue d1) ∧
    ∃ dropped, packets (dr_queue d) = dropped ++ packets (dr_queue d1) ∧
      count (te_stats (dr_env d1)) loraham_drop =
        ticks (length dropped) (count (te_stats (dr_env d)) loraham_drop))).
  { split; [done|]. split; [done|]. split; [done|]. by exists []. }
  intros d1 o (-> & Hfs1 & Hwf1 & dropped & Ep & Ed).
  eapply yields_mono; [by eapply drain_round_yields|]. intros [d2|[ret d2]] o' H; cbn [app].
  - destruct H as (-> & Hfs2 & Hwf2 & (p & Ep2) & Ed2). split; [done|]. split; [congruence|].
    split; [done|]. exists (dropped ++ [p]). split; [by rewrite Ep, Ep2, <-app_assoc|].
    rewrite length_app, Nat.add_comm. cbn [length Nat.add]. unfold ticks in *. by rewrite Nat.iter_succ, Ed2, Ed.
  - destruct H as [Hwf2 [(-> & Ep2 & Es)|(p & rest & e & flag & Ep2 & _ & _ & Eq & H)]];
      (split; [done|]); exists dropped, (packets (dr_queue d1)); (split; [done|]).
    + left. by rewrite Es.
    + right. exists p, rest. split; [done|]. apply run_data in H; [|done].
      destruct flag; [left; done|right]. by rewrite Eq, Ep2.
Qed.

(** ** Back on the receive frequency

    The CONF bytes of a call leave the radio alone or end with the complete command for
    the RX frequency. *)
Definition parks (cfg : lhkt_config_t) (bs : list Z) : Prop := bs = [] ∨ rx_line cfg `suffix_of` bs.

Lemma loraham_write_only fd packet :
  yields (bridge_loraham_write fd packet) (λ _ o, Forall (is_write fd) o).
Proof.
  unfold bridge_loraham_write, loraham_send_framed_tx_packet. destruct (fd <? 0); [by apply yields_ret|].
  destruct (loraham_framed_tx_bytes packet); [|by apply yields_ret].
  eapply yields_bind; [apply yields_sends, sends_write|]. intros r o [F _]. apply yields_ret.
  by rewrite app_nil_r.
Qed.

(** The return codes after which the main loop drops a daemon connection, and with it
    what it believes about the configuration. *)
Definition drops_daemon (ret : Z) : Prop :=
  bridge_loraham_should_reconnect_data_socket ret || bridge_loraham_should_reconnect_conf_socket ret = true.

Lemma send_config_freq_codes cfg fd freq :
  yields (bridge_loraham_send_config_freq cfg fd freq) (λ r o, Forall (is_write fd) o ∧
    (r = LHKT_OK ∧ written fd o = loraham_config_line cfg (Some freq) ∨
     r = LHKT_ERR_CONF_SOCKET ∨ r = LHKT_ERR_FORMAT ∧ o = [] ∧ double_le0 freq = true)).
Proof.
  unfold bridge_loraham_send_config_freq. destruct (double_le0 freq); [apply yields_ret; split; [done|by right; right]|].
  destruct (fd <? 0); [apply yields_ret; split; [done|by right; left]|].
  eapply yields_bind; [apply yields_sends, loraham_send_config_freq_sends|]. intros r o [F H].
  apply yields_ret. rewrite app_nil_r. split; [done|].
  destruct H as [[-> H]|[Hr H]]; [by left|right; left].
  by rewrite (proj2 (Z.eqb_neq r LHKT_OK)) by (unfold LHKT_OK; lia).
Qed.

Section parks.
Context (cfg : lhkt_config_t) (client data conf : Z).
Context (Hrx : have_rx_freq cfg ≠ 0) (Hfreq : double_le0 (rx_freq cfg) = false).
Abbreviation shift := (bridge_loraham_tx_shift_needed cfg).

(** After the restore, when a shift was needed: the RX command stands at the end, or
    the code is that of a broken CONF socket. Without a shift nothing is sent. *)
Definition parked_back (ret : Z) (bs : list Z) : Prop :=
  if shift then ret = LHKT_ERR_CONF_SOCKET ∨ ret = LHKT_OK ∧ rx_line cfg `suffix_of` bs
  else ret = LHKT_OK ∧ bs = [].

Lemma env_restore_parks e :
  yields (env_restore cfg conf e) (λ r o, Forall (is_write conf) o ∧ parked_back r.1 (written conf o)).
Proof.
  unfold env_restore, parked_back. eapply (yields_bind _ _ (λ r o, Forall (is_write conf) o ∧
    if shift then r.1 = LHKT_ERR_CONF_SOCKET ∨ r.1 = LHKT_OK ∧ rx_line cfg `suffix_of` written conf o
    else r.1 = LHKT_OK ∧ written conf o = [])); [|intros [r s] o H; apply yields_ret; by rewrite app_nil_r].
  unfold bridge_loraham_restore_rx_freq. rewrite (proj2 (Z.eqb_neq _ _)) by done.
  destruct shift; cbn [negb]; [|by apply yields_ret].
  eapply yields_bind; [apply send_config_freq_codes|]. intros r o [F H]. rewrite Hfreq in H.
  destruct (Z.eqb_spec r LHKT_OK) as [->|Hr].
  { apply yields_ret. rewrite app_nil_r. split; [done|]. right. split; [done|].
    destruct H as [[_ ->]|[H|(H & _)]]; [by exists []|done..]. }
  destruct H as [[-> _]|[-> |(_ & _ & [=])]]; [done|].
  eapply yields_silent_bind; [apply bridge_runtime_sleep_ms_silent|]. intros slept _.
  destruct (negb _); [apply yields_ret; rewrite app_nil_r; split; [done|by left]|].
  eapply yields_bind; [apply send_config_freq_codes|]. intros r2 o2 [F2 H2]. rewrite Hfreq in H2.
  destruct (Z.eqb_spec r2 LHKT_OK) as [->|Hr2]; apply yields_ret; rewrite app_nil_r;
    (split; [by apply Forall_app|]).
  - right. split; [done|]. rewrite written_app.
    destruct H2 as [[_ ->]|[H2|(H2 & _)]]; [by eexists|done..].
  - destruct H2 as [[-> _]|[-> |(_ & _ & [=])]]; [done|by left].
Qed.

(** What follows the write: nothing on CONF up to the restore, and a code that lets the
    connection live only after a good restore. *)
Definition leaves (ret : Z) (o : list output) : Prop :=
  drops_daemon ret ∨ (if shift then rx_line cfg `suffix_of` written conf o else written conf o = []).

Lemma leaves_restored r ret mid back :
  written conf mid = [] → Forall (is_write conf) back → parked_back r (written conf back) →
  (r ≠ LHKT_OK → drops_daemon ret ∨ ret = r) → leaves ret (mid ++ back).
Proof.
  intros Hm F H Hret. unfold leaves, parked_back in *. rewrite written_app, Hm. cbn [app].
  destruct shift; [|by right; destruct H].
  destruct H as [-> |[-> H]]; [left|by right]. by destruct (Hret ltac:(done)) as [?| ->].
Qed.

Lemma send_with_txresult_parks packet e :
  client ≠ conf → is_Some (te_frames e) →
  yields (send_with_txresult cfg client data conf packet e) (λ r o, leaves r.1 o).
Proof.
  intros Hkc [fs Hfs]. unfold send_with_txresult. rewrite Hfs.
  eapply yields_bind; [apply wait_tx_result_yields|]. intros [r s] o ([F _] & _ & _).
  assert (written conf o = []) as Wo by (by apply (rx_output_written client)).
  destruct r as [result|err].
  - eapply (yields_bind _ _ (λ _ o', written conf o' = [])).
    { destruct (_ =? _); [by apply yields_emit|by apply yields_ret]. }
    intros [] o2 W2. eapply yields_bind; [apply env_restore_parks|]. intros [ret e'] back [Fb H]. cbn [fst] in H.
    assert (written conf (o ++ o2) = []) as Wm by (by rewrite written_app, Wo, W2).
    destruct (Z.eqb_spec ret LHKT_OK) as [->|Hr]; cbn [negb].
    + destruct (negb _); apply yields_ret; rewrite app_nil_r, app_assoc; by eapply leaves_restored.
    + apply yields_ret. rewrite app_nil_r, app_assoc. eapply leaves_restored; [done..|]. by right.
  - eapply (yields_bind _ _ (λ _ o', written conf o' = [])); [by apply yields_emit|]. intros [] o2 W2.
    eapply yields_bind; [apply env_restore_parks|]. intros [ret e'] back [Fb H].
    apply yields_ret. by left.
Qed.

Lemma send_with_events_parks packet e :
  yields (send_with_events cfg conf packet e) (λ r o, leaves r.1 o).
Proof.
  unfold send_with_events. eapply yields_silent_bind; [apply wait_tx_complete_silent|].
  intros [confirm st] _. eapply (yields_silent_bind _ _ (λ _, True)).
  { destruct (negb _); [|by apply silent_ret].
    eapply silent_bind; [apply bridge_runtime_sleep_ms_silent|]. intros slept _. by apply silent_ret. }
  intros e1 _. eapply (yields_bind _ _ (λ _ o', written conf o' = [])); [by apply yields_emit|].
  intros [] o W. eapply yields_bind; [apply env_restore_parks|]. intros [ret e'] back [Fb H]. cbn [fst] in H.
  destruct (Z.eqb_spec ret LHKT_OK) as [->|Hr]; cbn [negb]; apply yields_ret; rewrite app_nil_r;
    (eapply leaves_restored; [done..|]); by auto.
Qed.

(** A packet: what it writes to CONF leaves the radio parked, or the code drops a
    connection. *)
Definition parking (ret : Z) (o : list output) : Prop := drops_daemon ret ∨ parks cfg (written conf o).

Lemma parking_leaves ret tune o :
  (shift = false → written conf tune = []) → leaves ret o → parking ret (tune ++ o).
Proof.
  intros Ht [H|H]; [by left|right]. unfold parks. rewrite written_app. destruct shift.
  - right. destruct H as [a ->]. by exists (written conf tune ++ a); rewrite app_assoc.
  - left. by rewrite Ht, H.
Qed.

Lemma send_packet_parks packet e :
  conf ≠ data → client ≠ conf → is_Some (te_frames e) →
  yields (bridge_loraham_send_packet_with_client cfg client data conf packet e) (λ x o, parking x.1.1 o).
Proof.
  intros Hcd Hkc Hfs. unfold bridge_loraham_send_packet_with_client.
  assert (∀ ret (e' : tx_env), yields (mret (ret, false, e')) (λ (x : Z * bool * tx_env) o, parking x.1.1 o)) as Hearly.
  { intros ret e'. apply yields_ret. right. by left. }
  destruct (_ =? 0); [apply Hearly|]. destruct (data <? 0); [apply Hearly|].
  destruct (_ || _); [apply Hearly|].
  eapply (yields_bind _ _ (λ r o, (r = LHKT_OK → shift = false → written conf o = []) ∧
    (r ≠ LHKT_OK → parking r o))).
  { destruct shift; [|apply yields_ret; by split].
    eapply yields_mono; [apply send_config_freq_codes|]. intros r o [F H]. split; [done|]. intros Hr.
    destruct H as [[? _]|[-> |(-> & -> & _)]]; [done|by left|]. right. by left. }
  intros r tune [Ht Hp]. destruct (Z.eqb_spec r LHKT_OK) as [->|Hr]; cbn [negb].
  2: { apply yields_ret. rewrite app_nil_r. auto. }
  specialize (Ht eq_refl). clear Hp. eapply (yields_silent_bind _ _ (λ _, True)).
  { destruct shift; [|by apply silent_ret]. intros w. eapply wp_mono; [apply bridge_runtime_sleep_ms_silent|].
    by intros r w' (H1 & H2 & _). }
  intros settled _. destruct (settled =? LHKT_OK); cbn [negb].
  2: { eapply yields_bind; [apply env_restore_parks|]. intros [r e'] back [Fb H]. cbn [fst] in H.
       apply yields_ret. rewrite app_nil_r. apply parking_leaves; [done|].
       apply (leaves_restored r _ []); [done..|]. intros Hr. right. cbn.
       by rewrite (proj2 (Z.eqb_neq _ _)) by done. }
  eapply (yields_bind _ _ (λ _ o, written conf o = [])).
  { eapply yields_mono; [apply loraham_write_only|]. intros n o F. by apply (writes_other data). }
  intros n xmit Wx. assert (∀ ret o, leaves ret o → parking ret (tune ++ xmit ++ o)) as Hleave.
  { intros ret o H. rewrite app_assoc. apply parking_leaves; [|done]. intros Hs.
    by rewrite written_app, Wx, Ht. }
  destruct (n <? 0).
  - eapply yields_silent_bind; [apply bridge_runtime_sleep_ms_silent|]. intros slept _.
    eapply yields_bind; [apply env_restore_parks|]. intros [r e'] back _. apply yields_ret. by left.
  - eapply (yields_bind _ _ (λ r o, leaves r.1 o)).
    { destruct (bridge_conf_txresult_enabled (te_conf e)).
      - by apply send_with_txresult_parks.
      - apply send_with_events_parks. }
    intros [ret e'] o H. apply yields_ret. rewrite app_nil_r. by apply Hleave.
Qed.

(** The whole drain. *)
Lemma drain_parks d :
  conf ≠ data → client ≠ conf → is_Some (te_frames (dr_env d)) →
  yields (bridge_loraham_tx_queue_drain_with_client cfg client data conf d) (λ x o, parking x.1 o).
Proof.
  intros Hcd Hkc Hfs. apply (yields_loop _ (λ d1 o, o = [] ∧ is_Some (te_frames (dr_env d1)))); [done|].
  intros [q e] o [-> He]. cbn [dr_env] in He. cbn [app].
  assert (∀ ret d', yields (mret (inr (ret, d'))) (λ (x : drain_state + Z * drain_state) o,
    match x with inl s => o = [] ∧ is_Some (te_frames (dr_env s)) | inr a => parking a.1 o end)) as Hstay.
  { intros ret d'. apply yields_ret. right. by left. }
  unfold drain_round. cbn [dr_queue dr_env].
  destruct (bridge_tx_queue_head q) as [item|]; [|apply Hstay].
  eapply (yields_silent_bind _ _ (λ _, True)).
  { destruct (0 <=? conf); [apply bridge_conf_read_available_silent|by apply silent_ret]. }
  intros [ret st] _. destruct (negb (ret =? LHKT_OK)); [apply Hstay|].
  destruct (_ && _); [apply Hstay|]. destruct (_ && _); [apply Hstay|].
  eapply yields_silent_bind; [apply silent_now|]. intros now _.
  destruct (bridge_tx_head_decision _ _ _ _) as [[] item']; [apply Hstay| |by apply yields_ret].
  destruct (data <? 0); [apply Hstay|]. destruct (conf <? 0); [apply Hstay|].
  eapply yields_bind; [by apply send_packet_parks|]. intros [[ret2 flag] e'] o' H. apply yields_ret.
  by rewrite app_nil_r.
Qed.
End parks.

(** ** Properties *)

(** C10. One transmission. Whatever the environment does, either nothing of the packet
    reaches the DATA socket, only (part of) the command for the TX frequency was sent,
    and the call fails; or the trace has three parts: the complete TX-frequency
    command (nothing when both frequencies agree), then the DATA frame of the packet (a
    prefix of it if the packet does not count as written, all of it if it does) with
    no command in between, then the restore. The restore sends the complete
    RX-frequency command as the last thing on the CONF socket, or the failures are
    counted; and the call succeeds only if it was restored. *)
Theorem send_packet_radio cfg client data conf packet e fs
    (Hcd : conf ≠ data) (Hkc : client ≠ conf) (Hkd : client ≠ data) (Hfs : te_frames e = Some fs) :
  let shift := bridge_loraham_tx_shift_needed cfg in
  let tuning := if shift then tx_line cfg else [] in
  yields (bridge_loraham_send_packet_with_client cfg client data conf packet e)
    (λ '(ret, packet_written, e') o,
      (packet_written = false ∧ ret < 0 ∧ written data o = [] ∧ written conf o `prefix_of` tuning) ∨
      ∃ tune xmit back r k, o = tune ++ xmit ++ back ∧
        written data tune = [] ∧ written conf tune = tuning ∧
        written conf xmit = [] ∧ written data xmit `prefix_of` tx_frame packet ∧
        (packet_written = true → written data xmit = tx_frame packet) ∧
        written data back = [] ∧ restored cfg r (written conf back) k ∧
        (ret = LHKT_OK → packet_written = true ∧ r = LHKT_OK) ∧
        count (te_stats e') tx_restore_failures = ticks k (count (te_stats e) tx_restore_failures)).
Proof.
  cbv zeta. eapply yields_mono; [by eapply send_packet_run|]. intros [[ret flag] e'] o.
  cbn [fst snd]. intros [(-> & Hr & F & P & _)|(tune & xmit & after & -> & Ft & Et & Fx & Px & H)].
  { left. split; [done|]. split; [done|]. split; [by apply (writes_other conf)|done]. }
  right. pose proof (writes_other conf data tune Hcd Ft) as E1.
  pose proof (writes_other data conf xmit (not_eq_sym Hcd) Fx) as E2. destruct flag.
  - destruct H as [Ex (mid & back & r & k & s & u & -> & Hc & Hd & Fb & R & Hok & _ & _ & Ec)].
    exists tune, (xmit ++ mid), back, r, k. rewrite <-app_assoc, !written_app, E2, Hc, Hd, !app_nil_r.
    do 6 (split; [done|]). split; [by apply (writes_other conf)|]. split; [done|].
    split; [by intros; split; [|apply Hok]|]. unfold tx_counters, ticked in Ec. by injection Ec.
  - destruct H as (Hr & _ & r & k & Fb & R & Ec). exists tune, xmit, after, r, k.
    do 6 (split; [done|]). split; [by apply (writes_other conf)|]. split; [done|].
    split; [by intros ->|]. unfold tx_counters, ticked in Ec. by injection Ec.
Qed.

(** ** A run *)

(** An environment in which the daemon has nothing to say on the CONF socket, takes
    all bytes and answers the packet with the result OK. *)
Definition tx_example_world : world :=
  World [RdErr EAGAIN; RdData [4; 4; 0; 0; 0; 1; 0]] (replicate 20 (WrN 300)) (replicate 9 SelReady)
    (replicate 20 true) [] [] [] (replicate 9 1000) (replicate 9 false) [] [].

(** The same, past the reading of the CONF socket. *)
Definition tx_example_world1 : world := set_read [RdData [4; 4; 0; 0; 0; 1; 0]] tx_example_world.

(** Its state: results enabled, one packet waiting. *)
Definition tx_example_env : tx_env :=
  TxEnv lhkt_stats_init (bridge_conf_feed bridge_conf_state_init (str "STATUS TX=0 TXRESULT=1" ++ [10]))
    (Some loraham_framed_rx_state_init).
Definition tx_example_cfg : lhkt_config_t := lhkt_config_defaults (λ _, None) (λ _, false).
Definition tx_example_drain : drain_state :=
  DrainState (TxQueue (<[0%nat := TxItem [60; 255; 1; 65] 500 0]> (replicate 16 tx_item_zero)) 0 1)
    tx_example_env.

Lemma tx_example_wf : Spec.wf (dr_queue tx_example_drain).
Proof.
  split; [by vm_compute|cbn; unfold LHKT_TX_QUEUE_MAX; lia..|]. by apply (bool_decide_unpack _).
Qed.

(** What the run of a call answered and did. *)
Definition outcome {A B} (f : A → B) (m : io A) (w : world) : option (B * list output) :=
  match m w with Some (a, w') => Some (f a, w_out w') | None => None end.

Lemma outcome_elim {A B} (f : A → B) (m : io A) (Q : A → list output → Prop) w b o :
  yields m Q → w_out w = [] → outcome f m w = Some (b, o) → ∃ a, f a = b ∧ Q a o.
Proof.
  intros H Hw E. specialize (H w). unfold outcome, wp in *. destruct (m w) as [[a w']|]; [|done].
  injection E as <- <-. destruct H as (o & Eo & _ & HQ). exists a. split; [done|].
  unfold extends in Eo. rewrite Hw in Eo. by rewrite Eo.
Qed.

Definition tx_example_out : list output :=
  [Wrote 6 (tx_line tx_example_cfg); Wrote 5 (tx_frame [60; 255; 1; 65]);
   RfTx (str "ok") [60; 255; 1; 65]; Wrote 6 (rx_line tx_example_cfg)].

Lemma tx_example_send :
  outcome fst (bridge_loraham_send_packet_with_client tx_example_cfg 7 5 6 [60; 255; 1; 65] tx_example_env)
    tx_example_world1 =
  Some ((LHKT_OK, true), tx_example_out).
Proof. by vm_compute. Qed.

Lemma send_packet_radio_witness :
  ∃ tune xmit back r k, tx_example_out = tune ++ xmit ++ back ∧
    written 6 tune = tx_line tx_example_cfg ∧ written 5 xmit = tx_frame [60; 255; 1; 65] ∧
    restored tx_example_cfg r (written 6 back) k ∧ r = LHKT_OK.
Proof.
  destruct (outcome_elim _ _ _ tx_example_world1 _ _
    (send_packet_radio tx_example_cfg 7 5 6 [60; 255; 1; 65] tx_example_env loraham_framed_rx_state_init
      ltac:(lia) ltac:(lia) ltac:(lia) eq_refl) eq_refl tx_example_send)
    as ([[ret flag] e'] & E & H).
  cbn [fst] in E. injection E as -> ->. destruct H as [(H & _)|(tune & xmit & back & r & k & H)]; [done|].
  exists tune, xmit, back, r, k. destruct H as (E & _ & Et & _ & _ & Ex & _ & R & Hr & _).
  split; [exact E|]. split; [|by split; [exact (Ex eq_refl)|split; [exact R|apply Hr]]].
  rewrite Et. by vm_compute.
Defined.

Lemma tx_example_drained :
  outcome fst (bridge_loraham_tx_queue_drain_with_client tx_example_cfg 7 5 6 tx_example_drain)
    tx_example_world = Some (LHKT_OK, tx_example_out).
Proof. by vm_compute. Qed.
