(* ===== verification/TcpServer.v ===== *)
(** The KISS/TCP server (tcp_server.c): one IPv4 listener with a source allow-list.

    [inet_pton] is the C library's, as in Tnc.v. The peer's text is only logged and
    not modelled; [errno] is folded into the answers of [accept]: [AccAgain] stands for
    EAGAIN, EWOULDBLOCK, ECONNABORTED and EINTR. *)
From S2P Require Import Prelude Tnc Io SockIo.

Section listen.
Context (inet_pton : list Z → option Z).

Definition lhkt_tcp_server_listen (host : list Z) (port : Z) : io Z :=
  if (len host =? 0) || (port <? 1) || (65535 <? port) then mret LHKT_ERR_FORMAT
  else
    s ← sys_socket;
    match s with
    | None => mret LHKT_ERR
    | Some fd =>
        reuse ← sys_ok fd;
        if negb reuse then _ ← sys_close fd; mret LHKT_ERR
        else
          match inet_pton host with
          | None => _ ← sys_close fd; mret LHKT_ERR_FORMAT
          | Some _ =>
              bound ← sys_ok fd;
              if negb bound then _ ← sys_close fd; mret LHKT_ERR
              else
                listening ← sys_ok fd;
                if negb listening then _ ← sys_close fd; mret LHKT_ERR
                else
                  getfl ← sys_ok fd;
                  nonblocking ← (if negb getfl then mret false else sys_ok fd);
                  if negb nonblocking then _ ← sys_close fd; mret LHKT_ERR else mret fd
          end
    end.
End listen.

Definition lhkt_tcp_server_accept (listen_fd allow_net allow_prefix : Z) : io Z :=
  if listen_fd <? 0 then mret LHKT_ERR
  else
    r ← sys_accept listen_fd;
    match r with
    | AccAgain => mret LHKT_ERR_AGAIN
    | AccErr => mret LHKT_ERR
    | AccPeer fd addr port =>
        if negb (lhkt_ipv4_in_cidr addr allow_net allow_prefix) then
          _ ← sys_close fd; mret LHKT_ERR_AGAIN
        else mret fd
    end.

(** Obtaining a descriptor: a negative answer leaves nothing open, any other is the one
    descriptor obtained. *)
Definition acquires (m : io Z) : Prop :=
  yields m (λ fd o, ∀ x, balance x o = if (0 <=? fd) && (fd =? x) then 1 else 0).

Lemma close_balance fd x : balance x [Closed fd] = if fd =? x then -1 else 0.
Proof. unfold balance. cbn. lia. Qed.

(** Every failing path after [socket] closes the descriptor. *)
Definition owns (fd : Z) (m : io Z) : Prop :=
  yields m (λ r o, (r = fd ∧ ∀ x, balance x o = 0) ∨ (r < 0 ∧ ∀ x, balance x o = if fd =? x then -1 else 0)).

Lemma owns_keep fd : owns fd (mret fd).
Proof. apply yields_ret. by left. Qed.

Lemma owns_close fd e : e < 0 → owns fd (_ ← sys_close fd; mret e).
Proof.
  intros He. eapply yields_bind; [apply (yields_emit _ (λ _ o, o = [Closed fd])); done|].
  intros [] ? ->. apply yields_ret. right. split; [done|]. intros x. apply close_balance.
Qed.

Lemma owns_ok {A} fd (m : io A) (k : A → io Z) : fdless m → (∀ b, owns fd (k b)) → owns fd (m ≫= k).
Proof.
  intros Hm Hk. eapply yields_bind; [exact Hm|]. intros b o F. eapply yields_mono; [apply Hk|].
  intros r o' [[-> H]|[Hr H]]; [left|right]; (split; [done|]); intros x;
    by rewrite balance_app, (balance_no_fd x o F), H.
Qed.

Lemma acquires_owned fd x (m : io Z) :
  0 ≤ fd → x = Opened fd ∨ (∃ addr port, x = Accepted fd addr port) → owns fd m →
  yields m (λ r o, ∀ y, balance y ([x] ++ o) = if (0 <=? r) && (r =? y) then 1 else 0).
Proof.
  intros Hfd Hx Hm. eapply yields_mono; [exact Hm|]. intros r o H y. rewrite balance_app.
  assert (balance y [x] = if fd =? y then 1 else 0) as ->.
  { unfold balance. destruct Hx as [-> |(addr & port & ->)]; cbn; by destruct (fd =? y). }
  destruct H as [[-> H]|[Hr H]]; rewrite H.
  - rewrite (proj2 (Z.leb_le 0 fd)) by done. cbn [andb]. lia.
  - rewrite (proj2 (Z.leb_gt 0 r)) by done. cbn [andb]. destruct (fd =? y); lia.
Qed.

Lemma acquires_socket (k : Z → io Z) e :
  e < 0 → (∀ fd, 0 ≤ fd → owns fd (k fd)) →
  acquires (s ← sys_socket; match s with None => mret e | Some fd => k fd end).
Proof.
  intros He Hk. eapply yields_bind;
    [apply (yields_socket (λ s o, match s with None => o = [] | Some fd => 0 ≤ fd ∧ o = [Opened fd] end)); done|].
  intros [fd|] o H.
  - destruct H as [Hfd ->]. apply (acquires_owned fd); [done|by left|by apply Hk].
  - subst o. apply yields_ret. intros x. by rewrite (proj2 (Z.leb_gt 0 e)).
Qed.

Lemma acquires_fail e : e < 0 → acquires (mret e).
Proof. intros He. apply yields_ret. intros x. by rewrite (proj2 (Z.leb_gt 0 e)). Qed.

Ltac solve_owns :=
  repeat match goal with
  | |- owns _ (mret _) => apply owns_keep
  | |- owns ?fd (_ ← sys_close ?fd; mret _) => by apply owns_close
  | |- owns _ (_ ≫= _) => apply owns_ok; [solve_fdless|intros ?]
  | |- owns _ (if ?b then _ else _) => destruct b
  | |- owns _ (match ?x with _ => _ end) => destruct x
  end.

Lemma listen_acquires inet_pton host port : acquires (lhkt_tcp_server_listen inet_pton host port).
Proof.
  unfold lhkt_tcp_server_listen. destruct (_ || _); [by apply acquires_fail|].
  apply acquires_socket; [done|]. intros fd _. solve_owns.
Qed.

(** The source allow-list: on any environment, one call of the server either
    returns a descriptor, which then belongs to a connection from an address the list
    admits and is the only thing obtained, or it returns an error and nothing is left
    open: the connection was not established, or it was refused, which happens only to
    an address outside the list, and closed at once. *)
Theorem accept_allows listen_fd net prefix :
  yields (lhkt_tcp_server_accept listen_fd net prefix) (λ r o,
    (0 ≤ r ∧ ∃ addr port, o = [Accepted r addr port] ∧ lhkt_ipv4_in_cidr addr net prefix = true) ∨
    (r < 0 ∧ (o = [] ∨ ∃ fd addr port, r = LHKT_ERR_AGAIN ∧ o = [Accepted fd addr port; Closed fd] ∧
                        lhkt_ipv4_in_cidr addr net prefix = false))).
Proof.
  unfold lhkt_tcp_server_accept. destruct (listen_fd <? 0); [apply yields_ret; right; split; [done|by left]|].
  eapply yields_bind; [apply (yields_accept _ (λ a o, match a with
    | AccPeer fd addr port => 0 ≤ fd ∧ o = [Accepted fd addr port] | _ => o = [] end)); done|].
  intros [fd addr port| |] o H; [|subst o; apply yields_ret; right; (split; [done|by left])..].
  destruct H as [Hfd ->]. destruct (lhkt_ipv4_in_cidr addr net prefix) eqn:E; cbn [negb].
  - apply yields_ret. left. split; [done|]. by exists addr, port.
  - eapply yields_bind; [apply (yields_emit _ (λ _ o, o = [Closed fd])); done|].
    intros [] ? ->. apply yields_ret. right. split; [done|]. right. by exists fd, addr, port.
Qed.
