(* ===== verification/Bridge.v ===== *)
(** The main loop (bridge.c): one KISS/TCP client, the two daemon sockets and the TX
    queue, driven by [select].

    [bridge_state] holds the local variables of [lhkt_bridge_run]; the parts of a round
    are functions on it, in the order of the code, and [flow] is how a part ends: going
    on, [continue] or [break]. [stats] is not NULL in the program. The printed
    statistics and log lines are not modelled; the clock is read once per decoded KISS
    frame (bridge_tx_queue.c reads it when it stores a packet). *)
From S2P Require Import Prelude Kiss Ax25 Tnc2 LorahamSock Tnc TxQueue Io SockIo LorahamConf BridgeConf BridgeKiss BridgeRx BridgeLoraham TcpServer.

Definition LHKT_RECONNECT_DELAY_SEC : Z := 1.
Definition LHKT_QUEUE_POLL_USEC : Z := 100000.
Definition LHKT_IDLE_POLL_SEC : Z := 5.

Definition should_disconnect_kiss_client (ret : Z) : bool := ret =? LHKT_ERR_CLIENT_SOCKET.

(** [FD_SET] and the largest descriptor: the answer, the set and [max_fd]. *)
Definition bridge_runtime_add_fd_to_set (fd : Z) (set : list Z) (max_fd : Z) : Z * list Z * Z :=
  if fd <? 0 then (LHKT_ERR, set, max_fd)
  else if FD_SETSIZE <=? fd then (LHKT_ERR_LONG, set, max_fd)
  else (LHKT_OK, fd :: set, if max_fd <? fd then fd else max_fd).

Record bridge_state := Bridge {
  br_client : Z;
  br_data : Z;
  br_conf : Z;
  br_config_ok : bool;
  br_next_stats : Z;
  br_cad_busy : Z;
  br_cad_idle : Z;
  br_dec : kiss_decoder_t;
  br_params : kiss_params_t;
  br_frames : loraham_framed_rx_state_t;
  br_confst : bridge_conf_state_t;
  br_queue : bridge_tx_queue_t;
  br_stats : lhkt_stats_t;
}.

(** *** Assignments *)

Definition set_client (fd : Z) (dec : kiss_decoder_t) (params : kiss_params_t) (st : bridge_state) :
    bridge_state :=
  Bridge fd (br_data st) (br_conf st) (br_config_ok st) (br_next_stats st) (br_cad_busy st)
    (br_cad_idle st) dec params (br_frames st) (br_confst st) (br_queue st) (br_stats st).
Definition set_data (fd : Z) (frames : loraham_framed_rx_state_t) (st : bridge_state) : bridge_state :=
  Bridge (br_client st) fd (br_conf st) (br_config_ok st) (br_next_stats st) (br_cad_busy st)
    (br_cad_idle st) (br_dec st) (br_params st) frames (br_confst st) (br_queue st) (br_stats st).
Definition set_conf (fd : Z) (confst : bridge_conf_state_t) (st : bridge_state) : bridge_state :=
  Bridge (br_client st) (br_data st) fd (br_config_ok st) (br_next_stats st) (br_cad_busy st)
    (br_cad_idle st) (br_dec st) (br_params st) (br_frames st) confst (br_queue st) (br_stats st).
Definition set_config_ok (ok : bool) (st : bridge_state) : bridge_state :=
  Bridge (br_client st) (br_data st) (br_conf st) ok (br_next_stats st) (br_cad_busy st)
    (br_cad_idle st) (br_dec st) (br_params st) (br_frames st) (br_confst st) (br_queue st) (br_stats st).
Definition set_stats (stats : lhkt_stats_t) (st : bridge_state) : bridge_state :=
  Bridge (br_client st) (br_data st) (br_conf st) (br_config_ok st) (br_next_stats st) (br_cad_busy st)
    (br_cad_idle st) (br_dec st) (br_params st) (br_frames st) (br_confst st) (br_queue st) stats.
Definition set_queue (queue : bridge_tx_queue_t) (st : bridge_state) : bridge_state :=
  Bridge (br_client st) (br_data st) (br_conf st) (br_config_ok st) (br_next_stats st) (br_cad_busy st)
    (br_cad_idle st) (br_dec st) (br_params st) (br_frames st) (br_confst st) queue (br_stats st).
Definition set_next_stats (next : Z) (st : bridge_state) : bridge_state :=
  Bridge (br_client st) (br_data st) (br_conf st) (br_config_ok st) next (br_cad_busy st)
    (br_cad_idle st) (br_dec st) (br_params st) (br_frames st) (br_confst st) (br_queue st) (br_stats st).

Definition collect_cad (st : bridge_state) : bridge_state :=
  let '(stats, busy, idle) :=
    bridge_conf_collect_cad_stats (br_confst st) (br_stats st, br_cad_busy st, br_cad_idle st) in
  Bridge (br_client st) (br_data st) (br_conf st) (br_config_ok st) (br_next_stats st) busy idle
    (br_dec st) (br_params st) (br_frames st) (br_confst st) (br_queue st) stats.

(** *** Disconnecting *)

Definition close_client (st : bridge_state) : io bridge_state :=
  _ ← lhkt_tcp_server_close (br_client st);
  mret (set_client (-1) kiss_decoder_init kiss_params_init st).

Definition drop_data (st : bridge_state) : io bridge_state :=
  '(fd, stats) ← bridge_loraham_disconnect_data_socket (br_data st) (br_stats st);
  mret (set_config_ok false (set_stats stats (set_data fd loraham_framed_rx_state_init st))).

Definition drop_conf (st : bridge_state) : io bridge_state :=
  '(fd, confst, stats) ← bridge_loraham_disconnect_conf_socket (br_conf st) (br_confst st) (br_stats st);
  mret (set_config_ok false (set_stats stats (set_conf fd confst st))).

(** What a return code of the transmission path asks for. *)
Definition reconnect_policy (ret : Z) (st : bridge_state) : io bridge_state :=
  if bridge_loraham_should_reconnect_data_socket ret then drop_data st
  else if bridge_loraham_should_reconnect_conf_socket ret then drop_conf st
  else mret st.

(** *** Before [select] *)

Definition drain_step (cfg : lhkt_config_t) (st : bridge_state) : io bridge_state :=
  '(ret, d) ← bridge_loraham_tx_queue_drain_with_client cfg (br_client st) (br_data st) (br_conf st)
    (DrainState (br_queue st) (TxEnv (br_stats st) (br_confst st) (Some (br_frames st))));
  let e := dr_env d in
  let st := set_queue (dr_queue d) (set_stats (te_stats e) (set_conf (br_conf st) (te_conf e)
              (set_data (br_data st) (default (br_frames st) (te_frames e)) st))) in
  st ← (if bridge_loraham_should_reconnect_data_socket ret ||
           bridge_loraham_should_reconnect_conf_socket ret then reconnect_policy ret st
        else if should_disconnect_kiss_client ret then close_client st
        else mret st);
  mret (collect_cad st).

(** The descriptors to wait for: [None] when one does not fit the set. *)
Definition add_fd (fd : Z) (set : option (list Z * Z)) : option (list Z * Z) :=
  '(fds, max_fd) ← set;
  let '(ret, fds, max_fd) := bridge_runtime_add_fd_to_set fd fds max_fd in
  if ret =? LHKT_OK then Some (fds, max_fd) else None.

Definition wait_set (listen_fd : Z) (st : bridge_state) : option (list Z * Z) :=
  let set := Some ([], -1) in
  let set := if 0 <=? br_data st then add_fd (br_data st) set else set in
  let set := if 0 <=? br_conf st then add_fd (br_conf st) set else set in
  add_fd (if 0 <=? br_client st then br_client st else listen_fd) set.

(** The timeout, seconds and microseconds, that the state asks for. *)
Definition base_timeout (st : bridge_state) : option (Z * Z) :=
  if (br_data st <? 0) || (br_conf st <? 0) then Some (LHKT_RECONNECT_DELAY_SEC, 0)
  else if negb (bridge_tx_queue_empty (br_queue st)) then Some (0, LHKT_QUEUE_POLL_USEC)
  else if negb (br_config_ok st) then Some (LHKT_RECONNECT_DELAY_SEC, 0)
  else None.

(** The statistics are due at [next] (0: not yet scheduled); the timeout is clamped. *)
Definition stats_timeout (interval now next : Z) (timeout : option (Z * Z)) : Z * option (Z * Z) :=
  let next := if next =? 0 then now + interval else next in
  let next := if next <=? now then now + interval else next in
  let remaining := if next - now <? 0 then 0 else next - now in
  let wait_sec := Z.quot remaining 1000 in
  let wait_usec := Z.rem remaining 1000 * 1000 in
  match timeout with
  | Some (sec, usec) =>
      (next, if (wait_sec <? sec) || ((sec =? wait_sec) && (wait_usec <? usec))
             then Some (wait_sec, wait_usec) else timeout)
  | None => (next, Some (wait_sec, wait_usec))
  end.

Definition choose_timeout (cfg : lhkt_config_t) (st : bridge_state) : io (bridge_state * (Z * Z)) :=
  let timeout := base_timeout st in
  '(st, timeout) ←
    (if 0 <? stats_interval cfg then
       now ← bridge_runtime_now_ms;
       let '(next, timeout) := stats_timeout (stats_interval cfg * 1000) now (br_next_stats st) timeout in
       mret (set_next_stats next st, timeout)
     else mret (st, timeout));
  mret (st, default (LHKT_IDLE_POLL_SEC, 0) timeout).

(** *** After [select] *)

Inductive flow := Go | Continue | Break.

Definition andthen (m : io (flow * bridge_state)) (k : bridge_state → io (flow * bridge_state)) :
    io (flow * bridge_state) :=
  '(f, st) ← m;
  match f with Go => k st | _ => mret (f, st) end.

Definition send_initial_config (cfg : lhkt_config_t) (st : bridge_state) : io (bool * bridge_state) :=
  '(ret, confst) ← bridge_loraham_send_initial_config_with_state cfg (br_conf st) (br_confst st);
  mret (ret =? LHKT_OK, set_conf (br_conf st) confst st).

(** Nothing ready before the timeout: the time to reconnect. *)
Definition idle_step (cfg : lhkt_config_t) (st : bridge_state) : io bridge_state :=
  if br_conf st <? 0 then
    '(fd, confst) ← bridge_loraham_connect_conf_socket cfg (br_confst st);
    mret (set_conf fd confst st)
  else if br_data st <? 0 then
    fd ← bridge_loraham_connect_data_socket cfg;
    if 0 <=? fd then
      let st := set_stats (bump socket_reconnects (br_stats st))
                  (set_data fd loraham_framed_rx_state_init st) in
      '(ok, st) ← send_initial_config cfg st;
      mret (set_config_ok ok st)
    else mret (set_data fd (br_frames st) st)
  else if negb (br_config_ok st) then
    '(ok, st) ← send_initial_config cfg st;
    mret (if (ok : bool) then set_config_ok true st else st)
  else mret st.

Definition accept_step (cfg : lhkt_config_t) (listen_fd : Z) (ready : list Z) (st : bridge_state) :
    io (flow * bridge_state) :=
  if (br_client st <? 0) && bool_decide (listen_fd ∈ ready) then
    fd ← lhkt_tcp_server_accept listen_fd (bind_net cfg) (bind_prefix cfg);
    if fd =? LHKT_ERR_AGAIN then mret (Continue, set_client (-1) (br_dec st) (br_params st) st)
    else if fd <? 0 then
      _ ← bridge_runtime_sleep_ms 100;
      mret (Continue, set_client (-1) (br_dec st) (br_params st) st)
    else
      ret ← bridge_runtime_set_fd_nonblocking fd;
      if negb (ret =? LHKT_OK) then
        _ ← lhkt_tcp_server_close fd;
        mret (Continue, set_client (-1) (br_dec st) (br_params st) st)
      else mret (Go, set_client fd kiss_decoder_init kiss_params_init st)
  else mret (Go, st).

(** The bytes of the client, one by one. *)
Fixpoint client_bytes (cfg : lhkt_config_t) (bs : list Z) (st : bridge_state) : io bridge_state :=
  match bs with
  | [] => mret st
  | b :: bs =>
      let '(dec, ev) := kiss_decode_byte (br_dec st) b in
      let st := set_client (br_client st) dec (br_params st) st in
      match ev with
      | Quiet => client_bytes cfg bs st
      | Fault _ => client_bytes cfg bs (set_stats (bump kiss_drop (br_stats st)) st)
      | Frame frame =>
          now ← bridge_runtime_now_ms;
          let '(ret, params, stats, queue) :=
            bridge_kiss_handle_frame frame (br_params st) cfg (bump kiss_rx (br_stats st))
              (br_queue st) now in
          let st := set_queue queue (set_stats stats (set_client (br_client st) (br_dec st) params st)) in
          st ← reconnect_policy ret st;
          client_bytes cfg bs st
      end
  end.

Definition client_step (cfg : lhkt_config_t) (ready : list Z) (st : bridge_state) :
    io (flow * bridge_state) :=
  if (0 <=? br_client st) && bool_decide (br_client st ∈ ready) then
    n ← sys_read (br_client st) 512;
    match n with
    | RdErr EOTHER => st ← close_client st; mret (Continue, st)
    | RdErr _ => mret (Continue, st)
    | RdData [] =>
        st ← close_client (set_stats (bump client_disconnects (br_stats st)) st);
        mret (Continue, st)
    | RdData buf => st ← client_bytes cfg buf st; mret (Go, st)
    end
  else mret (Go, st).

Definition conf_step (ready : list Z) (st : bridge_state) : io (flow * bridge_state) :=
  if (0 <=? br_conf st) && bool_decide (br_conf st ∈ ready) then
    '(ret, confst) ← bridge_conf_read_available (br_conf st) (br_confst st);
    let st := set_conf (br_conf st) confst st in
    if negb (ret =? LHKT_OK) then st ← drop_conf st; mret (Go, st)
    else mret (Go, collect_cad st)
  else mret (Go, st).

Definition data_step (ready : list Z) (st : bridge_state) : io (flow * bridge_state) :=
  if (0 <=? br_data st) && bool_decide (br_data st ∈ ready) then
    n ← loraham_sock_read (br_data st) 512 EOTHER;
    match n with
    | RdErr EINTR => mret (Continue, st)
    | RdErr _ => st ← drop_data st; mret (Continue, st)
    | RdData [] => st ← drop_data st; mret (Continue, st)
    | RdData buf =>
        '(ret, frames, stats) ← bridge_rx_handle_framed_chunk (br_client st) (br_frames st) buf (br_stats st);
        let st := set_stats stats (set_data (br_data st) frames st) in
        if should_disconnect_kiss_client ret then st ← close_client st; mret (Go, st)
        else if ret <? 0 then st ← drop_data st; mret (Continue, st)
        else mret (Go, st)
    end
  else mret (Go, st).

(** *** The loop *)

(** What is done with the descriptors that are ready. *)
Definition ready_step (cfg : lhkt_config_t) (listen_fd : Z) (ready : list Z) (st : bridge_state) :
    io (flow * bridge_state) :=
  andthen (accept_step cfg listen_fd ready st) (λ st,
  andthen (client_step cfg ready st) (λ st,
  andthen (conf_step ready st) (data_step ready))).

Definition bridge_round (cfg : lhkt_config_t) (listen_fd : Z) (st : bridge_state) :
    io (flow * bridge_state) :=
  st ← drain_step cfg st;
  match wait_set listen_fd st with
  | None => mret (Break, st)
  | Some (fds, _) =>
      '(st, (sec, usec)) ← choose_timeout cfg st;
      r ← sys_poll fds (sec * 1000000 + usec);
      match r with
      | PollErr EINTR => mret (Continue, st)
      | PollErr _ => mret (Break, st)
      | PollTimeout => st ← idle_step cfg st; mret (Continue, st)
      | PollReady ready => ready_step cfg listen_fd ready st
      end
  end.

Definition bridge_loop (cfg : lhkt_config_t) (listen_fd : Z) (st : bridge_state) : io bridge_state :=
  loop (λ st : bridge_state,
    stop ← bridge_runtime_should_stop;
    if (stop : bool) then mret (inr st)
    else
      '(f, st) ← bridge_round cfg listen_fd st;
      mret (match f with Break => inr st | _ => inl st end)) st.

(** What precedes the listener: the initial values and the first attempt to reach the
    daemon. *)
Definition bridge_start (cfg : lhkt_config_t) (stats : lhkt_stats_t) : io bridge_state :=
  let st := Bridge (-1) (-1) (-1) false 0 0 0 kiss_decoder_init kiss_params_init
              loraham_framed_rx_state_init bridge_conf_state_init bridge_tx_queue_init stats in
  '(conf_fd, confst) ← bridge_loraham_connect_conf_socket cfg (br_confst st);
  '(ok, st) ← send_initial_config cfg (set_conf conf_fd confst st);
  let st := set_config_ok ok st in
  data_fd ← bridge_loraham_connect_data_socket cfg;
  mret (set_data data_fd (br_frames st) st).

Section run.
Context (inet_pton : list Z → option Z).

Definition lhkt_bridge_run (cfg : lhkt_config_t) (stats : lhkt_stats_t) : io (Z * lhkt_stats_t) :=
  st ← bridge_start cfg stats;
  listen_fd ← lhkt_tcp_server_listen inet_pton (kiss_host cfg) (kiss_port cfg);
  if listen_fd <? 0 then
    _ ← lhkt_tcp_server_close (br_data st);
    _ ← lhkt_tcp_server_close (br_conf st);
    mret (1, br_stats st)
  else
    st ← bridge_loop cfg listen_fd st;
    let st := collect_cad st in
    _ ← bridge_runtime_should_stop;
    _ ← lhkt_tcp_server_close (br_client st);
    _ ← lhkt_tcp_server_close listen_fd;
    _ ← lhkt_tcp_server_close (br_data st);
    _ ← lhkt_tcp_server_close (br_conf st);
    mret (0, br_stats st).
End run.

(** ** Calls that leave the descriptors alone *)

Lemma fdless_wait_writable fd : fdless (loraham_wait_writable fd).
Proof. unfold loraham_wait_writable. solve_fdless. Qed.
Lemma fdless_rx_wait_writable fd : fdless (bridge_rx_wait_fd_writable fd).
Proof. unfold bridge_rx_wait_fd_writable. solve_fdless. Qed.
Lemma fdless_sleep ms : fdless (bridge_runtime_sleep_ms ms).
Proof. unfold bridge_runtime_sleep_ms. solve_fdless. Qed.
#[export] Hint Resolve fdless_wait_writable fdless_rx_wait_writable fdless_sleep : fdless.

Lemma fdless_sock_write fd buf : fdless (loraham_sock_write fd buf).
Proof. unfold loraham_sock_write, write_round. solve_fdless. Qed.
Lemma fdless_write_all fd buf : fdless (bridge_rx_write_all_fd fd buf).
Proof. unfold bridge_rx_write_all_fd, write_round. solve_fdless. Qed.
Lemma fdless_sock_read fd max e : fdless (loraham_sock_read fd max e).
Proof. unfold loraham_sock_read. solve_fdless. Qed.
Lemma fdless_set_nonblocking fd : fdless (bridge_runtime_set_fd_nonblocking fd).
Proof. unfold bridge_runtime_set_fd_nonblocking. solve_fdless. Qed.
#[export] Hint Resolve fdless_sock_write fdless_write_all fdless_sock_read fdless_set_nonblocking : fdless.

Lemma fdless_send_framed fd p : fdless (loraham_send_framed_tx_packet fd p).
Proof. unfold loraham_send_framed_tx_packet. solve_fdless. Qed.
Lemma fdless_config_line fd cfg f : fdless (loraham_send_config_line fd cfg f).
Proof. unfold loraham_send_config_line. solve_fdless. Qed.
#[export] Hint Resolve fdless_send_framed fdless_config_line : fdless.
Lemma fdless_config_freq fd cfg f : fdless (loraham_send_config_freq fd cfg f).
Proof. unfold loraham_send_config_freq. solve_fdless. Qed.
#[export] Hint Resolve fdless_config_freq : fdless.
Lemma fdless_initial_config cfg fd st :
  fdless (bridge_loraham_send_initial_config_with_state cfg fd st).
Proof.
  unfold bridge_loraham_send_initial_config_with_state, loraham_send_config,
    loraham_send_txresult_enable, bridge_loraham_send_status_request. solve_fdless.
Qed.
Lemma fdless_conf_read fd st : fdless (bridge_conf_read_available fd st).
Proof. unfold bridge_conf_read_available. solve_fdless. Qed.
#[export] Hint Resolve fdless_initial_config fdless_conf_read : fdless.
Lemma fdless_conf_wait fd st ms : fdless (bridge_conf_wait_read fd st ms).
Proof. unfold bridge_conf_wait_read. solve_fdless. Qed.
#[export] Hint Resolve fdless_conf_wait : fdless.

Lemma fdless_framed_frame fd frame stats : fdless (bridge_rx_handle_framed_frame fd frame stats).
Proof.
  eapply yields_mono; [apply framed_frame_yields|]. intros r o [F _].
  apply (Forall_impl _ _ _ F). by intros [].
Qed.
#[export] Hint Resolve fdless_framed_frame : fdless.
Lemma fdless_framed_chunk fd buf : ∀ fs stats, fdless (bridge_rx_handle_framed_chunk fd fs buf stats).
Proof. induction buf as [|b buf IH]; intros fs stats; cbn; solve_fdless. Qed.
Lemma fdless_txr_frame frame s : fdless (txr_frame frame s).
Proof. unfold txr_frame. solve_fdless. Qed.
#[export] Hint Resolve fdless_framed_chunk fdless_txr_frame : fdless.
Lemma fdless_txr_rest buf : ∀ s, fdless (txr_rest buf s).
Proof. induction buf as [|b buf IH]; intros s; cbn; solve_fdless. Qed.
#[export] Hint Resolve fdless_txr_rest : fdless.
Lemma fdless_txr_bytes buf : ∀ s, fdless (txr_bytes buf s).
Proof. induction buf as [|b buf IH]; intros s; cbn; solve_fdless. Qed.
#[export] Hint Resolve fdless_txr_bytes : fdless.
Lemma fdless_wait_result data client fs cfg stats :
  fdless (bridge_loraham_wait_tx_result data client fs cfg stats).
Proof. unfold bridge_loraham_wait_tx_result, wait_tx_result_round. solve_fdless. Qed.
Lemma fdless_wait_complete fd st cfg : fdless (bridge_loraham_wait_tx_complete fd st cfg).
Proof. unfold bridge_loraham_wait_tx_complete, wait_tx_start, wait_tx_idle. solve_fdless. Qed.
Lemma fdless_bridge_freq cfg fd f : fdless (bridge_loraham_send_config_freq cfg fd f).
Proof. unfold bridge_loraham_send_config_freq. solve_fdless. Qed.
#[export] Hint Resolve fdless_wait_result fdless_wait_complete fdless_bridge_freq : fdless.
Lemma fdless_restore cfg conf e : fdless (env_restore cfg conf e).
Proof. unfold env_restore, bridge_loraham_restore_rx_freq. solve_fdless. Qed.
#[export] Hint Resolve fdless_restore : fdless.
Lemma fdless_send_packet cfg client data conf packet e :
  fdless (bridge_loraham_send_packet_with_client cfg client data conf packet e).
Proof.
  unfold bridge_loraham_send_packet_with_client, bridge_loraham_write, send_with_txresult, send_with_events.
  solve_fdless.
Qed.
#[export] Hint Resolve fdless_send_packet : fdless.
Lemma fdless_drain cfg client data conf d :
  fdless (bridge_loraham_tx_queue_drain_with_client cfg client data conf d).
Proof. unfold bridge_loraham_tx_queue_drain_with_client, drain_round. solve_fdless. Qed.
#[export] Hint Resolve fdless_drain : fdless.

(** ** The descriptors the state holds *)

Definition holds1 (fd x : Z) : Z := if (0 <=? fd) && (fd =? x) then 1 else 0.
#[global] Arguments holds1 : simpl never.
Definition holds (st : bridge_state) (x : Z) : Z :=
  holds1 (br_client st) x + holds1 (br_data st) x + holds1 (br_conf st) x.

(** [tracks get h m]: what [m] obtains and closes turns the holdings [h] into those of
    its answer, [get]. *)
Definition tracks {A} (get : A → Z → Z) (h : Z → Z) (m : io A) : Prop :=
  yields m (λ a o, ∀ x, balance x o = get a x - h x).

Lemma tracks_ret {A} (get : A → Z → Z) h a : (∀ x, get a x = h x) → tracks get h (mret a).
Proof. intros H. apply yields_ret. intros x. rewrite H. cbn. lia. Qed.

Lemma tracks_bind {A B} (get1 : A → Z → Z) (get : B → Z → Z) h (m : io A) (k : A → io B) :
  tracks get1 h m → (∀ a, tracks get (get1 a) (k a)) → tracks get h (m ≫= k).
Proof.
  intros Hm Hk. eapply yields_bind; [exact Hm|]. intros a o E. eapply yields_mono; [apply Hk|].
  intros b o' E' x. rewrite balance_app, E, E'. lia.
Qed.

Lemma tracks_fdless {A B} (get : B → Z → Z) h (m : io A) (k : A → io B) :
  fdless m → (∀ a, tracks get h (k a)) → tracks get h (m ≫= k).
Proof.
  intros Hm Hk. apply (tracks_bind (λ _, h)); [|done].
  eapply yields_mono; [exact Hm|]. intros a o F x. rewrite balance_no_fd by done. lia.
Qed.

Lemma tracks_mono {A} (get : A → Z → Z) h h' (m : io A) :
  (∀ x, h' x = h x) → tracks get h m → tracks get h' m.
Proof. intros E Hm. eapply yields_mono; [exact Hm|]. intros a o H x. by rewrite H, E. Qed.

(** Closing one of the descriptors. *)
Lemma tracks_close {B} (get : B → Z → Z) h fd (k : unit → io B) :
  tracks get (λ x, h x - holds1 fd x) (k ()) → tracks get h (lhkt_tcp_server_close fd ≫= k).
Proof.
  intros Hk. apply (tracks_bind (λ _ x, h x - holds1 fd x)); [|by intros []].
  unfold lhkt_tcp_server_close, holds1. destruct (0 <=? fd).
  - apply yields_emit. intros x. rewrite close_balance. cbn [andb]. destruct (fd =? x); lia.
  - apply yields_ret. intros x. cbn. lia.
Qed.

(** Obtaining one. *)
Lemma tracks_acquire {B} (get : B → Z → Z) h (m : io Z) (k : Z → io B) :
  acquires m → (∀ fd, tracks get (λ x, h x + holds1 fd x) (k fd)) → tracks get h (m ≫= k).
Proof.
  intros Hm Hk. apply (tracks_bind (λ fd x, h x + holds1 fd x)); [|done].
  eapply yields_mono; [exact Hm|]. intros fd o E x. rewrite E. unfold holds1. lia.
Qed.

Lemma holds1_neg fd x : fd < 0 → holds1 fd x = 0.
Proof. intros H. unfold holds1. by rewrite (proj2 (Z.leb_gt 0 fd)). Qed.

Lemma sock_connect_acquires path : acquires (loraham_sock_connect path).
Proof.
  unfold loraham_sock_connect. destruct (_ =? _); [by apply acquires_fail|].
  apply acquires_socket; [done|]. intros fd _. solve_owns.
Qed.

Lemma connect_acquires path : acquires (connect_nonblocking path).
Proof.
  unfold connect_nonblocking. assert (tracks holds1 (λ _, 0) (connect_nonblocking path)) as H.
  { apply tracks_acquire; [apply sock_connect_acquires|]. intros fd.
    destruct (Z.ltb_spec fd 0) as [Hfd|Hfd].
    { apply tracks_ret. intros x. by rewrite !holds1_neg. }
    apply tracks_fdless; [auto with fdless|]. intros ret. destruct (negb _); [|by apply tracks_ret].
    apply tracks_close, tracks_ret. intros x. rewrite (holds1_neg LHKT_ERR) by done. lia. }
  eapply yields_mono; [exact H|]. intros fd o E x. rewrite E. unfold holds1. lia.
Qed.

(** ** The parts of a round *)

Definition keeps (st : bridge_state) (m : io bridge_state) : Prop := tracks holds (holds st) m.
Definition keeps_flow (st : bridge_state) (m : io (flow * bridge_state)) : Prop :=
  tracks (λ r, holds r.2) (holds st) m.

Lemma close_client_keeps st : keeps st (close_client st).
Proof.
  apply tracks_close, tracks_ret. intros x. unfold holds. cbn. rewrite (holds1_neg (-1)) by done. lia.
Qed.

Lemma drop_data_keeps st : keeps st (drop_data st).
Proof.
  unfold drop_data, bridge_loraham_disconnect_data_socket. destruct (br_data st <? 0).
  { by apply tracks_ret. }
  apply (tracks_bind (λ r x, holds st x - holds1 (br_data st) x + holds1 r.1 x)).
  - apply tracks_close, tracks_ret. intros x. cbn. rewrite (holds1_neg (-1)) by done. lia.
  - intros [fd stats]. apply tracks_ret. intros x. unfold holds. cbn. lia.
Qed.

Lemma drop_conf_keeps st : keeps st (drop_conf st).
Proof.
  unfold drop_conf, bridge_loraham_disconnect_conf_socket. destruct (br_conf st <? 0).
  { by apply tracks_ret. }
  apply (tracks_bind (λ r x, holds st x - holds1 (br_conf st) x + holds1 r.1.1 x)).
  - apply tracks_close, tracks_ret. intros x. cbn. rewrite (holds1_neg (-1)) by done. lia.
  - intros [[fd confst] stats]. apply tracks_ret. intros x. unfold holds. cbn. lia.
Qed.

Lemma reconnect_policy_keeps ret st : keeps st (reconnect_policy ret st).
Proof.
  unfold reconnect_policy. repeat case_match; [apply drop_data_keeps|apply drop_conf_keeps|by apply tracks_ret].
Qed.

Lemma holds_collect_cad st x : holds (collect_cad st) x = holds st x.
Proof. unfold collect_cad. by destruct (bridge_conf_collect_cad_stats _ _) as [[stats busy] idle]. Qed.

Lemma drain_step_keeps cfg st : keeps st (drain_step cfg st).
Proof.
  apply tracks_fdless; [auto with fdless|]. intros [ret d].
  apply (tracks_bind holds); [|intros st'; apply tracks_ret; intros x; apply holds_collect_cad].
  match goal with |- context [reconnect_policy ret ?s] => change (holds st) with (holds s) end.
  repeat case_match; [apply reconnect_policy_keeps|apply close_client_keeps|by apply tracks_ret].
Qed.

Lemma choose_timeout_keeps cfg st : tracks (λ r, holds r.1) (holds st) (choose_timeout cfg st).
Proof.
  unfold choose_timeout. apply (tracks_bind (λ r, holds r.1)); [|intros [st' t]; by apply tracks_ret].
  destruct (_ <? _); [|by apply tracks_ret]. apply tracks_fdless; [auto with fdless|]. intros now.
  destruct (stats_timeout _ _ _ _) as [next t]. by apply tracks_ret.
Qed.

Lemma send_initial_config_keeps cfg st : tracks (λ r, holds r.2) (holds st) (send_initial_config cfg st).
Proof. apply tracks_fdless; [auto with fdless|]. intros [ret confst]. by apply tracks_ret. Qed.

Lemma idle_step_keeps cfg st : keeps st (idle_step cfg st).
Proof.
  unfold idle_step. destruct (Z.ltb_spec (br_conf st) 0) as [Hc|Hc].
  { apply (tracks_bind (λ r x, holds st x + holds1 r.1 x)).
    - apply tracks_acquire; [apply connect_acquires|]. intros fd. by apply tracks_ret.
    - intros [fd confst]. apply tracks_ret. intros x. unfold holds. cbn.
      rewrite (holds1_neg (br_conf st)) by done. lia. }
  destruct (Z.ltb_spec (br_data st) 0) as [Hd|Hd].
  { apply tracks_acquire; [apply connect_acquires|]. intros fd.
    assert (∀ fr x, holds st x + holds1 fd x = holds (set_data fd fr st) x) as E.
    { intros fr x. unfold holds. cbn. rewrite (holds1_neg (br_data st)) by done. lia. }
    eapply tracks_mono; [intros x; apply (E (br_frames st))|].
    destruct (0 <=? fd); [|by apply tracks_ret].
    match goal with |- context [send_initial_config cfg ?s] =>
      change (holds (set_data fd (br_frames st) st)) with (holds s) end.
    eapply tracks_bind; [apply send_initial_config_keeps|]. intros [ok st']. by apply tracks_ret. }
  destruct (negb _); [|by apply tracks_ret].
  eapply tracks_bind; [apply send_initial_config_keeps|]. intros [[] st']; by apply tracks_ret.
Qed.

Lemma accept_acquires listen_fd net prefix : acquires (lhkt_tcp_server_accept listen_fd net prefix).
Proof.
  unfold lhkt_tcp_server_accept. destruct (listen_fd <? 0); [by apply acquires_fail|].
  eapply yields_bind; [apply (yields_accept _ (λ a o, match a with
    | AccPeer fd addr port => 0 ≤ fd ∧ o = [Accepted fd addr port] | _ => o = [] end)); done|].
  intros [fd addr port| |] o H; [|subst o; by apply yields_ret..]. destruct H as [Hfd ->].
  apply (acquires_owned fd); [done|by right; eauto|]. solve_owns.
Qed.

Lemma accept_step_keeps cfg listen_fd ready st : keeps_flow st (accept_step cfg listen_fd ready st).
Proof.
  unfold accept_step. destruct (Z.ltb_spec (br_client st) 0) as [Hc|Hc]; cbn [andb].
  2: { by apply tracks_ret. }
  destruct (bool_decide _); [|by apply tracks_ret].
  apply tracks_acquire; [apply accept_acquires|]. intros fd.
  assert (∀ dec params fd' x, holds (set_client fd' dec params st) x = holds st x + holds1 fd' x) as E.
  { intros dec params fd' x. unfold holds. cbn. rewrite (holds1_neg (br_client st)) by done. lia. }
  destruct (Z.eqb_spec fd LHKT_ERR_AGAIN) as [->|Hne].
  { apply tracks_ret. intros x. cbn [snd]. by rewrite E. }
  destruct (Z.ltb_spec fd 0) as [Hf|Hf].
  { apply tracks_fdless; [auto with fdless|]. intros _. apply tracks_ret. intros x. cbn [snd].
    by rewrite E, !holds1_neg. }
  apply tracks_fdless; [auto with fdless|]. intros ret. destruct (negb _).
  - apply tracks_close, tracks_ret. intros x. cbn [snd]. rewrite E, (holds1_neg (-1)) by done. lia.
  - apply tracks_ret. intros x. cbn [snd]. by rewrite E.
Qed.

Lemma client_bytes_keeps cfg bs : ∀ st, keeps st (client_bytes cfg bs st).
Proof.
  induction bs as [|b bs IH]; intros st; cbn [client_bytes]; [by apply tracks_ret|].
  destruct (kiss_decode_byte (br_dec st) b) as [dec [|frame|e]].
  - apply (IH (set_client (br_client st) dec (br_params st) st)).
  - apply tracks_fdless; [auto with fdless|]. intros now.
    destruct (bridge_kiss_handle_frame _ _ _ _ _ _) as [[[ret params] stats] queue].
    match goal with |- context [reconnect_policy ret ?s] => change (holds st) with (holds s) end.
    eapply tracks_bind; [apply reconnect_policy_keeps|]. intros st'. apply IH.
  - match goal with |- context [client_bytes cfg bs ?s] => apply (IH s) end.
Qed.

Lemma client_step_keeps cfg ready st : keeps_flow st (client_step cfg ready st).
Proof.
  unfold client_step. destruct (_ && _); [|by apply tracks_ret].
  apply tracks_fdless; [auto with fdless|]. intros [[|b bs]|[]]; try by apply tracks_ret.
  - match goal with |- context [close_client ?s] => change (holds st) with (holds s) end.
    eapply tracks_bind; [apply close_client_keeps|]. intros st'. by apply tracks_ret.
  - eapply tracks_bind; [apply client_bytes_keeps|]. intros st'. by apply tracks_ret.
  - eapply tracks_bind; [apply close_client_keeps|]. intros st'. by apply tracks_ret.
Qed.

Lemma conf_step_keeps ready st : keeps_flow st (conf_step ready st).
Proof.
  unfold conf_step. destruct (_ && _); [|by apply tracks_ret].
  apply tracks_fdless; [auto with fdless|]. intros [ret confst].
  match goal with |- context [drop_conf ?s] => change (holds st) with (holds s); set (st1 := s) end.
  destruct (negb _).
  - eapply tracks_bind; [apply drop_conf_keeps|]. intros st'. by apply tracks_ret.
  - apply tracks_ret. intros x. apply holds_collect_cad.
Qed.

Lemma data_step_keeps ready st : keeps_flow st (data_step ready st).
Proof.
  assert (∀ f st, keeps_flow st (st ← drop_data st; mret (f, st))) as Hdrop.
  { intros f st1. eapply tracks_bind; [apply drop_data_keeps|]. intros st'. by apply tracks_ret. }
  unfold data_step. destruct (_ && _); [|by apply tracks_ret].
  apply tracks_fdless; [auto with fdless|]. intros [[|b bs]|[]]; try by apply Hdrop.
  2: { by apply tracks_ret. }
  apply tracks_fdless; [auto with fdless|]. intros [[ret frames] stats].
  match goal with |- context [drop_data ?s] => change (holds st) with (holds s); set (st1 := s) end.
  destruct (should_disconnect_kiss_client ret).
  - eapply tracks_bind; [apply close_client_keeps|]. intros st'. by apply tracks_ret.
  - destruct (ret <? 0); [apply Hdrop|by apply tracks_ret].
Qed.

Lemma andthen_keeps st m k :
  keeps_flow st m → (∀ st', keeps_flow st' (k st')) → keeps_flow st (andthen m k).
Proof.
  intros Hm Hk. eapply tracks_bind; [exact Hm|]. intros [[] st']; [apply Hk|by apply tracks_ret..].
Qed.

Lemma bridge_round_keeps cfg listen_fd st : keeps_flow st (bridge_round cfg listen_fd st).
Proof.
  eapply tracks_bind; [apply drain_step_keeps|]. intros st1.
  destruct (wait_set listen_fd st1) as [[fds max_fd]|]; [|by apply tracks_ret].
  eapply tracks_bind; [apply choose_timeout_keeps|]. intros [st2 [sec usec]].
  apply tracks_fdless; [auto with fdless|]. intros [ready| |[]]; try by apply tracks_ret.
  - apply andthen_keeps; [apply accept_step_keeps|]. intros st3.
    apply andthen_keeps; [apply client_step_keeps|]. intros st4.
    apply andthen_keeps; [apply conf_step_keeps|apply data_step_keeps].
  - eapply tracks_bind; [apply idle_step_keeps|]. intros st3. by apply tracks_ret.
Qed.

(** A call that leaves the descriptors alone, with what is known of its answer. *)
Lemma tracks_known {A B} (P : A → Prop) (get : B → Z → Z) h (m : io A) (k : A → io B) :
  yields m (λ a o, Forall no_fd o ∧ P a) → (∀ a, P a → tracks get h (k a)) → tracks get h (m ≫= k).
Proof.
  intros Hm Hk. eapply yields_bind; [exact Hm|]. intros a o [F HP]. eapply yields_mono; [by apply Hk|].
  intros b o' E x. rewrite balance_app, balance_no_fd by done. by rewrite E.
Qed.

Lemma send_initial_config_same cfg st :
  yields (send_initial_config cfg st)
    (λ r o, Forall no_fd o ∧ ∃ confst, r.2 = set_conf (br_conf st) confst st).
Proof.
  eapply yields_bind; [apply fdless_initial_config|]. intros [ret confst] o F. apply yields_ret.
  rewrite app_nil_r. split; [done|]. by exists confst.
Qed.

Definition holds_either (r : bridge_state + bridge_state) : Z → Z :=
  match r with inl st | inr st => holds st end.

Lemma bridge_loop_keeps cfg listen_fd st : keeps st (bridge_loop cfg listen_fd st).
Proof.
  apply (yields_loop _ (λ st' o, ∀ x, balance x o = holds st' x - holds st x)); [intros x; cbn; lia|].
  intros st1 o H. apply (yields_mono _ (λ r o', ∀ x, balance x o' = holds_either r x - holds st1 x)).
  - apply (tracks_fdless holds_either); [auto with fdless|]. intros []; [by apply tracks_ret|].
    eapply tracks_bind; [apply bridge_round_keeps|]. intros [[] st']; by apply tracks_ret.
  - intros [st'|st'] o' H' x; rewrite balance_app, H, H'; cbn; lia.
Qed.

Lemma bridge_start_balance cfg stats : tracks holds (λ _, 0) (bridge_start cfg stats).
Proof.
  unfold bridge_start. cbv zeta. cbn [br_confst].
  apply (tracks_bind (λ r x, 0 + holds1 r.1 x)).
  { apply tracks_acquire; [apply connect_acquires|]. intros fd. by apply tracks_ret. }
  intros [conf_fd confst]. cbn [fst].
  eapply tracks_known; [apply send_initial_config_same|].
  intros [ok st] [confst' E]. cbn [snd] in E.
  apply tracks_acquire; [apply connect_acquires|]. intros data_fd. apply tracks_ret. subst st.
  intros x. unfold holds. cbn. rewrite (holds1_neg (-1)) by done. lia.
Qed.

(** The state before the first round, up to what the first attempt to connect leaves. *)
Lemma bridge_start_state cfg stats :
  yields (bridge_start cfg stats) (λ st _, ∃ data conf ok confst,
    st = Bridge (-1) data conf ok 0 0 0 kiss_decoder_init kiss_params_init
           loraham_framed_rx_state_init confst bridge_tx_queue_init stats).
Proof.
  assert (∀ path, yields (connect_nonblocking path) (λ _ _, True)) as Hc.
  { intros path. eapply yields_mono; [apply connect_acquires|done]. }
  unfold bridge_start. cbv zeta. cbn [br_confst]. eapply (yields_bind _ _ (λ _ _, True)).
  { eapply yields_bind; [apply Hc|]. intros fd o _. by apply yields_ret. }
  intros [conf confst] o1 _. eapply yields_bind; [apply send_initial_config_same|].
  intros [ok st] o2 [_ [confst' E]]. cbn [snd] in E. subst st.
  eapply yields_bind; [apply Hc|]. intros data o3 _. apply yields_ret.
  by exists data, conf, ok, confst'.
Qed.

Lemma bridge_run_balance inet_pton cfg stats :
  yields (lhkt_bridge_run inet_pton cfg stats) (λ _ o, ∀ fd, balance fd o = 0).
Proof.
  apply (yields_mono _ (λ _ o, ∀ x, balance x o = 0 - 0)); [|done].
  eapply yields_bind; [apply yields_and; [apply bridge_start_balance|apply bridge_start_state]|].
  intros st o [E0 (data & conf & ok & confst & Est)].
  apply (yields_mono _ (λ _ o', ∀ x, balance x o' = 0 - holds st x)).
  2: { intros _ o' E x. rewrite balance_app, E0, E. lia. }
  apply (tracks_acquire (λ _ _, 0)); [apply listen_acquires|]. intros listen_fd.
  destruct (Z.ltb_spec listen_fd 0) as [Hl|Hl].
  { apply tracks_close, tracks_close, tracks_ret. intros x. subst st. unfold holds. cbn.
    rewrite (holds1_neg (-1)), (holds1_neg listen_fd) by done. lia. }
  apply (tracks_bind (λ st x, holds st x + holds1 listen_fd x) (λ _ _, 0)).
  { eapply yields_mono; [apply bridge_loop_keeps|]. intros st' o' E x. rewrite E. lia. }
  intros st'. apply tracks_fdless; [auto with fdless|]. intros _.
  do 4 apply tracks_close. apply tracks_ret. intros x. rewrite <-holds_collect_cad. unfold holds. lia.
Qed.

(** C13. No descriptor leaks: whatever happens on the way (refused or failing
    connections, reconnects, clients coming and going, failing writes), when
    [lhkt_bridge_run] returns, every descriptor it obtained has been closed exactly as
    often as it was obtained. *)
Theorem bridge_run_closes_all inet_pton cfg stats :
  yields (lhkt_bridge_run inet_pton cfg stats) (λ _ o, ∀ fd, balance fd o = 0).
Proof. apply bridge_run_balance. Qed.

Lemma sys_read_eq fd max bs rs w :
  w_read w = RdData bs :: rs → sys_read fd max w = Some (RdData (take max bs), set_read rs w).
Proof. intros E. unfold sys_read, mbind, io_bind. by rewrite (ask_eq _ _ _ _ _ E). Qed.

(** C16. A received packet the receive path refuses, because it carries no LoRa-APRS
    text (no byte 3C) or a line that is not one of AX.25 stations (a call sign of seven
    characters, say), with a client connected and the framed stream in sync: although
    the frame is well formed and the line is only to be dropped, the main loop takes
    the answer for a decoding error of the stream. It closes the data socket, forgets
    the decoder state and the configuration, counts a reconnect, and loses whatever
    else the read brought. *)
Theorem refused_packet_disconnects st ready meta p e count more rs w
    (Hclient : fd_bad (br_client st) = false) (Hdata : 0 ≤ br_data st) (Hready : br_data st ∈ ready)
    (Hsync : br_frames st = loraham_framed_rx_state_init) (Hmeta : length meta = 4%nat)
    (Hp : refused_packet p e count)
    (Hread : w_read w = RdData (framed_bytes (LoraFrame LORAHAM_FRAME_RX_PACKET (meta ++ p)) ++ more) :: rs)
    (Hlen : len (framed_bytes (LoraFrame LORAHAM_FRAME_RX_PACKET (meta ++ p)) ++ more) ≤ 512) :
  ∃ st' w', data_step ready st w = Some ((Continue, st'), w') ∧
    br_data st' = -1 ∧ br_config_ok st' = false ∧ br_client st' = br_client st ∧
    br_stats st' = bump socket_reconnects (count (br_stats st)) ∧
    w_out w' = w_out w ++ rflog_of (LoraFrame LORAHAM_FRAME_RX_PACKET (meta ++ p)) ++ [Closed (br_data st)].
Proof.
  set (frame := LoraFrame _ _) in *. unfold data_step, loraham_sock_read.
  rewrite (proj2 (Z.leb_le 0 _)), bool_decide_eq_true_2, (proj2 (Z.ltb_ge _ 0)) by done. cbn [andb].
  unfold mbind, io_bind. rewrite (sys_read_eq _ _ _ _ _ Hread), take_ge by lia.
  assert (framed_bytes frame ++ more ≠ []) as Hne by done.
  assert (len p ≤ LHKT_FRAMED_MAX_PAYLOAD - 4) as Hlp.
  { rewrite length_app in Hlen. revert Hlen. unfold frame, framed_bytes, LHKT_FRAMED_MAX_PAYLOAD.
    cbn [lf_type lf_payload app length]. rewrite length_app. lia. }
  destruct (rx_refused_chunk (br_client st) meta p e count more (br_stats st) (set_read rs w)
    Hclient Hmeta Hp Hlp) as (fs & w1 & Er & Eo).
  assert (should_disconnect_kiss_client e = false ∧ (e <? 0) = true) as [Hk Hneg]
    by (destruct Hp as [|? ? _ _ [-> | ->]]; done).
  fold frame in Er, Eo. destruct (framed_bytes frame ++ more) as [|b bs]; [done|].
  rewrite Hsync, Er, Hk, Hneg.
  unfold drop_data, bridge_loraham_disconnect_data_socket, lhkt_tcp_server_close, mbind, io_bind.
  cbn [br_data set_stats set_data]. rewrite (proj2 (Z.ltb_ge _ 0)), (proj2 (Z.leb_le 0 _)) by done.
  cbn [sys_close emit mret io_ret]. do 2 eexists. split; [done|]. do 4 (split; [done|]).
  cbn [w_out set_out]. rewrite Eo. cbn [w_out set_read]. by rewrite <-app_assoc.
Qed.

Definition bridge_example : bridge_state :=
  Bridge 7 5 6 true 0 0 0 kiss_decoder_init kiss_params_init loraham_framed_rx_state_init
    bridge_conf_state_init bridge_tx_queue_init lhkt_stats_init.

(** A portable station, with a second packet behind it. *)
Definition refused_example : list Z :=
  framed_bytes (LoraFrame 1 ([0; 0; 0; 0] ++ loraham_hdr ++ str "DJ0CHE/P>APRS:!hi")) ++
  framed_bytes (LoraFrame 1 [0; 0; 0; 0; 60]).

Lemma refused_packet_disconnects_witness :
  ∃ st' w', data_step [7; 5] bridge_example (set_read [RdData refused_example] rx_example_world) =
              Some ((Continue, st'), w') ∧ br_data st' = -1.
Proof.
  destruct (refused_packet_disconnects bridge_example [7; 5] [0; 0; 0; 0]
    (loraham_hdr ++ str "DJ0CHE/P>APRS:!hi") LHKT_ERR_FORMAT (λ stats, bump tnc2_drop (bump loraham_rx stats))
    (framed_bytes (LoraFrame 1 [0; 0; 0; 0; 60])) []
    (set_read [RdData refused_example] rx_example_world)) as (st' & w' & E & Hd & _).
  - done.
  - by vm_compute.
  - by apply (bool_decide_unpack _).
  - done.
  - done.
  - apply refused_line; [split|by vm_compute|by left].
    + done.
    + by vm_compute.
    + by apply (bool_decide_unpack _).
    + by apply (bool_decide_unpack _).
    + intros a b E. do 17 (destruct a as [|? a]; [discriminate|injection E as _ E]). by destruct a.
  - done.
  - by vm_compute.
  - exists st', w'. split; [exact E|exact Hd].
Defined.

(** ** How long a round waits *)

Definition micros (t : Z * Z) : Z := t.1 * 1000000 + t.2.
Definition timeval_ok (t : Z * Z) : Prop := 0 ≤ t.1 ∧ 0 ≤ t.2 < 1000000.

(** What the state alone asks for, in microseconds: 1 s while a connection is to be
    opened, 100 ms while packets wait, 1 s while the daemon is to be configured, and
    else nothing. *)
Lemma base_timeout_spec st :
  (∀ t, base_timeout st = Some t → timeval_ok t) ∧
  (br_data st < 0 ∨ br_conf st < 0 → micros <$> base_timeout st = Some 1000000) ∧
  (0 ≤ br_data st → 0 ≤ br_conf st →
     (bridge_tx_queue_empty (br_queue st) = false → micros <$> base_timeout st = Some 100000) ∧
     (bridge_tx_queue_empty (br_queue st) = true →
        micros <$> base_timeout st = if br_config_ok st then None else Some 1000000)).
Proof.
  unfold base_timeout, micros, timeval_ok, LHKT_RECONNECT_DELAY_SEC, LHKT_QUEUE_POLL_USEC.
  split; [repeat case_match; intros t [= <-]; cbn; lia|]. split.
  - intros H. assert ((br_data st <? 0) || (br_conf st <? 0) = true) as ->; [|done].
    apply orb_true_iff. rewrite !Z.ltb_lt. tauto.
  - intros Hd Hc. rewrite !(proj2 (Z.ltb_ge _ _)) by done. cbn [orb].
    split; intros ->; [done|]. by destruct (br_config_ok st).
Qed.

(** When the next report is due: one interval from now when none is scheduled or one is
    due now, in which case it is printed. *)
Definition next_report (interval now next : Z) : Z :=
  if decide (next = 0 ∨ next ≤ now) then now + interval else next.

Lemma stats_timeout_spec interval now next timeout :
  0 < interval → (∀ t, timeout = Some t → timeval_ok t) →
  let due := next_report interval now next in
  now < due ∧ ∃ t, stats_timeout interval now next timeout = (due, Some t) ∧ timeval_ok t ∧
    micros t = match micros <$> timeout with
               | Some base => Z.min base ((due - now) * 1000)
               | None => (due - now) * 1000 end.
Proof.
  intros Hi Ht. cbv zeta. unfold stats_timeout. set (n1 := if next =? 0 then now + interval else next).
  assert ((if n1 <=? now then now + interval else n1) = next_report interval now next) as ->.
  { unfold n1, next_report. destruct (decide (next = 0 ∨ next ≤ now)) as [H|H]; destruct (Z.eqb_spec next 0).
    all: cbn iota; match goal with |- context [?a <=? ?b] => destruct (Z.leb_spec a b) end; lia. }
  set (due := next_report interval now next).
  assert (now < due) as Hdue by (unfold due, next_report; case_decide; lia). split; [done|].
  rewrite (proj2 (Z.ltb_ge (due - now) 0)) by lia. set (r := due - now) in *. assert (0 < r) as Hr by lia.
  rewrite Z.quot_div_nonneg, Z.rem_mod_nonneg by lia.
  pose proof (Z.div_mod r 1000 ltac:(lia)) as Hdm. pose proof (Z.mod_pos_bound r 1000 ltac:(lia)) as Hm.
  pose proof (Z.div_pos r 1000 ltac:(lia) ltac:(lia)) as Hd.
  assert (timeval_ok (r / 1000, r mod 1000 * 1000)) as Hok by (split; cbn; lia).
  assert (micros (r / 1000, r mod 1000 * 1000) = r * 1000) as Hmic by (unfold micros; cbn; lia).
  destruct timeout as [[s u]|]; [|by eexists].
  destruct (Ht _ eq_refl) as [Hs Hu]. cbn in Hs, Hu.
  destruct (Z.ltb_spec (r / 1000) s), (Z.eqb_spec s (r / 1000)), (Z.ltb_spec (r mod 1000 * 1000) u);
    cbn [orb andb]; (eexists; split; [done|]); (split; [first [exact Hok|by split]|]);
    unfold micros in *; cbn in *; nia.
Qed.

(** C15. The wait of a round, to the microsecond. The timeout handed to [select] is a
    valid [timeval]. Let [base] be what the state asks for: 1 s while a daemon
    connection is to be opened; else 100 ms while packets wait in the queue; else 1 s
    while the daemon is to be configured; else nothing. Without statistics the wait is
    [base], and 5 s where that is nothing. With statistics the clock is read once, the
    next report is due at a moment after that reading (the scheduled one, or one
    interval after the reading when none is scheduled or one is due), and the wait is
    the time to that moment, cut to [base] where the state asks for anything: a bridge
    that is otherwise idle waits for the whole rest of the interval. Nothing else of
    the state changes, and there is no output. *)
Theorem select_timeout_spec cfg st w :
  wp (choose_timeout cfg st) (λ '(st', t) w', w_out w' = w_out w ∧ timeval_ok t ∧
    ∃ base,
      (br_data st < 0 ∨ br_conf st < 0 → base = Some 1000000) ∧
      (0 ≤ br_data st → 0 ≤ br_conf st →
         (bridge_tx_queue_empty (br_queue st) = false → base = Some 100000) ∧
         (bridge_tx_queue_empty (br_queue st) = true → base = if br_config_ok st then None else Some 1000000)) ∧
      (stats_interval cfg ≤ 0 → st' = st ∧ w' = w ∧ micros t = default 5000000 base) ∧
      (0 < stats_interval cfg → ∃ now,
         let due := next_report (stats_interval cfg * 1000) now (br_next_stats st) in
         w_clock w = now :: w_clock w' ∧ now < due ∧ st' = set_next_stats due st ∧
         micros t = match base with
                    | Some base => Z.min base ((due - now) * 1000)
                    | None => (due - now) * 1000
                    end)) w.
Proof.
  unfold choose_timeout. destruct (base_timeout_spec st) as (Hv & H1 & H2).
  destruct (Z.ltb_spec 0 (stats_interval cfg)) as [Hs|Hs].
  - apply wp_bind, wp_bind. unfold wp at 1, bridge_runtime_now_ms, ask.
    destruct (w_clock w) as [|now cs] eqn:Ec; [done|].
    destruct (stats_timeout_spec (stats_interval cfg * 1000) now (br_next_stats st) (base_timeout st) ltac:(lia) Hv)
      as (Hdue & t & -> & Hok & Hm).
    do 2 apply wp_ret. split; [done|]. split; [done|]. exists (micros <$> base_timeout st).
    do 2 (split; [done|]). split; [intros ?; exfalso; lia|]. intros _. by exists now.
  - apply wp_bind, wp_ret, wp_ret. split; [done|].
    split; [destruct (base_timeout st) as [t|]; [by apply Hv|split; cbn; unfold LHKT_IDLE_POLL_SEC; lia]|].
    exists (micros <$> base_timeout st). do 2 (split; [done|]). split; [|intros ?; exfalso; lia]. intros _.
    do 2 (split; [done|]). by destruct (base_timeout st).
Qed.

(** A connected, configured bridge with an empty queue waits for the whole interval of
    15 minutes; with 100 s of it left and packets in the queue, for 100 ms. *)
Definition select_example_cfg : lhkt_config_t := lhkt_config_defaults (λ _, None) (λ _, false).
Definition select_example (queue : bridge_tx_queue_t) (next : Z) : bridge_state :=
  Bridge (-1) 5 6 true next 0 0 kiss_decoder_init kiss_params_init loraham_framed_rx_state_init
    bridge_conf_state_init queue lhkt_stats_init.
Definition select_example_world : world := World [] [] [] [] [] [] [] [5000] [] [] [].

Example select_timeout_example :
  (λ r, r.1.2) <$> choose_timeout select_example_cfg (select_example bridge_tx_queue_init 0) select_example_world =
    Some (900, 0) ∧
  (λ r, r.1.2) <$> choose_timeout select_example_cfg
    (select_example (TxQueue (tq_items bridge_tx_queue_init) 0 1) 105000) select_example_world = Some (0, 100000).
Proof. by vm_compute. Qed.
