(* ===== verification/BridgeInv.v ===== *)
(** The invariant of the main loop: every state the bridge reaches is well formed,
    whatever its peers send and however its calls fail.

    The rounds of [bridge_loop] are the steps; [reachable] starts where [bridge_start]
    ends. The environment is a new world in every round; all that is asked of it is that
    what it lets the program read are bytes. *)
From S2P Require Import Prelude Kiss Ax25 Tnc2 LorahamSock Tnc TxQueue Io SockIo LorahamConf BridgeConf BridgeKiss BridgeRx BridgeLoraham BridgeTx TcpServer Bridge.

(** ** Reading bytes *)

Definition read_ok (r : read_answer) : Prop :=
  match r with RdData bs => bytes_ok bs | RdErr _ => True end.
Definition reads_ok (w : world) : Prop := Forall read_ok (w_read w).

(** [safe m P]: in a world of bytes, [P] holds of the answer of [m]. *)
Definition safe {A} (m : io A) (P : A → Prop) : Prop :=
  ∀ w, reads_ok w → wp m (λ a w', reads_ok w' ∧ P a) w.

Lemma safe_ret {A} (a : A) (P : A → Prop) : P a → safe (mret a) P.
Proof. intros H w Hw. by apply wp_ret. Qed.

Lemma safe_bind {A B} (m : io A) (k : A → io B) P Q :
  safe m P → (∀ a, P a → safe (k a) Q) → safe (m ≫= k) Q.
Proof.
  intros Hm Hk w Hw. apply wp_bind. eapply wp_mono; [by apply Hm|]. intros a w' [Hw' Ha].
  by apply Hk.
Qed.

Lemma safe_mono {A} (m : io A) (P Q : A → Prop) : safe m P → (∀ a, P a → Q a) → safe m Q.
Proof. intros Hm H w Hw. eapply wp_mono; [by apply Hm|]. naive_solver. Qed.

Lemma safe_loop {S A} (body : S → io (S + A)) (I : S → Prop) (Q : A → Prop) s :
  I s → (∀ s, I s → safe (body s) (λ x, match x with inl s' => I s' | inr a => Q a end)) →
  safe (loop body s) Q.
Proof.
  intros H0 Hb w Hw. apply (wp_loop body (λ s w', reads_ok w' ∧ I s)); [|done].
  intros s' w' [Hw' HI]. eapply wp_mono; [by apply Hb|]. by intros [s2|a] w2 [? ?].
Qed.

(** Taking an answer of another kind leaves what will be read. *)
Definition off_reads {A} (put : list A → world → world) : Prop := ∀ l w, w_read (put l w) = w_read w.

Lemma safe_ask {A} (get : world → list A) put : off_reads put → safe (ask get put) (λ _, True).
Proof.
  intros H w Hw. unfold wp, ask. destruct (get w) as [|a l]; [done|]. split; [|done].
  unfold reads_ok. by rewrite H.
Qed.

Lemma safe_emit o : safe (emit o) (λ _, True).
Proof. by intros w Hw. Qed.

Lemma safe_sys_read fd max : safe (sys_read fd max) read_ok.
Proof.
  intros w Hw. apply wp_bind. unfold wp, ask. destruct (w_read w) as [|r l] eqn:E; [done|].
  unfold reads_ok in *. rewrite E in Hw. apply Forall_cons in Hw as [Hr Hl].
  split; [done|]. destruct r; [|done]. by apply Forall_take.
Qed.

Lemma safe_sock_read fd max e : safe (loraham_sock_read fd max e) read_ok.
Proof. unfold loraham_sock_read. destruct (fd <? 0); [by apply safe_ret|apply safe_sys_read]. Qed.

(** Straight-line code of which only the effect on the world matters. *)
Create HintDb safe.

Ltac solve_safe :=
  repeat match goal with
  | |- safe (mret _) _ => by apply safe_ret
  | |- safe (_ ≫= _) _ => eapply (safe_bind _ _ (λ _, True)); [|intros ? _]
  | |- safe (loop _ _) _ => apply (safe_loop _ (λ _, True)); [done|intros ? _]
  | |- safe (ask _ _) _ => by apply safe_ask
  | |- safe (emit _) _ => apply safe_emit
  | |- safe (if ?b then _ else _) _ => destruct b
  | |- safe (match ?x with _ => _ end) _ => destruct x
  | |- safe (sys_read _ _) (λ _, True) => eapply safe_mono; [apply safe_sys_read|done]
  | |- safe _ (λ _, True) => solve [eauto with safe]
  | |- safe _ _ => eapply safe_mono; [solve [eauto with safe]|intros ?; by repeat case_match]
  end.

(** *** Calls that keep the world one of bytes *)

Lemma safe_select fd ms : safe (sys_select fd ms) (λ _, True).
Proof. unfold sys_select. solve_safe. Qed.
Lemma safe_ok fd : safe (sys_ok fd) (λ _, True).
Proof. by apply safe_ask. Qed.
Lemma safe_now : safe bridge_runtime_now_ms (λ _, True).
Proof. by apply safe_ask. Qed.
Lemma safe_should_stop : safe bridge_runtime_should_stop (λ _, True).
Proof. by apply safe_ask. Qed.
Lemma safe_close fd : safe (sys_close fd) (λ _, True).
Proof. apply safe_emit. Qed.
#[export] Hint Resolve safe_select safe_ok safe_now safe_should_stop safe_close : safe.
Lemma safe_poll fds us : safe (sys_poll fds us) (λ _, True).
Proof. unfold sys_poll. solve_safe. Qed.
Lemma safe_socket : safe sys_socket (λ _, True).
Proof. unfold sys_socket. solve_safe. Qed.
Lemma safe_accept fd : safe (sys_accept fd) (λ _, True).
Proof. unfold sys_accept. solve_safe. Qed.
Lemma safe_write fd bs : safe (sys_write fd bs) (λ _, True).
Proof. unfold sys_write. solve_safe. Qed.
#[export] Hint Resolve safe_poll safe_socket safe_accept safe_write : safe.

Lemma safe_wait_writable fd : safe (loraham_wait_writable fd) (λ _, True).
Proof. unfold loraham_wait_writable. solve_safe. Qed.
Lemma safe_rx_wait_writable fd : safe (bridge_rx_wait_fd_writable fd) (λ _, True).
Proof. unfold bridge_rx_wait_fd_writable. solve_safe. Qed.
Lemma safe_sleep ms : safe (bridge_runtime_sleep_ms ms) (λ _, True).
Proof. unfold bridge_runtime_sleep_ms. solve_safe. Qed.
Lemma safe_set_nonblocking fd : safe (bridge_runtime_set_fd_nonblocking fd) (λ _, True).
Proof. unfold bridge_runtime_set_fd_nonblocking. solve_safe. Qed.
Lemma safe_tcp_close fd : safe (lhkt_tcp_server_close fd) (λ _, True).
Proof. unfold lhkt_tcp_server_close. solve_safe. Qed.
#[export] Hint Resolve safe_wait_writable safe_rx_wait_writable safe_sleep safe_set_nonblocking
  safe_tcp_close : safe.
Lemma safe_sock_write fd buf : safe (loraham_sock_write fd buf) (λ _, True).
Proof. unfold loraham_sock_write, write_round. solve_safe. Qed.
Lemma safe_write_all fd buf : safe (bridge_rx_write_all_fd fd buf) (λ _, True).
Proof. unfold bridge_rx_write_all_fd, write_round. solve_safe. Qed.
#[export] Hint Resolve safe_sock_write safe_write_all : safe.
Lemma safe_loraham_write fd packet : safe (bridge_loraham_write fd packet) (λ _, True).
Proof. unfold bridge_loraham_write, loraham_send_framed_tx_packet. solve_safe. Qed.
Lemma safe_config_freq cfg fd f : safe (bridge_loraham_send_config_freq cfg fd f) (λ _, True).
Proof. unfold bridge_loraham_send_config_freq, loraham_send_config_freq, loraham_send_config_line. solve_safe. Qed.
Lemma safe_connect path : safe (connect_nonblocking path) (λ _, True).
Proof. unfold connect_nonblocking, loraham_sock_connect. solve_safe. Qed.
Lemma safe_tcp_accept fd net prefix : safe (lhkt_tcp_server_accept fd net prefix) (λ _, True).
Proof. unfold lhkt_tcp_server_accept. solve_safe. Qed.
#[export] Hint Resolve safe_loraham_write safe_config_freq safe_connect safe_tcp_accept : safe.
Lemma safe_restore cfg conf e : safe (env_restore cfg conf e) (λ r, te_conf r.2 = te_conf e ∧ te_frames r.2 = te_frames e).
Proof.
  unfold env_restore. apply (safe_bind _ _ (λ _, True)); [|intros [ret stats] _; by apply safe_ret].
  unfold bridge_loraham_restore_rx_freq. solve_safe.
Qed.

Lemma safe_send_tnc2 fd tnc2 stats : safe (bridge_rx_send_tnc2_to_kiss_client fd tnc2 stats) (λ _, True).
Proof. unfold bridge_rx_send_tnc2_to_kiss_client. solve_safe. Qed.
#[export] Hint Resolve safe_send_tnc2 : safe.
Lemma safe_rx_chunk fuel : ∀ fd rx buf stats, safe (rx_chunk_loop fuel fd rx buf stats) (λ _, True).
Proof. induction fuel as [|fuel IH]; intros fd rx buf stats; [by intros w|]. cbn. solve_safe. Qed.
#[export] Hint Resolve safe_rx_chunk : safe.
Lemma safe_framed_frame fd frame stats : safe (bridge_rx_handle_framed_frame fd frame stats) (λ _, True).
Proof.
  unfold bridge_rx_handle_framed_frame, bridge_rx_send_loraham_packet_to_kiss_client,
    bridge_rx_handle_loraham_chunk. solve_safe.
Qed.
#[export] Hint Resolve safe_framed_frame : safe.

(** ** The parts of the state

    The assembler of the CONF lines stays inside its buffer of 512 bytes, the NUL
    included; the flags are flags. *)
Record conf_wf (st : bridge_conf_state_t) : Prop := {
  cwf_line : len (cs_line st) < LHKT_CONF_LINE_MAX;
  cwf_chars : bytes_ok (cs_line st) ∧ 10 ∉ cs_line st;
  cwf_discard : cs_discard st = true → cs_line st = [];
  cwf_flags : Forall is_flag [cs_tx_busy st; cs_cad_busy st; cs_radio_ready st; cs_have_status st;
                              cs_txresult_known st; cs_txresult_enabled st];
  cwf_result : cs_txresult_known st = 0 → cs_txresult_enabled st = 0;
}.

Lemma conf_wf_init : conf_wf bridge_conf_state_init.
Proof.
  split; [done|split; [done|apply not_elem_of_nil]|done| |done].
  repeat constructor; by left.
Qed.

Lemma parse_flag_line_flag line prefix v : bridge_parse_flag_line line prefix = Some v → is_flag v.
Proof. unfold bridge_parse_flag_line. repeat case_match; try done; intros [= <-]; (by left) || (by right). Qed.

Lemma status_flag_token_flag line key z :
  is_flag z → is_flag (default z (bridge_status_flag_token line key)).
Proof. intros H. unfold bridge_status_flag_token. repeat case_match; cbn; try done; (by left) || (by right). Qed.

(** What a line can do. *)
Lemma handle_line_cases (P : bridge_conf_state_t → Prop) st line :
  P st → (∀ v, is_flag v → P (conf_tx_event v st)) → (∀ v, is_flag v → P (conf_cad_event v st)) →
  P (conf_status line st) → P (bridge_conf_handle_line st line).
Proof.
  intros H0 Ht Hc Hs. unfold bridge_conf_handle_line. destruct (_ =? 0); [done|].
  destruct (bridge_parse_flag_line line (str "TX=")) eqn:E; [by eapply Ht, parse_flag_line_flag|].
  destruct (bridge_parse_flag_line line (str "CAD=")) eqn:E'; [by eapply Hc, parse_flag_line_flag|].
  by destruct (strip_prefix _ line).
Qed.

Lemma conf_status_wf line st : conf_wf st → conf_wf (conf_status line st).
Proof.
  intros [Hl Hc Hd Hf Hr]. rewrite !Forall_cons in Hf. destruct Hf as (? & ? & ? & ? & ? & ? & _).
  split; try done.
  - unfold conf_status. cbn. repeat apply Forall_cons_2; try by apply status_flag_token_flag.
    + repeat case_match; try done; (by left) || (by right).
    + by right.
    + case_match; [by right|done].
    + constructor.
  - unfold conf_status. cbn [cs_txresult_known cs_txresult_enabled].
    destruct (bridge_status_flag_token line (str "TXRESULT=")); [discriminate|exact Hr].
Qed.

Lemma handle_line_wf st line : conf_wf st → conf_wf (bridge_conf_handle_line st line).
Proof.
  intros Hst. apply handle_line_cases; [done| | |by apply conf_status_wf]; intros v Hv;
    destruct Hst as [Hl Hc Hd Hf Hr]; rewrite !Forall_cons in Hf;
    destruct Hf as (? & ? & ? & ? & ? & ? & _); split; try done; by repeat (apply Forall_cons_2; [done|]).
Qed.

Lemma feed_byte_wf st c : conf_wf st → is_u8 c → conf_wf (bridge_conf_feed_byte st c).
Proof.
  intros Hst Hc. unfold bridge_conf_feed_byte.
  assert (∀ st' d, conf_wf st' → conf_wf (set_line [] d st')) as Hclear.
  { intros st' d [Hl Hb Hd Hf Hr]. split; cbn; try done. split; [done|apply not_elem_of_nil]. }
  destruct (c =? 13); [done|]. destruct (Z.eqb_spec c 10).
  { destruct (cs_discard st) eqn:Ed; [by apply Hclear|]. apply Hclear. by apply handle_line_wf. }
  destruct (cs_discard st) eqn:Ed; [done|].
  destruct (Z.leb_spec LHKT_CONF_LINE_MAX (len (cs_line st) + 1)); [by apply Hclear|].
  destruct Hst as [Hl [Hb Hn] Hd Hf Hr]. split; cbn; try done.
  - solve_len.
  - split; [by apply Forall_app_2, Forall_singleton|]. rewrite elem_of_app, list_elem_of_singleton.
    naive_solver.
Qed.

Lemma feed_wf buf : ∀ st, conf_wf st → bytes_ok buf → conf_wf (bridge_conf_feed st buf).
Proof.
  unfold bridge_conf_feed. induction buf as [|c buf IH]; intros st Hst Hb; [done|].
  apply Forall_cons in Hb as [Hc Hb]. cbn. apply IH; [|done]. by apply feed_byte_wf.
Qed.

(** What is kept for a connection is in its initial state when the connection is gone. *)
Definition conf_inv (fd : Z) (st : bridge_conf_state_t) : Prop :=
  conf_wf st ∧ (fd < 0 → st = bridge_conf_state_init).
Definition frames_inv (fd : Z) (fs : loraham_framed_rx_state_t) : Prop :=
  framed_wf fs ∧ (fd < 0 → fs = loraham_framed_rx_state_init).
Definition client_inv (fd : Z) (dec : kiss_decoder_t) (params : kiss_params_t) : Prop :=
  kiss_wf dec ∧ (fd < 0 → dec = kiss_decoder_init ∧ params = kiss_params_init).

(** What waits in the queue is the LoRa-APRS packet of a well-formed AX.25 frame, and
    nothing in receive-only mode. *)
Definition packet_ok (p : list Z) : Prop :=
  ∃ f, ax25_frame_wf f ∧ (0 ∉ af_payload f) ∧ len (tnc2_text f) ≤ 252 ∧ p = loraham_hdr ++ tnc2_text f.

Record queue_inv (cfg : lhkt_config_t) (q : bridge_tx_queue_t) : Prop := {
  qi_wf : TxQueue.Spec.wf q;
  qi_packets : Forall packet_ok (packets q);
  qi_limit : len (packets q) ≤ Z.max 1 (Z.min 16 (tx_queue_len cfg));
  qi_rx_only : rx_only cfg ≠ 0 → packets q = [];
}.

(** ** The transmission path *)

Lemma safe_conf_read fd st :
  conf_inv fd st → safe (bridge_conf_read_available fd st) (λ r, conf_inv fd r.2).
Proof.
  intros Hst. unfold bridge_conf_read_available. destruct (Z.ltb_spec fd 0); [by apply safe_ret|].
  apply (safe_loop _ conf_wf); [by destruct Hst|]. intros st' Hst'.
  assert (conf_inv fd st') as Hinv by (split; [done|lia]).
  eapply safe_bind; [apply safe_sys_read|]. intros [[|b buf]|[]] Hr; apply safe_ret; try done.
  by apply feed_wf.
Qed.

Lemma safe_conf_wait fd st ms :
  conf_inv fd st → safe (bridge_conf_wait_read fd st ms) (λ r, conf_inv fd r.2).
Proof.
  intros Hst. unfold bridge_conf_wait_read. destruct (fd <? 0); [by apply safe_ret|].
  eapply safe_bind; [apply safe_select|]. intros [| |[]] _; try by apply safe_ret.
  eapply safe_bind; [by apply safe_conf_read|]. intros [ret st'] H. by apply safe_ret.
Qed.

Lemma safe_wait_complete fd st cfg :
  conf_inv fd st → safe (bridge_loraham_wait_tx_complete fd st cfg) (λ r, conf_inv fd r.2).
Proof.
  intros Hst. unfold bridge_loraham_wait_tx_complete. destruct (fd <? 0); [by apply safe_ret|].
  eapply safe_bind; [apply safe_now|]. intros now _.
  apply (safe_bind _ _ (λ r, conf_inv fd r.2)).
  { destruct (negb _); [by apply safe_ret|]. unfold wait_tx_start.
    apply (safe_loop _ (conf_inv fd)); [done|]. intros s Hs.
    destruct (negb _); [by apply safe_ret|]. eapply safe_bind; [apply safe_now|]. intros now' _.
    destruct (_ <=? _); [by apply safe_ret|]. eapply safe_bind; [by apply safe_conf_wait|].
    intros [ret s'] H. apply safe_ret. by destruct (ret <? 0). }
  intros [[e|] s] Hs; [by apply safe_ret|]. destruct (_ && _); [by apply safe_ret|].
  eapply safe_bind; [apply safe_now|]. intros now' _. unfold wait_tx_idle.
  apply (safe_loop _ (conf_inv fd)); [done|]. clear s Hs. intros s Hs.
  destruct (_ =? 0); [by apply safe_ret|]. eapply safe_bind; [apply safe_should_stop|].
  intros [] _; [by apply safe_ret|]. eapply safe_bind; [apply safe_now|]. intros now'' _.
  destruct (_ <=? _); [by apply safe_ret|]. eapply safe_bind; [by apply safe_conf_wait|].
  intros [ret s'] H. apply safe_ret. by destruct (ret <? 0).
Qed.

(** The framed decoder is safe ([framed_safe]); the handling of a frame leaves it. *)
Lemma safe_txr_frame frame s : safe (txr_frame frame s) (λ s', xr_frames s' = xr_frames s).
Proof.
  eapply safe_bind; [apply safe_framed_frame|]. intros [ret stats] _. apply safe_ret. by case_match.
Qed.

Lemma txr_decode_wf b s :
  framed_wf (xr_frames s) → is_u8 b → framed_wf (xr_frames (txr_decode b s).1).
Proof.
  intros Hs Hb. unfold txr_decode. pose proof (dec_step (SafeDecoder:=framed_safe) (xr_frames s) b Hs Hb) as [H _].
  by destruct (loraham_framed_decode_byte (xr_frames s) b).
Qed.

Lemma safe_txr_rest buf : ∀ s, framed_wf (xr_frames s) → bytes_ok buf →
  safe (txr_rest buf s) (λ r, framed_wf (xr_frames r.2)).
Proof.
  induction buf as [|b buf IH]; intros s Hs Hb; cbn [txr_rest]; [by apply safe_ret|].
  apply Forall_cons in Hb as [Hb Hbuf]. pose proof (txr_decode_wf b s Hs Hb) as Hs1.
  destruct (txr_decode b s) as [s1 ev]. cbn [fst] in Hs1.
  destruct ev as [|frame|e]; [by apply IH| |by apply safe_ret].
  destruct (_ =? _); [by apply IH|]. eapply safe_bind; [apply safe_txr_frame|]. intros s2 E.
  apply IH; [by rewrite E|done].
Qed.

Lemma safe_txr_bytes buf : ∀ s, framed_wf (xr_frames s) → bytes_ok buf →
  safe (txr_bytes buf s) (λ r, framed_wf (xr_frames r.2)).
Proof.
  induction buf as [|b buf IH]; intros s Hs Hb; cbn [txr_bytes]; [by apply safe_ret|].
  apply Forall_cons in Hb as [Hb Hbuf]. pose proof (txr_decode_wf b s Hs Hb) as Hs1.
  destruct (txr_decode b s) as [s1 ev]. cbn [fst] in Hs1.
  destruct ev as [|frame|e]; [by apply IH| |by apply safe_ret].
  destruct (_ =? _).
  - destruct (loraham_decode_tx_result frame); [|by apply safe_ret].
    eapply safe_bind; [by apply safe_txr_rest|]. intros [ret s2] H. by apply safe_ret.
  - eapply safe_bind; [apply safe_txr_frame|]. intros s2 E. apply IH; [by rewrite E|done].
Qed.

Lemma safe_wait_result data client fs cfg stats :
  framed_wf fs →
  safe (bridge_loraham_wait_tx_result data client fs cfg stats) (λ r, framed_wf (xr_frames r.2)).
Proof.
  intros Hfs. unfold bridge_loraham_wait_tx_result. destruct (fd_bad data); [by apply safe_ret|].
  eapply safe_bind; [apply safe_now|]. intros start _.
  apply (safe_loop _ (λ s, framed_wf (xr_frames s))); [done|]. intros s Hs. unfold wait_tx_result_round.
  eapply safe_bind; [apply safe_should_stop|]. intros [] _; [by apply safe_ret|].
  eapply safe_bind; [apply safe_now|]. intros now _. destruct (_ <=? _); [by apply safe_ret|].
  eapply safe_bind; [apply safe_select|]. intros [| |[]] _; try by apply safe_ret.
  eapply safe_bind; [apply safe_sock_read|]. intros [[|b buf]|[]] Hr; try by apply safe_ret.
  eapply safe_bind; [by apply safe_txr_bytes|]. intros [[r|] s'] H; by apply safe_ret.
Qed.

(** *** One packet, and the queue *)

Definition env_inv (data conf : Z) (e : tx_env) : Prop :=
  conf_inv conf (te_conf e) ∧ ∃ fs, te_frames e = Some fs ∧ frames_inv data fs.

Lemma safe_env_restore data cfg conf e :
  env_inv data conf e → safe (env_restore cfg conf e) (λ r, env_inv data conf r.2).
Proof.
  intros [Hc Hf]. eapply safe_mono; [apply safe_restore|]. intros [ret e'] [E1 E2]. cbn in *.
  unfold env_inv. by rewrite E1, E2.
Qed.

Lemma safe_with_txresult cfg client data conf packet e :
  0 ≤ data → env_inv data conf e →
  safe (send_with_txresult cfg client data conf packet e) (λ r, env_inv data conf r.2).
Proof.
  intros Hdata (Hc & fs & Efs & Hfs & _). unfold send_with_txresult. rewrite Efs.
  eapply safe_bind; [by apply safe_wait_result|]. intros [r s] Hs. cbn [snd] in Hs.
  assert (∀ c, env_inv data conf (env_bump c (TxEnv (xr_stats s) (te_conf e) (Some (xr_frames s))))) as Hb.
  { intros c. split; [done|]. eexists. split; [done|]. split; [done|lia]. }
  assert (env_inv data conf (TxEnv (xr_stats s) (te_conf e) (Some (xr_frames s)))) as He.
  { split; [done|]. eexists. split; [done|]. split; [done|lia]. }
  destruct r as [result|err].
  - eapply (safe_bind _ _ (λ _, True)); [solve_safe|]. intros _ _.
    eapply safe_bind; [by apply safe_env_restore|]. intros [ret e'] He'.
    repeat case_match; by apply safe_ret.
  - eapply safe_bind; [apply safe_emit|]. intros _ _.
    eapply safe_bind; [by apply safe_env_restore|]. intros [ret e'] He'. by apply safe_ret.
Qed.

Lemma safe_with_events data cfg conf packet e :
  env_inv data conf e → safe (send_with_events cfg conf packet e) (λ r, env_inv data conf r.2).
Proof.
  intros (Hc & Hf). unfold send_with_events. eapply safe_bind; [by apply safe_wait_complete|].
  intros [cret st] Hst. cbn [snd] in Hst.
  apply (safe_bind _ _ (env_inv data conf)).
  { destruct (negb _); [|by apply safe_ret]. eapply safe_bind; [apply safe_sleep|]. intros _ _.
    by apply safe_ret. }
  intros e' He'. eapply safe_bind; [apply safe_emit|]. intros _ _.
  eapply safe_bind; [by apply safe_env_restore|]. intros [ret e2] He2. case_match; by apply safe_ret.
Qed.

Lemma safe_send_packet cfg client data conf packet e :
  env_inv data conf e →
  safe (bridge_loraham_send_packet_with_client cfg client data conf packet e)
    (λ r, env_inv data conf r.2).
Proof.
  intros He. unfold bridge_loraham_send_packet_with_client.
  destruct (_ =? 0); [by apply safe_ret|]. destruct (Z.ltb_spec data 0); [by apply safe_ret|].
  destruct (_ || _); [by apply safe_ret|].
  eapply (safe_bind _ _ (λ _, True)); [solve_safe|]. intros ret _.
  destruct (negb _); [by apply safe_ret|].
  eapply (safe_bind _ _ (λ _, True)); [solve_safe|]. intros settled _. destruct (negb _).
  { eapply safe_bind; [by apply safe_env_restore|]. intros [r e'] He'. by apply safe_ret. }
  eapply safe_bind; [apply safe_loraham_write|]. intros n _. destruct (n <? 0).
  - eapply safe_bind; [apply safe_sleep|]. intros _ _.
    eapply (safe_bind _ _ (λ r, env_inv data conf r.2)); [by apply safe_env_restore|].
    intros [r e'] He'. by apply safe_ret.
  - eapply (safe_bind _ _ (λ r, env_inv data conf r.2)).
    { destruct (bridge_conf_txresult_enabled _); [by apply safe_with_txresult|by apply safe_with_events]. }
    intros [r e'] He'. by apply safe_ret.
Qed.

Definition drain_inv (cfg : lhkt_config_t) (data conf : Z) (d : drain_state) : Prop :=
  queue_inv cfg (dr_queue d) ∧ env_inv data conf (dr_env d).

(** Less in the queue is fine. *)
Lemma queue_inv_suffix cfg q q' l :
  queue_inv cfg q → TxQueue.Spec.wf q' → packets q = l ++ packets q' → queue_inv cfg q'.
Proof.
  intros [Hw Hp Hl Hr] Hw' E. rewrite E in Hp, Hl, Hr. split; [done| | |].
  - by apply Forall_app in Hp as [_ Hp].
  - rewrite length_app in Hl. lia.
  - intros H. specialize (Hr H). by apply app_nil in Hr as [_ Hr].
Qed.

Lemma safe_drain_round cfg client data conf d :
  drain_inv cfg data conf d →
  safe (drain_round cfg client data conf d)
    (λ x, drain_inv cfg data conf (match x with inl d' => d' | inr r => r.2 end)).
Proof.
  destruct d as [q e]. intros [Hq He]. unfold drain_round. cbn [dr_queue dr_env] in *.
  destruct (bridge_tx_queue_head q) as [item|] eqn:Hh; [|by apply safe_ret].
  destruct (head_packets q item (qi_wf _ _ Hq) Hh) as (rest & Ep & Hset).
  eapply (safe_bind _ _ (λ r, conf_inv conf r.2)).
  { destruct He as [Hc _]. destruct (0 <=? conf); [by apply safe_conf_read|by apply safe_ret]. }
  intros [ret st] Hst. cbn [snd] in Hst.
  set (e1 := TxEnv (te_stats e) st (te_frames e)). assert (env_inv data conf e1) as He1.
  { split; [done|]. by destruct He. }
  destruct (negb _); [by apply safe_ret|]. destruct (_ && _); [by apply safe_ret|].
  destruct (_ && _); [by apply safe_ret|]. eapply safe_bind; [apply safe_now|]. intros now _.
  pose proof (head_decision_packet cfg ((0 <=? conf) && negb (cs_tx_busy st =? 0)) item now) as Hi.
  destruct (bridge_tx_head_decision _ _ _ _) as [decision item']. cbn [snd] in Hi.
  destruct (Hset item' Hi) as (Hw & Hp & Hpw & Hpp).
  assert (queue_inv cfg (bridge_tx_queue_set_head item' q)) as Hq1.
  { apply (queue_inv_suffix cfg q _ []); [done..|]. by rewrite Hp. }
  assert (queue_inv cfg (bridge_tx_queue_pop (bridge_tx_queue_set_head item' q))) as Hq2.
  { apply (queue_inv_suffix cfg q _ [ti_packet item]); [done..|]. by rewrite Ep, Hpp. }
  destruct decision; [by apply safe_ret| |by apply safe_ret].
  destruct (data <? 0); [by apply safe_ret|]. destruct (conf <? 0); [by apply safe_ret|].
  eapply safe_bind; [by apply safe_send_packet|]. intros [[ret2 flag] e'] He'. apply safe_ret.
  split; [|done]. cbn. by destruct (_ || _).
Qed.

Lemma safe_drain cfg client data conf d :
  drain_inv cfg data conf d →
  safe (bridge_loraham_tx_queue_drain_with_client cfg client data conf d)
    (λ r, drain_inv cfg data conf r.2).
Proof.
  intros Hd. apply (safe_loop _ (drain_inv cfg data conf)); [done|]. intros d' Hd'.
  eapply safe_mono; [by apply safe_drain_round|]. by intros [].
Qed.

(** ** The rounds *)

Record bridge_inv (cfg : lhkt_config_t) (st : bridge_state) : Prop := {
  bi_client : client_inv (br_client st) (br_dec st) (br_params st);
  bi_data : frames_inv (br_data st) (br_frames st);
  bi_conf : conf_inv (br_conf st) (br_confst st);
  bi_queue : queue_inv cfg (br_queue st);
}.

Section rounds.
Context (cfg : lhkt_config_t).

Abbreviation preserved m := (safe m (bridge_inv cfg)).
Abbreviation preserved_flow m := (safe m (λ r, bridge_inv cfg r.2)).

(** The daemon's sockets may be lost, the client stays. *)
Abbreviation keeps_client st m :=
  (safe m (λ st', bridge_inv cfg st' ∧ br_client st' = br_client st)).

(** Assignments. *)
Lemma inv_set_stats stats st : bridge_inv cfg st → bridge_inv cfg (set_stats stats st).
Proof. by intros []. Qed.
Lemma inv_set_config_ok ok st : bridge_inv cfg st → bridge_inv cfg (set_config_ok ok st).
Proof. by intros []. Qed.
Lemma inv_set_next_stats next st : bridge_inv cfg st → bridge_inv cfg (set_next_stats next st).
Proof. by intros []. Qed.
Lemma inv_collect_cad st : bridge_inv cfg st → bridge_inv cfg (collect_cad st).
Proof. intros []. unfold collect_cad. by destruct (bridge_conf_collect_cad_stats _ _) as [[? ?] ?]. Qed.
Lemma inv_set_client fd dec params st :
  bridge_inv cfg st → client_inv fd dec params → bridge_inv cfg (set_client fd dec params st).
Proof. by intros []. Qed.
Lemma inv_set_data fd frames st :
  bridge_inv cfg st → frames_inv fd frames → bridge_inv cfg (set_data fd frames st).
Proof. by intros []. Qed.
Lemma inv_set_conf fd confst st :
  bridge_inv cfg st → conf_inv fd confst → bridge_inv cfg (set_conf fd confst st).
Proof. by intros []. Qed.
Lemma inv_set_queue q st : bridge_inv cfg st → queue_inv cfg q → bridge_inv cfg (set_queue q st).
Proof. by intros []. Qed.

Create HintDb inv.

(** Initial parts fit any descriptor. *)
Lemma client_inv_init fd : client_inv fd kiss_decoder_init kiss_params_init.
Proof. split; [apply kiss_wf_init|done]. Qed.
Lemma frames_inv_init fd : frames_inv fd loraham_framed_rx_state_init.
Proof. split; [apply framed_wf_init|done]. Qed.
Lemma conf_inv_init fd : conf_inv fd bridge_conf_state_init.
Proof. split; [apply conf_wf_init|done]. Qed.

#[local] Hint Resolve inv_set_stats inv_set_config_ok inv_set_next_stats inv_collect_cad inv_set_client
  inv_set_data inv_set_conf inv_set_queue client_inv_init frames_inv_init conf_inv_init
  bi_client bi_data bi_conf bi_queue : inv.

Lemma close_client_inv st : bridge_inv cfg st → preserved (close_client st).
Proof.
  intros H. unfold close_client. eapply safe_bind; [apply safe_tcp_close|]. intros _ _.
  apply safe_ret. auto with inv.
Qed.

Lemma drop_data_inv st : bridge_inv cfg st → keeps_client st (drop_data st).
Proof.
  intros H. unfold drop_data. eapply (safe_bind _ _ (λ _, True)).
  { unfold bridge_loraham_disconnect_data_socket. solve_safe. }
  intros [fd stats] _. apply safe_ret. split; [|done]. auto with inv.
Qed.

Lemma drop_conf_inv st : bridge_inv cfg st → keeps_client st (drop_conf st).
Proof.
  intros H. unfold drop_conf, bridge_loraham_disconnect_conf_socket.
  eapply (safe_bind _ _ (λ r, conf_inv r.1.1 r.1.2)).
  - destruct (br_conf st <? 0); [apply safe_ret; by apply (bi_conf cfg)|].
    eapply safe_bind; [apply safe_tcp_close|]. intros _ _. apply safe_ret, conf_inv_init.
  - intros [[fd confst] stats] Hc. apply safe_ret. split; [|done]. auto with inv.
Qed.

Lemma reconnect_policy_inv ret st : bridge_inv cfg st → keeps_client st (reconnect_policy ret st).
Proof.
  intros H. unfold reconnect_policy.
  repeat case_match; [by apply drop_data_inv|by apply drop_conf_inv|by apply safe_ret].
Qed.

Lemma drain_step_inv st : bridge_inv cfg st → preserved (drain_step cfg st).
Proof.
  intros [Hcl Hd Hc Hq]. unfold drain_step.
  eapply safe_bind; [apply (safe_drain cfg _ (br_data st) (br_conf st))|].
  { split; [done|]. split; [done|]. by eexists. }
  intros [ret [q e]] (Hq' & Hc' & fs & Efs & Hfs). cbn [dr_queue dr_env snd] in *. rewrite Efs. cbn [default].
  match goal with |- context [reconnect_policy ret ?s] => assert (bridge_inv cfg s) as Hs by (by split) end.
  eapply (safe_bind _ _ (bridge_inv cfg)); [|intros st' H'; apply safe_ret; auto with inv].
  repeat case_match; [|by apply close_client_inv|by apply safe_ret].
  eapply safe_mono; [by apply reconnect_policy_inv|]. by intros st' [].
Qed.

Lemma choose_timeout_inv st : bridge_inv cfg st → safe (choose_timeout cfg st) (λ r, bridge_inv cfg r.1).
Proof.
  intros H. unfold choose_timeout. eapply (safe_bind _ _ (λ r, bridge_inv cfg r.1)).
  - destruct (_ <? _); [|by apply safe_ret]. eapply safe_bind; [apply safe_now|]. intros now _.
    destruct (stats_timeout _ _ _ _) as [next t]. apply safe_ret. cbn. auto with inv.
  - intros [st' t] H'. by apply safe_ret.
Qed.

(** Forgetting the status keeps a connection's state well formed. *)
Lemma forget_status_inv fd st : conf_inv fd st → conf_inv fd (forget_status st).
Proof.
  intros [[Hl Hc Hd Hf Hr] Hn]. split; [|by intros H; rewrite (Hn H)]. split; try done.
  rewrite !Forall_cons in Hf. destruct Hf as (? & ? & ? & _).
  repeat (apply Forall_cons_2; [first [done | by left]|]). constructor.
Qed.

Lemma safe_send_initial_config st :
  bridge_inv cfg st →
  safe (send_initial_config cfg st)
    (λ r, ∃ confst, r.2 = set_conf (br_conf st) confst st ∧ conf_inv (br_conf st) confst).
Proof.
  intros H. unfold send_initial_config.
  eapply (safe_bind _ _ (λ r, conf_inv (br_conf st) r.2)).
  - unfold bridge_loraham_send_initial_config_with_state.
    destruct (_ <? 0); [apply safe_ret; by apply (bi_conf cfg)|].
    pose proof (forget_status_inv _ _ (bi_conf _ _ H)) as Hf.
    eapply (safe_bind _ _ (λ _, True)).
    { unfold loraham_send_config, loraham_send_config_freq, loraham_send_config_line. solve_safe. }
    intros ret _. destruct (negb _); [by apply safe_ret|].
    eapply (safe_bind _ _ (λ _, True)); [unfold loraham_send_txresult_enable; solve_safe|].
    intros ret2 _. destruct (negb _); [by apply safe_ret|].
    eapply (safe_bind _ _ (λ _, True)); [unfold bridge_loraham_send_status_request; solve_safe|].
    intros ret3 _. by apply safe_ret.
  - intros [ret confst] Hc. apply safe_ret. by exists confst.
Qed.

Lemma send_initial_config_inv st :
  bridge_inv cfg st → safe (send_initial_config cfg st) (λ r, bridge_inv cfg r.2).
Proof.
  intros H. eapply safe_mono; [by apply safe_send_initial_config|]. intros [ok st'] (confst & -> & Hc).
  cbn. auto with inv.
Qed.

Lemma idle_step_inv st : bridge_inv cfg st → preserved (idle_step cfg st).
Proof.
  intros H. unfold idle_step. destruct (Z.ltb_spec (br_conf st) 0) as [Hc|Hc].
  { eapply (safe_bind _ _ (λ r, conf_inv r.1 r.2)).
    - unfold bridge_loraham_connect_conf_socket. eapply safe_bind; [apply safe_connect|].
      intros fd _. apply safe_ret. cbn. destruct (Z.ltb_spec fd 0) as [Hf|Hf]; [|apply conf_inv_init].
      rewrite (proj2 (bi_conf _ _ H) Hc). apply conf_inv_init.
    - intros [fd confst] Hst. apply safe_ret. auto with inv. }
  destruct (Z.ltb_spec (br_data st) 0) as [Hd|Hd].
  { eapply safe_bind; [apply safe_connect|]. intros fd _. destruct (0 <=? fd).
    - eapply safe_bind; [apply send_initial_config_inv; auto with inv|]. intros [ok st'] H'.
      apply safe_ret. auto with inv.
    - apply safe_ret. rewrite (proj2 (bi_data _ _ H) Hd). auto with inv. }
  destruct (negb _); [|by apply safe_ret].
  eapply safe_bind; [by apply send_initial_config_inv|]. intros [[] st'] H'; apply safe_ret; auto with inv.
Qed.

Lemma client_inv_keep fd st :
  bridge_inv cfg st → br_client st < 0 → client_inv fd (br_dec st) (br_params st).
Proof. intros H Hc. destruct (proj2 (bi_client _ _ H) Hc) as [-> ->]. apply client_inv_init. Qed.

Lemma accept_step_inv listen_fd ready st :
  bridge_inv cfg st → preserved_flow (accept_step cfg listen_fd ready st).
Proof.
  intros H. unfold accept_step. destruct (Z.ltb_spec (br_client st) 0) as [Hc|Hc]; cbn [andb].
  2: { by apply safe_ret. }
  destruct (bool_decide _); [|by apply safe_ret].
  eapply safe_bind; [apply safe_tcp_accept|]. intros fd _.
  assert (bridge_inv cfg (set_client (-1) (br_dec st) (br_params st) st)) as Hnone.
  { apply inv_set_client; [done|]. by apply client_inv_keep. }
  destruct (_ =? _); [by apply safe_ret|]. destruct (fd <? 0).
  { eapply safe_bind; [apply safe_sleep|]. intros _ _. by apply safe_ret. }
  eapply safe_bind; [apply safe_set_nonblocking|]. intros ret _. destruct (negb _).
  - eapply safe_bind; [apply safe_tcp_close|]. intros _ _. by apply safe_ret.
  - apply safe_ret. cbn. auto with inv.
Qed.

(** A frame of the client: the packets that join the queue are well formed. *)
Lemma kiss_tx_packet_ok frame p :
  bytes_ok (kf_data frame) → kiss_tx_packet frame = Some p → packet_ok p.
Proof.
  intros Hb. unfold kiss_tx_packet. destruct (_ || _); [done|].
  destruct (ax25_decode_ui (kf_data frame)) as [f|e] eqn:E; [|done].
  apply ax25_decode_ui_wf in E as [Hwf _]; [|done]. case_bool_decide; cbn [orb]; [done|].
  destruct (Z.ltb_spec 252 (len (tnc2_text f))); [done|]. intros [= <-]. by exists f.
Qed.

Lemma handle_frame_inv frame params stats queue now :
  bytes_ok (kf_data frame) → queue_inv cfg queue →
  queue_inv cfg (bridge_kiss_handle_frame frame params cfg stats queue now).2.
Proof.
  intros Hb Hq. pose proof (handle_frame_spec frame params cfg stats queue now Hb (qi_wf _ _ Hq)) as H.
  destruct (bridge_kiss_handle_frame frame params cfg stats queue now) as [[[ret p'] s'] q']. cbn [snd].
  destruct H as [Hw H]. destruct (kiss_tx_packet frame) as [p|] eqn:Ep; [|by destruct H as [-> _]].
  apply kiss_tx_packet_ok in Ep; [|done].
  destruct (Z.eqb_spec (rx_only cfg) 0) as [Hrx|]; cbn [negb] in H; [|by destruct H as [_ ->]].
  unfold queue_room in H. destruct (Z.ltb_spec (len (TxQueue.Spec.contents queue)) (Z.max 1 (Z.min 16 (tx_queue_len cfg))));
    [|by destruct H as [_ ->]].
  destruct H as [_ E]. assert (packets q' = packets queue ++ [p]) as Eq.
  { unfold packets. by rewrite E, map_app. }
  split; [done|rewrite Eq|rewrite Eq, length_app|done].
  - apply Forall_app_2; [apply Hq|by apply Forall_singleton].
  - unfold packets. rewrite length_map. cbn. lia.
Qed.

Lemma client_bytes_inv bs : ∀ st,
  0 ≤ br_client st → bytes_ok bs → bridge_inv cfg st → preserved (client_bytes cfg bs st).
Proof.
  induction bs as [|b bs IH]; intros st Hc Hb H; cbn [client_bytes]; [by apply safe_ret|].
  apply Forall_cons in Hb as [Hb Hbs].
  destruct (dec_step (SafeDecoder:=kiss_safe) (br_dec st) b (proj1 (bi_client _ _ H)) Hb) as [Hdec Hev].
  destruct (kiss_decode_byte (br_dec st) b) as [dec ev]. cbn [fst snd] in Hdec, Hev.
  assert (bridge_inv cfg (set_client (br_client st) dec (br_params st) st)) as H1.
  { apply inv_set_client; [done|]. split; [done|lia]. }
  destruct ev as [|frame|e]; [by apply IH| |apply IH; [done..|by apply inv_set_stats]].
  eapply safe_bind; [apply safe_now|]. intros now _. destruct Hev as (_ & _ & _ & Hdata).
  match goal with |- context [bridge_kiss_handle_frame frame ?p cfg ?s ?q now] =>
    pose proof (handle_frame_inv frame p s q now Hdata (bi_queue _ _ H)) as Hq;
    destruct (bridge_kiss_handle_frame frame p cfg s q now) as [[[ret params] stats] queue] end.
  cbn [snd] in Hq. eapply (safe_bind _ _ (λ st', bridge_inv cfg st' ∧ br_client st' = br_client st)).
  - match goal with |- context [reconnect_policy ret ?s] => set (st1 := s) end.
    assert (bridge_inv cfg st1) as Hst1 by (destruct H1; split; [split; [done|cbn; lia]|done..]).
    exact (reconnect_policy_inv ret st1 Hst1).
  - intros st' [H' E]. apply IH; [by rewrite E|done..].
Qed.

Lemma client_step_inv ready st : bridge_inv cfg st → preserved_flow (client_step cfg ready st).
Proof.
  intros H. unfold client_step. destruct (Z.leb_spec 0 (br_client st)) as [Hc|]; cbn [andb].
  2: { by apply safe_ret. }
  destruct (bool_decide _); [|by apply safe_ret].
  eapply safe_bind; [apply safe_sys_read|]. intros [[|b bs]|[]] Hr; try by apply safe_ret.
  - eapply safe_bind; [apply close_client_inv; auto with inv|]. intros st' H'. by apply safe_ret.
  - eapply safe_bind; [by apply client_bytes_inv|]. intros st' H'. by apply safe_ret.
  - eapply safe_bind; [by apply close_client_inv|]. intros st' H'. by apply safe_ret.
Qed.

Lemma conf_step_inv ready st : bridge_inv cfg st → preserved_flow (conf_step ready st).
Proof.
  intros H. unfold conf_step. destruct (_ && _); [|by apply safe_ret].
  eapply safe_bind; [apply safe_conf_read; by apply (bi_conf cfg)|]. intros [ret confst] Hc.
  destruct (negb _); [|apply safe_ret; cbn; auto with inv].
  eapply safe_bind; [apply drop_conf_inv; auto with inv|]. intros st' [H' _]. by apply safe_ret.
Qed.

Lemma safe_framed_chunk fd buf : ∀ fs stats, framed_wf fs → bytes_ok buf →
  safe (bridge_rx_handle_framed_chunk fd fs buf stats) (λ r, framed_wf r.1.2).
Proof.
  induction buf as [|b buf IH]; intros fs stats Hfs Hb; cbn; [by apply safe_ret|].
  apply Forall_cons in Hb as [Hb Hbuf]. destruct (dec_step (SafeDecoder:=framed_safe) fs b Hfs Hb) as [Hfs' _].
  destruct (loraham_framed_decode_byte fs b) as [fs' ev]. cbn [fst] in Hfs'.
  destruct ev as [|frame|e]; [by apply IH| |by apply safe_ret].
  eapply safe_bind; [apply safe_framed_frame|]. intros [ret stats'] _.
  destruct (negb _); [by apply safe_ret|by apply IH].
Qed.

Lemma data_step_inv ready st : bridge_inv cfg st → preserved_flow (data_step ready st).
Proof.
  intros H. unfold data_step. destruct (Z.leb_spec 0 (br_data st)); cbn [andb]; [|by apply safe_ret].
  destruct (bool_decide _); [|by apply safe_ret].
  assert (∀ st1, bridge_inv cfg st1 → preserved_flow (st2 ← drop_data st1; mret (Continue, st2))) as Hdrop.
  { intros st1 H1. eapply safe_bind; [by apply drop_data_inv|]. intros st2 [H2 _]. by apply safe_ret. }
  eapply safe_bind; [apply safe_sock_read|].
  intros [[|b bs]|[]] Hr; try by apply Hdrop. 2: { by apply safe_ret. }
  eapply safe_bind; [apply safe_framed_chunk; [apply (bi_data _ _ H)|done]|].
  intros [[ret frames] stats] Hf. cbn [fst snd] in Hf.
  match goal with |- context [close_client ?s] => assert (bridge_inv cfg s) as Hs end.
  { apply inv_set_stats, inv_set_data; [done|]. split; [done|lia]. }
  destruct (should_disconnect_kiss_client ret).
  - eapply safe_bind; [by apply close_client_inv|]. intros st' H'. by apply safe_ret.
  - destruct (ret <? 0); [by apply Hdrop|by apply safe_ret].
Qed.

Lemma andthen_inv m k :
  preserved_flow m → (∀ st, bridge_inv cfg st → preserved_flow (k st)) → preserved_flow (andthen m k).
Proof.
  intros Hm Hk. eapply safe_bind; [exact Hm|]. intros [[] st'] H'; [by apply Hk|by apply safe_ret..].
Qed.

Lemma bridge_round_inv listen_fd st :
  bridge_inv cfg st → preserved_flow (bridge_round cfg listen_fd st).
Proof.
  intros H. unfold bridge_round. eapply safe_bind; [by apply drain_step_inv|]. intros st1 H1.
  destruct (wait_set listen_fd st1) as [[fds max_fd]|]; [|by apply safe_ret].
  eapply safe_bind; [by apply choose_timeout_inv|]. intros [st2 [sec usec]] H2. cbn [fst] in H2.
  eapply safe_bind; [apply safe_poll|]. intros [ready| |[]] _; try by apply safe_ret.
  - apply andthen_inv; [by apply accept_step_inv|]. intros st3 H3.
    apply andthen_inv; [by apply client_step_inv|]. intros st4 H4.
    apply andthen_inv; [by apply conf_step_inv|]. intros st5 H5. by apply data_step_inv.
  - eapply safe_bind; [by apply idle_step_inv|]. intros st3 H3. by apply safe_ret.
Qed.

Lemma bridge_start_inv stats : safe (bridge_start cfg stats) (bridge_inv cfg).
Proof.
  unfold bridge_start. cbv zeta. cbn [br_confst].
  match goal with |- context [set_conf _ _ ?s] => assert (bridge_inv cfg s) as H end.
  { split; cbn; auto with inv. split; [apply bridge_tx_queue_init_wf|constructor|cbn; lia|done]. }
  eapply (safe_bind _ _ (λ r, conf_inv r.1 r.2)).
  { unfold bridge_loraham_connect_conf_socket. eapply safe_bind; [apply safe_connect|].
    intros fd _. apply safe_ret. cbn. destruct (fd <? 0); apply conf_inv_init. }
  intros [conf_fd confst] Hc. cbn [fst snd] in Hc.
  eapply safe_bind; [apply safe_send_initial_config; auto with inv|].
  intros [ok st] (confst' & E & Hc'). cbn [snd] in E. subst st.
  eapply safe_bind; [apply safe_connect|]. intros fd _. apply safe_ret. cbn. auto with inv.
Qed.
End rounds.

(** ** Reachable states *)

Inductive reachable (cfg : lhkt_config_t) (listen_fd : Z) : bridge_state → Prop :=
  | reach_start stats st w w' :
      reads_ok w → bridge_start cfg stats w = Some (st, w') → reachable cfg listen_fd st
  | reach_round st f st' w w' :
      reachable cfg listen_fd st → reads_ok w →
      bridge_round cfg listen_fd st w = Some ((f, st'), w') → reachable cfg listen_fd st'.

Lemma safe_elim {A} (m : io A) (P : A → Prop) w a w' :
  safe m P → reads_ok w → m w = Some (a, w') → reads_ok w' ∧ P a.
Proof. intros H Hw E. exact (wp_elim _ _ _ _ _ (H w Hw) E). Qed.

Lemma reachable_inv cfg listen_fd st : reachable cfg listen_fd st → bridge_inv cfg st.
Proof.
  induction 1 as [stats st w w' Hw E|st f st' w w' _ IH Hw E].
  - eapply safe_elim in E as [_ E]; [exact E|apply bridge_start_inv|done].
  - eapply safe_elim in E as [_ E]; [exact E|by apply bridge_round_inv|done].
Qed.

(** The states the loop goes through, and the one it ends in. *)
Lemma bridge_loop_reachable cfg listen_fd st :
  reachable cfg listen_fd st → safe (bridge_loop cfg listen_fd st) (reachable cfg listen_fd).
Proof.
  intros H. apply (safe_loop _ (reachable cfg listen_fd)); [done|]. clear st H. intros st H.
  eapply safe_bind; [apply safe_should_stop|]. intros [] _; [by apply safe_ret|].
  eapply (safe_bind _ _ (λ r, reachable cfg listen_fd r.2)).
  - intros w Hw. apply wp_intro. intros [f st'] w' E.
    destruct (safe_elim _ _ _ _ _ (bridge_round_inv cfg listen_fd st (reachable_inv _ _ _ H)) Hw E)
      as [Hw' _]. split; [done|]. exact (reach_round _ _ _ _ _ _ _ H Hw E).
  - intros [[] st'] H'; by apply safe_ret.
Qed.

(** What the drain of a round writes to the DATA socket. *)
Definition unwritten {A} (m : io A) : Prop := yields m (λ _ o, ∀ fd, written fd o = []).

Lemma unwritten_ret {A} (a : A) : unwritten (mret a).
Proof. by apply yields_ret. Qed.
Lemma unwritten_close fd : unwritten (lhkt_tcp_server_close fd).
Proof.
  unfold lhkt_tcp_server_close. destruct (0 <=? fd); [by apply yields_emit|apply unwritten_ret].
Qed.
Lemma unwritten_bind {A B} (m : io A) (k : A → io B) :
  unwritten m → (∀ a, unwritten (k a)) → unwritten (m ≫= k).
Proof.
  intros Hm Hk. eapply yields_bind; [exact Hm|]. intros a o E. eapply yields_mono; [apply Hk|].
  intros b o' E' fd. by rewrite written_app, E, E'.
Qed.

Ltac solve_unwritten :=
  repeat match goal with
  | |- unwritten (mret _) => apply unwritten_ret
  | |- unwritten (_ ≫= _) => apply unwritten_bind; [|intros ?]
  | |- unwritten (lhkt_tcp_server_close _) => apply unwritten_close
  | |- unwritten (if ?b then _ else _) => destruct b
  | |- unwritten (match ?x with _ => _ end) => destruct x
  end.

Lemma reconnect_policy_unwritten ret st : unwritten (reconnect_policy ret st).
Proof.
  unfold reconnect_policy, drop_data, drop_conf, bridge_loraham_disconnect_data_socket,
    bridge_loraham_disconnect_conf_socket. solve_unwritten.
Qed.
Lemma close_client_unwritten st : unwritten (close_client st).
Proof. unfold close_client. solve_unwritten. Qed.

Lemma drain_step_written cfg st :
  bridge_inv cfg st →
  br_conf st ≠ br_data st → br_client st ≠ br_conf st → br_client st ≠ br_data st →
  yields (drain_step cfg st) (λ _ o, written (br_data st) o = [] ∨
    ∃ p, packet_ok p ∧ written (br_data st) o `prefix_of` tx_frame p).
Proof.
  intros H Hcd Hkc Hkd. unfold drain_step. eapply yields_bind.
  { eapply (drain_yields cfg (br_client st) (br_data st) (br_conf st)); [done..|by apply (bi_queue _ _ H)]. }
  intros [ret d] o (_ & dropped & rest & Ep & Ho). cbn [dr_queue] in Ep.
  match goal with |- yields ?m _ => assert (unwritten m) as Hm end.
  { apply unwritten_bind; [|intros st'; apply unwritten_ret].
    repeat case_match; [apply reconnect_policy_unwritten|apply close_client_unwritten|apply unwritten_ret]. }
  eapply yields_mono; [exact Hm|]. intros st' o' E'. cbn in E'. rewrite written_app, E', app_nil_r.
  destruct Ho as [(-> & _)|(p & rest' & -> & Ho)]; [by left|]. right. exists p.
  pose proof (qi_packets _ _ (bi_queue _ _ H)) as F. rewrite Ep in F.
  apply Forall_app in F as [_ F]. apply Forall_cons in F as [Hp _]. split; [done|].
  by destruct Ho as [[_ ->]|(_ & _ & Ho & _)].
Qed.

(** C4. The invariant of the process. In every state the main loop reaches, from any
    start, against any environment that delivers bytes: the KISS decoder, the framed
    decoder and the CONF line assembler are inside their buffers and well formed, each
    of them is in its initial state when its connection is gone, so that a new
    connection never sees the remains of an old one; the queue is a ring of at most
    [tx_queue_len] packets, every one of them 3C FF 01 followed by the text of a
    well-formed AX.25 frame, and it is empty in receive-only mode. Hence the drain of a
    receive-only bridge does nothing at all, and that of any other writes to the DATA
    socket nothing or (a prefix of) the one frame of such a packet, in every round. And
    [bridge_loop] stays within these states. *)
Theorem reachable_invariant cfg listen_fd st (Hst : reachable cfg listen_fd st) :
  bridge_inv cfg st ∧
  (rx_only cfg ≠ 0 → ∀ w, drain_step cfg st w = Some (collect_cad st, w)) ∧
  (br_conf st ≠ br_data st → br_client st ≠ br_conf st → br_client st ≠ br_data st →
   yields (drain_step cfg st) (λ _ o, written (br_data st) o = [] ∨
     ∃ p, packet_ok p ∧ written (br_data st) o `prefix_of` tx_frame p)) ∧
  safe (bridge_loop cfg listen_fd st) (reachable cfg listen_fd).
Proof.
  pose proof (reachable_inv _ _ _ Hst) as H. split; [done|]. split_and!.
  - intros Hrx w. pose proof (qi_rx_only _ _ (bi_queue _ _ H) Hrx) as E.
    assert (tq_count (br_queue st) = 0%nat) as Hc.
    { apply (f_equal length) in E. unfold packets in E. by rewrite length_map, contents_length in E. }
    unfold drain_step. unfold mbind at 1, io_bind at 1. rewrite drain_terminates.
    cbn [dr_queue]. rewrite Hc. cbn [iter]. unfold drain_round, bridge_tx_queue_head.
    cbn [dr_queue]. rewrite Hc. by destruct st.
  - by apply drain_step_written.
  - by apply bridge_loop_reachable.
Qed.

(** A start that cannot reach the daemon. *)
Definition lonely_world : world := World [] [] [] [] [None; None] [] [] [] [] [] [].

Lemma reachable_invariant_witness :
  ∃ st, reachable kiss_example_cfg 3 st ∧ bridge_inv kiss_example_cfg st.
Proof.
  assert (is_Some (bridge_start kiss_example_cfg lhkt_stats_init lonely_world)) as [[st w'] E]
    by (apply (bool_decide_unpack _); by vm_compute).
  exists st. assert (reachable kiss_example_cfg 3 st) as H.
  { refine (reach_start _ _ _ st lonely_world w' _ E). constructor. }
  split; [exact H|]. exact (proj1 (reachable_invariant _ _ _ H)).
Defined.
