(* ===== verification/BridgeWire.v ===== *)
(** What the daemon reads: the DATA stream over the whole life of the process.

    The descriptors of the trace are numbers the kernel reuses, so a connection is a
    descriptor from the moment it was obtained. [since] is what was written to it so
    far, [fresh] what the kernel promises: a descriptor that is open is not handed out
    again. [history] are the states of the main loop with everything that was done up to
    them, from the start of [lhkt_bridge_run] on. *)
From S2P Require Import Prelude Kiss Ax25 Tnc2 LorahamSock Tnc TxQueue Io SockIo LorahamConf BridgeConf BridgeKiss BridgeRx BridgeLoraham BridgeTx TcpServer Bridge BridgeInv.

(** ** Connections *)

Definition obtained (x : output) : option Z :=
  match x with Opened fd | Accepted fd _ _ => Some fd | _ => None end.

Definition since1 (fd : Z) (bs : list Z) (x : output) : list Z :=
  match x with
  | Opened fd' | Accepted fd' _ _ => if fd' =? fd then [] else bs
  | Wrote fd' b => if fd' =? fd then bs ++ b else bs
  | _ => bs
  end.

(** The bytes written to [fd] since it was last obtained. *)
Definition since (fd : Z) (o : list output) : list Z := foldl (since1 fd) [] o.

(** After [h], the descriptors that [o] obtains are not open. *)
Fixpoint fresh_after (h o : list output) : Prop :=
  match o with
  | [] => True
  | x :: o => match obtained x with Some fd => balance fd h ≤ 0 | None => True end ∧
              fresh_after (h ++ [x]) o
  end.
Definition fresh (o : list output) : Prop := fresh_after [] o.

#[global] Instance fresh_dec h o : Decision (fresh_after h o).
Proof. revert h. induction o as [|x o IH]; intros h; cbn; [apply _|]. destruct (obtained x); apply _. Defined.

(** Only descriptors of [mine] and those obtained on the way are closed. *)
Fixpoint tidy (mine : list Z) (o : list output) : Prop :=
  match o with
  | [] => True
  | x :: o => match x with Closed fd => fd ∈ mine | _ => True end ∧
              tidy (option_list (obtained x) ++ mine) o
  end.

Lemma since_app fd a b : since fd (a ++ b) = foldl (since1 fd) (since fd a) b.
Proof. apply foldl_app. Qed.

Lemma fresh_app h a b : fresh_after h (a ++ b) ↔ fresh_after h a ∧ fresh_after (h ++ a) b.
Proof.
  revert h. induction a as [|x a IH]; intros h; cbn [app fresh_after].
  { rewrite app_nil_r. tauto. }
  rewrite IH, <-app_assoc. cbn [app]. tauto.
Qed.

Lemma balance_obtained fd x : balance fd [x] =
  match x with Closed fd' => if fd' =? fd then -1 else 0
  | _ => match obtained x with Some fd' => if fd' =? fd then 1 else 0 | None => 0 end end.
Proof. unfold balance. destruct x; cbn; try done; repeat case_match; lia. Qed.

(** The kernel's promise bounds the balance of every descriptor. *)
Lemma fresh_balance o : ∀ h,
  (∀ fd, balance fd h ≤ 1) → fresh_after h o → ∀ fd, balance fd (h ++ o) ≤ 1.
Proof.
  induction o as [|x o IH]; intros h Hh Hf fd; [by rewrite app_nil_r|]. destruct Hf as [Hx Hf].
  change (x :: o) with ([x] ++ o). rewrite app_assoc. apply IH; [|done]. clear IH Hf fd. intros fd.
  rewrite balance_app, balance_obtained. specialize (Hh fd).
  destruct x; cbn in *; try lia; destruct (Z.eqb_spec fd0 fd); subst; lia.
Qed.

Lemma tidy_mono o : ∀ mine mine', mine ⊆ mine' → tidy mine o → tidy mine' o.
Proof.
  induction o as [|x o IH]; intros mine mine' Hs Ht; [done|]. destruct Ht as [Hx Ht].
  split; [destruct x; auto|]. eapply IH; [|exact Ht]. set_solver.
Qed.

Lemma tidy_app a : ∀ mine b,
  tidy mine a → tidy (omap obtained a ++ mine) b → tidy mine (a ++ b).
Proof.
  induction a as [|x a IH]; intros mine b Ha Hb; [done|]. destruct Ha as [Hx Ha]. split; [done|].
  apply IH; [done|]. eapply tidy_mono; [|exact Hb]. cbn. destruct (obtained x); cbn; set_solver.
Qed.

Lemma tidy_fdless mine o : Forall no_fd o → tidy mine o.
Proof.
  intros F. revert mine. induction F as [|x o Hx _ IH]; intros mine; [done|]. split; [by destruct x|apply IH].
Qed.

(** An open descriptor that is none of [mine] stays open, and its connection only
    receives what is written to it. *)
Lemma since_untouched fd o : ∀ h mine,
  fresh_after h o → 1 ≤ balance fd h → (fd ∉ mine) → tidy mine o →
  since fd (h ++ o) = since fd h ++ written fd o.
Proof.
  induction o as [|x o IH]; intros h mine Hf Hb Hm Ht; [by rewrite !app_nil_r|].
  destruct Hf as [Hx Hf], Ht as [Hc Ht]. change (x :: o) with ([x] ++ o). rewrite app_assoc.
  assert (match obtained x with Some fd' => fd' ≠ fd | None => True end) as Hne.
  { destruct (obtained x); [|done]. intros ->. lia. }
  rewrite (IH _ (option_list (obtained x) ++ mine)); [|done| |destruct (obtained x); set_solver|done].
  - rewrite since_app, written_app. cbn [foldl]. rewrite app_assoc. f_equal.
    destruct x; cbn in *; rewrite ?app_nil_r; try done; repeat case_match; rewrite ?app_nil_r; try done; lia.
  - rewrite balance_app, balance_obtained. destruct x; cbn in *; try lia; destruct (Z.eqb_spec fd0 fd); subst; try lia; done.
Qed.

(** A descriptor obtained by a call that writes nothing starts with nothing. *)
Lemma since_new fd o : ∀ h,
  written fd o = [] → fd ∈ omap obtained o → since fd (h ++ o) = [].
Proof.
  induction o as [|x o IH] using rev_ind; intros h Hw Hin; [by apply not_elem_of_nil in Hin|].
  rewrite written_app in Hw. apply app_nil in Hw as [Hw Hx]. rewrite app_assoc, since_app. cbn [foldl].
  rewrite omap_app, elem_of_app in Hin. destruct Hin as [Hin|Hin].
  - rewrite IH by done. destruct x; cbn in *; repeat case_match; rewrite ?app_nil_r in *; done.
  - destruct x; cbn in *; try (by apply not_elem_of_nil in Hin); apply list_elem_of_singleton in Hin as ->;
      by rewrite Z.eqb_refl.
Qed.

(** ** Housekeeping: calls that obtain and close descriptors and write nothing *)

Definition keeping (mine : list Z) {A} (m : io A) (Q : A → Prop) : Prop :=
  yields m (λ a o, tidy mine o ∧ (∀ fd, written fd o = []) ∧ Q a).

Lemma keeping_ret mine {A} (a : A) (Q : A → Prop) : Q a → keeping mine (mret a) Q.
Proof. intros H. by apply yields_ret. Qed.

Lemma keeping_bind mine {A B} (m : io A) (k : A → io B) P Q :
  keeping mine m P → (∀ a, P a → keeping mine (k a) Q) → keeping mine (m ≫= k) Q.
Proof.
  intros Hm Hk. eapply yields_bind; [exact Hm|]. intros a o (T & W & H).
  eapply yields_mono; [by apply Hk|]. intros b o' (T' & W' & H'). split; [|split; [|done]].
  - apply tidy_app; [done|]. eapply tidy_mono; [|exact T']. set_solver.
  - intros fd. by rewrite written_app, W, W'.
Qed.

Lemma keeping_silent mine {A} (m : io A) (P : A → Prop) : silent m P → keeping mine m P.
Proof. intros H. eapply yields_mono; [by apply yields_silent|]. by intros a o [-> ?]. Qed.

Lemma keeping_close mine fd : fd ∈ mine → keeping mine (lhkt_tcp_server_close fd) (λ _, True).
Proof.
  intros H. unfold lhkt_tcp_server_close. destruct (0 <=? fd); [by apply yields_emit|by apply keeping_ret].
Qed.

(** [gains m]: the answer of [m] is negative or a descriptor it obtained. *)
Definition gains (m : io Z) : Prop :=
  yields m (λ fd o, tidy [] o ∧ (∀ x, written x o = []) ∧ (fd < 0 ∨ fd ∈ omap obtained o)).

Lemma gains_fail e : e < 0 → gains (mret e).
Proof. intros He. apply yields_ret. split; [done|]. split; [done|by left]. Qed.

(** A call that got [fd] and answers [fd], or closes it and fails. *)
Definition settles (fd : Z) (m : io Z) : Prop :=
  yields m (λ r o, tidy [fd] o ∧ (∀ x, written x o = []) ∧ (r < 0 ∨ r = fd)).

Lemma settles_keep fd : settles fd (mret fd).
Proof. apply yields_ret. split; [done|]. split; [done|by right]. Qed.
Lemma settles_close fd e : e < 0 → settles fd (_ ← sys_close fd; mret e).
Proof.
  intros He. eapply yields_bind; [apply (yields_emit _ (λ _ o, o = [Closed fd])); done|].
  intros [] ? ->. apply yields_ret. split; [|split; [done|by left]]. split; [by left|done].
Qed.
Lemma settles_bind {A} fd (m : io A) (k : A → io Z) (P : A → Prop) :
  silent m P → (∀ a, settles fd (k a)) → settles fd (m ≫= k).
Proof. intros Hm Hk. eapply yields_silent_bind; [exact Hm|]. intros a _. apply Hk. Qed.

Ltac solve_settles :=
  repeat match goal with
  | |- settles ?fd (mret ?fd) => apply settles_keep
  | |- settles ?fd (_ ← sys_close ?fd; mret _) => by apply settles_close
  | |- settles _ (_ ≫= _) => apply (settles_bind _ _ _ (λ _, True)); [|intros ?]
  | |- silent (if ?b then _ else _) _ => destruct b
  | |- silent (mret _) _ => by apply silent_ret
  | |- silent (sys_ok _) _ => apply silent_ok
  | |- settles _ (if ?b then _ else _) => destruct b
  | |- settles _ (match ?x with _ => _ end) => destruct x
  end.

Lemma gains_settled {A} (m : io A) (k : A → io Z) (got : A → option Z) :
  yields m (λ a o, match got a with
    | Some fd => ∃ x, o = [x] ∧ obtained x = Some fd
    | None => o = [] end) →
  (∀ a, match got a with Some fd => settles fd (k a) | None => gains (k a) end) →
  gains (m ≫= k).
Proof.
  intros Hm Hk. eapply yields_bind; [exact Hm|]. intros a o Ho. cbv beta in Ho. specialize (Hk a).
  destruct (got a) as [fd|]; [|by subst o]. destruct Ho as (x & -> & Hx).
  eapply yields_mono; [exact Hk|]. intros r o (T & W & Hr).
  assert (∀ y, written y [x] = []) as Wx by (intros y; by destruct x).
  split; [|split; [|destruct Hr as [Hr| ->]; [by left|right; cbn; rewrite Hx; by left]]].
  - split; [by destruct x|]. rewrite Hx. exact T.
  - intros y. rewrite written_app, Wx. apply W.
Qed.

Lemma sock_connect_gains path : gains (loraham_sock_connect path).
Proof.
  unfold loraham_sock_connect. destruct (_ =? _); [by apply gains_fail|].
  apply (gains_settled _ _ id).
  - apply yields_socket; [done|]. intros fd _. by eexists.
  - intros [fd|]; cbn; [solve_settles|by apply gains_fail].
Qed.

Lemma accept_gains listen_fd net prefix : gains (lhkt_tcp_server_accept listen_fd net prefix).
Proof.
  unfold lhkt_tcp_server_accept. destruct (listen_fd <? 0); [by apply gains_fail|].
  apply (gains_settled _ _ (λ a, match a with AccPeer fd _ _ => Some fd | _ => None end)).
  - apply yields_accept; [done..|]. intros fd addr port _. by eexists.
  - intros [fd addr port| |]; [solve_settles|by apply gains_fail..].
Qed.

Lemma listen_gains inet_pton host port : gains (lhkt_tcp_server_listen inet_pton host port).
Proof.
  unfold lhkt_tcp_server_listen. destruct (_ || _); [by apply gains_fail|].
  apply (gains_settled _ _ id).
  - apply yields_socket; [done|]. intros fd _. by eexists.
  - intros [fd|]; cbn; [solve_settles|by apply gains_fail].
Qed.

Lemma keeping_gains mine {B} (m : io Z) (k : Z → io B) Q :
  gains m → (∀ fd, fd < 0 → keeping mine (k fd) Q) → (∀ fd, keeping (fd :: mine) (k fd) Q) →
  keeping mine (m ≫= k) Q.
Proof.
  intros Hm Hneg Hpos. eapply yields_bind; [exact Hm|]. intros fd o (T & W & Hfd).
  assert (keeping (omap obtained o ++ mine) (k fd) Q) as Hk.
  { destruct Hfd as [Hfd|Hfd].
    - eapply yields_mono; [by apply Hneg|]. intros b o' (T' & W' & H'). split; [|done].
      eapply tidy_mono; [|exact T']. set_solver.
    - eapply yields_mono; [apply Hpos|]. intros b o' (T' & W' & H'). split; [|done].
      eapply tidy_mono; [|exact T']. set_solver. }
  eapply yields_mono; [exact Hk|]. intros b o' (T' & W' & H'). split; [|split; [|done]].
  - apply tidy_app; [eapply tidy_mono; [|exact T]; set_solver|done].
  - intros x. by rewrite written_app, W, W'.
Qed.

Lemma set_nonblocking_silent fd : silent (bridge_runtime_set_fd_nonblocking fd) (λ _, True).
Proof. unfold bridge_runtime_set_fd_nonblocking. solve_silent. Qed.

Lemma connect_gains path : gains (connect_nonblocking path).
Proof.
  unfold connect_nonblocking. eapply yields_bind; [apply sock_connect_gains|].
  intros fd o (T & W & Hfd). destruct (Z.ltb_spec fd 0) as [Hneg|Hpos].
  { apply yields_ret. rewrite app_nil_r. split; [done|]. split; [done|by left]. }
  destruct Hfd as [Hfd|Hfd]; [lia|].
  eapply yields_silent_bind; [apply set_nonblocking_silent|]. intros ret _. destruct (negb _).
  - eapply yields_bind; [apply (keeping_close [fd]); by left|]. intros [] o' (T' & W' & _).
    apply yields_ret. rewrite app_nil_r. split; [|split; [|by left]].
    + apply tidy_app; [done|]. eapply tidy_mono; [|exact T']. set_solver.
    + intros x. by rewrite written_app, W, W'.
  - apply yields_ret. rewrite app_nil_r. split; [done|]. split; [done|by right].
Qed.

(** ** The DATA connection of a state

    A concatenation of whole frames, each of a packet that may be sent. *)
Definition framed (cfg : lhkt_config_t) (bs : list Z) : Prop :=
  ∃ ps, Forall packet_ok ps ∧ (rx_only cfg ≠ 0 → ps = []) ∧ bs = concat (map tx_frame ps).

Lemma framed_nil cfg : framed cfg [].
Proof. by exists []. Qed.

Lemma framed_app cfg a b : framed cfg a → framed cfg b → framed cfg (a ++ b).
Proof.
  intros (ps & F & R & ->) (qs & G & S & ->). exists (ps ++ qs).
  split; [by apply Forall_app|]. split; [intros H; by rewrite R, S|].
  by rewrite map_app, concat_app.
Qed.

Lemma framed_one cfg p : packet_ok p → rx_only cfg = 0 → framed cfg (tx_frame p).
Proof.
  intros Hp Hrx. exists [p]. split; [by apply Forall_singleton|]. split; [done|].
  cbn. by rewrite app_nil_r.
Qed.

(** The radio listens: the last configuration command on the CONF connection is the
    complete one for the RX frequency; the initial configuration has two more lines. *)
Definition status_lines : list Z := (str "SET TXRESULT=1" ++ [10]) ++ str "GET STATUS" ++ [10].
Definition parked (cfg : lhkt_config_t) (bs : list Z) : Prop :=
  ∃ a b, bs = a ++ rx_line cfg ++ b ∧ (b = [] ∨ b = status_lines).

Lemma parked_parks cfg a b : parked cfg a → parks cfg b → parked cfg (a ++ b).
Proof.
  intros H [->|[c ->]]; [by rewrite app_nil_r|]. exists (a ++ c), []. rewrite app_nil_r, app_assoc. by auto.
Qed.

(** There is an RX frequency to return to. *)
Definition receives_on (cfg : lhkt_config_t) : Prop :=
  have_rx_freq cfg ≠ 0 ∧ double_le0 (rx_freq cfg) = false.

(** The state and the trace: the open descriptors are those of the state and the
    listener, each open once; the DATA connection carries whole frames; while the bridge
    holds the daemon for configured, the radio listens. *)
Record wire (cfg : lhkt_config_t) (listen_fd : Z) (st : bridge_state) (h : list output) : Prop := {
  wi_holds : ∀ x, balance x h = holds st x + holds1 listen_fd x;
  wi_once : ∀ x, balance x h ≤ 1;
  wi_data : 0 ≤ br_data st → framed cfg (since (br_data st) h);
  wi_ok : br_config_ok st = true → 0 ≤ br_conf st;
  wi_conf : receives_on cfg → br_config_ok st = true → parked cfg (since (br_conf st) h);
}.

Definition distinct (st : bridge_state) : Prop :=
  (0 ≤ br_data st → br_client st ≠ br_data st ∧ br_conf st ≠ br_data st) ∧
  (0 ≤ br_conf st → br_client st ≠ br_conf st).

#[global] Instance distinct_dec st : Decision (distinct st).
Proof. unfold distinct. apply _. Defined.

(** What [wire] says of the state alone. *)
Definition sane (st : bridge_state) : Prop := distinct st ∧ (br_config_ok st = true → 0 ≤ br_conf st).

#[global] Instance receives_on_dec cfg : Decision (receives_on cfg).
Proof. unfold receives_on. apply _. Defined.
#[global] Instance sane_dec st : Decision (sane st).
Proof. unfold sane. apply _. Defined.

Lemma holds1_self fd : 0 ≤ fd → holds1 fd fd = 1.
Proof. intros H. unfold holds1. by rewrite (proj2 (Z.leb_le 0 fd)), Z.eqb_refl. Qed.
Lemma holds1_nonneg fd x : 0 ≤ holds1 fd x.
Proof. unfold holds1. by destruct (_ && _). Qed.

Lemma wire_distinct cfg listen_fd st h : wire cfg listen_fd st h → distinct st.
Proof.
  intros [Hh Ho _ _ _].
  assert (∀ x, holds1 (br_client st) x + holds1 (br_data st) x + holds1 (br_conf st) x ≤ 1) as H1.
  { intros x. pose proof (Ho x) as H. rewrite Hh in H. unfold holds in H. pose proof (holds1_nonneg listen_fd x). lia. }
  split; [intros Hd; pose proof (H1 (br_data st)) as H; rewrite (holds1_self (br_data st)) in H by done
         |intros Hc; pose proof (H1 (br_conf st)) as H; rewrite (holds1_self (br_conf st)) in H by done].
  - pose proof (holds1_nonneg (br_client st) (br_data st)). pose proof (holds1_nonneg (br_conf st) (br_data st)).
    split; intros E; rewrite E, holds1_self in * by done; lia.
  - pose proof (holds1_nonneg (br_data st) (br_conf st)). intros E. rewrite E, holds1_self in H by done. lia.
Qed.

Lemma wire_sane cfg listen_fd st h : wire cfg listen_fd st h → sane st.
Proof. intros H. split; [by eapply wire_distinct|]. apply (wi_ok _ _ _ _ H). Qed.

Lemma wire_open cfg listen_fd st h fd :
  wire cfg listen_fd st h → 0 ≤ fd → fd = br_data st ∨ fd = br_conf st → 1 ≤ balance fd h.
Proof.
  intros [Hh _ _ _ _] Hpos Hfd. rewrite Hh. unfold holds. pose proof (holds1_nonneg (br_client st) fd).
  pose proof (holds1_nonneg (br_conf st) fd). pose proof (holds1_nonneg (br_data st) fd).
  pose proof (holds1_nonneg listen_fd fd).
  destruct Hfd as [E|E]; rewrite <-E in *; rewrite holds1_self in * by done; lia.
Qed.

Section wires.
Context (cfg : lhkt_config_t) (listen_fd : Z).

(** [wires get st m]: on a kernel that keeps its promise, [m] leads from [st] to the
    state [get] of its answer. *)
Definition wires {A} (get : A → bridge_state) (st : bridge_state) (m : io A) : Prop :=
  yields m (λ a o, ∀ h, fresh_after h o → wire cfg listen_fd st h → wire cfg listen_fd (get a) (h ++ o)).

Lemma wires_bind {A B} (get1 : A → bridge_state) (get : B → bridge_state) st (m : io A) (k : A → io B) :
  wires get1 st m → (∀ a, wires get (get1 a) (k a)) → wires get st (m ≫= k).
Proof.
  intros Hm Hk. eapply yields_bind; [exact Hm|]. intros a o H1. eapply yields_mono; [apply Hk|].
  intros b o' H2 h Hf Hw. apply fresh_app in Hf as [Hf1 Hf2]. rewrite app_assoc. auto.
Qed.

Lemma wires_bind_known {A B} (P : A → Prop) (get1 : A → bridge_state) (get : B → bridge_state) st
    (m : io A) (k : A → io B) :
  wires get1 st m → yields m (λ a _, P a) → (∀ a, P a → wires get (get1 a) (k a)) → wires get st (m ≫= k).
Proof.
  intros Hm HP Hk. eapply yields_bind; [apply yields_and; [exact Hm|exact HP]|]. intros a o [H1 Ha].
  eapply yields_mono; [by apply Hk|].
  intros b o' H2 h Hf Hw. apply fresh_app in Hf as [Hf1 Hf2]. rewrite app_assoc. auto.
Qed.

(** Two states with the same descriptors. *)
Definition same_fds (st st' : bridge_state) : Prop :=
  br_client st' = br_client st ∧ br_data st' = br_data st ∧ br_conf st' = br_conf st ∧
  (br_config_ok st' = true → br_config_ok st = true).

Lemma wire_same st st' h : same_fds st st' → wire cfg listen_fd st h → wire cfg listen_fd st' h.
Proof.
  intros (E1 & E2 & E3 & E4) [Hh Ho Hd Hok Hc]. split; [|done|by rewrite E2|rewrite E3; auto..].
  intros x. rewrite Hh. unfold holds. congruence.
Qed.

Lemma wires_ret {A} (get : A → bridge_state) st a : same_fds st (get a) → wires get st (mret a).
Proof. intros E. apply yields_ret. intros h _ Hw. rewrite app_nil_r. by eapply wire_same. Qed.

Lemma wires_same {A} (get : A → bridge_state) st st' (m : io A) :
  same_fds st st' → wires get st' m → wires get st m.
Proof.
  intros E H. eapply yields_mono; [exact H|]. intros a o Ho h Hf Hw. apply Ho; [done|].
  by eapply wire_same.
Qed.

Lemma wires_silent {A B} (get : B → bridge_state) st (m : io A) (k : A → io B) (P : A → Prop) :
  silent m P → (∀ a, P a → wires get st (k a)) → wires get st (m ≫= k).
Proof. intros Hm Hk. by eapply yields_silent_bind. Qed.

(** The usual steps. The DATA connection is given up, or gets whole frames; the daemon
    is not held for configured any more, or the CONF connection ends parked. *)
Definition data_kept (P : list Z → Prop) (st st' : bridge_state) (o : list output) : Prop :=
  br_data st' < 0 ∨
  br_data st' = br_data st ∧ tidy [br_client st; br_conf st] o ∧ P (written (br_data st) o).
Definition conf_kept (P : list Z → Prop) (st st' : bridge_state) (o : list output) : Prop :=
  br_config_ok st' = true →
  br_config_ok st = true ∧ br_conf st' = br_conf st ∧ tidy [br_client st] o ∧ P (written (br_conf st) o).
Definition frames_only (st st' : bridge_state) (o : list output) : Prop :=
  data_kept (framed cfg) st st' o ∧ conf_kept (λ bs, receives_on cfg → parks cfg bs) st st' o.

(** Or they are left alone. *)
Definition spares (st st' : bridge_state) (o : list output) : Prop :=
  data_kept (λ bs, bs = []) st st' o ∧ conf_kept (λ bs, bs = []) st st' o.

(** What a connection has carried after a step. *)
Lemma wire_since st h fd mine o :
  wire cfg listen_fd st h → fresh_after h o → 0 ≤ fd → fd = br_data st ∨ fd = br_conf st →
  (fd ∉ mine) → tidy mine o → since fd (h ++ o) = since fd h ++ written fd o.
Proof. intros Hw Hf Hpos Hfd Hm T. eapply since_untouched; [done| |done|done]. by eapply wire_open. Qed.

Lemma wires_frames {A} (get : A → bridge_state) st (m : io A) :
  tracks (λ a, holds (get a)) (holds st) m →
  (sane st → yields m (λ a o, frames_only st (get a) o)) → wires get st m.
Proof.
  intros Ht Hs. destruct (decide (sane st)) as [D|D].
  2: { eapply yields_mono; [exact Ht|]. intros a o _ h _ Hw. by destruct D; eapply wire_sane. }
  eapply yields_mono; [apply yields_and; [exact Ht|by apply Hs]|]. intros a o [Hb [Hdk Hck]] h Hf Hw.
  destruct D as [[D1 D2] D3]. split.
  - intros x. rewrite balance_app, (wi_holds _ _ _ _ Hw), Hb. lia.
  - apply fresh_balance; [apply (wi_once _ _ _ _ Hw)|done].
  - intros Hpos. destruct Hdk as [?|(E & T & W)]; [lia|]. rewrite E in *. destruct (D1 Hpos).
    rewrite (wire_since st h _ [br_client st; br_conf st]) by (done || set_solver || by left).
    apply framed_app; [|done]. by apply (wi_data _ _ _ _ Hw).
  - intros Hok. destruct (Hck Hok) as (Hok0 & -> & _). auto.
  - intros Hrx Hok. destruct (Hck Hok) as (Hok0 & -> & T & W). specialize (D3 Hok0). specialize (D2 D3).
    rewrite (wire_since st h _ [br_client st]) by (done || set_solver || by right).
    apply parked_parks; [|auto]. by apply (wi_conf _ _ _ _ Hw).
Qed.

Lemma wires_step {A} (get : A → bridge_state) st (m : io A) :
  tracks (λ a, holds (get a)) (holds st) m →
  (sane st → yields m (λ a o, spares st (get a) o)) → wires get st m.
Proof.
  intros Ht Hs. apply wires_frames; [done|]. intros D. eapply yields_mono; [by apply Hs|].
  intros a o [Hd Hc]. split.
  - destruct Hd as [H|(E & T & W)]; [by left|right]. rewrite W. split; [done|]. split; [done|apply framed_nil].
  - intros Hok. destruct (Hc Hok) as (? & ? & ? & ->). do 3 (split; [done|]). intros _. by left.
Qed.

(** Calls that only obtain and close. *)
Lemma spares_keeping {A} (get : A → bridge_state) st (m : io A) :
  keeping [br_client st] m (λ a, br_data (get a) = br_data st ∧ br_conf (get a) = br_conf st ∧
    br_config_ok (get a) = br_config_ok st) →
  yields m (λ a o, spares st (get a) o).
Proof.
  intros Hm. eapply yields_mono; [exact Hm|]. intros a o (T & W & E1 & E2 & E3). split.
  - right. split; [done|]. split; [|done]. eapply tidy_mono; [|exact T]. set_solver.
  - unfold conf_kept. rewrite E3. by intros Hok.
Qed.
End wires.

(** ** The parts of a round *)

Lemma disconnect_data_gone fd stats :
  yields (bridge_loraham_disconnect_data_socket fd stats) (λ r _, r.1 < 0).
Proof.
  unfold bridge_loraham_disconnect_data_socket. destruct (Z.ltb_spec fd 0); [by apply yields_ret|].
  eapply yields_bind; [apply (keeping_close [fd]); by left|]. intros [] o _. by apply yields_ret.
Qed.

Lemma drop_data_gone st :
  yields (drop_data st) (λ st' _, br_data st' < 0 ∧ br_config_ok st' = false).
Proof.
  eapply yields_bind; [apply disconnect_data_gone|]. intros [fd stats] o H. by apply yields_ret.
Qed.

Lemma drop_data_spares st st0 : yields (drop_data st) (λ st' o, spares st0 st' o).
Proof.
  eapply yields_mono; [apply drop_data_gone|]. intros st' o [H E]. split; [by left|].
  unfold conf_kept. by rewrite E.
Qed.

Lemma drop_conf_gone st :
  yields (drop_conf st) (λ st' o, (tidy [br_conf st] o ∧ (∀ x, written x o = []) ∧
    br_data st' = br_data st) ∧ br_config_ok st' = false).
Proof.
  apply (yields_mono _ (λ st' o, tidy [br_conf st] o ∧ (∀ x, written x o = []) ∧
    br_data st' = br_data st ∧ br_config_ok st' = false)); [|naive_solver].
  apply (keeping_bind _ _ _ (λ _, True)).
  - unfold bridge_loraham_disconnect_conf_socket. destruct (_ <? _); [by apply keeping_ret|].
    eapply keeping_bind; [apply keeping_close; by left|]. intros [] _. by apply keeping_ret.
  - intros [[fd confst] stats] _. by apply keeping_ret.
Qed.

Lemma drop_conf_spares st : yields (drop_conf st) (λ st' o, spares st st' o).
Proof.
  eapply yields_mono; [apply drop_conf_gone|]. intros st' o [(T & W & E) E2]. split.
  - right. split; [done|]. split; [|done]. eapply tidy_mono; [|exact T]. set_solver.
  - unfold conf_kept. by rewrite E2.
Qed.

Lemma close_client_spares st : yields (close_client st) (λ st' o, spares st st' o).
Proof.
  apply (spares_keeping id). eapply keeping_bind; [apply keeping_close; by left|].
  intros [] _. by apply keeping_ret.
Qed.

Lemma spares_refl st st' :
  br_data st' = br_data st → br_conf st' = br_conf st → br_config_ok st' = br_config_ok st → spares st st' [].
Proof. intros E1 E2 E3. split; [by right|]. unfold conf_kept. by rewrite E3. Qed.

Lemma reconnect_policy_spares ret st : yields (reconnect_policy ret st) (λ st' o, spares st st' o).
Proof.
  unfold reconnect_policy. repeat case_match; [apply drop_data_spares|apply drop_conf_spares|].
  by apply yields_ret, spares_refl.
Qed.

(** A chunk of the framed stream only makes the client see something. *)
Lemma framed_chunk_yields fd buf : ∀ fs stats,
  yields (bridge_rx_handle_framed_chunk fd fs buf stats) (λ _ o, Forall (rx_output fd) o).
Proof.
  induction buf as [|b buf IH]; intros fs stats; cbn [bridge_rx_handle_framed_chunk]; [by apply yields_ret|].
  destruct (loraham_framed_decode_byte fs b) as [fs' [|frame|e]]; [apply IH| |by apply yields_ret].
  eapply yields_bind; [apply framed_frame_yields|]. intros [ret stats'] o [F _].
  destruct (negb _); [apply yields_ret; by rewrite app_nil_r|].
  eapply yields_mono; [apply IH|]. intros r o' F'. by apply Forall_app.
Qed.

(** The initial configuration goes to the CONF socket. *)
Lemma initial_config_yields cfg fd st :
  yields (bridge_loraham_send_initial_config_with_state cfg fd st) (λ _ o, Forall (is_write fd) o).
Proof.
  assert (∀ line (m : io Z) {B} (k : Z → io B), sends fd line m →
    (∀ r, yields (k r) (λ _ o, Forall (is_write fd) o)) → yields (m ≫= k) (λ _ o, Forall (is_write fd) o)) as Hs.
  { intros line m B k Hm Hk. eapply yields_bind; [by eapply yields_sends|]. intros r o [F _].
    eapply yields_mono; [apply Hk|]. intros b o' F'. by apply Forall_app. }
  unfold bridge_loraham_send_initial_config_with_state. destruct (fd <? 0) eqn:Hfd; [by apply yields_ret|].
  apply (Hs (loraham_config_line cfg (if negb (have_rx_freq cfg =? 0) then Some (rx_freq cfg) else None))).
  { unfold loraham_send_config. destruct (negb _);
      [apply loraham_send_config_freq_sends|apply loraham_send_config_line_sends]. }
  intros ret. destruct (negb _); [by apply yields_ret|].
  eapply Hs; [apply loraham_send_txresult_enable_sends|]. intros ret2.
  destruct (negb _); [by apply yields_ret|].
  apply (Hs (str "GET STATUS" ++ [10])); [|intros ret3; by apply yields_ret].
  unfold bridge_loraham_send_status_request. rewrite Hfd. apply sends_write.
Qed.

(** It succeeds only after the complete RX command and the two lines behind it. *)
Lemma initial_config_done cfg fd st :
  yields (bridge_loraham_send_initial_config_with_state cfg fd st)
    (λ r o, r.1 = LHKT_OK → 0 ≤ fd ∧ (have_rx_freq cfg ≠ 0 → written fd o = rx_line cfg ++ status_lines)).
Proof.
  assert (∀ e (s : bridge_conf_state_t) (P : list output → Prop), e ≠ LHKT_OK →
    yields (mret (e, s)) (λ r o, r.1 = LHKT_OK → P o)) as Hfail by (intros e s P He; by apply yields_ret).
  unfold bridge_loraham_send_initial_config_with_state. destruct (Z.ltb_spec fd 0) as [|Hfd]; [by apply Hfail|].
  eapply (yields_bind _ _ (λ r o, r = LHKT_OK → have_rx_freq cfg ≠ 0 → written fd o = rx_line cfg)).
  { unfold loraham_send_config. destruct (Z.eqb_spec (have_rx_freq cfg) 0) as [E|E]; cbn [negb].
    - eapply yields_mono; [apply yields_sends, loraham_send_config_line_sends|]. by intros r o _ _ ?.
    - eapply yields_mono; [apply yields_sends, loraham_send_config_freq_sends|].
      intros r o [_ [[_ H]|[Hr _]]] ->; [done|by unfold LHKT_OK in Hr]. }
  intros ret o1 H1. destruct (Z.eqb_spec ret LHKT_OK) as [->|]; cbn [negb]; [|by apply Hfail].
  eapply yields_bind; [apply yields_sends, loraham_send_txresult_enable_sends|]. intros ret2 o2 [_ H2].
  destruct (Z.eqb_spec ret2 LHKT_OK) as [->|]; cbn [negb]; [|by apply Hfail].
  destruct H2 as [[_ H2]|[H2 _]]; [|by unfold LHKT_OK in H2].
  eapply (yields_bind _ _ (λ r o, r = LHKT_OK ∧ written fd o = str "GET STATUS" ++ [10] ∨ r < 0)).
  { unfold bridge_loraham_send_status_request. rewrite (proj2 (Z.ltb_ge _ _)) by done.
    eapply yields_mono; [apply yields_sends, sends_write|]. intros r o [_ [H|[H _]]]; auto. }
  intros ret3 o3 H3. apply yields_ret. cbn [fst]. intros E. split; [done|]. intros Hrx.
  destruct (Z.eqb_spec ret3 LHKT_OK) as [->|]; [|done].
  destruct H3 as [[_ H3]|H3]; [|by unfold LHKT_OK in H3].
  rewrite app_nil_r, !written_app, H1, H2, H3 by done. done.
Qed.

Lemma collect_cad_fds st :
  br_client (collect_cad st) = br_client st ∧ br_data (collect_cad st) = br_data st ∧
  br_conf (collect_cad st) = br_conf st ∧ br_config_ok (collect_cad st) = br_config_ok st.
Proof. unfold collect_cad. by destruct (bridge_conf_collect_cad_stats _ _) as [[? ?] ?]. Qed.

Section steps.
Context (cfg : lhkt_config_t) (listen_fd : Z).
Abbreviation wired st m := (wires cfg listen_fd id st m).
Abbreviation wired_flow st m := (wires cfg listen_fd (λ r : flow * bridge_state, r.2) st m).

Lemma close_client_wired st : wired st (close_client st).
Proof. apply wires_step; [apply close_client_keeps|]. intros _. apply close_client_spares. Qed.
Lemma drop_data_wired st : wired st (drop_data st).
Proof. apply wires_step; [apply drop_data_keeps|]. intros _. apply drop_data_spares. Qed.
Lemma drop_conf_wired st : wired st (drop_conf st).
Proof. apply wires_step; [apply drop_conf_keeps|]. intros _. apply drop_conf_spares. Qed.
Lemma reconnect_policy_wired ret st : wired st (reconnect_policy ret st).
Proof. apply wires_step; [apply reconnect_policy_keeps|]. intros _. apply reconnect_policy_spares. Qed.

(** A step of the state in a flow. *)
Lemma wired_then st (m : io bridge_state) f : wired st m → wired_flow st (st' ← m; mret (f, st')).
Proof. intros H. eapply wires_bind; [exact H|]. intros st'. by apply wires_ret. Qed.

Lemma choose_timeout_wired st : wires cfg listen_fd fst st (choose_timeout cfg st).
Proof.
  unfold choose_timeout. eapply (wires_bind _ _ fst); [|intros [st' t]; by apply wires_ret].
  destruct (_ <? _); [|by apply wires_ret]. eapply wires_silent; [apply silent_now|]. intros now _.
  destruct (stats_timeout _ _ _ _) as [next t]. by apply wires_ret.
Qed.

Lemma accept_step_wired ready st : wired_flow st (accept_step cfg listen_fd ready st).
Proof.
  apply wires_step; [apply accept_step_keeps|]. intros _. apply (spares_keeping (λ r : flow * bridge_state, r.2)).
  unfold accept_step. destruct (_ && _); [|by apply keeping_ret].
  apply keeping_gains; [apply accept_gains| |]; intros fd.
  - intros Hfd. rewrite (proj2 (Z.ltb_lt _ _) Hfd). destruct (_ =? _); [by apply keeping_ret|].
    eapply keeping_bind; [apply keeping_silent, bridge_runtime_sleep_ms_silent|]. intros ret _.
    by apply keeping_ret.
  - destruct (_ =? _); [by apply keeping_ret|]. destruct (_ <? _).
    { eapply keeping_bind; [apply keeping_silent, bridge_runtime_sleep_ms_silent|]. intros ret _.
      by apply keeping_ret. }
    eapply keeping_bind; [apply keeping_silent, set_nonblocking_silent|]. intros ret _.
    destruct (negb _); [|by apply keeping_ret].
    eapply keeping_bind; [apply keeping_close; by left|]. intros [] _. by apply keeping_ret.
Qed.

Lemma client_bytes_wired bs : ∀ st, wired st (client_bytes cfg bs st).
Proof.
  induction bs as [|b bs IH]; intros st; cbn [client_bytes]; [by apply wires_ret|].
  destruct (kiss_decode_byte (br_dec st) b) as [dec [|frame|e]].
  1,3: by eapply wires_same; [|apply IH].
  eapply wires_silent; [apply silent_now|]. intros now _.
  destruct (bridge_kiss_handle_frame _ _ _ _ _ _) as [[[ret params] stats] queue].
  eapply wires_same; [|eapply wires_bind; [apply reconnect_policy_wired|intros st'; apply IH]]; done.
Qed.

Lemma client_step_wired ready st : wired_flow st (client_step cfg ready st).
Proof.
  unfold client_step. destruct (_ && _); [|by apply wires_ret].
  eapply wires_silent; [apply silent_read|]. intros [[|b bs]|[]] _; try by apply wires_ret.
  - by eapply wires_same; [|apply wired_then, close_client_wired].
  - apply wired_then, client_bytes_wired.
  - apply wired_then, close_client_wired.
Qed.

Lemma conf_step_wired ready st : wired_flow st (conf_step ready st).
Proof.
  unfold conf_step. destruct (_ && _); [|by apply wires_ret].
  eapply wires_silent; [apply bridge_conf_read_available_silent|]. intros [ret confst] _.
  destruct (negb _); [by eapply wires_same; [|apply wired_then, drop_conf_wired]|].
  apply wires_ret. unfold same_fds. cbn [snd]. by destruct (collect_cad_fds (set_conf (br_conf st) confst st))
    as (-> & -> & -> & ->).
Qed.

Lemma data_step_wired ready st : wired_flow st (data_step ready st).
Proof.
  unfold data_step. destruct (Z.leb_spec 0 (br_data st)) as [Hd|]; cbn [andb]; [|by apply wires_ret].
  destruct (bool_decide _); [|by apply wires_ret].
  eapply wires_silent; [apply loraham_sock_read_silent|].
  intros [[|b bs]|[]] _; try by apply wired_then, drop_data_wired. 2: { by apply wires_ret. }
  eapply (wires_bind _ _ (λ _, st)).
  - apply wires_step.
    { eapply yields_mono; [apply fdless_framed_chunk|]. intros r o F x. rewrite balance_no_fd by done. lia. }
    intros [[D1 D2] D3]. eapply yields_mono; [apply yields_and; [apply framed_chunk_yields|apply fdless_framed_chunk]|].
    intros r o [F F']. split.
    + right. split; [done|]. split; [by apply tidy_fdless|].
      apply (rx_output_written (br_client st)), F. by destruct (D1 Hd).
    + intros Hok. do 2 (split; [done|]). split; [by apply tidy_fdless|].
      apply (rx_output_written (br_client st)), F. auto.
  - intros [[ret frames] stats]. cbv zeta. destruct (should_disconnect_kiss_client ret).
    { by eapply wires_same; [|apply wired_then, close_client_wired]. }
    destruct (ret <? 0); [by eapply wires_same; [|apply wired_then, drop_data_wired]|by apply wires_ret].
Qed.

(** The configuration of the daemon; [get] is what the caller makes of the answer. *)
Lemma send_initial_config_wired (get : bool * bridge_state → bridge_state) st :
  (∀ ok confst, let st' := get (ok, set_conf (br_conf st) confst st) in
     br_client st' = br_client st ∧ br_data st' = br_data st ∧ br_conf st' = br_conf st ∧
     (br_config_ok st' = true → ok = true)) →
  wires cfg listen_fd get st (send_initial_config cfg st).
Proof.
  intros Hget. eapply yields_bind; [apply yields_and; [apply initial_config_yields|
    apply yields_and; [apply fdless_initial_config|apply initial_config_done]]|].
  intros [ret confst] o (F & F' & Hdone). apply yields_ret. rewrite app_nil_r. intros h Hf Hw.
  destruct (Hget (ret =? LHKT_OK) confst) as (E1 & E2 & E3 & E4). cbn [fst] in Hdone.
  destruct (wire_distinct _ _ _ _ Hw) as [D _]. split.
  - intros x. rewrite balance_app, (wi_holds _ _ _ _ Hw), (balance_no_fd x o) by done.
    unfold holds. rewrite E1, E2, E3. lia.
  - apply fresh_balance; [apply (wi_once _ _ _ _ Hw)|done].
  - rewrite E2. intros Hpos. destruct (D Hpos) as [_ Hne].
    rewrite (wire_since cfg listen_fd st h _ []);
      [|done|done|done|by left|apply not_elem_of_nil|by apply tidy_fdless].
    rewrite (writes_other (br_conf st)), app_nil_r by done. by apply (wi_data _ _ _ _ Hw).
  - rewrite E3. intros Hok%E4%Z.eqb_eq. by apply Hdone.
  - rewrite E3. intros [Hrx _] Hok%E4%Z.eqb_eq. destruct (Hdone Hok) as [Hpos W].
    rewrite (wire_since cfg listen_fd st h _ []);
      [|done|done|done|by right|apply not_elem_of_nil|by apply tidy_fdless].
    rewrite W by done. eexists _, _. by split; [|right].
Qed.

(** A new CONF connection, where there was none. *)
Lemma connect_conf_wired path confst st :
  br_conf st < 0 →
  wires cfg listen_fd (λ fd, set_conf fd confst st) st (connect_nonblocking path).
Proof.
  intros Hc. apply wires_step.
  - eapply yields_mono; [apply connect_acquires|]. intros fd o E x. rewrite E. unfold holds. cbn.
    rewrite (holds1_neg (br_conf st)) by done. unfold holds1. lia.
  - intros [_ D]. eapply yields_mono; [apply connect_gains|]. intros fd o (T & W & _). split.
    + right. split; [done|]. split; [|done]. eapply tidy_mono; [|exact T]. set_solver.
    + intros Hok. specialize (D Hok). lia.
Qed.

(** A new DATA connection starts with nothing written. *)
Lemma connect_data_wired path frames st :
  br_data st < 0 →
  wires cfg listen_fd (λ fd, set_data fd frames st) st (connect_nonblocking path).
Proof.
  intros Hd. eapply yields_mono; [apply yields_and; [apply connect_acquires|apply connect_gains]|].
  intros fd o (E & T & W & Hfd) h Hf Hw. split.
  - intros x. rewrite balance_app, (wi_holds _ _ _ _ Hw), E. unfold holds. cbn.
    rewrite (holds1_neg (br_data st)) by done. unfold holds1. lia.
  - apply fresh_balance; [apply (wi_once _ _ _ _ Hw)|done].
  - intros Hpos. cbn in *. destruct Hfd as [Hfd|Hfd]; [lia|]. rewrite since_new by done. apply framed_nil.
  - apply (wi_ok _ _ _ _ Hw).
  - cbn. intros Hrx Hok. pose proof (wi_ok _ _ _ _ Hw Hok) as Hpos.
    rewrite (wire_since cfg listen_fd st h _ []); [|done|done|done|by right|apply not_elem_of_nil|done].
    rewrite W, app_nil_r. by apply (wi_conf _ _ _ _ Hw).
Qed.

Lemma idle_step_wired st : wired st (idle_step cfg st).
Proof.
  unfold idle_step. destruct (Z.ltb_spec (br_conf st) 0) as [Hc|Hc].
  { eapply (wires_bind _ _ (λ r, set_conf r.1 (br_confst st) st)).
    - unfold bridge_loraham_connect_conf_socket.
      eapply wires_bind; [by apply (connect_conf_wired _ (br_confst st))|]. intros fd. by apply wires_ret.
    - intros [fd confst]. by apply wires_ret. }
  destruct (Z.ltb_spec (br_data st) 0) as [Hd|Hd].
  { eapply wires_bind; [by apply (connect_data_wired _ (br_frames st))|]. intros fd.
    destruct (0 <=? fd); [|by apply wires_ret].
    match goal with |- context [send_initial_config cfg ?s] => apply (wires_same _ _ _ _ s); [done|] end.
    eapply (wires_bind _ _ (λ r, set_config_ok r.1 r.2)); [by apply send_initial_config_wired|].
    intros [ok st']. by apply wires_ret. }
  destruct (br_config_ok st) eqn:Hok; cbn [negb]; [by apply wires_ret|].
  eapply (wires_bind_known _ _ (λ r, br_config_ok r.2 = false) (λ r, set_config_ok r.1 r.2)).
  - by apply send_initial_config_wired.
  - eapply yields_mono; [apply send_initial_config_same|]. by intros [ok st'] o [_ [confst ->]].
  - intros [[] st'] E; apply wires_ret; [done|]. unfold same_fds. cbn in *. by rewrite E.
Qed.

(** Without one of the daemon's sockets the drain only drops packets. *)
Lemma drain_idle client data conf d :
  data < 0 ∨ conf < 0 →
  yields (bridge_loraham_tx_queue_drain_with_client cfg client data conf d) (λ _ o, o = []).
Proof.
  intros Hneg. apply (yields_loop _ (λ _ o, o = [])); [done|]. intros [q e] o ->.
  apply (yields_mono _ (λ _ o', o' = [])); [|by intros [?|?] ? ->]. unfold drain_round. cbn [dr_queue dr_env].
  destruct (bridge_tx_queue_head q) as [item|]; [|by apply yields_ret].
  eapply (yields_silent_bind _ _ (λ _, True)).
  { destruct (0 <=? conf); [apply bridge_conf_read_available_silent|by apply silent_ret]. }
  intros [ret st] _. destruct (negb (ret =? LHKT_OK)); [by apply yields_ret|].
  destruct (_ && _); [by apply yields_ret|]. destruct (_ && _); [by apply yields_ret|].
  eapply yields_silent_bind; [apply silent_now|]. intros now _.
  destruct (bridge_tx_head_decision _ _ _ _) as [[] item']; try by apply yields_ret.
  destruct (Z.ltb_spec data 0); [by apply yields_ret|]. destruct (Z.ltb_spec conf 0); [by apply yields_ret|lia].
Qed.

(** What the drain leaves to the code behind it: complete frames, or a torn one and the
    return code of a broken data socket. *)
Lemma drain_frames st :
  bridge_inv cfg st → distinct st →
  yields (bridge_loraham_tx_queue_drain_with_client cfg (br_client st) (br_data st) (br_conf st)
      (DrainState (br_queue st) (TxEnv (br_stats st) (br_confst st) (Some (br_frames st)))))
    (λ r o, framed cfg (written (br_data st) o) ∨ r.1 = LHKT_ERR_TX_SOCKET).
Proof.
  intros H [Dd Dc]. destruct (Z.ltb_spec (br_data st) 0) as [|Hd];
    [eapply yields_mono; [apply drain_idle; by left|intros r o ->; left; apply framed_nil]|].
  destruct (Z.ltb_spec (br_conf st) 0) as [|Hc];
    [eapply yields_mono; [apply drain_idle; by right|intros r o ->; left; apply framed_nil]|].
  destruct (Dd Hd) as [D1 D2]. eapply yields_mono.
  { eapply drain_yields; [exact D2|by apply Dc|exact D1|done|apply (bi_queue _ _ H)]. }
  intros [ret d] o (_ & dropped & rest & Ep & Ho). cbn [dr_queue fst] in *.
  destruct Ho as [(-> & _)|(p & rest' & -> & Ho)]; [left; apply framed_nil|].
  destruct Ho as [[_ W]|(_ & _ & _ & [W|W])]; [left|left|by right].
  - rewrite W. apply framed_one.
    + pose proof (qi_packets _ _ (bi_queue _ _ H)) as F. rewrite Ep in F.
      apply Forall_app in F as [_ F]. by apply Forall_cons in F as [F _].
    + destruct (Z.eq_dec (rx_only cfg) 0) as [|Hrx]; [done|].
      rewrite (qi_rx_only _ _ (bi_queue _ _ H) Hrx) in Ep. by destruct dropped.
  - rewrite W. apply framed_nil.
Qed.

(** On the CONF socket: parked, or a return code that drops a connection. *)
Lemma drain_parking st :
  distinct st → receives_on cfg →
  yields (bridge_loraham_tx_queue_drain_with_client cfg (br_client st) (br_data st) (br_conf st)
      (DrainState (br_queue st) (TxEnv (br_stats st) (br_confst st) (Some (br_frames st)))))
    (λ r o, parking cfg (br_conf st) r.1 o).
Proof.
  intros [Dd Dc] [Hrx Hfreq].
  destruct (Z.ltb_spec (br_data st) 0) as [|Hd];
    [eapply yields_mono; [apply drain_idle; by left|intros r o ->; right; by left]|].
  destruct (Z.ltb_spec (br_conf st) 0) as [|Hc];
    [eapply yields_mono; [apply drain_idle; by right|intros r o ->; right; by left]|].
  destruct (Dd Hd) as [_ D]. apply drain_parks; [done|done|done|by apply Dc|by eexists].
Qed.

(** What the main loop does with the return code of the drain. *)
Lemma after_drain ret st :
  yields (if bridge_loraham_should_reconnect_data_socket ret ||
             bridge_loraham_should_reconnect_conf_socket ret then reconnect_policy ret st
          else if should_disconnect_kiss_client ret then close_client st
          else mret st)
    (λ st' o, spares st st' o ∧ (ret = LHKT_ERR_TX_SOCKET → br_data st' < 0) ∧
              (drops_daemon ret → br_config_ok st' = false)).
Proof.
  unfold drops_daemon, reconnect_policy.
  destruct (bridge_loraham_should_reconnect_data_socket ret) eqn:Ed; cbn [orb].
  { eapply yields_mono; [apply yields_and; [apply drop_data_gone|apply (drop_data_spares st st)]|]. naive_solver. }
  assert (ret ≠ LHKT_ERR_TX_SOCKET) as Hne by (by intros ->).
  destruct (bridge_loraham_should_reconnect_conf_socket ret) eqn:Ec.
  { eapply yields_mono; [apply yields_and; [apply drop_conf_gone|apply drop_conf_spares]|]. naive_solver. }
  eapply (yields_mono _ (λ st' o, spares st st' o)); [|naive_solver].
  destruct (should_disconnect_kiss_client ret); [apply close_client_spares|].
  by apply yields_ret, spares_refl.
Qed.

Lemma drain_step_wired st : bridge_inv cfg st → wired st (drain_step cfg st).
Proof.
  intros H. apply wires_frames; [apply drain_step_keeps|]. intros [D _]. unfold drain_step.
  assert (yields (bridge_loraham_tx_queue_drain_with_client cfg (br_client st) (br_data st) (br_conf st)
      (DrainState (br_queue st) (TxEnv (br_stats st) (br_confst st) (Some (br_frames st)))))
    (λ r o, receives_on cfg → parking cfg (br_conf st) r.1 o)) as Hp.
  { destruct (decide (receives_on cfg)) as [R|R].
    - eapply yields_mono; [by apply drain_parking|]. by intros.
    - eapply yields_mono; [apply fdless_drain|]. by intros. }
  eapply yields_bind; [apply yields_and; [by apply drain_frames|apply yields_and; [apply fdless_drain|exact Hp]]|].
  intros [ret d] o (Hw & F & Hpark). cbv zeta. cbn [fst] in Hw, Hpark. clear Hp.
  eapply yields_bind; [apply after_drain|]. intros st' o' ([Hd Hc] & Hgone & Hoff).
  apply yields_ret. rewrite app_nil_r. unfold frames_only, data_kept, conf_kept in *.
  destruct (collect_cad_fds st') as (_ & Ed & Ec & Eok). cbn [id]. rewrite Ed, Ec, Eok.
  match goal with _ : context [br_data st' = br_data ?s] |- _ => change (br_data s) with (br_data st) in *;
    change (br_client s) with (br_client st) in *; change (br_conf s) with (br_conf st) in *;
    change (br_config_ok s) with (br_config_ok st) in * end.
  split.
  - destruct Hw as [Hw|Hw]; [|left; auto]. destruct Hd as [Hd|(E & T & W)]; [by left|right].
    split; [exact E|]. split; [apply tidy_app; [by apply tidy_fdless|]|].
    + eapply tidy_mono; [|exact T]. set_solver.
    + rewrite written_app, W. apply framed_app; [exact Hw|apply framed_nil].
  - intros Hok. destruct (Hc Hok) as (Hok0 & E & T & W). do 2 (split; [done|]).
    split; [apply tidy_app; [by apply tidy_fdless|eapply tidy_mono; [|exact T]; set_solver]|].
    intros R. rewrite written_app, W, app_nil_r. destruct (Hpark R) as [Hr|Hr]; [|done].
    by rewrite (Hoff Hr) in Hok.
Qed.

Lemma andthen_wired st m k :
  wired_flow st m → (∀ st', wired_flow st' (k st')) → wired_flow st (andthen m k).
Proof.
  intros Hm Hk. eapply wires_bind; [exact Hm|]. intros [[] st']; [apply Hk|by apply wires_ret..].
Qed.

Lemma bridge_round_wired st : bridge_inv cfg st → wired_flow st (bridge_round cfg listen_fd st).
Proof.
  intros H. eapply wires_bind; [by apply drain_step_wired|]. intros st1. cbn [id].
  destruct (wait_set listen_fd st1) as [[fds max_fd]|]; [|by apply wires_ret].
  eapply wires_bind; [apply choose_timeout_wired|]. intros [st2 [sec usec]]. cbn [fst].
  eapply wires_silent; [apply silent_poll|]. intros [ready| |[]] _; try by apply wires_ret.
  - apply andthen_wired; [apply accept_step_wired|]. intros st3.
    apply andthen_wired; [apply client_step_wired|]. intros st4.
    apply andthen_wired; [apply conf_step_wired|apply data_step_wired].
  - apply wired_then, idle_step_wired.
Qed.
End steps.

(** The start: no listener yet. *)
Lemma bridge_start_wired cfg stats :
  yields (bridge_start cfg stats) (λ st o, fresh o → wire cfg (-1) st o).
Proof.
  unfold bridge_start. cbv zeta.
  match goal with |- context [set_conf _ _ ?s] => set (st0 := s) end.
  assert (wire cfg (-1) st0 []) as H0.
  { split; [|done|by cbn|done|done]. intros x. unfold holds. cbn. by rewrite !holds1_neg. }
  apply (yields_mono _ (λ st o, ∀ h, fresh_after h o → wire cfg (-1) st0 h → wire cfg (-1) st (h ++ o))).
  2: { intros st o H Hf. by apply (H []). }
  eapply (wires_bind _ _ (λ r, set_conf r.1 (br_confst st0) st0)).
  { unfold bridge_loraham_connect_conf_socket.
    eapply wires_bind; [by apply (connect_conf_wired _ _ _ (br_confst st0))|]. intros fd. by apply wires_ret. }
  intros [conf_fd confst]. cbn [fst]. apply (wires_same _ _ _ _ (set_conf conf_fd confst st0)); [done|].
  eapply (wires_bind_known _ _ (λ r, br_data r.2 < 0) (λ r, set_config_ok r.1 r.2)).
  - by apply send_initial_config_wired.
  - eapply yields_mono; [apply send_initial_config_same|]. by intros [ok st'] o [_ [confst' ->]].
  - intros [ok st'] Hd. cbn [fst snd] in *.
    eapply wires_bind; [by apply (connect_data_wired _ _ _ (br_frames (set_config_ok ok st')))|].
    intros fd. by apply wires_ret.
Qed.

Lemma safe_listen inet_pton host port : safe (lhkt_tcp_server_listen inet_pton host port) (λ _, True).
Proof. unfold lhkt_tcp_server_listen. solve_safe. Qed.

(** Calls of which only the trace matters. *)
Lemma close_runs fd : yields (lhkt_tcp_server_close fd) (λ _ _, True).
Proof. eapply yields_mono; [apply (keeping_close [fd]); by left|done]. Qed.

Lemma accept_runs listen_fd net prefix : yields (lhkt_tcp_server_accept listen_fd net prefix) (λ _ _, True).
Proof. eapply yields_mono; [apply accept_acquires|done]. Qed.

Lemma connect_runs path : yields (connect_nonblocking path) (λ _ _, True).
Proof. eapply yields_mono; [apply connect_gains|done]. Qed.

(** ** The whole process

    The states at the beginning of a round, with the trace up to there. The environment
    of a round is a new world with the old trace; as in [reachable], all that is asked
    of it is that it delivers bytes. *)
Inductive history (inet_pton : list Z → option Z) (cfg : lhkt_config_t) (listen_fd : Z) :
    bridge_state → list output → Prop :=
  | history_start stats w st w1 w2 :
      reads_ok w → w_out w = [] → bridge_start cfg stats w = Some (st, w1) →
      lhkt_tcp_server_listen inet_pton (kiss_host cfg) (kiss_port cfg) w1 = Some (listen_fd, w2) →
      0 ≤ listen_fd → history inet_pton cfg listen_fd st (w_out w2)
  | history_round st h w f st' w' :
      history inet_pton cfg listen_fd st h → reads_ok w → w_out w = h →
      bridge_round cfg listen_fd st w = Some ((f, st'), w') →
      history inet_pton cfg listen_fd st' (w_out w').

Lemma yields_elim {A} (m : io A) Q w a w' :
  yields m Q → m w = Some (a, w') → ∃ o, w_out w' = w_out w ++ o ∧ Q a o.
Proof. intros H E. destruct (wp_elim _ _ _ _ _ (H w) E) as (o & Ho & _ & HQ). by exists o. Qed.

Lemma history_reachable inet_pton cfg listen_fd st h :
  history inet_pton cfg listen_fd st h → reachable cfg listen_fd st.
Proof.
  induction 1 as [stats w st w1 w2 Hw _ E _ _|st h w f st' w' _ IH Hw _ E].
  - by eapply reach_start.
  - by eapply reach_round.
Qed.

(** The listener joins the open descriptors. *)
Lemma wire_listen cfg listen_fd st h o :
  (∀ x, balance x o = if (0 <=? listen_fd) && (listen_fd =? x) then 1 else 0) →
  tidy [] o → (∀ x, written x o = []) → fresh_after h o →
  wire cfg (-1) st h → wire cfg listen_fd st (h ++ o).
Proof.
  intros E T W Hf Hw.
  assert (∀ fd, 0 ≤ fd → fd = br_data st ∨ fd = br_conf st → since fd (h ++ o) = since fd h) as Hs.
  { intros fd Hpos Hfd. rewrite (wire_since cfg (-1) st h fd []); [|done|done|done|done|apply not_elem_of_nil|done].
    by rewrite W, app_nil_r. }
  pose proof (wi_ok _ _ _ _ Hw) as Hok. split; [| | | |].
  - intros x. rewrite balance_app, (wi_holds _ _ _ _ Hw), E, (holds1_neg (-1)) by done. unfold holds1. lia.
  - apply fresh_balance; [apply (wi_once _ _ _ _ Hw)|done].
  - intros Hpos. rewrite Hs by auto. by apply (wi_data _ _ _ _ Hw).
  - done.
  - intros R Hc. rewrite Hs by auto. by apply (wi_conf _ _ _ _ Hw).
Qed.

Lemma history_wire inet_pton cfg listen_fd st h :
  history inet_pton cfg listen_fd st h → fresh h → wire cfg listen_fd st h.
Proof.
  induction 1 as [stats w st w1 w2 Hw Hw0 E El _|st h w f st' w' H IH Hw Hh E]; intros Hf.
  - destruct (yields_elim _ _ _ _ _ (bridge_start_wired cfg stats) E) as (o1 & E1 & H1).
    destruct (yields_elim _ _ _ _ _ (yields_and _ _ _ (listen_acquires inet_pton (kiss_host cfg) (kiss_port cfg))
      (listen_gains inet_pton (kiss_host cfg) (kiss_port cfg))) El) as (o2 & E2 & B & T & W & _).
    rewrite E2, E1, Hw0 in *. cbn [app] in *. apply fresh_app in Hf as [Hf1 Hf2].
    by apply wire_listen; [..|apply H1].
  - pose proof (reachable_inv _ _ _ (history_reachable _ _ _ _ _ H)) as Hinv.
    destruct (yields_elim _ _ _ _ _ (bridge_round_wired cfg listen_fd st Hinv) E) as (o & Eo & Ho).
    rewrite Eo, Hh in *. apply fresh_app in Hf as [Hf1 Hf2]. by apply Ho; [|apply IH].
Qed.

Lemma bridge_loop_history inet_pton cfg listen_fd st w :
  history inet_pton cfg listen_fd st (w_out w) → reads_ok w →
  wp (bridge_loop cfg listen_fd st) (λ st' w', history inet_pton cfg listen_fd st' (w_out w')) w.
Proof.
  intros H Hw. apply (wp_loop _ (λ st w, reads_ok w ∧ history inet_pton cfg listen_fd st (w_out w))); [|done].
  clear st w H Hw. intros st w [Hw H]. apply wp_bind, wp_intro. intros stop w1 E.
  destruct (safe_elim _ _ _ _ _ safe_should_stop Hw E) as [Hw1 _].
  destruct (yields_elim _ _ _ _ _ (yields_silent _ _ silent_should_stop) E) as (? & Eo & -> & _).
  rewrite app_nil_r in Eo. destruct stop; [apply wp_ret; by rewrite Eo|].
  apply wp_bind, wp_intro. intros [f st'] w2 E2.
  destruct (safe_elim _ _ _ _ _ (bridge_round_inv cfg listen_fd st
    (reachable_inv _ _ _ (history_reachable _ _ _ _ _ H))) Hw1 E2) as [Hw2 _].
  rewrite <-Eo in H. pose proof (history_round _ _ _ _ _ _ _ _ _ H Hw1 eq_refl E2) as H2.
  apply wp_ret. by destruct f.
Qed.

(** The daemon's view: a decoder of the framed stream. *)
Lemma framed_decodes ps :
  Forall packet_ok ps →
  loraham_framed_decode loraham_framed_rx_state_init (concat (map tx_frame ps)) =
    (loraham_framed_rx_state_init, map (λ p, Frame (LoraFrame LORAHAM_FRAME_TX_PACKET p)) ps).
Proof.
  intros F. pose proof (framed_decode_stream (map (LoraFrame LORAHAM_FRAME_TX_PACKET) ps)) as H.
  rewrite !map_map in H. apply H. apply Forall_map, (Forall_impl _ _ _ F).
  intros p (f & _ & _ & Hl & ->). cbn [lf_payload]. rewrite length_app.
  change (length loraham_hdr) with 3%nat. unfold LHKT_FRAMED_MAX_PAYLOAD. lia.
Qed.

(** [lhkt_bridge_run] up to the end of its loop, with the listener and the state there,
    is such a history. *)
Definition run_to_stop (inet_pton : list Z → option Z) (cfg : lhkt_config_t) (stats : lhkt_stats_t) :
    io (Z * bridge_state) :=
  st ← bridge_start cfg stats;
  listen_fd ← lhkt_tcp_server_listen inet_pton (kiss_host cfg) (kiss_port cfg);
  st ← bridge_loop cfg listen_fd st;
  mret (listen_fd, st).

Lemma run_to_stop_history inet_pton cfg stats w listen_fd st w' :
  reads_ok w → w_out w = [] → 0 ≤ listen_fd →
  run_to_stop inet_pton cfg stats w = Some ((listen_fd, st), w') →
  history inet_pton cfg listen_fd st (w_out w').
Proof.
  intros Hw Hw0 Hl E. unfold run_to_stop, mbind, io_bind in E.
  destruct (bridge_start cfg stats w) as [[st0 w1]|] eqn:E1; [|done].
  destruct (lhkt_tcp_server_listen _ _ _ w1) as [[l w2]|] eqn:E2; [|done].
  destruct (bridge_loop cfg l st0 w2) as [[st1 w3]|] eqn:E3; [|done]. injection E as -> -> ->.
  destruct (safe_elim _ _ _ _ _ (bridge_start_inv _ _) Hw E1) as [Hw1 _].
  destruct (safe_elim _ _ _ _ _ (safe_listen _ _ _) Hw1 E2) as [Hw2 _].
  refine (wp_elim _ _ _ _ _ (bridge_loop_history inet_pton _ _ _ _ _ Hw2) E3).
  by eapply (history_start _ _ _ _ w).
Qed.

(** C6. The DATA stream is never torn. Take any run of the process, from its start,
    against any environment that delivers bytes and any kernel that does not hand out
    a descriptor that is open, and stop it at the beginning of any round: if the bridge
    has a DATA connection then, everything it ever wrote to that connection is a
    sequence of complete TX frames, each of a LoRa-APRS packet of a well-formed AX.25
    frame, and none in receive-only mode. A daemon that decodes the stream gets exactly
    these packets and is at a frame boundary: whatever failed on the way (short
    writes, timeouts, lost clients, failing retunes), a torn frame only ever stands at
    the end of a connection that was closed at once. The three connections of the
    state are different descriptors. And [bridge_loop] goes through such states only. *)
Theorem data_stream_intact inet_pton cfg listen_fd st h
    (Hh : history inet_pton cfg listen_fd st h) (Hfresh : fresh h) :
  distinct st ∧
  (0 ≤ br_data st → ∃ ps, Forall packet_ok ps ∧ (rx_only cfg ≠ 0 → ps = []) ∧
     since (br_data st) h = concat (map tx_frame ps) ∧
     loraham_framed_decode loraham_framed_rx_state_init (since (br_data st) h) =
       (loraham_framed_rx_state_init, map (λ p, Frame (LoraFrame LORAHAM_FRAME_TX_PACKET p)) ps)) ∧
  (∀ w, reads_ok w → w_out w = h →
     wp (bridge_loop cfg listen_fd st) (λ st' w', history inet_pton cfg listen_fd st' (w_out w')) w).
Proof.
  pose proof (history_wire _ _ _ _ _ Hh Hfresh) as H. split; [by eapply wire_distinct|]. split.
  - intros Hd. destruct (wi_data _ _ _ _ H Hd) as (ps & F & R & E). exists ps. split; [done|].
    split; [done|]. split; [done|]. rewrite E. by apply framed_decodes.
  - intros w Hw Ew. apply bridge_loop_history; [by rewrite Ew|done].
Qed.

(** C8. The radio is parked. In the same runs, at the beginning of every round: as long
    as the bridge holds the daemon for configured, there is a CONF connection and the
    last configuration command on it is the complete one for the RX frequency, with
    nothing behind it or only the two requests that end the initial configuration. So
    no transmission, however it ended (refused, unconfirmed, cut short by a dead socket
    or by the client), leaves the radio on the TX frequency without the bridge knowing:
    a restore that failed makes it drop a connection and configure the daemon again.
    What stands before the command may end with the remains of an attempt that failed
    (BridgeGaps); after whole lines the command is a line of its own. *)
Theorem radio_parked inet_pton cfg listen_fd st h
    (Hh : history inet_pton cfg listen_fd st h) (Hfresh : fresh h)
    (Hrx : have_rx_freq cfg ≠ 0) (Hfreq : double_le0 (rx_freq cfg) = false)
    (Hok : br_config_ok st = true) :
  0 ≤ br_conf st ∧
  ∃ a b, since (br_conf st) h = a ++ rx_line cfg ++ b ∧
    (b = [] ∨ b = str "SET TXRESULT=1" ++ [10] ++ str "GET STATUS" ++ [10]).
Proof.
  pose proof (history_wire _ _ _ _ _ Hh Hfresh) as H. split; [by apply (wi_ok _ _ _ _ H)|].
  by apply (wi_conf _ _ _ _ H).
Qed.

(** ** A run of the process

    The daemon is reached, a client connects and sends a frame, the daemon reports its
    status, and the packet is sent and confirmed; then a signal ends the loop. *)
Definition wire_example_pton (_ : list Z) : option Z := Some 2130706433.
Definition wire_example_cfg : lhkt_config_t := lhkt_config_defaults wire_example_pton (λ _, false).
Definition wire_example_frame : list Z :=
  match kiss_encode_data_frame ax25_example_bytes 800 with Ok b => b | Err _ => [] end.
Definition wire_example_world : world :=
  World [RdData wire_example_frame; RdData (str "STATUS TX=0 TXRESULT=1" ++ [10]); RdErr EAGAIN; RdErr EAGAIN;
         RdData [4; 4; 0; 0; 0; 1; 0]]
    (replicate 20 (WrN 300)) (replicate 20 SelReady) (replicate 60 true) [Some 5; Some 6; Some 4]
    [AccPeer 7 2130706433 1] [PollReady [4]; PollReady [7; 5]; PollErr EINTR] (replicate 30 1000)
    (replicate 6 false ++ [true]) [] [].
Definition wire_example_packet : list Z :=
  loraham_hdr ++ match ax25_decode_ui ax25_example_bytes with Ok f => tnc2_text f | Err _ => [] end.

Definition wire_example_check (r : Z * bridge_state) (h : list output) : bool :=
  bool_decide (r.1 = 4 ∧ br_data r.2 = 6 ∧ br_config_ok r.2 = true ∧ br_conf r.2 = 5 ∧ fresh h ∧ since 6 h = tx_frame wire_example_packet).

Lemma wire_example_runs :
  ∃ st w, run_to_stop wire_example_pton wire_example_cfg lhkt_stats_init wire_example_world = Some ((4, st), w) ∧ br_data st = 6 ∧
    br_config_ok st = true ∧ br_conf st = 5 ∧ fresh (w_out w) ∧ since 6 (w_out w) = tx_frame wire_example_packet.
Proof.
  assert (match run_to_stop wire_example_pton wire_example_cfg lhkt_stats_init wire_example_world with
    | Some (r, w) => wire_example_check r (w_out w) | None => false end = true) as H by (by vm_compute).
  destruct (run_to_stop wire_example_pton wire_example_cfg lhkt_stats_init wire_example_world) as [[[l st] w]|]; [|done].
  apply bool_decide_eq_true_1 in H as (El & H). cbn in El. subst l. by exists st, w.
Qed.

Lemma wire_example_reads : reads_ok wire_example_world.
Proof.
  unfold reads_ok, wire_example_world. cbn [w_read].
  repeat (apply Forall_cons; split; [first [exact I|apply (bool_decide_unpack _); by vm_compute]|]).
  apply Forall_nil_2.
Qed.

Lemma wire_example_history :
  ∃ st h, history wire_example_pton wire_example_cfg 4 st h ∧ br_data st = 6 ∧ br_config_ok st = true ∧ br_conf st = 5 ∧
    fresh h ∧ since 6 h = tx_frame wire_example_packet.
Proof.
  destruct wire_example_runs as (st & w & E & H). exists st, (w_out w). split; [|exact H].
  eapply run_to_stop_history; [apply wire_example_reads|done..|exact E].
Qed.

Lemma data_stream_intact_witness :
  ∃ ps, Forall packet_ok ps ∧ concat (map tx_frame ps) = tx_frame wire_example_packet.
Proof.
  destruct wire_example_history as (st & h & Hh & Hd & _ & _ & Hf & E).
  destruct (data_stream_intact _ _ _ _ _ Hh Hf) as (_ & H & _).
  rewrite Hd in H. destruct (H ltac:(lia)) as (ps & F & _ & Es & _).
  exists ps. split; [exact F|]. rewrite <-Es. exact E.
Defined.

Lemma radio_parked_witness :
  ∃ h a b, since 5 h = a ++ rx_line wire_example_cfg ++ b ∧ fresh h ∧
    since 6 h = tx_frame wire_example_packet.
Proof.
  destruct wire_example_history as (st & h & Hh & _ & Hok & Hc & Hf & E).
  destruct (radio_parked _ _ _ _ _ Hh Hf ltac:(by vm_compute) ltac:(by vm_compute) Hok) as (_ & a & b & Es & _).
  rewrite Hc in Es. exists h, a, b. split; [exact Es|]. split; [exact Hf|exact E].
Defined.
