(* ===== verification/BridgeConfirm.v ===== *)
(** What stands behind an entry "ok" of the RF log: the daemon's own word.

    [hears] relates what a call logs of transmissions to what it was given to read.
    Only the two waits of bridge_loraham.c read anything; everything around them is
    [deaf]. *)
From S2P Require Import Prelude Kiss Ax25 Tnc2 LorahamSock Tnc TxQueue Io SockIo LorahamConf BridgeConf BridgeRx BridgeLoraham BridgeTx TcpServer.

(** ** What a call reads

    [hears m Q]: when [m] returns [a], has done [o] and was given the answers [rs] by
    its reads, then [Q a o rs]. *)
Definition hears {A} (m : io A) (Q : A → list output → list read_answer → Prop) : Prop :=
  ∀ w, wp m (λ a w', ∃ o rs, extends w w' o ∧ w_read w = rs ++ w_read w' ∧ Q a o rs) w.

(** The bytes that reach the program when it reads at most [max] at a time. *)
Definition delivered (max : nat) (rs : list read_answer) : list Z :=
  concat (map (λ r, match r with RdData bs => take max bs | RdErr _ => [] end) rs).

Lemma delivered_app max a b : delivered max (a ++ b) = delivered max a ++ delivered max b.
Proof. unfold delivered. by rewrite map_app, concat_app. Qed.

Lemma hears_ret {A} (a : A) (Q : A → list output → list read_answer → Prop) :
  Q a [] [] → hears (mret a) Q.
Proof. intros H w. apply wp_ret. exists [], []. split; [apply extends_refl|done]. Qed.

Lemma hears_bind {A B} (m : io A) (k : A → io B) P Q :
  hears m P → (∀ a o rs, P a o rs → hears (k a) (λ b o' rs', Q b (o ++ o') (rs ++ rs'))) →
  hears (m ≫= k) Q.
Proof.
  intros Hm Hk w. apply wp_bind. eapply wp_mono; [apply Hm|]. intros a w1 (o & rs & E & R & H).
  eapply wp_mono; [by apply Hk|]. intros b w2 (o' & rs' & E' & R' & H').
  exists (o ++ o'), (rs ++ rs'). split; [by eapply extends_trans|]. split; [|done].
  by rewrite R, R', app_assoc.
Qed.

Lemma hears_mono {A} (m : io A) (P Q : A → list output → list read_answer → Prop) :
  hears m P → (∀ a o rs, P a o rs → Q a o rs) → hears m Q.
Proof. intros Hm H w. eapply wp_mono; [apply Hm|]. naive_solver. Qed.

Lemma hears_loop {S A} (body : S → io (S + A)) (I : S → list output → list read_answer → Prop) Q s :
  I s [] [] →
  (∀ s o rs, I s o rs → hears (body s) (λ x o' rs',
     match x with inl s' => I s' (o ++ o') (rs ++ rs') | inr a => Q a (o ++ o') (rs ++ rs') end)) →
  hears (loop body s) Q.
Proof.
  intros H0 Hb w.
  apply (wp_loop body (λ s w', ∃ o rs, extends w w' o ∧ w_read w = rs ++ w_read w' ∧ I s o rs)).
  - intros s' w1 (o1 & r1 & E1 & R1 & HI). eapply wp_mono; [by apply (Hb s' o1 r1)|].
    intros [s2|a] w2 (o2 & r2 & E2 & R2 & H); exists (o1 ++ o2), (r1 ++ r2);
      (split; [by eapply extends_trans|]); (split; [by rewrite R1, R2, app_assoc|done]).
  - exists [], []. split; [apply extends_refl|done].
Qed.

Lemma hears_read fd max (Q : read_answer → list output → list read_answer → Prop) :
  (∀ r, Q (match r with RdData bs => RdData (take max bs) | RdErr e => RdErr e end) [] [r]) →
  hears (sys_read fd max) Q.
Proof.
  intros H w. apply wp_bind. unfold wp, ask. destruct (w_read w) as [|r l] eqn:E; [done|].
  exists [], [r]. split; [by apply extends_quiet; destruct (askable_read w r l E)|]. split; [done|apply H].
Qed.

(** A call that reads nothing and logs nothing about transmissions. *)
Definition deaf {A} (m : io A) : Prop := hears m (λ _ o rs, tx_log o = [] ∧ rs = []).

Lemma deaf_ret {A} (a : A) : deaf (mret a).
Proof. by apply hears_ret. Qed.

Lemma hears_deaf {A B} (m : io A) (k : A → io B) Q :
  deaf m → (∀ a o, tx_log o = [] → hears (k a) (λ b o' rs, Q b (o ++ o') rs)) → hears (m ≫= k) Q.
Proof. intros Hm Hk. eapply hears_bind; [exact Hm|]. intros a o rs [H ->]. by apply Hk. Qed.

Lemma tx_log_app a b : tx_log (a ++ b) = tx_log a ++ tx_log b.
Proof. apply omap_app. Qed.

Lemma deaf_bind {A B} (m : io A) (k : A → io B) : deaf m → (∀ a, deaf (k a)) → deaf (m ≫= k).
Proof.
  intros Hm Hk. apply hears_deaf; [done|]. intros a o Ho. eapply hears_mono; [apply Hk|].
  intros b o' rs [Ho' ->]. by rewrite tx_log_app, Ho, Ho'.
Qed.

Lemma deaf_loop {S A} (body : S → io (S + A)) s : (∀ s, deaf (body s)) → deaf (loop body s).
Proof.
  intros Hb. apply (hears_loop _ (λ _ o rs, tx_log o = [] ∧ rs = [])); [done|]. intros s' o rs [Ho ->].
  eapply hears_mono; [apply Hb|]. intros [s2|a] o' rs [Ho' ->]; by rewrite tx_log_app, Ho, Ho'.
Qed.

(** Taking an answer of another kind. *)
Definition no_read {A} (put : list A → world → world) : Prop := ∀ l w, w_read (put l w) = w_read w.

Lemma deaf_ask {A} (get : world → list A) put : askable get put → no_read put → deaf (ask get put).
Proof.
  intros Ha Hp w. unfold wp, ask. destruct (get w) as [|a l] eqn:E; [done|]. exists [], [].
  split; [by apply extends_quiet; eapply Ha|]. split; [by rewrite Hp|done].
Qed.

Lemma deaf_emit x : tx_log [x] = [] → deaf (emit x).
Proof. intros H w. exists [x], []. by split. Qed.

Create HintDb deaf.

Ltac solve_deaf :=
  repeat match goal with
  | |- deaf (mret _) => apply deaf_ret
  | |- deaf (_ ≫= _) => apply deaf_bind; [|intros ?]
  | |- deaf (loop _ _) => apply deaf_loop; intros ?
  | |- deaf (ask _ _) => apply deaf_ask; [auto with askable|done]
  | |- deaf (emit _) => by apply deaf_emit
  | |- deaf (if ?b then _ else _) => destruct b
  | |- deaf (match ?x with _ => _ end) => destruct x
  | |- deaf _ => solve [eauto with deaf]
  end.

Lemma deaf_now : deaf bridge_runtime_now_ms.
Proof. unfold bridge_runtime_now_ms. solve_deaf. Qed.
Lemma deaf_should_stop : deaf bridge_runtime_should_stop.
Proof. unfold bridge_runtime_should_stop. solve_deaf. Qed.
Lemma deaf_select fd ms : deaf (sys_select fd ms).
Proof. unfold sys_select. solve_deaf. Qed.
Lemma deaf_ok fd : deaf (sys_ok fd).
Proof. unfold sys_ok. solve_deaf. Qed.
Lemma deaf_write fd bs : deaf (sys_write fd bs).
Proof. unfold sys_write. solve_deaf. Qed.
#[export] Hint Resolve deaf_now deaf_should_stop deaf_select deaf_ok deaf_write : deaf.
Lemma deaf_wait_writable fd : deaf (loraham_wait_writable fd).
Proof. unfold loraham_wait_writable. solve_deaf. Qed.
Lemma deaf_rx_wait_writable fd : deaf (bridge_rx_wait_fd_writable fd).
Proof. unfold bridge_rx_wait_fd_writable. solve_deaf. Qed.
Lemma deaf_sleep ms : deaf (bridge_runtime_sleep_ms ms).
Proof. unfold bridge_runtime_sleep_ms. solve_deaf. Qed.
#[export] Hint Resolve deaf_wait_writable deaf_rx_wait_writable deaf_sleep : deaf.
Lemma deaf_sock_write fd buf : deaf (loraham_sock_write fd buf).
Proof. unfold loraham_sock_write, write_round. solve_deaf. Qed.
Lemma deaf_write_all fd buf : deaf (bridge_rx_write_all_fd fd buf).
Proof. unfold bridge_rx_write_all_fd, write_round. solve_deaf. Qed.
#[export] Hint Resolve deaf_sock_write deaf_write_all : deaf.
Lemma deaf_loraham_write fd packet : deaf (bridge_loraham_write fd packet).
Proof. unfold bridge_loraham_write, loraham_send_framed_tx_packet. solve_deaf. Qed.
Lemma deaf_config_freq cfg fd f : deaf (bridge_loraham_send_config_freq cfg fd f).
Proof. unfold bridge_loraham_send_config_freq, loraham_send_config_freq, loraham_send_config_line. solve_deaf. Qed.
#[export] Hint Resolve deaf_loraham_write deaf_config_freq : deaf.
Lemma deaf_restore cfg conf e : deaf (env_restore cfg conf e).
Proof. unfold env_restore, bridge_loraham_restore_rx_freq. solve_deaf. Qed.
Lemma deaf_send_tnc2 fd tnc2 stats : deaf (bridge_rx_send_tnc2_to_kiss_client fd tnc2 stats).
Proof. unfold bridge_rx_send_tnc2_to_kiss_client. solve_deaf. Qed.
#[export] Hint Resolve deaf_restore deaf_send_tnc2 : deaf.
Lemma deaf_rx_chunk fuel : ∀ fd rx buf stats, deaf (rx_chunk_loop fuel fd rx buf stats).
Proof. induction fuel as [|fuel IH]; intros fd rx buf stats; [by intros w|]. cbn. solve_deaf. Qed.
#[export] Hint Resolve deaf_rx_chunk : deaf.
Lemma deaf_framed_frame fd frame stats : deaf (bridge_rx_handle_framed_frame fd frame stats).
Proof.
  unfold bridge_rx_handle_framed_frame, bridge_rx_send_loraham_packet_to_kiss_client,
    bridge_rx_handle_loraham_chunk. solve_deaf.
Qed.
#[export] Hint Resolve deaf_framed_frame : deaf.

(** ** The result on the DATA socket

    What the first result among the frames of a stream says; a fault ends the stream. *)
Fixpoint first_result (evs : list (event loraham_frame_t)) : option (res loraham_tx_result_t) :=
  match evs with
  | [] => None
  | Quiet :: evs => first_result evs
  | Fault e :: _ => Some (Err e)
  | Frame f :: evs =>
      if lf_type f =? LORAHAM_FRAME_TX_RESULT then Some (loraham_decode_tx_result f) else first_result evs
  end.

Lemma first_result_app a b :
  first_result (a ++ b) = match first_result a with Some r => Some r | None => first_result b end.
Proof. induction a as [|[|f|e] a IH]; cbn; [done..| |done]. by destruct (_ =? _). Qed.

(** Whether the stream is in order throughout. *)
Definition faultless (evs : list (event loraham_frame_t)) : bool :=
  forallb (λ ev, match ev with Fault _ => false | _ => true end) evs.

(** The result that stands in a stream: that of the first TX_RESULT frame, when it can be
    decoded and the stream is in order, also behind it. *)
Definition result_word (evs : list (event loraham_frame_t)) : option loraham_tx_result_t :=
  if faultless evs then match first_result evs with Some (Ok result) => Some result | _ => None end else None.

Lemma result_word_app a b :
  first_result a = None → result_word (a ++ b) = result_word b.
Proof.
  intros Ha. unfold result_word, faultless. rewrite forallb_app, first_result_app, Ha.
  assert (forallb (λ ev : event loraham_frame_t, match ev with Fault _ => false | _ => true end) a = true) as ->; [|done].
  revert Ha. induction a as [|[|f|e] a IH]; cbn; [done|done| |done]. by destruct (_ =? _).
Qed.

(** Calls that log nothing of transmissions, with what they read. *)
Definition hushed {A} (m : io A) (P : A → list read_answer → Prop) : Prop :=
  hears m (λ a o rs, tx_log o = [] ∧ P a rs).

Lemma hushed_ret {A} (a : A) (P : A → list read_answer → Prop) : P a [] → hushed (mret a) P.
Proof. intros H. by apply hears_ret. Qed.

Lemma hushed_mono {A} (m : io A) (P Q : A → list read_answer → Prop) :
  hushed m P → (∀ a rs, P a rs → Q a rs) → hushed m Q.
Proof. intros Hm H. eapply hears_mono; [exact Hm|]. intros a o rs [Ho HP]. auto. Qed.

Lemma hushed_bind {A B} (m : io A) (k : A → io B) P Q :
  hushed m P → (∀ a rs, P a rs → hushed (k a) (λ b rs', Q b (rs ++ rs'))) → hushed (m ≫= k) Q.
Proof.
  intros Hm Hk. eapply hears_bind; [exact Hm|]. intros a o rs [Ho H]. eapply hears_mono; [by apply Hk|].
  intros b o' rs' [Ho' H']. by rewrite tx_log_app, Ho, Ho'.
Qed.

Lemma hushed_deaf {A B} (m : io A) (k : A → io B) Q :
  deaf m → (∀ a, hushed (k a) Q) → hushed (m ≫= k) Q.
Proof. intros Hm Hk. eapply (hushed_bind _ _ (λ _ rs, rs = [])); [exact Hm|]. intros a rs ->. apply Hk. Qed.

Lemma hushed_read fd max (P : read_answer → list read_answer → Prop) :
  (∀ r, P (match r with RdData bs => RdData (take max bs) | RdErr e => RdErr e end) [r]) →
  hushed (sys_read fd max) P.
Proof. intros H. by apply hears_read. Qed.

Lemma hushed_loop {S A} (body : S → io (S + A)) (I : S → list read_answer → Prop) (Q : A → list read_answer → Prop) s :
  I s [] →
  (∀ s rs, I s rs → hushed (body s) (λ x rs',
     match x with inl s' => I s' (rs ++ rs') | inr a => Q a (rs ++ rs') end)) →
  hushed (loop body s) Q.
Proof.
  intros H0 Hb. apply (hears_loop _ (λ s o rs, tx_log o = [] ∧ I s rs)); [done|]. intros s' o rs [Ho HI].
  eapply hears_mono; [by apply Hb|]. intros [s2|a] o' rs' [Ho' H]; by rewrite tx_log_app, Ho, Ho'.
Qed.

Lemma hushed_txr_frame frame s :
  hushed (txr_frame frame s) (λ s' rs, rs = [] ∧ xr_frames s' = xr_frames s).
Proof.
  unfold txr_frame. apply hushed_deaf; [auto with deaf|]. intros [ret stats]. apply hushed_ret.
  by destruct (_ =? _).
Qed.

(** The rest of a buffer is read to its end or up to a fault. *)
Lemma hushed_txr_rest buf : ∀ s,
  hushed (txr_rest buf s) (λ r rs, rs = [] ∧
    (r.1 =? LHKT_OK) = faultless (loraham_framed_decode (xr_frames s) buf).2).
Proof.
  unfold loraham_framed_decode.
  induction buf as [|b buf IH]; intros s; cbn [txr_rest]; [by apply hushed_ret|].
  cbn [run]. unfold txr_decode. destruct (loraham_framed_decode_byte (xr_frames s) b) as [fs1 [|frame|e]].
  - eapply hushed_mono; [apply IH|]. intros r rs. cbn [xr_frames]. by destruct (run _ fs1 buf).
  - destruct (_ =? _).
    + eapply hushed_mono; [apply IH|]. intros r rs. cbn [xr_frames txr_drop]. by destruct (run _ fs1 buf).
    + eapply hushed_bind; [apply hushed_txr_frame|]. intros s2 rs (-> & Es). cbn [xr_frames] in Es.
      eapply hushed_mono; [apply IH|]. intros r rs'. rewrite Es. by destruct (run _ fs1 buf).
  - apply hushed_ret. by destruct (run _ fs1 buf).
Qed.

(** What the answer [r] of the wait has to do with the frames [evs] it got. *)
Definition result_heard (evs : list (event loraham_frame_t)) (r : option (res loraham_tx_result_t)) : Prop :=
  match r with
  | None => first_result evs = None
  | Some (Ok result) => result_word evs = Some result
  | Some (Err _) => result_word evs = None
  end.

Lemma result_heard_app a evs r : first_result a = None → result_heard evs r → result_heard (a ++ evs) r.
Proof.
  intros Ha. unfold result_heard. destruct r as [[]|]; rewrite ?result_word_app by done; try done.
  by rewrite first_result_app, Ha.
Qed.

Lemma no_result_word evs : first_result evs = None → result_word evs = None.
Proof. unfold result_word. intros ->. by destruct (faultless evs). Qed.

Lemma result_word_first evs result : result_word evs = Some result → first_result evs = Some (Ok result).
Proof.
  unfold result_word. destruct (faultless evs); [|done]. destruct (first_result evs) as [[]|]; try done. by intros [= ->].
Qed.

(** One buffer. *)
Lemma hushed_txr_bytes buf : ∀ s,
  hushed (txr_bytes buf s) (λ r rs, rs = [] ∧
    let '(fs, evs) := loraham_framed_decode (xr_frames s) buf in
    (r.1 = None → xr_frames r.2 = fs) ∧ result_heard evs r.1).
Proof.
  unfold loraham_framed_decode.
  induction buf as [|b buf IH]; intros s; cbn [txr_bytes]; [by apply hushed_ret|].
  cbn [run]. unfold txr_decode.
  destruct (loraham_framed_decode_byte (xr_frames s) b) as [fs1 [|frame|e]].
  - eapply hushed_mono; [apply IH|]. intros r rs [-> H]. cbn [xr_frames] in H. split; [done|].
    destruct (run _ fs1 buf) as [fs2 evs]. destruct H as [Hf Hr]. split; [done|].
    by apply (result_heard_app [Quiet]).
  - destruct (lf_type frame =? LORAHAM_FRAME_TX_RESULT) eqn:Et.
    + destruct (loraham_decode_tx_result frame) as [result|e] eqn:Er.
      2: { apply hushed_ret. destruct (run _ fs1 buf) as [fs2 evs]. do 2 (split; [done|]).
           unfold result_heard, result_word. cbn. rewrite Et, Er. by case_match. }
      eapply hushed_bind; [apply hushed_txr_rest|]. intros [ret s2] rs [-> Hret]. apply hushed_ret.
      unfold loraham_framed_decode in Hret. cbn [xr_frames fst] in Hret.
      destruct (run _ fs1 buf) as [fs2 evs]. do 2 (split; [done|]). cbn [fst snd] in *. rewrite Hret.
      unfold result_heard, result_word. destruct (faultless evs) eqn:Ef; unfold faultless in *; cbn; by rewrite Ef, ?Et, ?Er.
    + eapply hushed_bind; [apply hushed_txr_frame|]. intros s2 rs (-> & Es). cbn [xr_frames] in Es.
      eapply hushed_mono; [apply IH|]. intros r rs' (-> & H). rewrite Es in H.
      split; [done|]. destruct (run _ fs1 buf) as [fs2 evs]. destruct H as [Hf Hr]. split; [done|].
      apply (result_heard_app [Frame frame]); [|done]. cbn. by rewrite Et.
  - apply hushed_ret. by destruct (run _ fs1 buf).
Qed.

(** What a read delivers. *)
Definition got (max : nat) (r : read_answer) (rs : list read_answer) : Prop :=
  delivered max rs = match r with RdData bs => bs | RdErr _ => [] end.

Lemma hushed_sys_read fd max : hushed (sys_read fd max) (got max).
Proof. apply hushed_read. intros [bs|e]; unfold got, delivered; cbn; by rewrite ?app_nil_r. Qed.

Lemma hushed_sock_read fd max e : hushed (loraham_sock_read fd max e) (got max).
Proof. unfold loraham_sock_read. destruct (fd <? 0); [by apply hushed_ret|apply hushed_sys_read]. Qed.

(** One round. *)
Lemma hushed_wait_round data deadline s :
  hushed (wait_tx_result_round data deadline s) (λ x rs,
    let '(fs, evs) := loraham_framed_decode (xr_frames s) (delivered 512 rs) in
    match x with
    | inl s' => xr_frames s' = fs ∧ first_result evs = None
    | inr r => result_heard evs (Some r.1)
    end).
Proof.
  unfold wait_tx_result_round.
  apply hushed_deaf; [auto with deaf|]. intros [|]; [by apply hushed_ret|].
  apply hushed_deaf; [auto with deaf|]. intros now. destruct (_ <=? _); [by apply hushed_ret|].
  apply hushed_deaf; [auto with deaf|]. intros [| |[]]; try by apply hushed_ret.
  eapply hushed_bind; [apply hushed_sock_read|]. unfold got. intros [bs|e] rs Hr.
  2: { destruct e; apply hushed_ret; rewrite app_nil_r, Hr; done. }
  destruct bs as [|b bs]; [apply hushed_ret; by rewrite app_nil_r, Hr|].
  eapply hushed_bind; [apply hushed_txr_bytes|]. intros [r s1] rs1 (-> & H). cbn [fst snd] in H.
  destruct r as [r|]; apply hushed_ret; rewrite !app_nil_r, Hr;
    destruct (loraham_framed_decode (xr_frames s) (b :: bs)) as [fs evs]; cbn [fst]; naive_solver.
Qed.

Lemma hushed_wait_result data client fs cfg stats :
  hushed (bridge_loraham_wait_tx_result data client fs cfg stats) (λ r rs,
    result_heard (loraham_framed_decode fs (delivered 512 rs)).2 (Some r.1)).
Proof.
  unfold bridge_loraham_wait_tx_result. destruct (fd_bad data); [by apply hushed_ret|].
  apply hushed_deaf; [auto with deaf|]. intros start.
  apply (hushed_loop _ (λ s rs, let '(fs', evs) := loraham_framed_decode fs (delivered 512 rs) in
    xr_frames s = fs' ∧ first_result evs = None)); [done|].
  intros s rs Hs. eapply hushed_mono; [apply hushed_wait_round|]. intros x rs' H.
  unfold loraham_framed_decode in *. rewrite delivered_app, run_app.
  destruct (run _ fs (delivered 512 rs)) as [fs1 e1]. destruct Hs as [Es He1]. rewrite Es in H.
  destruct (run _ fs1 (delivered 512 rs')) as [fs2 e2]. destruct x as [s'|r].
  - by rewrite first_result_app, He1.
  - by apply result_heard_app.
Qed.

(** ** The events on the CONF socket *)

Lemma conf_feed_app st a b : bridge_conf_feed st (a ++ b) = bridge_conf_feed (bridge_conf_feed st a) b.
Proof. apply foldl_app. Qed.

(** The state is what the delivered bytes make of it. *)
Definition fed (st : bridge_conf_state_t) (st' : bridge_conf_state_t) (rs : list read_answer) : Prop :=
  st' = bridge_conf_feed st (delivered 256 rs).

Lemma fed_nil st : fed st st [].
Proof. done. Qed.
Lemma fed_app st st1 st2 rs rs' : fed st st1 rs → fed st1 st2 rs' → fed st st2 (rs ++ rs').
Proof. unfold fed. intros -> ->. by rewrite delivered_app, conf_feed_app. Qed.

(** End of file or an error among the answers. *)
Definition broken_off (rs : list read_answer) : Prop := RdData [] ∈ rs ∨ RdErr EOTHER ∈ rs.

Lemma broken_off_app a b : broken_off b → broken_off (a ++ b).
Proof. unfold broken_off. rewrite !elem_of_app. tauto. Qed.

(** A failure to read: before anything was read, or with the answer that says so. *)
Definition read_fails (failed : Prop) (st st' : bridge_conf_state_t) (rs : list read_answer) : Prop :=
  failed → st' = st ∨ broken_off rs.

Lemma hushed_conf_read_open fd st :
  hushed (bridge_conf_read_available fd st)
    (λ r rs, fed st r.2 rs ∧ (r.1 ≠ LHKT_OK → fd < 0 ∧ r.2 = st ∨ broken_off rs)).
Proof.
  unfold bridge_conf_read_available. destruct (Z.ltb_spec fd 0) as [Hfd|Hfd]; [apply hushed_ret; split; [done|by left]|].
  apply (hushed_loop _ (fed st)); [done|]. intros s rs Hs.
  eapply (hushed_bind _ _ (λ r rs', ∃ r0, rs' = [r0] ∧ r = match r0 with RdData bs => RdData (take 256 bs) | RdErr e => RdErr e end)).
  { apply hushed_read. intros r. by exists r. }
  intros r rs1 (r0 & -> & Er).
  assert (fed s (match r with RdData bs => bridge_conf_feed s bs | RdErr _ => s end) [r0]) as Hf.
  { unfold fed, delivered. cbn. rewrite app_nil_r. destruct r0; by subst r. }
  pose proof (fed_app _ _ _ _ _ Hs Hf) as H.
  destruct r as [[|b bs]|[]]; apply hushed_ret; rewrite app_nil_r; try exact H; (split; [exact H|]).
  - intros _. right. apply broken_off_app. left. destruct r0 as [bs|]; [|done]. injection Er as Er.
    destruct bs; [|done]. by left.
  - by intros [].
  - intros _. right. apply broken_off_app. right. destruct r0 as [bs|e]; [done|]. injection Er as <-. by left.
Qed.

Lemma hushed_conf_read fd st :
  hushed (bridge_conf_read_available fd st) (λ r rs, fed st r.2 rs ∧ read_fails (r.1 ≠ LHKT_OK) st r.2 rs).
Proof.
  eapply hushed_mono; [apply hushed_conf_read_open|]. intros r rs [Hf Hb]. split; [done|].
  intros Hr. destruct (Hb Hr) as [[_ ?]|?]; [by left|by right].
Qed.

Lemma hushed_conf_wait fd st ms :
  hushed (bridge_conf_wait_read fd st ms) (λ r rs, fed st r.2 rs ∧ read_fails (r.1 < 0) st r.2 rs).
Proof.
  unfold bridge_conf_wait_read. destruct (fd <? 0); [apply hushed_ret; split; [done|by left]|].
  apply hushed_deaf; [auto with deaf|]. intros [| |[]]; try (apply hushed_ret; split; [done|by left]).
  eapply hushed_bind; [apply hushed_conf_read|]. intros [ret s'] rs [H Hf]. apply hushed_ret. rewrite app_nil_r.
  split; [done|]. unfold read_fails in *. cbn [fst snd] in *. destruct (Z.eqb_spec ret LHKT_OK) as [|Hr]; [done|auto].
Qed.

(** Confirmed by events: a transmission was under way when the wait began, or one was
    counted while it lasted, and the radio is idle at its end. *)
Definition events_heard (st : bridge_conf_state_t) (rs : list read_answer) (st' : bridge_conf_state_t) : Prop :=
  fed st st' rs ∧ cs_tx_busy st' = 0 ∧
  (cs_tx_busy st ≠ 0 ∨
   ∃ a b st1, rs = a ++ b ∧ fed st st1 a ∧ cs_tx_busy_seq st1 ≠ cs_tx_busy_seq st).

(** Not confirmed by events: at the end of the wait the radio is busy, or no
    transmission was counted, or the socket failed. *)
Definition events_missing (st : bridge_conf_state_t) (rs : list read_answer) (st' : bridge_conf_state_t) : Prop :=
  fed st st' rs ∧
  (cs_tx_busy st' ≠ 0 ∨ cs_tx_busy st = 0 ∧ cs_tx_busy_seq st' = cs_tx_busy_seq st ∨ broken_off rs).

Lemma hushed_wait_start fd start deadline st :
  hushed (wait_tx_start fd start deadline st)
    (λ r rs, fed st r.2 rs ∧
      match r.1 with
      | None => cs_tx_busy_seq r.2 ≠ start
      | Some e => e ≠ LHKT_OK ∧ (cs_tx_busy_seq r.2 = start ∨ broken_off rs)
      end).
Proof.
  apply (hushed_loop _ (fed st)); [done|]. intros s rs Hs.
  destruct (Z.eqb_spec (cs_tx_busy_seq s) start) as [E|E]; cbn [negb].
  2: { apply hushed_ret. by rewrite app_nil_r. }
  apply hushed_deaf; [auto with deaf|]. intros now.
  destruct (_ <=? _); [apply hushed_ret; rewrite app_nil_r; split; [done|]; split; [done|by left]|].
  eapply hushed_bind; [apply hushed_conf_wait|]. intros [ret s'] rs' [H Hf]. cbn [fst snd] in *.
  pose proof (fed_app _ _ _ _ _ Hs H) as H2.
  destruct (Z.ltb_spec ret 0) as [Hr|Hr]; apply hushed_ret; rewrite app_nil_r; [|done].
  split; [done|]. split; [done|]. destruct (Hf Hr) as [-> |Hb]; [by left|right]. by apply broken_off_app.
Qed.

Lemma hushed_wait_idle fd deadline st :
  hushed (wait_tx_idle fd deadline st)
    (λ r rs, fed st r.2 rs ∧
      if r.1 =? LHKT_OK then cs_tx_busy r.2 = 0 else cs_tx_busy r.2 ≠ 0 ∨ broken_off rs).
Proof.
  apply (hushed_loop _ (fed st)); [done|]. intros s rs Hs.
  destruct (Z.eqb_spec (cs_tx_busy s) 0) as [E|E].
  { apply hushed_ret. by rewrite app_nil_r. }
  apply hushed_deaf; [auto with deaf|]. intros [|]; [apply hushed_ret; rewrite app_nil_r; split; [done|by left]|].
  apply hushed_deaf; [auto with deaf|]. intros now.
  destruct (_ <=? _); [apply hushed_ret; rewrite app_nil_r; split; [done|by left]|].
  eapply hushed_bind; [apply hushed_conf_wait|]. intros [ret s'] rs' [H Hf]. cbn [fst snd] in *.
  pose proof (fed_app _ _ _ _ _ Hs H) as H2.
  destruct (Z.ltb_spec ret 0) as [Hr|Hr]; apply hushed_ret; rewrite app_nil_r; [|done].
  split; [done|]. cbn. destruct (Hf Hr) as [-> |Hb]; [by left|right]. by apply broken_off_app.
Qed.

Lemma hushed_wait_complete fd st cfg :
  hushed (bridge_loraham_wait_tx_complete fd st cfg)
    (λ r rs, if r.1 =? LHKT_OK then events_heard st rs r.2 else events_missing st rs r.2).
Proof.
  unfold bridge_loraham_wait_tx_complete. destruct (fd <? 0).
  { apply hushed_ret. split; [done|]. destruct (decide (cs_tx_busy st = 0)); auto. }
  apply hushed_deaf; [auto with deaf|]. intros now.
  eapply (hushed_bind _ _ (λ r rs, fed st r.2 rs ∧ match r.1 with
    | None => cs_tx_busy st ≠ 0 ∨ cs_tx_busy_seq r.2 ≠ cs_tx_busy_seq st
    | Some e => e ≠ LHKT_OK ∧ (cs_tx_busy st = 0 ∧ cs_tx_busy_seq r.2 = cs_tx_busy_seq st ∨ broken_off rs) end)).
  { destruct (Z.eqb_spec (cs_tx_busy st) 0) as [E|E]; cbn [negb]; [|apply hushed_ret; split; [done|by left]].
    eapply hushed_mono; [apply hushed_wait_start|]. intros [[e|] s] rs [H1 H2]; (split; [done|]); [|by right].
    cbn [fst snd] in *. destruct H2 as [He [Hq|Hq]]; auto. }
  intros [err s] rs [Hs Hseen]. cbn [fst snd] in *. destruct err as [e|].
  { apply hushed_ret. rewrite app_nil_r. destruct Hseen as [He Hm]. cbn [fst snd].
    rewrite (proj2 (Z.eqb_neq _ _)) by done. split; [done|]. tauto. }
  assert (∀ r rs' s', fed s s' rs' → (if r =? LHKT_OK then cs_tx_busy s' = 0 else cs_tx_busy s' ≠ 0 ∨ broken_off rs') →
    if r =? LHKT_OK then events_heard st (rs ++ rs') s' else events_missing st (rs ++ rs') s') as Hend.
  { intros r rs' s' H' Hb. pose proof (fed_app _ _ _ _ _ Hs H') as H2. destruct (r =? LHKT_OK).
    - split; [done|]. split; [done|]. destruct Hseen as [?|Hseen]; [by left|right]. by exists rs, rs', s.
    - split; [done|]. destruct Hb as [?|Hb]; [by left|right; right]. by apply broken_off_app. }
  destruct (_ && _) eqn:Edone.
  - apply hushed_ret. apply (Hend LHKT_OK [] s); [done|]. cbn.
    rewrite !andb_true_iff in Edone. destruct Edone as [[Eb _] _]. by apply Z.eqb_eq in Eb.
  - apply hushed_deaf; [auto with deaf|]. intros now'.
    eapply hushed_mono; [apply hushed_wait_idle|]. intros [r s'] rs' [H1 H2]. by apply Hend.
Qed.

(** ** One packet

    The log of a transmission, with the word of the daemon behind it. *)
Definition result_says (fs : loraham_framed_rx_state_t) (rs : list read_answer) (result : loraham_tx_result_t) : Prop :=
  first_result (loraham_framed_decode fs (delivered 512 rs)).2 = Some (Ok result).

Lemma deaf_restore_rx cfg stats conf : deaf (bridge_loraham_restore_rx_freq cfg stats conf).
Proof. unfold bridge_loraham_restore_rx_freq. solve_deaf. Qed.

(** The restore keeps what is known of the daemon. *)
Lemma hears_restored {B} cfg conf e (k : Z * tx_env → io B) Q :
  (∀ ret e' o, te_conf e' = te_conf e → tx_log o = [] → hears (k (ret, e')) (λ b o' rs, Q b (o ++ o') rs)) →
  hears (env_restore cfg conf e ≫= k) Q.
Proof.
  intros Hk. eapply (hears_bind _ _ (λ r o rs, tx_log o = [] ∧ rs = [] ∧ te_conf r.2 = te_conf e)).
  - unfold env_restore. apply hears_deaf; [apply deaf_restore_rx|]. intros [ret stats] o Ho.
    apply hears_ret. by rewrite app_nil_r.
  - intros [ret e'] o rs (Ho & -> & E). by apply Hk.
Qed.

Lemma hears_txresult cfg client data conf packet e fs :
  te_frames e = Some fs →
  hears (send_with_txresult cfg client data conf packet e) (λ r o rs,
    (tx_log o = [(str "ok", packet)] ∧ ∃ result, result_says fs rs result ∧ tr_status result = LORAHAM_TX_STATUS_OK) ∨
    (tx_log o = [] ∧ ∃ result, result_says fs rs result ∧ tr_status result ≠ LORAHAM_TX_STATUS_OK) ∨
    (tx_log o = [(str "unconfirmed", packet)] ∧ r.1 = LHKT_ERR_TX_RESULT)).
Proof.
  intros Hfs. unfold send_with_txresult. rewrite Hfs.
  eapply hears_bind; [apply hushed_wait_result|]. intros [r s] o rs [Ho Hr]. cbn [fst] in Hr.
  destruct r as [result|err].
  - apply result_word_first in Hr. eapply (hears_bind _ _ (λ _ o' rs', rs' = [] ∧ tx_log o' =
      if tr_status result =? LORAHAM_TX_STATUS_OK then [(str "ok", packet)] else [])).
    { destruct (_ =? _); [|by apply hears_ret]. intros w. by exists [RfTx (str "ok") packet], []. }
    intros [] o1 rs1 [-> Ho1]. apply hears_restored. intros ret e' o2 _ Ho2.
    assert (∀ r : Z * tx_env, hears (mret r) (λ r o' rs',
      (tx_log (o ++ o1 ++ o2 ++ o') = [(str "ok", packet)] ∧ ∃ result, result_says fs (rs ++ [] ++ rs') result ∧ tr_status result = LORAHAM_TX_STATUS_OK) ∨
      (tx_log (o ++ o1 ++ o2 ++ o') = [] ∧ ∃ result, result_says fs (rs ++ [] ++ rs') result ∧ tr_status result ≠ LORAHAM_TX_STATUS_OK) ∨
      (tx_log (o ++ o1 ++ o2 ++ o') = [(str "unconfirmed", packet)] ∧ r.1 = LHKT_ERR_TX_RESULT))) as Hend.
    { intros r. apply hears_ret. cbn [app]. rewrite !app_nil_r, !tx_log_app, Ho, Ho1, Ho2, app_nil_r. cbn [app].
      destruct (Z.eqb_spec (tr_status result) LORAHAM_TX_STATUS_OK); [left|right; left]; (split; [done|]); by exists result. }
    repeat case_match; apply Hend.
  - eapply (hears_bind _ _ (λ _ o' rs', rs' = [] ∧ tx_log o' = [(str "unconfirmed", packet)])).
    { intros w. by exists [RfTx (str "unconfirmed") packet], []. }
    intros [] o1 rs1 [-> Ho1]. apply hears_restored. intros ret e' o2 _ Ho2.
    apply hears_ret. right. right. by rewrite app_nil_r, !tx_log_app, Ho, Ho1, Ho2.
Qed.

Lemma hears_events cfg conf packet e :
  hears (send_with_events cfg conf packet e) (λ r o rs,
    (tx_log o = [(str "ok", packet)] ∧ events_heard (te_conf e) rs (te_conf r.2)) ∨
    tx_log o = [(str "unconfirmed", packet)]).
Proof.
  unfold send_with_events. eapply hears_bind; [apply hushed_wait_complete|].
  intros [confirm st] o rs [Ho Hc]. cbn [fst snd] in Hc.
  eapply (hears_bind _ _ (λ e1 o' rs', rs' = [] ∧ tx_log o' = [] ∧ te_conf e1 = st)).
  { destruct (negb _); [|by apply hears_ret]. apply hears_deaf; [auto with deaf|]. intros r o1 Ho1.
    apply hears_ret. by rewrite app_nil_r. }
  intros e1 o1 rs1 (-> & Ho1 & E1). set (out := if confirm =? LHKT_OK then str "ok" else str "unconfirmed").
  eapply (hears_bind _ _ (λ _ o' rs', rs' = [] ∧ tx_log o' = [(out, packet)])).
  { intros w. by exists [RfTx out packet], []. }
  intros [] o2 rs2 [-> Ho2]. apply hears_restored. intros ret e' o3 E3 Ho3.
  assert (∀ r : Z * tx_env, te_conf r.2 = st → hears (mret r) (λ r o' rs',
    (tx_log (o ++ o1 ++ o2 ++ o3 ++ o') = [(str "ok", packet)] ∧
     events_heard (te_conf e) (rs ++ [] ++ [] ++ rs') (te_conf r.2)) ∨
    tx_log (o ++ o1 ++ o2 ++ o3 ++ o') = [(str "unconfirmed", packet)])) as Hend.
  { intros r Er. apply hears_ret. cbn [app]. rewrite !app_nil_r, !tx_log_app, Ho, Ho1, Ho2, Ho3, Er. cbn [app].
    unfold out. destruct (Z.eqb_spec confirm LHKT_OK); [left|by right]. split; [done|auto]. }
  rewrite <-E1 in Hend. destruct (negb _); by apply Hend.
Qed.

(** What one call logs. An entry "ok" has the daemon's word behind it; a result other
    than OK leaves no such entry; without the packet written there is none at all. *)
Definition log_account (packet : list Z) (e : tx_env) (x : Z * bool * tx_env)
    (log : list (list Z * list Z)) (rs : list read_answer) : Prop :=
  let '(_, packet_written, e') := x in
  (log = [] ∨ log = [(str "unconfirmed", packet)] ∨
   log = [(str "ok", packet)] ∧ packet_written = true ∧
     if bridge_conf_txresult_enabled (te_conf e) then
       ∃ fs result, te_frames e = Some fs ∧ result_says fs rs result ∧
                    tr_status result = LORAHAM_TX_STATUS_OK
     else events_heard (te_conf e) rs (te_conf e')) ∧
  (packet_written = false → log = [] ∧ rs = []).

Lemma heard_deaf {A B} (m : io A) (k : A → io B) (P : B → list (list Z * list Z) → list read_answer → Prop) :
  deaf m → (∀ a, hears (k a) (λ b o rs, P b (tx_log o) rs)) →
  hears (m ≫= k) (λ b o rs, P b (tx_log o) rs).
Proof.
  intros Hm Hk. apply hears_deaf; [done|]. intros a o Ho. eapply hears_mono; [apply Hk|].
  intros b o' rs H. by rewrite tx_log_app, Ho.
Qed.

Lemma send_packet_hears cfg client data conf packet e :
  is_Some (te_frames e) →
  hears (bridge_loraham_send_packet_with_client cfg client data conf packet e)
    (λ x o rs, log_account packet e x (tx_log o) rs).
Proof.
  intros [fs Hfs]. unfold bridge_loraham_send_packet_with_client.
  assert (∀ ret e', hears (mret (ret, false, e')) (λ x o rs, log_account packet e x (tx_log o) rs)) as Hno.
  { intros ret e'. apply hears_ret. split; [by left|done]. }
  destruct (_ =? 0); [apply Hno|]. destruct (data <? 0); [apply Hno|]. destruct (_ || _); [apply Hno|].
  apply (heard_deaf _ _ (log_account packet e)); [solve_deaf|]. intros ret. destruct (negb _); [apply Hno|].
  apply (heard_deaf _ _ (log_account packet e)); [solve_deaf|]. intros settled. destruct (negb _).
  { apply (heard_deaf _ _ (log_account packet e)); [solve_deaf|]. intros [r e']. apply Hno. }
  apply (heard_deaf _ _ (log_account packet e)); [solve_deaf|]. intros n. destruct (n <? 0).
  { apply (heard_deaf _ _ (log_account packet e)); [solve_deaf|]. intros slept.
    apply (heard_deaf _ _ (log_account packet e)); [solve_deaf|]. intros [r e']. apply Hno. }
  eapply (hears_bind _ _ (λ r o rs, log_account packet e (r.1, true, r.2) (tx_log o) rs)).
  - unfold log_account. destruct (bridge_conf_txresult_enabled (te_conf e)).
    + eapply hears_mono; [by apply (hears_txresult _ _ _ _ _ _ fs)|]. intros [r e'] o rs H. split; [|done].
      destruct H as [(H & result & Hr & Hs)|[(H & _)|(H & _)]]; [|by left|by right; left].
      right. right. split; [done|]. split; [done|]. by exists fs, result.
    + eapply hears_mono; [apply hears_events|]. intros [r e'] o rs H. split; [|done].
      destruct H as [(H & Hr)|H]; [|by right; left]. by right; right.
  - intros [r e'] o rs H. apply hears_ret. by rewrite !app_nil_r.
Qed.

(** C9. "ok" in the RF log is the daemon's word. For every environment, one call for a
    packet leaves at most one entry about it, and none, with nothing read, unless the
    packet was written. If the entry says "ok", then the bytes the daemon sent
    during the call bear it out: with results enabled, the first TX_RESULT among the
    frames of the DATA stream decodes to the status OK and no fault of the stream comes
    before it; without, the lines of the CONF stream show a transmission (one under way
    when the wait began, or one that began in it) and leave the radio idle. Silence, a
    timeout, a broken stream or a stop never make an "ok". *)
Theorem ok_entry_confirmed cfg client data conf packet e (Hfs : is_Some (te_frames e)) :
  hears (bridge_loraham_send_packet_with_client cfg client data conf packet e)
    (λ '(_, packet_written, e') o rs,
      (tx_log o = [] ∨ tx_log o = [(str "unconfirmed", packet)] ∨
       tx_log o = [(str "ok", packet)] ∧ packet_written = true ∧
         if bridge_conf_txresult_enabled (te_conf e) then
           ∃ fs result, te_frames e = Some fs ∧
             first_result (loraham_framed_decode fs (delivered 512 rs)).2 = Some (Ok result) ∧
             tr_status result = LORAHAM_TX_STATUS_OK
         else events_heard (te_conf e) rs (te_conf e')) ∧
      (packet_written = false → tx_log o = [] ∧ rs = [])).
Proof.
  eapply hears_mono; [by apply send_packet_hears|]. by intros [[ret flag] e'] o rs.
Qed.

Lemma outcome_hears {A B} (f : A → B) (m : io A) Q w b o :
  hears m Q → w_out w = [] → outcome f m w = Some (b, o) → ∃ a rs, f a = b ∧ Q a o rs.
Proof.
  intros H Hw E. specialize (H w). unfold outcome, wp in *. destruct (m w) as [[a w']|]; [|done].
  injection E as <- <-. destruct H as (o & rs & Eo & _ & HQ). exists a, rs. split; [done|].
  unfold extends in Eo. rewrite Hw in Eo. by rewrite Eo.
Qed.

Lemma tx_example_log : tx_log tx_example_out = [(str "ok", [60; 255; 1; 65])].
Proof. reflexivity. Qed.
Lemma tx_example_enabled : bridge_conf_txresult_enabled (te_conf tx_example_env) = true.
Proof. by vm_compute. Qed.

(** The run of BridgeTx: the answer 04 04 00 00 00 01 00 is read and logged. *)
Lemma ok_entry_confirmed_witness :
  ∃ rs result, first_result (loraham_framed_decode loraham_framed_rx_state_init (delivered 512 rs)).2 = Some (Ok result) ∧
    tr_status result = LORAHAM_TX_STATUS_OK.
Proof.
  destruct (outcome_hears _ _ _ tx_example_world1 _ _
    (ok_entry_confirmed tx_example_cfg 7 5 6 [60; 255; 1; 65] tx_example_env
      (mk_is_Some (te_frames tx_example_env) loraham_framed_rx_state_init eq_refl)) eq_refl tx_example_send)
    as ([[ret flag] e'] & rs & _ & H & _).
  rewrite tx_example_log, tx_example_enabled in H.
  destruct H as [H|[H|(_ & _ & fs & result & Ef & Hr & Hs)]]; [discriminate H|discriminate H|].
  injection Ef as <-. exists rs, result. split; [exact Hr|exact Hs].
Defined.
