(* ===== verification/BridgeAccount.v ===== *)
(** The books of a transmission and of a drain: what is logged and counted for a packet,
    according to what the daemon said ([send_packet_account]), and what happens to the
    packets of the queue ([drain_at_most_once]).

    Both are stated of what the call was given: the answers of its reads, as in
    BridgeConfirm, and its readings of the clock. *)
From S2P Require Import Prelude Kiss Ax25 Tnc2 LorahamSock Tnc TxQueue Io SockIo LorahamConf BridgeConf BridgeRx BridgeLoraham BridgeTx TcpServer BridgeConfirm.

(** What a run does and what it heard belong together. *)
Lemma hears_both {A} (m : io A) P Q : hears m P → yields m Q → hears m (λ a o rs, P a o rs ∧ Q a o).
Proof.
  intros HP HQ w. apply wp_intro. intros a w' E.
  destruct (wp_elim _ _ _ _ _ (HP w) E) as (o & rs & Eo & Er & H).
  destruct (wp_elim _ _ _ _ _ (HQ w) E) as (o' & Eo' & _ & H').
  unfold extends in Eo, Eo'. rewrite Eo in Eo'. apply app_inv_head in Eo' as <-. by exists o, rs.
Qed.

Lemma hears_and {A} (m : io A) P Q : hears m P → hears m Q → hears m (λ a o rs, P a o rs ∧ Q a o rs).
Proof.
  intros HP HQ w. apply wp_intro. intros a w' E.
  destruct (wp_elim _ _ _ _ _ (HP w) E) as (o & rs & Eo & Er & H).
  destruct (wp_elim _ _ _ _ _ (HQ w) E) as (o' & rs' & Eo' & Er' & H').
  unfold extends in Eo, Eo'. rewrite Eo in Eo'. apply app_inv_head in Eo' as <-.
  rewrite Er in Er'. apply app_inv_tail in Er' as <-. by exists o, rs.
Qed.

(** ** One packet

    The daemon's word on a packet: it was sent, it was refused, or there is none. *)
Inductive word := WordOk | WordRefused | WordNone.

Definition word_of (r : option loraham_tx_result_t) : word :=
  match r with
  | Some result => if tr_status result =? LORAHAM_TX_STATUS_OK then WordOk else WordRefused
  | None => WordNone
  end.

(** What a call for a packet heard, [enabled] telling whether the daemon reports results:
    the result that stands in the DATA stream, or the events of the CONF stream. *)
Definition daemon_says (fs : loraham_framed_rx_state_t) (enabled : bool) (st st' : bridge_conf_state_t)
    (rs : list read_answer) (v : word) : Prop :=
  if enabled then v = word_of (result_word (loraham_framed_decode fs (delivered 512 rs)).2)
  else v = WordOk ∧ events_heard st rs st' ∨ v = WordNone ∧ events_missing st rs st'.

(** The entry of the RF log and the counters that go with it; [r] is the result of the
    restore and [k] the number of its failed attempts. *)
Definition word_log (packet : list Z) (v : word) : list (list Z * list Z) :=
  match v with
  | WordOk => [(str "ok", packet)]
  | WordRefused => []
  | WordNone => [(str "unconfirmed", packet)]
  end.

Definition word_sent (enabled : bool) (v : word) (r : Z) : nat :=
  if (r =? LHKT_OK) && match v with WordOk => true | WordRefused => false | WordNone => negb enabled end
  then 1 else 0.
Definition word_unconfirmed (v : word) : nat := match v with WordNone => 1 | _ => 0 end.

(** The code of the call: without a result, that; else that of a restore that failed,
    and else OK, or that the KISS client was lost while the result was awaited. *)
Definition word_code (enabled : bool) (v : word) (r ret : Z) : Prop :=
  if enabled && match v with WordNone => true | _ => false end then ret = LHKT_ERR_TX_RESULT
  else if r =? LHKT_OK then ret = LHKT_OK ∨ enabled = true ∧ ret = LHKT_ERR_CLIENT_SOCKET
  else ret = r.

(** The whole account of a written packet: [bs] are the bytes of the restore. *)
Definition accounted (cfg : lhkt_config_t) (packet : list Z) (enabled : bool) (v : word) (before after : lhkt_stats_t)
    (ret : Z) (log : list (list Z * list Z)) (bs : list Z) : Prop :=
  ∃ r k, restored cfg r bs k ∧ word_code enabled v r ret ∧ log = word_log packet v ∧
    tx_counters after = ticked (word_sent enabled v r) (word_unconfirmed v) k (tx_counters before).

Section account.
Context (cfg : lhkt_config_t) (client data conf : Z) (packet : list Z).
Context (Hcd : conf ≠ data) (Hkc : client ≠ conf).

Lemma restore_hears e :
  have_rx_freq cfg ≠ 0 →
  hears (env_restore cfg conf e) (λ r o rs, rs = [] ∧ tx_log o = [] ∧ te_conf r.2 = te_conf e ∧
    ∃ k, restored cfg r.1 (written conf o) k ∧
      tx_counters (te_stats r.2) = ticked 0 0 k (tx_counters (te_stats e))).
Proof.
  intros Hrx. eapply hears_mono; [eapply hears_both; [|by apply env_restore_yields]|].
  - eapply (hears_mono _ (λ r o rs, rs = [] ∧ tx_log o = [] ∧ te_conf r.2 = te_conf e)); [|intros r o rs H; exact H].
    unfold env_restore. apply hears_deaf; [apply deaf_restore_rx|]. intros [ret stats] o Ho.
    apply hears_ret. by rewrite app_nil_r.
  - intros r o rs ((-> & Hl & Ec) & k & _ & R & Et & _). split_and!; try done. by exists k.
Qed.

(** The common end: [o] up to the restore, [code] and [post] what follows it. *)
Lemma finish_account enabled v before e1 u o (code : Z → Z) (post : Z → tx_env → tx_env) :
  have_rx_freq cfg ≠ 0 → written conf o = [] → tx_log o = word_log packet v →
  tx_counters (te_stats e1) = ticked 0 u 0 (tx_counters before) → (u ≤ word_unconfirmed v)%nat →
  (∀ r, word_code enabled v r (code r)) →
  (∀ r e2, te_conf (post r e2) = te_conf e2 ∧ tx_counters (te_stats (post r e2)) =
     ticked (word_sent enabled v r) (word_unconfirmed v - u) 0 (tx_counters (te_stats e2))) →
  hears ('(r, e2) ← env_restore cfg conf e1; mret (code r, post r e2)) (λ x o' rs, rs = [] ∧ te_conf x.2 = te_conf e1 ∧
    accounted cfg packet enabled v before (te_stats x.2) x.1 (tx_log (o ++ o')) (written conf (o ++ o'))).
Proof.
  intros Hrx Hw Hl E1 Hu Hc Hp. eapply hears_bind; [by apply restore_hears|].
  intros [r e2] back rs (-> & Lb & Ec & k & R & Et). cbn [fst snd] in *. apply hears_ret. cbn [fst snd].
  destruct (Hp r e2) as [Epc Ept]. split; [done|]. split; [congruence|]. rewrite app_nil_r. exists r, k.
  rewrite tx_log_app, written_app, Hw, Hl, Lb, app_nil_r. split; [exact R|]. split; [apply Hc|]. split; [done|].
  rewrite Ept, Et, E1, !ticked_twice. f_equal; lia.
Qed.

Lemma hears_ext {A B} (m : io A) (k k' : A → io B) Q : (∀ a, k a = k' a) → hears (m ≫= k') Q → hears (m ≫= k) Q.
Proof.
  intros E H w. specialize (H w). unfold wp, mbind, io_bind in *.
  destruct (m w) as [[a w']|]; [|done]. by rewrite E.
Qed.

Lemma hears_emit x : hears (emit x) (λ _ o rs, rs = [] ∧ o = [x]).
Proof. intros w. by exists [x], []. Qed.

Lemma txresult_account e fs :
  have_rx_freq cfg ≠ 0 → te_frames e = Some fs →
  hears (send_with_txresult cfg client data conf packet e) (λ x o rs,
    accounted cfg packet true (word_of (result_word (loraham_framed_decode fs (delivered 512 rs)).2))
      (te_stats e) (te_stats x.2) x.1 (tx_log o) (written conf o)).
Proof.
  intros Hrx Hfs. unfold send_with_txresult. rewrite Hfs.
  eapply hears_bind; [apply hears_both; [apply hushed_wait_result|apply wait_tx_result_yields]|].
  intros [r s] o rs ([Ho Hr] & [F E] & _ & He). cbn [fst snd] in *.
  assert (written conf o = []) as Wo by (by apply (rx_output_written client)).
  set (e1 := TxEnv (xr_stats s) (te_conf e) (Some (xr_frames s))).
  destruct r as [result|err]; unfold result_heard in Hr.
  - set (ok := tr_status result =? LORAHAM_TX_STATUS_OK).
    set (v := if ok then WordOk else WordRefused).
    assert (word_of (result_word (loraham_framed_decode fs (delivered 512 rs)).2) = v) as Ev by (by rewrite Hr).
    eapply (hears_bind _ _ (λ _ o' rs', rs' = [] ∧ tx_log o' = word_log packet v ∧ written conf o' = [])).
    { unfold v. destruct ok; [|by apply hears_ret].
      eapply hears_mono; [apply hears_emit|]. by intros u o' rs' [-> ->]. }
    intros [] o1 rs1 (-> & Lo1 & Wo1). eapply hears_ext; [intros [ret e2]; instantiate (1 := λ '(ret, e2),
      mret (if ret =? LHKT_OK then xr_error s else ret,
            if ret =? LHKT_OK then if ok then env_bump loraham_tx e2 else env_bump loraham_drop e2 else e2));
      unfold ok; by destruct (ret =? LHKT_OK), (tr_status result =? LORAHAM_TX_STATUS_OK)|].
    eapply hears_mono; [apply (finish_account true v (te_stats e) e1 0 (o ++ o1)
      (λ ret, if ret =? LHKT_OK then xr_error s else ret)
      (λ ret e2, if ret =? LHKT_OK then if ok then env_bump loraham_tx e2 else env_bump loraham_drop e2 else e2))|].
    + done.
    + by rewrite written_app, Wo, Wo1.
    + by rewrite tx_log_app, Ho, Lo1.
    + by rewrite ticked_0.
    + lia.
    + intros ret. unfold word_code, v. destruct ok; cbn; (destruct (ret =? LHKT_OK); [|done]); destruct He; auto.
    + intros ret e2. unfold word_sent, v. destruct (ret =? LHKT_OK), ok; cbn [andb word_unconfirmed Nat.sub];
        (split; [done|]); [reflexivity|by rewrite ticked_0..].
    + intros x o' rs' (-> & _ & H). rewrite !app_nil_r, Ev. by rewrite app_assoc.
  - assert (word_of (result_word (loraham_framed_decode fs (delivered 512 rs)).2) = WordNone) as Ev by (by rewrite Hr).
    eapply hears_bind; [apply hears_emit|]. intros [] o1 rs1 (-> & ->).
    eapply hears_mono; [apply (finish_account true WordNone (te_stats e) (env_bump tx_unconfirmed e1) 1
      (o ++ [RfTx (str "unconfirmed") packet]) (λ _, LHKT_ERR_TX_RESULT) (λ _ e2, e2))|].
    + done.
    + by rewrite written_app, Wo.
    + by rewrite tx_log_app, Ho.
    + change (tx_counters (te_stats (env_bump tx_unconfirmed e1))) with (ticked 0 1 0 (tx_counters (te_stats e1))).
      f_equal. exact E.
    + done.
    + done.
    + intros ret e2. unfold word_sent. cbn [negb]. rewrite andb_false_r. by rewrite ticked_0.
    + intros x o' rs' (-> & _ & H). rewrite !app_nil_r, Ev. by rewrite app_assoc.
Qed.

Lemma events_account e :
  have_rx_freq cfg ≠ 0 →
  hears (send_with_events cfg conf packet e) (λ x o rs, ∃ v,
    (v = WordOk ∧ events_heard (te_conf e) rs (te_conf x.2) ∨ v = WordNone ∧ events_missing (te_conf e) rs (te_conf x.2)) ∧
    accounted cfg packet false v (te_stats e) (te_stats x.2) x.1 (tx_log o) (written conf o)).
Proof.
  intros Hrx. unfold send_with_events.
  eapply hears_bind; [apply hears_both; [apply hushed_wait_complete|apply yields_silent, wait_tx_complete_silent]|].
  intros [confirm st] o rs ([Ho Hc] & -> & _). cbn [fst snd] in *. set (ok := confirm =? LHKT_OK) in *.
  set (e0 := TxEnv (te_stats e) st (te_frames e)). set (v := if ok then WordOk else WordNone).
  eapply (hears_bind _ _ (λ e1 o' rs', rs' = [] ∧ o' = [] ∧ te_conf e1 = st ∧
    tx_counters (te_stats e1) = ticked 0 (word_unconfirmed v) 0 (tx_counters (te_stats e)))).
  { unfold v. destruct ok; cbn [negb].
    - apply hears_ret. cbn [word_unconfirmed]. by rewrite ticked_0.
    - eapply hears_bind; [apply hears_both; [apply deaf_sleep|apply yields_silent, bridge_runtime_sleep_ms_silent]|].
      intros slept o1 rs1 ([_ ->] & -> & _). apply hears_ret. split_and!; try done. }
  intros e1 o1 rs1 (-> & -> & E1 & Et). eapply hears_bind; [apply hears_emit|]. intros [] o2 rs2 [-> ->].
  eapply hears_ext; [intros [ret e2]; instantiate (1 := λ '(ret, e2),
    mret (ret, if ret =? LHKT_OK then env_bump loraham_tx e2 else e2));
    cbv beta iota; by destruct (Z.eqb_spec ret LHKT_OK) as [->|]|].
  eapply hears_mono; [apply (finish_account false v (te_stats e) e1 (word_unconfirmed v)
    ([] ++ [] ++ [RfTx (if ok then str "ok" else str "unconfirmed") packet])
    (λ ret, ret) (λ ret e2, if ret =? LHKT_OK then env_bump loraham_tx e2 else e2))|].
  - done.
  - done.
  - unfold v. by destruct ok.
  - done.
  - done.
  - intros ret. unfold word_code. cbn [andb]. destruct (Z.eqb_spec ret LHKT_OK); auto.
  - intros ret e2. rewrite Nat.sub_diag. unfold word_sent, v. destruct (ret =? LHKT_OK), ok; cbn [andb negb];
      (split; [done|]); [reflexivity..|by rewrite ticked_0|by rewrite ticked_0].
  - intros x o' rs' (-> & Ex & H). exists v. rewrite !app_nil_r, Ex, E1. cbn [app] in *. split; [|exact H].
    unfold v. destruct ok; [by left|by right].
Qed.

(** What a written packet leaves, up to and including the restore. *)
Abbreviation tuning := (if bridge_loraham_tx_shift_needed cfg then tx_line cfg else []).
Definition written_account (e : tx_env) (fs : loraham_framed_rx_state_t) (x : Z * bool * tx_env)
    (log : list (list Z * list Z)) (cs : list Z) (rs : list read_answer) : Prop :=
  let enabled := bridge_conf_txresult_enabled (te_conf e) in
  ∃ v bs, daemon_says fs enabled (te_conf e) (te_conf x.2) rs v ∧ cs = tuning ++ bs ∧
    accounted cfg packet enabled v (te_stats e) (te_stats x.2) x.1.1 log bs.

(** A packet that does not count as written needs no account. *)
Definition unwritten_packet (m : io (Z * bool * tx_env)) : Prop := hears m (λ x _ _, x.1.2 = false).

Lemma unwritten_packet_ret ret e : unwritten_packet (mret (ret, false, e)).
Proof. by apply hears_ret. Qed.

Lemma unwritten_deaf {A} (m : io A) k : deaf m → (∀ a, unwritten_packet (k a)) → unwritten_packet (m ≫= k).
Proof. intros Hm Hk. apply hears_deaf; [done|]. intros a o _. apply Hk. Qed.

Lemma send_packet_accounted e fs :
  te_frames e = Some fs →
  hears (bridge_loraham_send_packet_with_client cfg client data conf packet e) (λ x o rs,
    x.1.2 = true → written_account e fs x (tx_log o) (written conf o) rs).
Proof.
  intros Hfs. unfold bridge_loraham_send_packet_with_client.
  assert (∀ m o1 rs1, unwritten_packet m → hears m (λ x o rs, x.1.2 = true →
    written_account e fs x (tx_log (o1 ++ o)) (written conf (o1 ++ o)) (rs1 ++ rs))) as Hno.
  { intros m o1 rs1 Hm. eapply hears_mono; [exact Hm|]. intros x o rs E Ht. congruence. }
  destruct (_ =? 0); [apply (Hno _ [] []), unwritten_packet_ret|].
  destruct (data <? 0); [apply (Hno _ [] []), unwritten_packet_ret|].
  destruct (Z.eqb_spec (have_tx_freq cfg) 0) as [|Htx]; [apply (Hno _ [] []), unwritten_packet_ret|].
  destruct (Z.eqb_spec (have_rx_freq cfg) 0) as [|Hrx]; [apply (Hno _ [] []), unwritten_packet_ret|]. cbn [orb].
  eapply (hears_bind _ _ (λ r o rs, rs = [] ∧ tx_log o = [] ∧ (r = LHKT_OK → written conf o = tuning))).
  { destruct (bridge_loraham_tx_shift_needed cfg); [|by apply hears_ret].
    eapply hears_mono; [apply hears_both; [apply deaf_config_freq|apply send_config_freq_yields]|].
    intros r o rs ([Hl ->] & _ & H). do 2 (split; [done|]). intros ->. destruct H as [[_ H]|[H _]]; [done|by unfold LHKT_OK in H]. }
  intros r o1 rs1 (-> & L1 & W1). destruct (Z.eqb_spec r LHKT_OK) as [->|Hr]; cbn [negb]; [|apply Hno, unwritten_packet_ret].
  specialize (W1 eq_refl).
  eapply (hears_bind _ _ (λ _ o rs, rs = [] ∧ o = [])).
  { destruct (bridge_loraham_tx_shift_needed cfg); [|by apply hears_ret].
    eapply hears_mono; [apply hears_both; [apply deaf_sleep|apply yields_silent, bridge_runtime_sleep_ms_silent]|].
    by intros slept o rs ([_ ->] & -> & _). }
  intros settled o2 rs2 [-> ->]. destruct (negb _).
  { apply (hears_mono _ (λ x _ _, x.1.2 = false)); [|intros x o rs E Ht; congruence].
    apply unwritten_deaf; [apply deaf_restore|]. intros [r e']. apply unwritten_packet_ret. }
  eapply hears_bind; [apply hears_both; [apply deaf_loraham_write|apply loraham_write_only]|].
  intros n o3 rs3 ([L3 ->] & F3). assert (written conf o3 = []) as W3 by by apply (writes_other data).
  destruct (n <? 0).
  { apply (hears_mono _ (λ x _ _, x.1.2 = false)); [|intros x o rs E Ht; congruence].
    apply unwritten_deaf; [apply deaf_sleep|]. intros slept. apply unwritten_deaf; [apply deaf_restore|].
    intros [r e']. apply unwritten_packet_ret. }
  eapply (hears_bind _ _ (λ r o rs, written_account e fs (r.1, true, r.2) (tx_log o) (tuning ++ written conf o) rs)).
  - unfold written_account. destruct (bridge_conf_txresult_enabled (te_conf e)).
    + eapply hears_mono; [by apply txresult_account|]. intros x o rs H. eexists _, _. split; [reflexivity|done].
    + eapply hears_mono; [by apply events_account|]. intros x o rs (v & Hv & H). exists v, (written conf o). done.
  - intros [ret e'] o rs H. apply hears_ret. intros _. cbn [app fst snd] in *. rewrite !app_nil_r.
    by rewrite !tx_log_app, !written_app, L1, L3, W1, W3.
Qed.

(** C11. The account of a transmission. A packet that does not count as written leaves no
    entry in the RF log, nothing was read for it, neither the sent nor the unconfirmed
    counter moves, and the code is an error. For a written packet, everything follows
    from the word [v] of the daemon in what it sent during the call and from the result
    [r] of the restore, which is pinned down by the bytes [bs] behind the tuning command
    on the CONF socket. [v] is, with results enabled, a function of the bytes on the
    DATA socket: sent or refused as the first TX_RESULT says when the stream is in order,
    else there is none; without results, sent if the events of the CONF stream show a
    transmission that has ended, and none if they do not or the socket failed. Then
    - the RF log has exactly one entry "ok" (sent), one "unconfirmed" (no word), or none
      (refused);
    - the unconfirmed counter moves by one exactly if there is no word;
    - the sent counter moves by one exactly if the packet was sent and the RX frequency
      restored, or restored without a word where the daemon reports no results, and the
      failed attempts [k] to restore it are counted;
    - the code is that of the missing result, else that of a restore that failed, else OK or the
      loss of the KISS client. *)
Theorem send_packet_account e fs (Hkd : client ≠ data) (Hfs : te_frames e = Some fs) :
  let enabled := bridge_conf_txresult_enabled (te_conf e) in
  hears (bridge_loraham_send_packet_with_client cfg client data conf packet e)
    (λ '(ret, packet_written, e') o rs,
      if (packet_written : bool) then
        ∃ v r k bs, daemon_says fs enabled (te_conf e) (te_conf e') rs v ∧
          written conf o = tuning ++ bs ∧ restored cfg r bs k ∧
          tx_log o = word_log packet v ∧
          count (te_stats e') tx_unconfirmed = ticks (word_unconfirmed v) (count (te_stats e) tx_unconfirmed) ∧
          count (te_stats e') loraham_tx = ticks (word_sent enabled v r) (count (te_stats e) loraham_tx) ∧
          count (te_stats e') tx_restore_failures = ticks k (count (te_stats e) tx_restore_failures) ∧
          word_code enabled v r ret
      else tx_log o = [] ∧ rs = [] ∧ ret < 0 ∧
        count (te_stats e') tx_unconfirmed = count (te_stats e) tx_unconfirmed ∧
        count (te_stats e') loraham_tx = count (te_stats e) loraham_tx).
Proof.
  cbv zeta. eapply hears_mono.
  - apply hears_both; [apply hears_and; [by apply send_packet_accounted|by apply send_packet_hears; eexists]|].
    by apply (send_packet_run cfg client data conf packet e fs).
  - intros [[ret flag] e'] o rs [[Ha [_ Hno]] Hrun]. cbn [fst snd] in *. destruct flag.
    + destruct (Ha eq_refl) as (v & bs & Hv & Eb & r & k & R & Hc & Hl & Et). cbn [fst snd] in *.
      exists v, r, k, bs. injection Et as E1 E2 E3. by repeat split.
    + destruct (Hno eq_refl) as [-> ->]. do 2 (split; [done|]).
      destruct Hrun as [(_ & H & _ & _ & Et)|(? & ? & ? & _ & _ & _ & _ & _ & H & _ & r & k & _ & _ & Et)];
        injection Et as E1 E2 _; done.
Qed.
End account.

(** The run of BridgeTx: the answer 04 04 00 00 00 01 00 is the word "sent". *)
Lemma send_packet_account_witness :
  ∃ rs v r k bs e', daemon_says loraham_framed_rx_state_init true (te_conf tx_example_env) (te_conf e') rs v ∧
    written 6 tx_example_out = tx_line tx_example_cfg ++ bs ∧ restored tx_example_cfg r bs k ∧ v = WordOk.
Proof.
  destruct (outcome_hears _ _ _ tx_example_world1 _ _
    (send_packet_account tx_example_cfg 7 5 6 [60; 255; 1; 65] ltac:(lia) ltac:(lia)
      tx_example_env loraham_framed_rx_state_init ltac:(lia) eq_refl) eq_refl tx_example_send)
    as ([[ret flag] e'] & rs & E & H).
  cbn [fst] in E. injection E as -> ->. destruct H as (v & r & k & bs & Hv & Eb & R & Hl & _).
  exists rs, v, r, k, bs, e'. rewrite tx_example_enabled in Hv. split; [exact Hv|]. split; [|split; [exact R|]].
  - rewrite Eb. by vm_compute.
  - rewrite tx_example_log in Hl. by destruct v.
Defined.

(** ** The queue

    The part of a world that a drain consults before it hands a packet over: between
    [w] and [w'] nothing was done, the answers [rs] of the CONF socket were read and the
    readings [ts] of the clock were taken. *)
Definition looked (w w' : world) (rs : list read_answer) (ts : list Z) : Prop :=
  extends w w' [] ∧ w_read w = rs ++ w_read w' ∧ w_clock w = ts ++ w_clock w'.

Lemma looked_refl w : looked w w [] [].
Proof. split; [apply extends_refl|done]. Qed.

Lemma looked_trans w1 w2 w3 rs ts rs' ts' :
  looked w1 w2 rs ts → looked w2 w3 rs' ts' → looked w1 w3 (rs ++ rs') (ts ++ ts').
Proof.
  intros (E1 & R1 & C1) (E2 & R2 & C2). split; [by apply (extends_trans _ _ _ [] [] E1)|].
  by rewrite R1, R2, C1, C2, !app_assoc.
Qed.

Lemma looked_now w : wp bridge_runtime_now_ms (λ now w', looked w w' [] [now]) w.
Proof.
  unfold wp, bridge_runtime_now_ms, ask. destruct (w_clock w) as [|now l] eqn:E; [done|].
  split; [|done]. apply extends_quiet. by destruct (askable_clock w now l E).
Qed.

(** Reading the CONF socket takes no reading of the clock. *)
Lemma conf_read_clock fd st w :
  wp (bridge_conf_read_available fd st) (λ _ w', w_clock w' = w_clock w) w.
Proof.
  unfold bridge_conf_read_available. destruct (fd <? 0); [by apply wp_ret|].
  apply (wp_loop _ (λ _ w', w_clock w' = w_clock w)); [|done]. intros s w1 E.
  apply wp_bind, wp_bind. unfold wp at 1, ask. destruct (w_read w1) as [|[bs|[]] l]; [done|..]; try (by apply wp_ret).
  apply wp_ret. destruct (take 256 bs); by apply wp_ret.
Qed.

Lemma looked_conf fd st w :
  wp (bridge_conf_read_available fd st) (λ r w', ∃ rs, looked w w' rs [] ∧ fed st r.2 rs ∧
    (0 ≤ fd → r.1 ≠ LHKT_OK → broken_off rs)) w.
Proof.
  apply wp_intro. intros r w' E.
  destruct (wp_elim _ _ _ _ _ (hushed_conf_read_open fd st w) E) as (o & rs & _ & Er & _ & Hf & Hb).
  pose proof (wp_elim _ _ _ _ _ (bridge_conf_read_available_silent fd st w) E) as (Es & _).
  pose proof (wp_elim _ _ _ _ _ (conf_read_clock fd st w) E) as Ec.
  exists rs. split; [split; [|done]|split; [done|]].
  - unfold extends. by rewrite Es, app_nil_r.
  - intros Hfd Hr. destruct (Hb Hr) as [[? _]|?]; [lia|done].
Qed.

Section drain.
Context (cfg : lhkt_config_t) (client data conf : Z).

(** The two reasons to drop a packet unsent at [now]: its lifetime is over; or the daemon,
    after some of the answers [rs] on its CONF socket, is transmitting and has been found
    so for longer than the busy timeout allows. *)
Definition expired (item : bridge_tx_item_t) (now : Z) : Prop :=
  0 < tx_packet_ttl_ms cfg ∧ ti_queued_ms item + tx_packet_ttl_ms cfg ≤ now.
Definition stale (st : bridge_conf_state_t) (rs : list read_answer) (item : bridge_tx_item_t) (now : Z) : Prop :=
  expired item now ∨
  0 ≤ conf ∧ (∃ a st1, a `prefix_of` rs ∧ fed st st1 a ∧ cs_tx_busy st1 ≠ 0) ∧
  (if ti_tx_wait_start_ms item =? 0 then now else ti_tx_wait_start_ms item) + tx_busy_timeout_ms cfg ≤ now.

(** The packets [dropped] are gone from the queue, each stale at its own reading of the
    clock and counted once; nothing else happened. *)
Definition swept (d : drain_state) (w : world) (dropped : list bridge_tx_item_t) (d1 : drain_state) (w1 : world) : Prop :=
  ∃ rs ts, looked w w1 rs ts ∧ Spec.wf (dr_queue d1) ∧
    Spec.contents (dr_queue d) = dropped ++ Spec.contents (dr_queue d1) ∧
    Forall2 (stale (te_conf (dr_env d)) rs) dropped ts ∧ fed (te_conf (dr_env d)) (te_conf (dr_env d1)) rs ∧
    te_frames (dr_env d1) = te_frames (dr_env d) ∧
    te_stats (dr_env d1) = Nat.iter (length dropped) (bump loraham_drop) (te_stats (dr_env d)).

(** What a packet keeps while it waits. *)
Definition waiting (q : bridge_tx_queue_t) : list (list Z * Z) :=
  map (λ item, (ti_packet item, ti_queued_ms item)) (Spec.contents q).

(** Why nothing is handed over: the queue is empty, a socket is missing or broke off,
    the daemon's status is not known or its results are disabled, or it is
    transmitting. *)
Definition idles (queued : list bridge_tx_item_t) (st : bridge_conf_state_t) (rs : list read_answer) : Prop :=
  queued = [] ∨ data < 0 ∨ conf < 0 ∨ broken_off rs ∨ cs_have_status st = 0 ∨
  cs_txresult_known st ≠ 0 ∧ cs_txresult_enabled st = 0 ∨ cs_tx_busy st ≠ 0.

(** The last round hands nothing over. *)
Definition held_back (d1 : drain_state) (w1 : world) (d' : drain_state) (w' : world) : Prop :=
  ∃ rs ts, looked w1 w' rs ts ∧ waiting (dr_queue d') = waiting (dr_queue d1) ∧
    te_stats (dr_env d') = te_stats (dr_env d1) ∧ fed (te_conf (dr_env d1)) (te_conf (dr_env d')) rs ∧
    idles (Spec.contents (dr_queue d1)) (te_conf (dr_env d')) rs.

(** The last round hands the oldest packet, neither expired nor with the daemon
    transmitting, to one call: it leaves the queue exactly if the call reports it as
    written. *)
Definition passed_on (d1 : drain_state) (w1 : world) (ret : Z) (d' : drain_state) (w' : world) : Prop :=
  ∃ item rest rs now st w2 flag o, looked w1 w2 rs [now] ∧ fed (te_conf (dr_env d1)) st rs ∧
    Spec.contents (dr_queue d1) = item :: rest ∧ ¬ expired item now ∧ cs_tx_busy st = 0 ∧
    bridge_loraham_send_packet_with_client cfg client data conf (ti_packet item)
      (TxEnv (te_stats (dr_env d1)) st (te_frames (dr_env d1))) w2 = Some ((ret, flag, dr_env d'), w') ∧
    extends w2 w' o ∧
    if (flag : bool) then Spec.contents (dr_queue d') = rest ∧ written data o = tx_frame (ti_packet item)
    else waiting (dr_queue d') = waiting (dr_queue d1) ∧ ret < 0 ∧
      written data o `prefix_of` tx_frame (ti_packet item) ∧
      (written data o = [] ∨ ret = LHKT_ERR_TX_SOCKET).

(** A head that is looked at keeps its packet and its age. *)
Lemma head_kept q item item' :
  Spec.wf q → bridge_tx_queue_head q = Some item →
  ti_packet item' = ti_packet item → ti_queued_ms item' = ti_queued_ms item →
  let q' := bridge_tx_queue_set_head item' q in
  ∃ rest, Spec.contents q = item :: rest ∧ Spec.wf q' ∧ waiting q' = waiting q ∧
    Spec.wf (bridge_tx_queue_pop q') ∧ Spec.contents (bridge_tx_queue_pop q') = rest.
Proof.
  intros Hwf Hh Hp Hq. cbv zeta. destruct (head_packets q item Hwf Hh) as (packets & _ & H).
  destruct (H item' Hp) as (Hw & _ & Hw2 & _). rewrite head_contents in Hh by done.
  destruct (Spec.contents q) as [|item0 rest] eqn:E; [done|]. injection Hh as ->. exists rest.
  assert (tq_count q ≠ 0%nat) as Hc by (rewrite <-contents_length, E; done).
  split_and!; try done.
  - unfold waiting. rewrite contents_insert_head, E by done. cbn. by rewrite Hp, Hq.
  - by rewrite pop_contents, contents_insert_head, E.
Qed.
Lemma idles_no_status queued st rs : (0 <=? conf) && (cs_have_status st =? 0) = true → idles queued st rs.
Proof. rewrite andb_true_iff, Z.eqb_eq. unfold idles. tauto. Qed.

Lemma idles_no_results queued st rs :
  negb (cs_txresult_known st =? 0) && (cs_txresult_enabled st =? 0) = true → idles queued st rs.
Proof. rewrite andb_true_iff, negb_true_iff, Z.eqb_eq, Z.eqb_neq. unfold idles. tauto. Qed.

Lemma busy_known st : (0 <=? conf) && negb (cs_tx_busy st =? 0) = true → 0 ≤ conf ∧ cs_tx_busy st ≠ 0.
Proof. by rewrite andb_true_iff, negb_true_iff, Z.eqb_neq, Z.leb_le. Qed.

(** The decision on the head, by its reasons. *)
Lemma decision_account item now st :
  let '(decision, item') := bridge_tx_head_decision cfg ((0 <=? conf) && negb (cs_tx_busy st =? 0)) item now in
  ti_packet item' = ti_packet item ∧ ti_queued_ms item' = ti_queued_ms item ∧
  match decision with
  | TX_WAIT => cs_tx_busy st ≠ 0
  | TX_SEND => ¬ expired item now ∧ (0 ≤ conf → cs_tx_busy st = 0)
  | TX_DROP => expired item now ∨ 0 ≤ conf ∧ cs_tx_busy st ≠ 0 ∧
      (if ti_tx_wait_start_ms item =? 0 then now else ti_tx_wait_start_ms item) + tx_busy_timeout_ms cfg ≤ now
  end.
Proof.
  pose proof (tx_head_decision_spec cfg ((0 <=? conf) && negb (cs_tx_busy st =? 0)) item now) as H.
  destruct (bridge_tx_head_decision _ _ _ _) as [decision item']. cbv zeta in H.
  destruct H as (Hp & Hq & Hs & Hw & Hd & _). split; [done|]. split; [done|].
  destruct decision.
  - destruct (proj1 Hw eq_refl) as (_ & Hb & _). by apply busy_known in Hb as [].
  - destruct (proj1 Hs eq_refl) as (He & Hb). split; [done|]. intros Hc.
    destruct (Z.leb_spec 0 conf); [|lia]. by apply negb_false_iff, Z.eqb_eq in Hb.
  - destruct (proj1 Hd eq_refl) as [He|[Hb Hl]]; [by left|right]. apply busy_known in Hb as [? ?]. done.
Qed.

(** One round. *)
Definition round_account (d1 : drain_state) (w1 : world) (x : drain_state + Z * drain_state) (w' : world) : Prop :=
  match x with
  | inl d2 => ∃ item, swept d1 w1 [item] d2 w'
  | inr (ret, d') => Spec.wf (dr_queue d') ∧ (held_back d1 w1 d' w' ∨ passed_on d1 w1 ret d' w')
  end.

Lemma swept_app d w dropped d1 w1 more d2 w2 :
  swept d w dropped d1 w1 → swept d1 w1 more d2 w2 → swept d w (dropped ++ more) d2 w2.
Proof.
  intros (rs & ts & L & _ & E & F & Hf & Ef & Es) (rs' & ts' & L' & Hw & E' & F' & Hf' & Ef' & Es').
  exists (rs ++ rs'), (ts ++ ts'). split; [by eapply looked_trans|]. split; [done|].
  split; [by rewrite E, E', app_assoc|]. split; [|split; [by eapply fed_app|split; [congruence|]]].
  - apply Forall2_app.
    + eapply Forall2_impl; [exact F|]. intros item now [?|(? & (a & st1 & Ha & ?) & ?)]; [by left|right].
      split; [done|]. split; [|done]. exists a, st1. split; [by apply prefix_app_r|done].
    + eapply Forall2_impl; [exact F'|]. intros item now [?|(? & (a & st1 & [b ->] & Ha & ?) & ?)]; [by left|right].
      split; [done|]. split; [|done]. exists (rs ++ a), st1. split; [by exists b; rewrite app_assoc|].
      split; [by eapply fed_app|done].
  - by rewrite Es', Es, length_app, Nat.add_comm, Nat.iter_add.
Qed.

Lemma round_accounted d w fs :
  conf ≠ data → client ≠ conf → client ≠ data → te_frames (dr_env d) = Some fs → Spec.wf (dr_queue d) →
  wp (drain_round cfg client data conf d) (round_account d w) w.
Proof.
  intros Hcd Hkc Hkd Hfs Hwf. destruct d as [q e]. cbn [dr_queue dr_env] in *. unfold drain_round. cbn [dr_queue dr_env].
  destruct (bridge_tx_queue_head q) as [item|] eqn:Hh.
  2: { apply wp_ret. split; [done|]. left. exists [], []. split; [apply looked_refl|]. do 3 (split; [done|]). left.
       cbn [dr_queue]. rewrite head_contents in Hh by done. by destruct (Spec.contents q). }
  apply wp_bind, (wp_mono _ (λ r w1, ∃ rs, looked w w1 rs [] ∧ fed (te_conf e) r.2 rs ∧
    (r.1 ≠ LHKT_OK → 0 ≤ conf → broken_off rs))).
  { destruct (Z.leb_spec 0 conf); [|apply wp_ret; exists []; split; [apply looked_refl|split; [done|lia]]].
       eapply wp_mono; [apply looked_conf|]. intros r w1 (rs & L & F & Hb). exists rs. auto. }
  intros [ret st] w1 (rs & L & F & Hb). cbn [fst snd] in *.
  assert (∀ ret ts q' w', looked w w' rs ts → Spec.wf q' → waiting q' = waiting q → idles (Spec.contents q) st rs →
    round_account (DrainState q e) w (inr (ret, DrainState q' (TxEnv (te_stats e) st (te_frames e)))) w') as Hstay.
  { intros ret' ts q' w' L' Hw Hq Hi. split; [done|]. left. by exists rs, ts. }
  destruct (Z.eqb_spec ret LHKT_OK) as [->|Hr]; cbn [negb].
  2: { apply wp_ret. eapply Hstay; [done..|]. destruct (Z.leb_spec 0 conf); unfold idles; [|tauto]. specialize (Hb Hr); tauto. }
  destruct (_ && _) eqn:E1; [apply wp_ret; eapply Hstay; [done..|]; by apply idles_no_status|].
  destruct (negb _ && _) eqn:E2; [apply wp_ret; eapply Hstay; [done..|]; by apply idles_no_results|].
  apply wp_bind. eapply wp_mono; [apply looked_now|]. intros now w2 L2. pose proof (looked_trans _ _ _ _ _ _ _ L L2) as L3.
  rewrite app_nil_r in L3. cbn [app] in L3.
  pose proof (decision_account item now st) as Hd. destruct (bridge_tx_head_decision _ _ _ _) as [decision item'].
  destruct Hd as (Hp & Hq & Hd). destruct (head_kept q item item' Hwf Hh Hp Hq) as (rest & Ec & Hw & Hk & Hw2 & Ec2).
  destruct decision.
  - apply wp_ret. eapply Hstay; [done..|]. unfold idles. tauto.
  - destruct Hd as (Hfresh & Hidle).
    destruct (Z.ltb_spec data 0) as [?|Hd0]; [apply wp_ret; eapply Hstay; [done..|]; unfold idles; tauto|].
    destruct (Z.ltb_spec conf 0) as [?|Hc0]; [apply wp_ret; eapply Hstay; [done..|]; unfold idles; tauto|].
    specialize (Hidle ltac:(done)). rewrite Hp.
    set (e1 := TxEnv (te_stats e) st (te_frames e)). apply wp_bind, wp_intro. intros [[ret flag] e'] w' Es.
    destruct (wp_elim _ _ _ _ _ (send_packet_run cfg client data conf (ti_packet item) e1 fs Hcd Hkc Hkd Hfs w2) Es)
      as (o & Eo & _ & H). cbn [fst snd] in H.
    apply wp_ret. rewrite (run_flag _ _ _ _ _ _ _ _ _ H). split; [by destruct flag|]. right.
    exists item, rest, rs, now, st, w2, flag, o. do 7 (split; [done|]). apply run_data in H; [|done]. by destruct flag.
  - apply wp_ret. exists item, rs, [now]. split; [done|]. split; [done|]. split; [cbn [dr_queue]; by rewrite Ec, Ec2|].
    split; [|done]. constructor; [|done]. destruct Hd as [?|(? & Hbusy & ?)]; [by left|right]. split; [done|]. split; [|done].
    by exists rs, st.
Qed.

(** C12. Every packet once, in order. A drain first sweeps the stale packets off the
    front of the queue: each of them was, at a reading of the clock of its own, past its
    lifetime, or found the daemon transmitting for longer than the busy timeout; each is
    counted once as dropped and nothing is sent. Its last round then either hands over
    nothing and leaves every packet in its place, for one of the reasons [idles], or
    passes the oldest packet, which is not expired, and with the daemon not
    transmitting, to exactly one call of
    [bridge_loraham_send_packet_with_client]. All that happens on the sockets is that
    call's. The packet leaves the queue exactly if the call reports it as written, and
    then its whole frame is on the DATA socket; else the call fails and every packet
    stays, with at most a prefix of the frame sent (which can be all of it), and
    nothing at all unless the code says that the DATA connection is to be closed. *)
Theorem drain_at_most_once w d fs
    (Hcd : conf ≠ data) (Hkc : client ≠ conf) (Hkd : client ≠ data)
    (Hfs : te_frames (dr_env d) = Some fs) (Hwf : Spec.wf (dr_queue d)) :
  wp (bridge_loraham_tx_queue_drain_with_client cfg client data conf d)
    (λ '(ret, d') w', Spec.wf (dr_queue d') ∧
      ∃ dropped d1 w1, swept d w dropped d1 w1 ∧
        (held_back d1 w1 d' w' ∨ passed_on d1 w1 ret d' w')) w.
Proof.
  apply (wp_loop _ (λ d1 w1, ∃ dropped, swept d w dropped d1 w1)).
  - intros d1 w1 (dropped & H). pose proof H as (rs & ts & _ & Hw & _ & _ & _ & Ef & _).
    eapply wp_mono; [apply (round_accounted _ _ fs); [done..|by rewrite Ef|done]|]. intros [d2|[ret d']] w2 Hr.
    + destruct Hr as [item Hr]. exists (dropped ++ [item]). by eapply swept_app.
    + destruct Hr as [Hw2 Hr]. split; [done|]. by exists dropped, d1, w1.
  - exists []. exists [], []. split; [apply looked_refl|].
    do 2 (split; [done|]). split; [constructor|done].
Qed.
End drain.

Lemma outcome_wp {A B} (f : A → B) (m : io A) Q w b o :
  wp m Q w → outcome f m w = Some (b, o) → ∃ a w', f a = b ∧ w_out w' = o ∧ Q a w'.
Proof.
  unfold outcome, wp. destruct (m w) as [[a w']|]; [|done]. intros H [= <- <-]. by exists a, w'.
Qed.

(** The run of BridgeTx, in which the packet is handed over. *)
Lemma drain_at_most_once_witness :
  ∃ d' w' dropped d1 w1, w_out w' = tx_example_out ∧
    swept tx_example_cfg 6 tx_example_drain tx_example_world dropped d1 w1 ∧
    (held_back 5 6 d1 w1 d' w' ∨ passed_on tx_example_cfg 7 5 6 d1 w1 LHKT_OK d' w').
Proof.
  destruct (outcome_wp _ _ _ tx_example_world _ _
    (drain_at_most_once tx_example_cfg 7 5 6 tx_example_world tx_example_drain loraham_framed_rx_state_init
      ltac:(lia) ltac:(lia) ltac:(lia) eq_refl tx_example_wf) tx_example_drained)
    as ([ret d'] & w' & E & Eo & _ & dropped & d1 & w1 & H).
  cbn [fst] in E. subst ret. by exists d', w', dropped, d1, w1.
Defined.
