(* ===== verification/BridgeLedger.v ===== *)
(** The books of the process: what the clients submitted, and what the daemon was given
    to send.

    [life] follows the main loop step by step and keeps two records: the bytes of every
    client connection, as the reads delivered them, and the packets of the frames that
    reached the DATA socket whole. [booked] is the invariant between them. *)
From S2P Require Import Prelude Kiss Ax25 Tnc2 LorahamSock Tnc TxQueue Io SockIo LorahamConf BridgeConf BridgeKiss BridgeRx BridgeLoraham BridgeTx TcpServer Bridge BridgeInv BridgeWire BridgeConfirm.

(** ** Both ends *)

Definition framed_of {A} (evs : list (event A)) : list A :=
  omap (λ ev, match ev with Frame f => Some f | _ => None end) evs.

(** The packets a client asks to send with the bytes of its connection. *)
Definition submitted (stream : list Z) : list (list Z) :=
  omap kiss_tx_packet (framed_of (kiss_decode kiss_decoder_init stream).2).

(** The packets the daemon gets with the bytes of one drain. *)
Definition handed (bs : list Z) : list (list Z) :=
  map lf_payload (framed_of (loraham_framed_decode loraham_framed_rx_state_init bs).2).

Lemma framed_of_app {A} (a b : list (event A)) : framed_of (a ++ b) = framed_of a ++ framed_of b.
Proof. apply omap_app. Qed.

Lemma handed_frame p : len p ≤ LHKT_FRAMED_MAX_PAYLOAD → handed (tx_frame p) = [p].
Proof.
  intros H. unfold handed, tx_frame. rewrite <-(app_nil_r (framed_bytes _)), framed_decode_frame by done. done.
Qed.

(** A frame that was cut short is not one, unless nothing was cut off. *)
Lemma handed_prefix p bs :
  len p ≤ LHKT_FRAMED_MAX_PAYLOAD → bs `prefix_of` tx_frame p → handed bs = [] ∨ handed bs = [p].
Proof.
  intros H [rest E]. pose proof (handed_frame p H) as Hp. rewrite E in Hp. unfold handed in *.
  unfold loraham_framed_decode in *. rewrite run_app in Hp.
  destruct (run loraham_framed_decode_byte loraham_framed_rx_state_init bs) as [s e1]. cbn [snd].
  destruct (run loraham_framed_decode_byte s rest) as [s2 e2]. cbn [snd] in Hp.
  rewrite framed_of_app, map_app in Hp. destruct (map lf_payload (framed_of e1)) as [|x [|y l]]; [by left|right|done].
  by injection Hp as -> _.
Qed.

(** ** The books *)

(** [lg_past] and [lg_cur]: the client connections that ended and the one that did not.
    [lg_sent]: the packets handed to the daemon. [lg_lost]: how often the data
    connection was given up in a drain; [lg_broken]: how often one of the daemon's
    connections was. *)
Record ledger := Ledger {
  lg_past : list (list Z);
  lg_cur : list Z;
  lg_sent : list (list Z);
  lg_lost : nat;
  lg_broken : nat;
}.

Definition submissions (l : ledger) : list (list Z) :=
  concat (map submitted (lg_past l)) ++ submitted (lg_cur l).

(** A connection ends when the client's descriptor is given up. *)
Definition hang_up (st st' : bridge_state) (l : ledger) : ledger :=
  if (0 <=? br_client st) && (br_client st' <? 0)
  then Ledger (lg_past l ++ [lg_cur l]) [] (lg_sent l) (lg_lost l) (lg_broken l) else l.
Definition enter_sent (bs : list Z) (st st' : bridge_state) (l : ledger) : ledger :=
  Ledger (lg_past l) (lg_cur l) (lg_sent l ++ handed bs)
    (if (0 <=? br_data st) && (br_data st' <? 0) then S (lg_lost l) else lg_lost l)
    (if (0 <=? br_data st) && (br_data st' <? 0) || (0 <=? br_conf st) && (br_conf st' <? 0)
     then S (lg_broken l) else lg_broken l).
Definition enter_read (bs : list Z) (l : ledger) : ledger :=
  Ledger (lg_past l) (lg_cur l ++ bs) (lg_sent l) (lg_lost l) (lg_broken l).

(** The steps of a round that neither read the client nor drain the queue, with the
    state they leave. *)
Inductive other_step (cfg : lhkt_config_t) (listen_fd : Z) (st : bridge_state) : io bridge_state → Prop :=
  | other_wait : other_step cfg listen_fd st (r ← choose_timeout cfg st; mret r.1)
  | other_poll fds us : other_step cfg listen_fd st (_ ← sys_poll fds us; mret st)
  | other_stop : other_step cfg listen_fd st (_ ← bridge_runtime_should_stop; mret st)
  | other_idle : other_step cfg listen_fd st (st' ← idle_step cfg st; mret (id st'))
  | other_accept ready : other_step cfg listen_fd st (r ← accept_step cfg listen_fd ready st; mret r.2)
  | other_conf ready : other_step cfg listen_fd st (r ← conf_step ready st; mret r.2)
  | other_data ready : other_step cfg listen_fd st (r ← data_step ready st; mret r.2).

(** The life of a process, with its trace and its books. *)
Inductive life (inet_pton : list Z → option Z) (cfg : lhkt_config_t) (listen_fd : Z) :
    bridge_state → list output → ledger → Prop :=
  | life_start stats w st w1 w2 :
      reads_ok w → w_out w = [] → bridge_start cfg stats w = Some (st, w1) →
      lhkt_tcp_server_listen inet_pton (kiss_host cfg) (kiss_port cfg) w1 = Some (listen_fd, w2) →
      0 ≤ listen_fd → life inet_pton cfg listen_fd st (w_out w2) (Ledger [] [] [] 0 0)
  | life_drain st l w st' w' o :
      life inet_pton cfg listen_fd st (w_out w) l → reads_ok w →
      drain_step cfg st w = Some (st', w') → w_out w' = w_out w ++ o →
      life inet_pton cfg listen_fd st' (w_out w')
        (hang_up st st' (enter_sent (written (br_data st) o) st st' l))
  | life_client st l w ready f st' w' rs :
      life inet_pton cfg listen_fd st (w_out w) l → reads_ok w →
      client_step cfg ready st w = Some ((f, st'), w') → w_read w = rs ++ w_read w' →
      life inet_pton cfg listen_fd st' (w_out w') (hang_up st st' (enter_read (delivered 512 rs) l))
  | life_other st l w m st' w' :
      life inet_pton cfg listen_fd st (w_out w) l → reads_ok w →
      other_step cfg listen_fd st m → m w = Some (st', w') →
      life inet_pton cfg listen_fd st' (w_out w') (hang_up st st' l).

(** ** Balance *)

(** What became of a submission that left the queue: the frames of it that the daemon
    got although the write was reported as failed, and whether one was reported as
    written. *)
Record entry := Entry { en_torn : nat; en_done : bool; en_packet : list Z }.
Definition sends (e : entry) : list (list Z) :=
  replicate (en_torn e + (if en_done e then 1 else 0)) (en_packet e).
Definition torn (es : list entry) : nat := sum_list (map en_torn es).

(** The same of the packet that is next. *)
Definition pending (k : nat) (queue : list (list Z)) : list (list Z) :=
  match queue with p :: _ => replicate k p | [] => [] end.

Definition balanced (sent queue subs : list (list Z)) (lost : nat) : Prop :=
  ∃ es k, sent = concat (map sends es) ++ pending k queue ∧ (torn es + k ≤ lost)%nat ∧
          map en_packet es ++ queue `sublist_of` subs.

Lemma torn_app a b : torn (a ++ b) = (torn a + torn b)%nat.
Proof. unfold torn. rewrite map_app. induction (map en_torn a); cbn; lia. Qed.

Lemma concat_sends es e : concat (map sends (es ++ [e])) = concat (map sends es) ++ sends e.
Proof. rewrite map_app, concat_app. cbn. by rewrite app_nil_r. Qed.

Lemma pending_0 queue : pending 0 queue = [].
Proof. by destruct queue. Qed.

(** The next packet leaves the queue: dropped, or written. *)
Lemma balanced_leaves (done : bool) sent p queue subs lost :
  balanced sent (p :: queue) subs lost →
  balanced (sent ++ (if done then [p] else [])) queue subs lost.
Proof.
  intros (es & k & -> & Hk & Hs). exists (es ++ [Entry k done p]), 0%nat. split; [|split].
  - rewrite concat_sends, pending_0, app_nil_r. unfold sends. cbn.
    rewrite replicate_add, <-!app_assoc. by destruct done.
  - rewrite torn_app. cbn. lia.
  - by rewrite map_app, <-app_assoc.
Qed.

Lemma balanced_drops sent dropped queue subs lost :
  balanced sent (dropped ++ queue) subs lost → balanced sent queue subs lost.
Proof.
  induction dropped as [|p dropped IH]; [done|]. intros H. apply IH.
  apply (balanced_leaves false) in H. by rewrite app_nil_r in H.
Qed.

(** A frame of it arrives, but it stays. *)
Lemma balanced_again sent p queue subs lost :
  balanced sent (p :: queue) subs lost → balanced (sent ++ [p]) (p :: queue) subs (S lost).
Proof.
  intros (es & k & -> & Hk & Hs). exists es, (S k). split; [|split; [lia|done]].
  rewrite <-app_assoc. f_equal. cbn [pending]. by rewrite <-replicate_cons_app.
Qed.

Lemma balanced_push sent queue acc subs more lost :
  acc `sublist_of` more → balanced sent queue subs lost → balanced sent (queue ++ acc) (subs ++ more) lost.
Proof.
  intros Ha (es & k & -> & Hk & Hs). exists es, (match queue with [] => 0%nat | _ => k end). split; [|split].
  - destruct queue as [|p queue]; [by rewrite pending_0|done].
  - destruct queue; lia.
  - rewrite app_assoc. by apply sublist_app.
Qed.

Lemma balanced_lost sent queue subs lost lost' :
  (lost ≤ lost')%nat → balanced sent queue subs lost → balanced sent queue subs lost'.
Proof. intros H (es & k & E & Hk & Hs). exists es, k. split; [done|]. split; [lia|done]. Qed.

(** While no data connection is given up, every submission is sent at most once. *)
Lemma balanced_once sent queue subs : balanced sent queue subs 0 → sent ++ queue `sublist_of` subs.
Proof.
  intros (es & k & -> & Hk & Hs). assert (k = 0%nat) as -> by lia. rewrite pending_0, app_nil_r.
  etrans; [|exact Hs]. apply sublist_app; [|done]. assert (torn es = 0%nat) as H0 by lia. clear Hs Hk.
  induction es as [|[n d p] es IH]; [done|]. unfold torn in *. cbn in H0 |- *.
  assert (n = 0%nat) as -> by lia. unfold sends at 1. cbn.
  destruct d; cbn; [apply sublist_skip|apply sublist_cons]; apply IH; lia.
Qed.

(** The state and the books. *)
Record booked (st : bridge_state) (l : ledger) : Prop := {
  bk_dec : br_dec st = (kiss_decode kiss_decoder_init (lg_cur l)).1;
  bk_idle : br_client st < 0 → lg_cur l = [];
  bk_balanced : balanced (lg_sent l) (packets (br_queue st)) (submissions l) (lg_lost l);
}.

Lemma submitted_nil : submitted [] = [].
Proof. done. Qed.

Lemma hang_up_booked st st' l :
  (br_client st < 0 → lg_cur l = []) →
  balanced (lg_sent l) (packets (br_queue st')) (submissions l) (lg_lost l) →
  br_client st' = br_client st ∧ br_dec st' = (kiss_decode kiss_decoder_init (lg_cur l)).1 ∨
  br_dec st' = kiss_decoder_init ∧ (br_client st' < 0 ∨ br_client st < 0) →
  booked st' (hang_up st st' l).
Proof.
  intros Hi Hb H. unfold hang_up.
  destruct (Z.leb_spec 0 (br_client st)), (Z.ltb_spec (br_client st') 0); cbn [andb].
  2: { split; [|lia|done]. destruct H as [[_ H]|[_ H]]; [done|lia]. }
  - split; [|done|].
    + destruct H as [[H _]|[H _]]; [lia|done].
    + unfold submissions in *. cbn [lg_past lg_cur lg_sent lg_lost].
      rewrite map_app, concat_app, submitted_nil. cbn [map concat]. by rewrite !app_nil_r.
  - specialize (Hi ltac:(done)). split; [|done|done]. rewrite Hi in *. by destruct H as [[_ H]|[H _]].
  - specialize (Hi ltac:(done)). split; [|by intros|done]. rewrite Hi in *. by destruct H as [[_ H]|[H _]].
Qed.

(** ** The steps

    A step that leaves the queue, and the client with its decoder or without both. *)
Definition calm (st st' : bridge_state) : Prop :=
  br_queue st' = br_queue st ∧
  (br_client st' = br_client st ∧ br_dec st' = br_dec st ∨
   br_dec st' = kiss_decoder_init ∧ (br_client st' < 0 ∨ br_client st < 0)).

Lemma calm_refl st : calm st st.
Proof. split; [done|by left]. Qed.

Lemma calm_booked st st' l : booked st l → calm st st' → booked st' (hang_up st st' l).
Proof.
  intros [Hd Hi Hb] [Eq H]. apply hang_up_booked; [done|by rewrite Eq|].
  destruct H as [[E1 E2]|H]; [left|by right]. by rewrite E2.
Qed.

Lemma close_client_hangs st :
  yields (close_client st) (λ st' _, br_queue st' = br_queue st ∧ br_dec st' = kiss_decoder_init ∧ br_client st' < 0).
Proof. eapply yields_bind; [apply close_runs|]. intros [] o _. by apply yields_ret. Qed.

Lemma close_client_calm st : yields (close_client st) (λ st' _, calm st st').
Proof. eapply yields_mono; [apply close_client_hangs|]. intros st' o (? & ? & ?). split; [done|]. right. auto. Qed.

(** The daemon's connections do not touch the client. *)
Definition same_client (st st' : bridge_state) : Prop :=
  br_queue st' = br_queue st ∧ br_client st' = br_client st ∧ br_dec st' = br_dec st.

Lemma same_client_calm st st' : same_client st st' → calm st st'.
Proof. intros (? & ? & ?). split; [done|by left]. Qed.

Lemma drop_data_same st : yields (drop_data st) (λ st' _, same_client st st').
Proof.
  eapply yields_bind; [apply disconnect_data_gone|]. intros [fd stats] o _. by apply yields_ret.
Qed.
Lemma drop_conf_same st : yields (drop_conf st) (λ st' _, same_client st st').
Proof.
  unfold drop_conf, bridge_loraham_disconnect_conf_socket. eapply (yields_bind _ _ (λ _ _, True)).
  - destruct (_ <? _); [by apply yields_ret|]. eapply yields_bind; [apply close_runs|].
    intros [] o _. by apply yields_ret.
  - intros [[fd confst] stats] o _. by apply yields_ret.
Qed.
Lemma reconnect_policy_same ret st : yields (reconnect_policy ret st) (λ st' _, same_client st st').
Proof.
  unfold reconnect_policy. repeat case_match; [apply drop_data_same|apply drop_conf_same|by apply yields_ret].
Qed.

Lemma collect_cad_same st : same_client st (collect_cad st) ∧ br_data (collect_cad st) = br_data st.
Proof. unfold collect_cad. by destruct (bridge_conf_collect_cad_stats _ _) as [[? ?] ?]. Qed.

Lemma idle_step_same cfg st : yields (idle_step cfg st) (λ st' _, same_client st st').
Proof.
  unfold idle_step. destruct (br_conf st <? 0).
  { unfold bridge_loraham_connect_conf_socket.
    eapply (yields_bind _ _ (λ _ _, True)); [|intros [fd confst] o _; by apply yields_ret].
    eapply yields_bind; [apply connect_runs|]. intros fd o _. by apply yields_ret. }
  destruct (br_data st <? 0).
  - eapply yields_bind; [apply connect_runs|]. intros fd o _. destruct (0 <=? fd); [|by apply yields_ret].
    eapply yields_bind; [apply send_initial_config_same|]. intros [ok st'] o' [_ [confst E]]. cbn in E. subst st'. by apply yields_ret.
  - destruct (negb _); [|by apply yields_ret].
    eapply yields_bind; [apply send_initial_config_same|]. intros [ok st'] o' [_ [confst E]]. cbn in E. subst st'.
    apply yields_ret. by destruct ok.
Qed.

Lemma choose_timeout_same cfg st : yields (choose_timeout cfg st) (λ r _, same_client st r.1).
Proof.
  unfold choose_timeout. eapply (yields_bind _ _ (λ r _, same_client st r.1)); [|intros [st' t] o H; by apply yields_ret].
  destruct (_ <? _); [|by apply yields_ret]. eapply yields_silent_bind; [apply silent_now|]. intros now _.
  destruct (stats_timeout _ _ _ _) as [next t]. by apply yields_ret.
Qed.

Lemma conf_step_same ready st : yields (conf_step ready st) (λ r _, same_client st r.2).
Proof.
  unfold conf_step. destruct (_ && _); [|by apply yields_ret].
  eapply yields_silent_bind; [apply bridge_conf_read_available_silent|]. intros [ret confst] _.
  destruct (negb _).
  - eapply yields_bind; [apply drop_conf_same|]. intros st' o H. by apply yields_ret.
  - apply yields_ret. destruct (collect_cad_same (set_conf (br_conf st) confst st)) as [(? & ? & ?) _]. done.
Qed.

Lemma accept_step_calm cfg listen_fd ready st :
  bridge_inv cfg st → yields (accept_step cfg listen_fd ready st) (λ r _, calm st r.2).
Proof.
  intros H. unfold accept_step. destruct (Z.ltb_spec (br_client st) 0) as [Hc|]; cbn [andb].
  2: { apply yields_ret, calm_refl. }
  destruct (proj2 (bi_client _ _ H) Hc) as [Hd _].
  destruct (bool_decide _); [|apply yields_ret, calm_refl].
  assert (∀ fd params, calm st (set_client fd kiss_decoder_init params st)) as Hset.
  { intros fd params. split; [done|]. right. by split; [|right]. }
  rewrite Hd. eapply yields_bind; [apply accept_runs|]. intros fd o _. destruct (_ =? _); [apply yields_ret, Hset|].
  destruct (fd <? 0).
  { eapply yields_silent_bind; [apply bridge_runtime_sleep_ms_silent|]. intros ret _. apply yields_ret, Hset. }
  eapply yields_silent_bind; [apply set_nonblocking_silent|]. intros ret _. destruct (negb _); [|apply yields_ret, Hset].
  eapply yields_bind; [apply close_runs|]. intros [] o' _. apply yields_ret, Hset.
Qed.

Lemma data_step_calm ready st : yields (data_step ready st) (λ r _, calm st r.2).
Proof.
  unfold data_step. destruct (_ && _); [|apply yields_ret, calm_refl].
  assert (∀ st1 f, same_client st st1 → yields (st' ← drop_data st1; mret (f, st')) (λ (r : flow * bridge_state) _, calm st r.2)) as Hdrop.
  { intros st1 f (? & ? & ?). eapply yields_bind; [apply drop_data_same|]. intros st' o (? & ? & ?).
    apply yields_ret, same_client_calm. repeat split; cbn; congruence. }
  eapply yields_silent_bind; [apply loraham_sock_read_silent|].
  intros [[|b bs]|[]] _; try by apply Hdrop. 2: { apply yields_ret, calm_refl. }
  eapply yields_bind; [apply framed_chunk_yields|]. intros [[ret frames] stats] o _. cbv zeta.
  destruct (should_disconnect_kiss_client ret).
  - eapply yields_bind; [apply close_client_calm|]. intros st' o' H. by apply yields_ret.
  - destruct (ret <? 0); [by apply Hdrop|]. apply yields_ret. split; [done|by left].
Qed.

(** *** The drain *)

Lemma packet_ok_len p : packet_ok p → len p ≤ LHKT_FRAMED_MAX_PAYLOAD.
Proof.
  intros (f & _ & _ & Hl & ->). rewrite length_app. change (length loraham_hdr) with 3%nat.
  unfold LHKT_FRAMED_MAX_PAYLOAD. lia.
Qed.

(** Without one of the daemon's sockets, packets only expire. *)
Lemma drain_expires cfg client data conf d :
  Spec.wf (dr_queue d) → data < 0 ∨ conf < 0 →
  yields (bridge_loraham_tx_queue_drain_with_client cfg client data conf d) (λ r o,
    o = [] ∧ ∃ dropped, packets (dr_queue d) = dropped ++ packets (dr_queue r.2)).
Proof.
  intros Hwf Hneg.
  apply (yields_loop _ (λ d1 o, o = [] ∧ Spec.wf (dr_queue d1) ∧
    ∃ dropped, packets (dr_queue d) = dropped ++ packets (dr_queue d1))).
  { split; [done|]. split; [done|]. by exists []. }
  intros [q e] o (-> & Hq & dropped & Ed). cbn [dr_queue] in *.
  apply (yields_mono _ (λ x o', o' = [] ∧ match x with
    | inl d2 => Spec.wf (dr_queue d2) ∧ ∃ p, packets q = p :: packets (dr_queue d2)
    | inr r => packets (dr_queue r.2) = packets q end)).
  2: { intros [d2|r] o' [-> H]; cbn [app].
       - destruct H as [Hw [p Ep]]. split; [done|]. split; [done|]. exists (dropped ++ [p]).
         by rewrite Ed, Ep, <-app_assoc.
       - split; [done|]. exists dropped. by rewrite Ed, H. }
  unfold drain_round. cbn [dr_queue dr_env].
  destruct (bridge_tx_queue_head q) as [item|] eqn:Hh; [|by apply yields_ret].
  destruct (head_packets q item Hq Hh) as (rest & Ep & Hset).
  eapply (yields_silent_bind _ _ (λ _, True)).
  { destruct (0 <=? conf); [apply bridge_conf_read_available_silent|by apply silent_ret]. }
  intros [ret st] _. destruct (negb (ret =? LHKT_OK)); [by apply yields_ret|].
  destruct (_ && _); [by apply yields_ret|]. destruct (_ && _); [by apply yields_ret|].
  eapply yields_silent_bind; [apply silent_now|]. intros now _.
  pose proof (head_decision_packet cfg ((0 <=? conf) && negb (cs_tx_busy st =? 0)) item now) as Hi.
  destruct (bridge_tx_head_decision _ _ _ _) as [decision item']. cbn [snd] in Hi.
  destruct (Hset item' Hi) as (Hw & Hp & Hpw & Hpp). destruct decision.
  - by apply yields_ret.
  - destruct (Z.ltb_spec data 0); [by apply yields_ret|]. destruct (Z.ltb_spec conf 0); [by apply yields_ret|lia].
  - apply yields_ret. split; [done|]. split; [done|]. exists (ti_packet item). cbn [dr_queue]. by rewrite Hpp.
Qed.

(** What a drain does to the queue and for the daemon: the front expires, and then at
    most one packet is handed over, which stays only when the write failed. *)
Definition hands (queue queue' got : list (list Z)) (broken : Prop) : Prop :=
  ∃ dropped rest, queue = dropped ++ rest ∧
    (got = [] ∧ queue' = rest ∨
     ∃ p rest', rest = p :: rest' ∧ got = [p] ∧ (queue' = rest' ∨ queue' = rest ∧ broken)).

Lemma hands_nil queue dropped rest broken : queue = dropped ++ rest → hands queue rest [] broken.
Proof. intros ->. exists dropped, rest. split; [done|by left]. Qed.

Lemma drain_hands cfg st :
  bridge_inv cfg st → distinct st →
  yields (bridge_loraham_tx_queue_drain_with_client cfg (br_client st) (br_data st) (br_conf st)
      (DrainState (br_queue st) (TxEnv (br_stats st) (br_confst st) (Some (br_frames st)))))
    (λ r o, hands (packets (br_queue st)) (packets (dr_queue r.2)) (handed (written (br_data st) o))
              (r.1 = LHKT_ERR_TX_SOCKET ∧ 0 ≤ br_data st)).
Proof.
  intros H [Dd Dc]. pose proof (bi_queue _ _ H) as Hq.
  assert (∀ (r : Z * drain_state) o, o = [] ∧ (∃ dropped, packets (br_queue st) = dropped ++ packets (dr_queue r.2)) →
    hands (packets (br_queue st)) (packets (dr_queue r.2)) (handed (written (br_data st) o))
      (r.1 = LHKT_ERR_TX_SOCKET ∧ 0 ≤ br_data st)) as Hidle.
  { intros r o [-> [dropped E]]. by eapply hands_nil. }
  destruct (Z.ltb_spec (br_data st) 0) as [|Hd];
    [eapply yields_mono; [apply drain_expires; [apply (qi_wf _ _ Hq)|by left]|exact Hidle]|].
  destruct (Z.ltb_spec (br_conf st) 0) as [|Hc];
    [eapply yields_mono; [apply drain_expires; [apply (qi_wf _ _ Hq)|by right]|exact Hidle]|].
  destruct (Dd Hd) as [D1 D2]. eapply yields_mono.
  { eapply drain_yields; [exact D2|by apply Dc|exact D1|done|apply (qi_wf _ _ Hq)]. }
  intros [ret d] o (_ & dropped & rest & Ep & Ho). cbn [dr_queue fst snd] in *.
  destruct Ho as [(-> & E & _)|(p & rest' & -> & Ho)]; [by apply (hands_nil _ dropped); rewrite E|].
  assert (len p ≤ LHKT_FRAMED_MAX_PAYLOAD) as Hlen.
  { pose proof (qi_packets _ _ Hq) as F. rewrite Ep in F. apply Forall_app in F as [_ F].
    apply Forall_cons in F as [F _]. by apply packet_ok_len. }
  destruct Ho as [[E W]|(E & _ & Hp & W)].
  - rewrite W, handed_frame by done. exists dropped, (p :: rest'). split; [done|]. right.
    exists p, rest'. split; [done|]. split; [done|by left].
  - destruct (handed_prefix p _ Hlen Hp) as [Eh|Eh]; rewrite Eh; [by apply (hands_nil _ dropped); rewrite E|].
    exists dropped, (p :: rest'). split; [done|]. right. exists p, rest'. split; [done|]. split; [done|]. right.
    split; [done|]. split; [|done]. destruct W as [W|W]; [by rewrite W in Eh|done].
Qed.

(** The client is as before, or gone. *)
Definition stays (st st' : bridge_state) : Prop :=
  br_client st' = br_client st ∧ br_dec st' = br_dec st ∨ br_dec st' = kiss_decoder_init ∧ br_client st' < 0.

(** What follows the drain in the step. *)
Lemma after_drain_stays ret st :
  yields (if bridge_loraham_should_reconnect_data_socket ret ||
             bridge_loraham_should_reconnect_conf_socket ret then reconnect_policy ret st
          else if should_disconnect_kiss_client ret then close_client st
          else mret st)
    (λ st' o, (∀ fd, written fd o = []) ∧ br_queue st' = br_queue st ∧ stays st st').
Proof.
  destruct (_ || _).
  - eapply yields_mono; [apply yields_and; [apply reconnect_policy_unwritten|apply reconnect_policy_same]|].
    intros st' o [W (? & ? & ?)]. split; [exact W|]. split; [done|by left].
  - destruct (should_disconnect_kiss_client ret).
    + eapply yields_bind; [apply unwritten_close|]. intros [] o W. apply yields_ret. rewrite app_nil_r.
      split; [exact W|]. split; [done|]. right. split; [done|]. cbn. lia.
    + apply yields_ret. split; [done|]. split; [done|by left].
Qed.

Lemma drain_step_hands cfg st :
  bridge_inv cfg st → distinct st →
  yields (drain_step cfg st) (λ st' o, stays st st' ∧
    hands (packets (br_queue st)) (packets (br_queue st')) (handed (written (br_data st) o))
      (0 ≤ br_data st ∧ br_data st' < 0)).
Proof.
  intros H D. unfold drain_step. eapply yields_bind; [by apply drain_hands|].
  intros [ret d] o Hh. cbv zeta. cbn [fst snd] in Hh.
  eapply yields_bind; [apply yields_and; [apply after_drain|apply after_drain_stays]|].
  intros st' o' [(_ & Hg & _) (W & Eq & Hc)]. apply yields_ret. rewrite app_nil_r.
  destruct (collect_cad_same st') as [(E1 & E2 & E3) E4]. unfold stays in *. rewrite E1, E2, E3, E4, Eq.
  split; [exact Hc|]. rewrite written_app, W, app_nil_r.
  destruct Hh as (dropped & rest & Ep & Hh). exists dropped, rest. split; [done|].
  destruct Hh as [Hh|(p & rest' & Er & Eg & Hh)]; [by left|right]. exists p, rest'. naive_solver.
Qed.

Lemma hands_balanced queue queue' got (broken : bool) sent subs lost :
  hands queue queue' got (broken = true) → balanced sent queue subs lost →
  balanced (sent ++ got) queue' subs (if broken then S lost else lost).
Proof.
  intros (dropped & rest & -> & H) Hb%balanced_drops.
  assert (lost ≤ if broken then S lost else lost)%nat as Hl by (destruct broken; lia).
  destruct H as [[-> ->]|(p & rest' & -> & -> & [->|[-> ->]])].
  - rewrite app_nil_r. by eapply balanced_lost.
  - eapply balanced_lost; [exact Hl|]. by apply (balanced_leaves true).
  - by apply balanced_again.
Qed.

Lemma drain_booked st st' o l :
  booked st l → stays st st' →
  hands (packets (br_queue st)) (packets (br_queue st')) (handed (written (br_data st) o))
    (0 ≤ br_data st ∧ br_data st' < 0) →
  booked st' (hang_up st st' (enter_sent (written (br_data st) o) st st' l)).
Proof.
  intros [Hd Hi Hb] Hs Hh. apply hang_up_booked; [done| |].
  - unfold submissions. cbn [lg_past lg_cur lg_sent lg_lost enter_sent].
    apply (hands_balanced (packets (br_queue st))); [|done].
    destruct Hh as (dropped & rest & Ep & Hh). exists dropped, rest. split; [done|].
    destruct Hh as [Hh|(p & rest' & Er & Eg & Hh)]; [by left|right]. exists p, rest'.
    do 2 (split; [done|]). destruct Hh as [Hh|[Hh [Hb1 Hb2]]]; [by left|right]. split; [done|].
    apply andb_true_intro. split; [by apply Z.leb_le|by apply Z.ltb_lt].
  - destruct Hs as [[E1 E2]|[E1 E2]]; [left|right; auto]. by rewrite E2.
Qed.

(** *** The client *)

Lemma submitted_app cur bs :
  submitted (cur ++ bs) = submitted cur ++ omap kiss_tx_packet
    (framed_of (kiss_decode (kiss_decode kiss_decoder_init cur).1 bs).2).
Proof.
  unfold submitted, kiss_decode. rewrite run_app.
  destruct (run kiss_decode_byte kiss_decoder_init cur) as [s e1]. cbn [fst snd].
  destruct (run kiss_decode_byte s bs) as [s2 e2]. cbn [snd]. by rewrite framed_of_app, omap_app.
Qed.

Lemma handle_frame_push cfg frame params stats queue now :
  bytes_ok (kf_data frame) → Spec.wf queue →
  let '(_, _, _, queue') := bridge_kiss_handle_frame frame params cfg stats queue now in
  Spec.wf queue' ∧ ∃ acc, packets queue' = packets queue ++ acc ∧
    acc `sublist_of` option_list (kiss_tx_packet frame).
Proof.
  intros Hb Hq. pose proof (handle_frame_spec frame params cfg stats queue now Hb Hq) as H.
  destruct (bridge_kiss_handle_frame frame params cfg stats queue now) as [[[ret params'] stats'] queue'].
  destruct H as [Hw H]. split; [done|].
  assert (queue' = queue → ∃ acc, packets queue' = packets queue ++ acc ∧
    acc `sublist_of` option_list (kiss_tx_packet frame)) as Hsame.
  { intros ->. exists []. split; [by rewrite app_nil_r|apply sublist_nil_l]. }
  destruct (kiss_tx_packet frame) as [p|]; [|apply Hsame, H].
  destruct (negb _); [apply Hsame, H|]. destruct (queue_room cfg queue); [|apply Hsame, H].
  destruct H as [_ E]. exists [p]. split; [|done]. unfold packets. by rewrite E, map_app.
Qed.

(** The bytes of one read: the decoder runs over them, and the queue takes some of the
    packets, in order. *)
Lemma client_bytes_books cfg bs : ∀ st,
  kiss_wf (br_dec st) → Spec.wf (br_queue st) → bytes_ok bs →
  yields (client_bytes cfg bs st) (λ st' _, br_client st' = br_client st ∧
    br_dec st' = (kiss_decode (br_dec st) bs).1 ∧
    ∃ acc, packets (br_queue st') = packets (br_queue st) ++ acc ∧
      acc `sublist_of` omap kiss_tx_packet (framed_of (kiss_decode (br_dec st) bs).2)).
Proof.
  induction bs as [|b bs IH]; intros st Hdec Hq Hbs; cbn [client_bytes].
  { apply yields_ret. do 2 (split; [done|]). exists []. by rewrite app_nil_r. }
  apply Forall_cons in Hbs as [Hb Hbs]. unfold kiss_decode in *. rewrite run_cons.
  destruct (dec_step (SafeDecoder:=kiss_safe) (br_dec st) b Hdec Hb) as [Hdec' Hev].
  destruct (kiss_decode_byte (br_dec st) b) as [dec ev]. cbn [fst snd] in Hdec', Hev.
  destruct ev as [|frame|e].
  - eapply yields_mono; [by apply IH|]. cbn. intros st' o H. by destruct (run kiss_decode_byte dec bs).
  - eapply yields_silent_bind; [apply silent_now|]. intros now _. cbn [br_params br_stats br_queue br_dec br_client set_client].
    destruct Hev as (_ & _ & _ & Hdata).
    pose proof (handle_frame_push cfg frame (br_params st) (bump kiss_rx (br_stats st)) (br_queue st) now Hdata Hq) as Hp.
    destruct (bridge_kiss_handle_frame _ _ _ _ _ _) as [[[ret params] stats] queue].
    destruct Hp as [Hw (acc & Ea & Hsub)].
    eapply yields_bind; [apply reconnect_policy_same|]. intros st1 o (E1 & E2 & E3). cbn in E1, E2, E3.
    eapply yields_mono; [apply IH; [by rewrite E3|by rewrite E1|done]|]. rewrite E1, E2, E3.
    intros st' o' (Ec & Ed & acc' & Ea' & Hsub'). destruct (run kiss_decode_byte dec bs) as [s evs]. cbn [fst snd] in *.
    do 2 (split; [done|]). exists (acc ++ acc'). split; [by rewrite Ea', Ea, app_assoc|].
    change (omap kiss_tx_packet (framed_of (Frame frame :: evs))) with
      (omap kiss_tx_packet ([frame] ++ framed_of evs)). rewrite omap_app. apply sublist_app; [|done].
    cbn. by destruct (kiss_tx_packet frame).
  - eapply yields_mono; [by apply IH|]. cbn. intros st' o H. by destruct (run kiss_decode_byte dec bs).
Qed.

Lemma hears_yields {A} (m : io A) Q : deaf m → yields m Q → hears m (λ a o rs, rs = [] ∧ Q a o).
Proof.
  intros Hd Hy w. apply wp_intro. intros a w' E.
  destruct (wp_elim _ _ _ _ _ (Hd w) E) as (o & rs & Eo & Er & _ & ->).
  destruct (wp_elim _ _ _ _ _ (Hy w) E) as (o' & Eo' & _ & H). exists o, []. split; [done|]. split; [done|].
  split; [done|]. assert (o' = o) as <-; [|done]. unfold extends in *. rewrite Eo in Eo'. by apply app_inv_head in Eo'.
Qed.

Lemma deaf_close fd : deaf (lhkt_tcp_server_close fd).
Proof. unfold lhkt_tcp_server_close, sys_close. solve_deaf. Qed.
#[export] Hint Resolve deaf_close : deaf.
Lemma deaf_close_client st : deaf (close_client st).
Proof. unfold close_client. solve_deaf. Qed.
Lemma deaf_policy ret st : deaf (reconnect_policy ret st).
Proof.
  unfold reconnect_policy, drop_data, drop_conf, bridge_loraham_disconnect_data_socket,
    bridge_loraham_disconnect_conf_socket. solve_deaf.
Qed.
#[export] Hint Resolve deaf_close_client deaf_policy : deaf.
Lemma deaf_client_bytes cfg bs : ∀ st, deaf (client_bytes cfg bs st).
Proof. induction bs as [|b bs IH]; intros st; cbn [client_bytes]; solve_deaf. Qed.

(** A step of the client reads at most once, and only from the client. *)
Lemma client_step_hears cfg ready st l :
  bridge_inv cfg st → booked st l →
  hears (client_step cfg ready st) (λ (x : flow * bridge_state) _ rs, bytes_ok (delivered 512 rs) →
    booked x.2 (hang_up st x.2 (enter_read (delivered 512 rs) l))).
Proof.
  intros H Hb. assert (enter_read [] l = l) as El by (destruct l; unfold enter_read; cbn; by rewrite app_nil_r).
  assert (∀ st' rs, calm st st' → delivered 512 rs = [] →
    booked st' (hang_up st st' (enter_read (delivered 512 rs) l))) as Hcalm.
  { intros st' rs Hc ->. rewrite El. by apply calm_booked. }
  unfold client_step. destruct (Z.leb_spec 0 (br_client st)) as [Hc|]; cbn [andb].
  2: { apply hears_ret. intros _. by apply Hcalm; [apply calm_refl|]. }
  destruct (bool_decide _); [|apply hears_ret; intros _; by apply Hcalm; [apply calm_refl|]].
  eapply (hears_bind _ _ (λ n o rs, ∃ r, rs = [r] ∧ delivered 512 rs = match n with RdData bs => bs | RdErr _ => [] end)).
  { apply hears_read. intros r. exists r. split; [done|]. destruct r; cbn; [by rewrite app_nil_r|done]. }
  intros n o rs (r & -> & En).
  assert (∀ st1 f, br_queue st1 = br_queue st → delivered 512 [r] = [] →
    hears (st' ← close_client st1; mret (f, st')) (λ (x : flow * bridge_state) _ rs',
      bytes_ok (delivered 512 ([r] ++ rs')) →
      booked x.2 (hang_up st x.2 (enter_read (delivered 512 ([r] ++ rs')) l)))) as Hclose.
  { intros st1 f Eq E. eapply hears_bind; [apply hears_yields; [apply deaf_close_client|apply close_client_hangs]|].
    intros st' o1 rs1 [-> (E1 & E2 & E3)]. apply hears_ret. intros _. apply Hcalm; [|done].
    cbn [snd]. split; [congruence|]. right. auto. }
  destruct n as [[|b bs]|[]]; try (by apply Hclose); try (apply hears_ret; intros _; by apply Hcalm; [apply calm_refl|]).
  destruct (decide (bytes_ok (b :: bs))) as [Hbs|Hbs].
  2: { eapply hears_mono; [apply (deaf_bind _ _ (deaf_client_bytes cfg (b :: bs) st)); intros; apply deaf_ret|].
       intros x o1 rs1 [_ ->] Hok. by rewrite app_nil_r, En in Hok. }
  destruct Hb as [Hd Hi Hbal]. eapply hears_bind.
  { apply hears_yields; [apply deaf_client_bytes|].
    apply client_bytes_books; [apply (bi_client _ _ H)|apply (bi_queue _ _ H)|done]. }
  intros st' o1 rs1 [-> (Ec & Ed & acc & Ea & Hsub)]. apply hears_ret. rewrite app_nil_r, En. intros _. cbn [snd].
  apply hang_up_booked; cbn [enter_read lg_cur lg_sent lg_lost]; [lia| |].
  - rewrite Ea. unfold submissions. cbn [lg_past lg_cur enter_read]. rewrite submitted_app, app_assoc, <-Hd.
    by apply balanced_push.
  - left. split; [done|]. rewrite Ed, Hd. unfold kiss_decode. rewrite run_app.
    destruct (run kiss_decode_byte kiss_decoder_init (lg_cur l)) as [s e1]. cbn [fst].
    by destruct (run kiss_decode_byte s (b :: bs)).
Qed.

(** *** The other steps *)
Section other.
Context (cfg : lhkt_config_t) (listen_fd : Z).

Lemma other_step_inv st m : bridge_inv cfg st → other_step cfg listen_fd st m → safe m (bridge_inv cfg).
Proof.
  intros H. destruct 1.
  - eapply safe_bind; [by apply choose_timeout_inv|]. intros [st' t] H'. by apply safe_ret.
  - eapply safe_bind; [apply safe_poll|]. intros r _. by apply safe_ret.
  - eapply safe_bind; [apply safe_should_stop|]. intros r _. by apply safe_ret.
  - eapply safe_bind; [by apply idle_step_inv|]. intros st' H'. by apply safe_ret.
  - eapply safe_bind; [by apply accept_step_inv|]. intros [f st'] H'. by apply safe_ret.
  - eapply safe_bind; [by apply conf_step_inv|]. intros [f st'] H'. by apply safe_ret.
  - eapply safe_bind; [by apply data_step_inv|]. intros [f st'] H'. by apply safe_ret.
Qed.

Lemma other_step_wired st m : other_step cfg listen_fd st m → wires cfg listen_fd id st m.
Proof.
  destruct 1.
  - eapply wires_bind; [apply choose_timeout_wired|]. intros [st' t]. by apply wires_ret.
  - eapply wires_silent; [apply silent_poll|]. intros r _. by apply wires_ret.
  - eapply wires_silent; [apply silent_should_stop|]. intros r _. by apply wires_ret.
  - eapply wires_bind; [apply idle_step_wired|]. intros st'. by apply wires_ret.
  - eapply wires_bind; [apply accept_step_wired|]. intros [f st']. by apply wires_ret.
  - eapply wires_bind; [apply conf_step_wired|]. intros [f st']. by apply wires_ret.
  - eapply wires_bind; [apply data_step_wired|]. intros [f st']. by apply wires_ret.
Qed.

Lemma other_step_calm st m : bridge_inv cfg st → other_step cfg listen_fd st m → yields m (λ st' _, calm st st').
Proof.
  intros H. destruct 1.
  - eapply yields_bind; [apply choose_timeout_same|]. intros [st' t] o Hs. by apply yields_ret, same_client_calm.
  - eapply yields_silent_bind; [apply silent_poll|]. intros r _. apply yields_ret, calm_refl.
  - eapply yields_silent_bind; [apply silent_should_stop|]. intros r _. apply yields_ret, calm_refl.
  - eapply yields_bind; [apply idle_step_same|]. intros st' o Hs. by apply yields_ret, same_client_calm.
  - eapply yields_bind; [by apply accept_step_calm|]. intros [f st'] o Hs. by apply yields_ret.
  - eapply yields_bind; [apply conf_step_same|]. intros [f st'] o Hs. by apply yields_ret, same_client_calm.
  - eapply yields_bind; [apply data_step_calm|]. intros [f st'] o Hs. by apply yields_ret.
Qed.
End other.

(** ** The invariant *)

Lemma bytes_ok_delivered max w rs w' : reads_ok w → w_read w = rs ++ w_read w' → bytes_ok (delivered max rs).
Proof.
  intros Hw E. unfold reads_ok in Hw. rewrite E in Hw. apply Forall_app in Hw as [Hw _].
  clear E. induction Hw as [|r rs Hr _ IH]; [constructor|]. unfold delivered in *. cbn. apply Forall_app_2; [|done].
  destruct r as [bs|e]; [by apply Forall_take|constructor].
Qed.

Lemma life_inv inet_pton cfg listen_fd st h l :
  life inet_pton cfg listen_fd st h l → bridge_inv cfg st.
Proof.
  induction 1 as [stats w st w1 w2 Hw E0 E El Hl|st l w st' w' o _ IH Hw E Eo|st l w ready f st' w' rs _ IH Hw E Er|
                  st l w m st' w' _ IH Hw Hm E].
  - apply (reachable_inv cfg listen_fd). by eapply reach_start.
  - eapply safe_elim in E as [_ E]; [exact E|by apply drain_step_inv|done].
  - eapply safe_elim in E as [_ E]; [exact E|by apply client_step_inv|done].
  - eapply safe_elim in E as [_ E]; [exact E|by eapply other_step_inv|done].
Qed.

Lemma life_wire inet_pton cfg listen_fd st h l :
  life inet_pton cfg listen_fd st h l → fresh h → wire cfg listen_fd st h.
Proof.
  induction 1 as [stats w st w1 w2 Hw E0 E El Hl|st l w st' w' o H IH Hw E Eo|st l w ready f st' w' rs H IH Hw E Er|
                  st l w m st' w' H IH Hw Hm E]; intros Hf.
  - by eapply history_wire; [eapply history_start|].
  - pose proof (life_inv _ _ _ _ _ _ H) as Hinv.
    destruct (yields_elim _ _ _ _ _ (drain_step_wired cfg listen_fd st Hinv) E) as (o' & Eo' & Ho).
    rewrite Eo' in *. apply fresh_app in Hf as [Hf1 Hf2]. by apply Ho; [|apply IH].
  - destruct (yields_elim _ _ _ _ _ (client_step_wired cfg listen_fd ready st) E) as (o' & Eo' & Ho).
    rewrite Eo' in *. apply fresh_app in Hf as [Hf1 Hf2]. by apply Ho; [|apply IH].
  - destruct (yields_elim _ _ _ _ _ (other_step_wired cfg listen_fd st m Hm) E) as (o' & Eo' & Ho).
    rewrite Eo' in *. apply fresh_app in Hf as [Hf1 Hf2]. by apply Ho; [|apply IH].
Qed.

Lemma life_booked inet_pton cfg listen_fd st h l :
  life inet_pton cfg listen_fd st h l → fresh h → booked st l.
Proof.
  induction 1 as [stats w st w1 w2 Hw E0 E El Hl|st l w st' w' o H IH Hw E Eo|st l w ready f st' w' rs H IH Hw E Er|
                  st l w m st' w' H IH Hw Hm E]; intros Hf.
  - destruct (yields_elim _ _ _ _ _ (bridge_start_state cfg stats) E) as (o & _ & data & conf & ok & confst & ->).
    split; [done|done|]. exists [], 0%nat. split; [done|]. split; [done|]. apply sublist_nil_l.
  - pose proof (life_inv _ _ _ _ _ _ H) as Hinv. rewrite Eo in Hf. apply fresh_app in Hf as [Hf1 Hf2].
    destruct (yields_elim _ _ _ _ _ (drain_step_hands cfg st Hinv
      (wire_distinct _ _ _ _ (life_wire _ _ _ _ _ _ H Hf1))) E) as (o' & Eo' & Hs & Hh).
    rewrite Eo in Eo'. apply app_inv_head in Eo' as <-. by apply drain_booked; [apply IH| |].
  - pose proof (life_inv _ _ _ _ _ _ H) as Hinv.
    destruct (yields_elim _ _ _ _ _ (client_step_wired cfg listen_fd ready st) E) as (o' & Eo' & _).
    rewrite Eo' in Hf. apply fresh_app in Hf as [Hf1 _].
    destruct (wp_elim _ _ _ _ _ (client_step_hears cfg ready st l Hinv (IH Hf1) w) E) as (o & rs' & _ & Er' & Hq).
    rewrite Er in Er'. apply app_inv_tail in Er' as <-. apply Hq. by eapply bytes_ok_delivered.
  - pose proof (life_inv _ _ _ _ _ _ H) as Hinv.
    destruct (yields_elim _ _ _ _ _ (other_step_wired cfg listen_fd st m Hm) E) as (o' & Eo' & _).
    rewrite Eo' in Hf. apply fresh_app in Hf as [Hf1 _].
    destruct (yields_elim _ _ _ _ _ (other_step_calm cfg listen_fd st m Hinv Hm) E) as (o & _ & Hc).
    by apply calm_booked; [apply IH|].
Qed.

Lemma client_step_reads cfg ready st : hears (client_step cfg ready st) (λ _ _ _, True).
Proof.
  unfold client_step. destruct (_ && _); [|by apply hears_ret].
  eapply (hears_bind _ _ (λ _ _ _, True)); [by apply hears_read|]. intros n o rs _.
  pose proof (deaf_client_bytes cfg) as Hb. eapply hears_mono; [|done].
  match goal with |- hears ?m _ => assert (deaf m) as H end; [|exact H].
  destruct n as [[|b bs]|[]]; solve_deaf.
Qed.

(** ** The main loop keeps such books *)
Section keeping.
Context (inet_pton : list Z → option Z) (cfg : lhkt_config_t) (listen_fd : Z).
Abbreviation lives st w := (reads_ok w ∧ ∃ l, life inet_pton cfg listen_fd st (w_out w) l).

(** [goes get st m]: [m] leads from [st] to the state [get] of its answer in such steps. *)
Definition goes {A} (get : A → bridge_state) (st : bridge_state) (m : io A) : Prop :=
  ∀ w, lives st w → wp m (λ a w', lives (get a) w') w.

Lemma goes_ret {A} (get : A → bridge_state) st a : get a = st → goes get st (mret a).
Proof. intros <- w H. by apply wp_ret. Qed.

Lemma goes_bind {A B} (get1 : A → bridge_state) (get : B → bridge_state) st (m : io A) (k : A → io B) :
  goes get1 st m → (∀ a, goes get (get1 a) (k a)) → goes get st (m ≫= k).
Proof. intros Hm Hk w H. apply wp_bind. eapply wp_mono; [by apply Hm|]. intros a w' H'. by apply Hk. Qed.

(** A step whose answer carries more than the state. *)
Lemma goes_other {A} (get : A → bridge_state) st (m : io A) :
  other_step cfg listen_fd st (a ← m; mret (get a)) → goes get st m.
Proof.
  intros Hm w [Hw [l Hl]]. apply wp_intro. intros a w' E.
  assert ((a ← m; mret (get a)) w = Some (get a, w')) as E' by (unfold mbind, io_bind; by rewrite E).
  split; [|eexists; by eapply life_other].
  by destruct (safe_elim _ _ _ _ _ (other_step_inv cfg listen_fd st _ (life_inv _ _ _ _ _ _ Hl) Hm) Hw E').
Qed.

Lemma goes_drain st : goes id st (drain_step cfg st).
Proof.
  intros w [Hw [l Hl]]. apply wp_intro. intros st' w' E. pose proof (life_inv _ _ _ _ _ _ Hl) as Hinv.
  split; [by destruct (safe_elim _ _ _ _ _ (drain_step_inv cfg st Hinv) Hw E)|].
  destruct (yields_elim _ _ _ _ _ (drain_step_wired cfg listen_fd st Hinv) E) as (o & Eo & _).
  eexists. by eapply life_drain.
Qed.

Lemma goes_client ready st : goes (λ x : flow * bridge_state, x.2) st (client_step cfg ready st).
Proof.
  intros w [Hw [l Hl]]. apply wp_intro. intros [f st'] w' E. pose proof (life_inv _ _ _ _ _ _ Hl) as Hinv.
  split; [by destruct (safe_elim _ _ _ _ _ (client_step_inv cfg ready st Hinv) Hw E)|].
  destruct (wp_elim _ _ _ _ _ (client_step_reads cfg ready st w) E) as (o & rs & _ & Er & _). eexists. by eapply life_client.
Qed.

Lemma goes_andthen st m k :
  goes (λ x : flow * bridge_state, x.2) st m → (∀ st', goes (λ x : flow * bridge_state, x.2) st' (k st')) →
  goes (λ x : flow * bridge_state, x.2) st (andthen m k).
Proof.
  intros Hm Hk. eapply goes_bind; [exact Hm|]. intros [[] st']; [apply Hk|by apply goes_ret..].
Qed.

Lemma goes_round st : goes (λ x : flow * bridge_state, x.2) st (bridge_round cfg listen_fd st).
Proof.
  unfold bridge_round. eapply goes_bind; [apply goes_drain|]. intros st1. cbn [id].
  destruct (wait_set listen_fd st1) as [[fds max_fd]|]; [|by apply goes_ret].
  eapply (goes_bind fst); [apply goes_other; apply other_wait|]. intros [st2 [sec usec]]. cbn [fst].
  eapply (goes_bind (λ _, st2)); [apply goes_other, other_poll|].
  intros [ready| |[]]; try by apply goes_ret.
  - apply goes_andthen; [apply goes_other; apply other_accept|]. intros st3.
    apply goes_andthen; [apply goes_client|]. intros st4.
    apply goes_andthen; [apply goes_other; apply other_conf|]. intros st5. apply goes_other. apply other_data.
  - eapply (goes_bind id); [|intros st'; by apply goes_ret]. apply goes_other, other_idle.
Qed.

Lemma goes_loop st : goes id st (bridge_loop cfg listen_fd st).
Proof.
  intros w H. apply (wp_loop _ (λ st w, lives st w)); [|done]. clear st w H. intros st w H.
  eapply (goes_bind (λ _, st) (λ x : bridge_state + bridge_state, match x with inl s | inr s => s end)) in H.
  - eapply wp_mono; [exact H|]. by intros [s|s] w' Hw'.
  - apply goes_other, other_stop.
  - intros []; [by apply goes_ret|]. eapply goes_bind; [apply goes_round|].
    intros [f st']. apply goes_ret. by destruct f.
Qed.
End keeping.

(** C5. Only what clients submitted is sent, in their order, once. Follow any run of the
    process step by step, against any environment that delivers bytes and any kernel that does not
    hand out a descriptor that is open, and book the bytes of each client connection and
    the packets of the frames that reached the DATA socket whole. At any point the
    packets handed to the daemon so far and then the queue are the packets of a
    subsequence of the KISS frames the clients sent, in the order in which they sent
    them; a packet may come again, right behind itself, only when the data connection
    was given up (its frame arrived, but the write was reported as failed), and at most once
    for each of these. So as long as the data connection holds, no packet is invented,
    reordered or duplicated on the way to the daemon. And [bridge_loop] goes through
    such points only. *)
Theorem transmissions_submitted inet_pton cfg listen_fd st h l
    (Hl : life inet_pton cfg listen_fd st h l) (Hfresh : fresh h) :
  balanced (lg_sent l) (packets (br_queue st)) (submissions l) (lg_lost l) ∧
  (lg_lost l = 0%nat → lg_sent l ++ packets (br_queue st) `sublist_of` submissions l) ∧
  (∀ w, reads_ok w → w_out w = h →
     wp (bridge_loop cfg listen_fd st) (λ st' w', ∃ l', life inet_pton cfg listen_fd st' (w_out w') l') w).
Proof.
  pose proof (bk_balanced _ _ (life_booked _ _ _ _ _ _ Hl Hfresh)) as Hb. split; [exact Hb|]. split.
  - intros E. rewrite E in Hb. by apply balanced_once.
  - intros w Hw <-. eapply wp_mono; [apply goes_loop; split; [done|by exists l]|]. by intros st' w' [_ H].
Qed.

(** *** A client and its packet, by the books

    The run of BridgeWire, taken step by step. *)
Definition book (st st' : bridge_state) (w w' : world) (l : ledger) : ledger :=
  hang_up st st' (enter_sent (written (br_data st) (drop (length (w_out w)) (w_out w'))) st st' l).

Definition booked_run (w0 : world) : option (Z * bridge_state * world * ledger) :=
  let cfg := wire_example_cfg in
  '(st0, w1) ← bridge_start cfg lhkt_stats_init w0;
  '(listen_fd, w2) ← lhkt_tcp_server_listen wire_example_pton (kiss_host cfg) (kiss_port cfg) w1;
  '(st1, w3) ← (r ← accept_step cfg listen_fd [listen_fd] st0; mret r.2) w2;
  '(f, st2, w4) ← client_step cfg [br_client st1] st1 w3;
  let rs := take (length (w_read w3) - length (w_read w4)) (w_read w3) in
  '(st3, w5) ← (r ← conf_step [br_conf st2] st2; mret r.2) w4;
  '(st4, w6) ← drain_step cfg st3 w5;
  let l2 := hang_up st1 st2 (enter_read (delivered 512 rs) (hang_up st0 st1 (Ledger [] [] [] 0 0))) in
  Some (listen_fd, st4, w6, book st3 st4 w5 w6 (hang_up st2 st3 l2)).

Lemma booked_run_life w0 listen_fd st w l :
  reads_ok w0 → w_out w0 = [] → 0 ≤ listen_fd → booked_run w0 = Some (listen_fd, st, w, l) →
  life wire_example_pton wire_example_cfg listen_fd st (w_out w) l.
Proof.
  intros Hw Hw0 Hfd. unfold booked_run. set (cfg := wire_example_cfg).
  destruct (bridge_start cfg lhkt_stats_init w0) as [[st0 w1]|] eqn:E1; [|done]. cbn [mbind option_bind].
  destruct (lhkt_tcp_server_listen _ _ _ w1) as [[fd w2]|] eqn:E2; [|done]. cbn [mbind option_bind].
  destruct (mbind _ (accept_step cfg fd [fd] st0) w2) as [[st1 w3]|] eqn:E3; [|done]. cbn [mbind option_bind].
  destruct (client_step cfg [br_client st1] st1 w3) as [[[f st2] w4]|] eqn:E4; [|done]. cbn [mbind option_bind].
  destruct (mbind _ (conf_step [br_conf st2] st2) w4) as [[st3 w5]|] eqn:E5; [|done]. cbn [mbind option_bind].
  destruct (drain_step cfg st3 w5) as [[st4 w6]|] eqn:E6; [|done]. cbn [mbind option_bind].
  intros [= -> -> -> <-].
  destruct (safe_elim _ _ _ _ _ (bridge_start_inv _ _) Hw E1) as [Hw1 _].
  destruct (safe_elim _ _ _ _ _ (safe_listen _ _ _) Hw1 E2) as [Hw2 _].
  assert (life wire_example_pton cfg listen_fd st0 (w_out w2) (Ledger [] [] [] 0 0)) as L0 by (by eapply (life_start _ _ _ _ w0)).
  pose proof (life_other _ _ _ _ _ _ _ _ _ L0 Hw2 (other_accept _ _ _ _) E3) as L1.
  destruct (safe_elim _ _ _ _ _ (other_step_inv _ _ _ _ (life_inv _ _ _ _ _ _ L0) (other_accept _ listen_fd _ _)) Hw2 E3) as [Hw3 _].
  destruct (wp_elim _ _ _ _ _ (client_step_reads cfg [br_client st1] st1 w3) E4) as (o & rs & _ & Er & _).
  pose proof (life_client _ _ _ _ _ _ _ _ _ _ _ L1 Hw3 E4 Er) as L2.
  destruct (safe_elim _ _ _ _ _ (client_step_inv cfg _ _ (life_inv _ _ _ _ _ _ L1)) Hw3 E4) as [Hw4 _].
  pose proof (life_other _ _ _ _ _ _ _ _ _ L2 Hw4 (other_conf _ _ _ _) E5) as L3.
  destruct (safe_elim _ _ _ _ _ (other_step_inv _ _ _ _ (life_inv _ _ _ _ _ _ L2) (other_conf _ listen_fd _ _)) Hw4 E5) as [Hw5 _].
  destruct (yields_elim _ _ _ _ _ (drain_step_wired cfg listen_fd st3 (life_inv _ _ _ _ _ _ L3)) E6) as (o' & Eo & _).
  pose proof (life_drain _ _ _ _ _ _ _ _ _ L3 Hw5 E6 Eo) as L4.
  unfold book. rewrite Eo, drop_app_length, Er, length_app, Nat.add_sub, take_app_length. rewrite <-Eo. exact L4.
Qed.

Lemma booked_example :
  ∃ st w l, booked_run wire_example_world = Some (4, st, w, l) ∧ fresh (w_out w) ∧
    lg_sent l = [wire_example_packet] ∧ submissions l = [wire_example_packet] ∧ lg_lost l = 0%nat.
Proof.
  assert (match booked_run wire_example_world with
    | Some (fd, _, w, l) => bool_decide (fd = 4 ∧ fresh (w_out w) ∧
        lg_sent l = [wire_example_packet] ∧ submissions l = [wire_example_packet] ∧ lg_lost l = 0%nat)
    | None => false end = true) as H by (by vm_compute).
  destruct (booked_run wire_example_world) as [[[[fd st] w] l]|]; [|done].
  apply bool_decide_eq_true_1 in H as (-> & H). by exists st, w, l.
Qed.

Lemma transmissions_submitted_witness :
  ∃ st l, [wire_example_packet] ++ packets (br_queue st) `sublist_of` submissions l ∧
    submissions l = [wire_example_packet] ∧ lg_sent l = [wire_example_packet].
Proof.
  destruct booked_example as (st & w & l & E & Hf & Es & Eu & El).
  pose proof (booked_run_life wire_example_world 4 st w l wire_example_reads eq_refl ltac:(lia) E) as Hl.
  destruct (transmissions_submitted _ _ _ _ _ _ Hl Hf) as (_ & H & _).
  exists st, l. split; [|split; [exact Eu|exact Es]]. rewrite <-Es. apply H. exact El.
Defined.
