(* ===== verification/BridgeClient.v ===== *)
(** What the KISS client reads: the stream of a client connection over the whole life of
    the process.

    [kiss_output n bs]: the bytes are KISS frames of well-formed AX.25 frames, of which
    at most [n] are cut short. [client_stream_intact] bounds [n] by the number of drains
    in which a connection to the daemon was given up. *)
From S2P Require Import Prelude Kiss Ax25 Tnc2 LorahamSock Tnc TxQueue Io SockIo LorahamConf BridgeConf BridgeKiss BridgeRx BridgeLoraham BridgeTx TcpServer Bridge BridgeInv BridgeWire BridgeConfirm BridgeLedger.

(** ** Frames on the client's socket *)

(** The KISS bytes of an AX.25 frame. *)
Definition ax25_kiss (f : ax25_frame_t) : list Z :=
  match ax25_encode_ui f LHKT_AX25_MAX_FRAME with Ok raw => Kiss.Spec.wire raw | Err _ => [] end.

Inductive kiss_output : nat → list Z → Prop :=
  | ko_nil n : kiss_output n []
  | ko_frame n bs f : kiss_output n bs → ax25_frame_wf f → kiss_output n (bs ++ ax25_kiss f)
  | ko_cut n bs f cut :
      kiss_output n bs → ax25_frame_wf f → cut `prefix_of` ax25_kiss f → kiss_output (S n) (bs ++ cut).

Lemma kiss_output_app n m a b : kiss_output n a → kiss_output m b → kiss_output (n + m) (a ++ b).
Proof.
  intros Ha Hb. induction Hb as [m|m bs f _ IH Hf|m bs f cut _ IH Hf Hc].
  - rewrite app_nil_r. clear -Ha. revert m. induction Ha; intros m'; cbn; [constructor|by constructor|by econstructor].
  - rewrite app_assoc. by constructor.
  - rewrite app_assoc, Nat.add_succ_r. by econstructor.
Qed.

Lemma kiss_output_le n m bs : (n ≤ m)%nat → kiss_output n bs → kiss_output m bs.
Proof.
  intros H Hb. replace m with (n + (m - n))%nat by lia. rewrite <-(app_nil_r bs).
  apply kiss_output_app; [done|constructor].
Qed.

Lemma kiss_output_one f : ax25_frame_wf f → kiss_output 0 (ax25_kiss f).
Proof. intros Hf. apply (ko_frame 0 []); [constructor|done]. Qed.
Lemma kiss_output_cut f cut : ax25_frame_wf f → cut `prefix_of` ax25_kiss f → kiss_output 1 cut.
Proof. intros Hf Hc. apply (ko_cut 0 [] f); [constructor|done..]. Qed.

(** Nothing was cut: the frames, and what a KISS decoder makes of them. *)
Lemma kiss_output_frames n bs :
  kiss_output n bs → n = 0%nat → ∃ fs, Forall ax25_frame_wf fs ∧ bs = concat (map ax25_kiss fs).
Proof.
  induction 1 as [n|n bs f _ IH Hf|]; intros E; [by exists []| |done].
  destruct (IH E) as (fs & F & ->). exists (fs ++ [f]). split; [by apply Forall_app_2, Forall_singleton|].
  rewrite map_app, concat_app. cbn. by rewrite app_nil_r.
Qed.

Lemma ax25_kiss_raw f :
  ax25_frame_wf f →
  ∃ raw, ax25_kiss f = Kiss.Spec.wire raw ∧ ax25_decode_ui raw = Ok (ax25_norm f) ∧ len raw < LHKT_KISS_MAX_FRAME ∧
    ax25_encode_ui f LHKT_AX25_MAX_FRAME = Ok raw ∧ kiss_encode_data_frame raw LHKT_KISS_MAX_FRAME = Ok (ax25_kiss f).
Proof.
  intros Hf. destruct (kiss_bytes_exist f Hf) as (bs & raw & E & _ & D & L). exists raw. unfold ax25_kiss. rewrite E.
  split; [done|]. split; [done|]. split; [unfold LHKT_KISS_MAX_FRAME; lia|]. split; [done|].
  rewrite kiss_encode_wire. pose proof (kiss_wire_length raw). unfold LHKT_KISS_MAX_FRAME.
  by rewrite (proj2 (Z.ltb_ge _ _)) by lia.
Qed.

(** The data frames a decoder finds, and the AX.25 frames in them. *)
Definition ax25_received (bs : list Z) : list ax25_frame_t :=
  omap (λ k : kiss_frame_t, match ax25_decode_ui (kf_data k) with Ok f => Some f | Err _ => None end)
    (framed_of (kiss_decode kiss_decoder_init bs).2).

Lemma kiss_frames_decode fs :
  Forall ax25_frame_wf fs →
  ax25_received (concat (map ax25_kiss fs)) = map ax25_norm fs ∧
  Forall (λ ev : event kiss_frame_t, match ev with Fault _ => False | _ => True end)
    (kiss_decode kiss_decoder_init (concat (map ax25_kiss fs))).2.
Proof.
  intros F. assert (∃ raws, map ax25_kiss fs = map Kiss.Spec.wire raws ∧
    Forall (λ d, len d < LHKT_KISS_MAX_FRAME) raws ∧
    omap (λ d, match ax25_decode_ui d with Ok f => Some f | Err _ => None end) raws = map ax25_norm fs) as (raws & E & L & D).
  { induction F as [|f fs Hf _ IH]; [by exists []|]. destruct IH as (raws & E & L & D).
    destruct (ax25_kiss_raw f Hf) as (raw & Er & Dr & Lr & _). exists (raw :: raws). cbn. by rewrite Er, E, Dr, D; split; [|split; [constructor|]]. }
  rewrite E. unfold ax25_received. destruct raws as [|raw raws]; [by destruct fs|].
  rewrite kiss_decode_wires by done. change (kiss_decode kiss_decoder_init [KISS_FEND]).2 with (@nil (event kiss_frame_t)).
  cbn [app snd]. split; [|by apply Forall_map, Forall_forall; intros d _]. rewrite <-D. clear.
  induction (raw :: raws) as [|d ds IH]; [done|]. unfold framed_of in *. cbn. by rewrite IH.
Qed.

(** ** The scanner hands on bytes *)

Definition lx_bytes (st : loraham_rx_state_t) : Prop := bytes_ok (lx_buf st) ∧ bytes_ok (lx_pending st).
Definition lx_bytes_out (r : loraham_rx_state_t * event (list Z)) : Prop :=
  lx_bytes r.1 ∧ match r.2 with Frame l => bytes_ok l | _ => True end.

Lemma lx_bytes_init : lx_bytes loraham_rx_state_init.
Proof. by split. Qed.

Lemma lx_append_bytes bs : ∀ st st', loraham_append_all st bs = Ok st' → bytes_ok bs → lx_bytes st → lx_bytes st'.
Proof.
  induction bs as [|b bs IH]; intros st st'; cbn; [by intros [= ->]|].
  intros (s & E & H)%bind_Ok [Hb Hbs]%Forall_cons [H1 H2]. apply (IH s); [done..|].
  unfold loraham_append_payload in E. case_match; [done|]. injection E as <-.
  split; [by apply Forall_app_2, Forall_singleton|done].
Qed.

Lemma lx_emit_bytes st size flush keep : lx_bytes st → lx_bytes_out (loraham_emit_tnc2 st size flush keep).
Proof.
  intros H. unfold loraham_emit_tnc2. destruct (size =? 0); [by split|].
  set (r := if _ : bool then _ else _). assert (∀ s, r = Ok s → lx_bytes s) as Hr.
  { intros s. unfold r. case_match; [|by intros [= <-]; destruct H].
    unfold loraham_append_hdr_prefix. intros E. destruct (loraham_append_all _ _) as [s'|] eqn:Ea; [|done].
    injection E as <-. apply lx_append_bytes in Ea as [H1 H2]; [by split| |done].
    apply Forall_take. by apply (bool_decide_unpack _). }
  destruct r as [s|e]; [|split; [apply lx_bytes_init|done]]. destruct (Hr s eq_refl) as [H1 H2].
  repeat case_match; by split.
Qed.

Lemma lx_text_bytes st size b : is_u8 b → lx_bytes st → lx_bytes_out (loraham_extract_text st size b).
Proof.
  intros Hb H. unfold loraham_extract_text. destruct (_ || _); [by apply lx_emit_bytes|].
  destruct (b =? LORAHAM_APRS_HDR0); [by split|].
  destruct (loraham_append_payload st b) as [s|e] eqn:E; [|split; [apply lx_bytes_init|done]].
  split; [|done]. apply (lx_append_bytes [b] st s); [by cbn; rewrite E|by apply Forall_singleton|done].
Qed.

Lemma lx_byte_bytes st size b : is_u8 b → lx_bytes st → lx_bytes_out (loraham_extract_byte st size b).
Proof.
  intros Hb H. unfold loraham_extract_byte. destruct (negb (lx_seen_header st)).
  { destruct H as [H1 H2]. repeat case_match; by split. }
  destruct (_ <? _)%nat; [|by apply lx_text_bytes]. destruct (b =? _).
  - destruct (_ =? 3)%nat; [by apply lx_emit_bytes|by split].
  - unfold loraham_append_hdr_prefix. destruct (loraham_append_all _ _) as [s|e] eqn:E; [|split; [apply lx_bytes_init|done]].
    apply lx_append_bytes in E as [H1 H2]; [|apply Forall_take; by apply (bool_decide_unpack _)|done].
    by apply lx_text_bytes.
Qed.

Lemma lx_loop_bytes fuel : ∀ st size, lx_bytes st → lx_bytes_out (loraham_extract_loop fuel st size).
Proof.
  induction fuel as [|fuel IH]; intros st size H; cbn [loraham_extract_loop]; [by split|].
  destruct (lx_pending st) as [|b pending] eqn:E; [by split|].
  destruct H as [H1 H2]. rewrite E in H2. apply Forall_cons in H2 as [Hb H2].
  pose proof (lx_byte_bytes (LoraRx (lx_buf st) (lx_seen_header st) (lx_hdr_len st) pending) size b Hb (conj H1 H2)) as [H3 H4].
  destruct (loraham_extract_byte _ _ _) as [s ev]. destruct ev; [by apply IH|by split..].
Qed.

Lemma lx_extract_bytes st data size :
  lx_bytes st → bytes_ok data → lx_bytes_out (loraham_extract_tnc2 st data size).
Proof.
  intros [H1 H2] Hd. unfold loraham_extract_tnc2. destruct (_ && _); [split; [apply lx_bytes_init|done]|].
  set (st0 := LoraRx _ _ _ _). pose proof (lx_loop_bytes (length (lx_pending st0)) st0 size) as H.
  destruct (loraham_extract_loop _ _ _) as [s ev]. destruct H as [H3 H4]; [by split; [|apply Forall_app_2]|].
  cbn [fst snd] in *. destruct ev; [|by split..]. destruct (_ && _); [by apply lx_emit_bytes|by split].
Qed.

Lemma cstr_bytes l : bytes_ok l → bytes_ok (cstr l).
Proof. induction 1; cbn; [constructor|]. case_match; by constructor. Qed.

(** ** The receive path

    Whole frames, or the last one cut and the return code of a broken client. *)
Definition served (ret : Z) (bs : list Z) : Prop :=
  kiss_output 0 bs ∨ ret = LHKT_ERR_CLIENT_SOCKET ∧ kiss_output 1 bs.

Lemma served_nil ret : served ret [].
Proof. left. constructor. Qed.

Lemma served_app ret a b : kiss_output 0 a → served ret b → served ret (a ++ b).
Proof.
  intros Ha [Hb|[-> Hb]]; [left; by apply (kiss_output_app 0 0)|right; split; [done|by apply (kiss_output_app 0 1)]].
Qed.

(** A call that succeeded cut nothing. *)
Lemma served_ok bs : served LHKT_OK bs → kiss_output 0 bs.
Proof. by intros [H|[[=] _]]. Qed.

Lemma write_all_served fd buf :
  yields (bridge_rx_write_all_fd fd buf) (λ r o,
    r = LHKT_OK ∧ written fd o = buf ∨ r ≠ LHKT_OK ∧ written fd o `prefix_of` buf).
Proof.
  unfold bridge_rx_write_all_fd. destruct (fd_bad fd); [apply yields_ret; right; split; [done|apply prefix_nil]|].
  intros w. eapply wp_mono; [apply write_loop_spec, bridge_rx_wait_fd_writable_silent|].
  intros r w' (a & b & -> & (o & E & _ & <-) & L & Hr). exists o. split; [done|]. split; [done|].
  destruct Hr as [[-> ->]|[-> _]]; [left; by rewrite app_nil_r|right; split; [done|by eexists]].
Qed.

Lemma send_tnc2_served fd tnc2 stats :
  bytes_ok tnc2 →
  yields (bridge_rx_send_tnc2_to_kiss_client fd tnc2 stats) (λ r o, served r.1 (written fd o)).
Proof.
  intros Hb. unfold bridge_rx_send_tnc2_to_kiss_client. destruct (fd <? 0); [apply yields_ret, served_nil|].
  destruct (tnc2_parse_line tnc2) as [f|e] eqn:Ep; [|apply yields_ret, served_nil].
  apply tnc2_parse_wf in Ep; [|done]. destruct (ax25_kiss_raw f Ep) as (raw & _ & _ & _ & -> & ->).
  eapply yields_bind; [apply write_all_served|]. intros r o H.
  destruct (Z.eqb_spec r LHKT_OK) as [->|Hr]; cbn [negb]; apply yields_ret; rewrite app_nil_r.
  - destruct H as [[_ ->]|[H _]]; [|done]. left. by apply kiss_output_one.
  - destruct H as [[H _]|[_ H]]; [done|]. right. split; [done|]. by eapply kiss_output_cut.
Qed.

Lemma rx_chunk_served fuel : ∀ fd rx buf stats,
  lx_bytes rx → bytes_ok buf →
  yields (rx_chunk_loop fuel fd rx buf stats) (λ r o, lx_bytes r.1.2 ∧ served r.1.1 (written fd o)).
Proof.
  induction fuel as [|fuel IH]; intros fd rx buf stats Hrx Hb; [by intros w|]. cbn [rx_chunk_loop].
  destruct (lx_extract_bytes rx buf LHKT_TNC2_MAX_LINE Hrx Hb) as [Hrx' Hev].
  destruct (loraham_extract_tnc2 rx buf LHKT_TNC2_MAX_LINE) as [rx' ev]. cbn [fst snd] in *.
  assert (∀ s, yields (if len (lx_pending rx') =? 0 then mret (LHKT_OK, rx', s) else rx_chunk_loop fuel fd rx' [] s)
    (λ r o, lx_bytes r.1.2 ∧ served r.1.1 (written fd o))) as Hagain.
  { intros s. destruct (_ =? _); [by apply yields_ret; split; [|apply served_nil]|by apply IH]. }
  destruct ev as [|t|e]; [apply Hagain| |by apply yields_ret; split; [|apply served_nil]].
  eapply yields_bind; [by apply send_tnc2_served, cstr_bytes|]. intros [ret s] o Ho. cbn [fst] in Ho.
  destruct (Z.eqb_spec ret LHKT_OK) as [->|Hr]; cbn [negb]; [|apply yields_ret; rewrite app_nil_r; by split].
  eapply yields_mono; [apply Hagain|]. intros r o' [H1 H2]. split; [done|]. rewrite written_app.
  apply served_app; [by apply served_ok|done].
Qed.

Lemma send_packet_served fd packet stats :
  bytes_ok packet →
  yields (bridge_rx_send_loraham_packet_to_kiss_client fd packet stats) (λ r o, served r.1 (written fd o)).
Proof.
  intros Hb. unfold bridge_rx_send_loraham_packet_to_kiss_client. destruct (fd <? 0); [apply yields_ret, served_nil|].
  eapply yields_bind; [by apply rx_chunk_served; [apply lx_bytes_init|]|]. intros [[ret rx] s] o [Hrx Ho]. cbn [fst snd] in *.
  destruct (Z.eqb_spec ret LHKT_OK) as [->|Hr]; cbn [negb]; [|apply yields_ret; by rewrite app_nil_r].
  apply served_ok in Ho. eapply yields_bind; [by apply rx_chunk_served|]. intros [[ret rx2] s2] o2 [_ Ho2]. cbn [fst snd] in *.
  assert (∀ e, (ret = LHKT_ERR_CLIENT_SOCKET → e = ret) → served e (written fd (o ++ o2 ++ []))) as Hall.
  { intros e He. rewrite app_nil_r, written_app. apply served_app; [done|].
    destruct Ho2 as [H|[E H]]; [by left|right; split; [by rewrite He|done]]. }
  destruct (Z.eqb_spec ret LHKT_OK) as [->|Hr]; cbn [negb]; [|by apply yields_ret, Hall].
  destruct (_ =? _); by apply yields_ret, Hall.
Qed.

Lemma framed_frame_served fd frame stats :
  bytes_ok (lf_payload frame) →
  yields (bridge_rx_handle_framed_frame fd frame stats) (λ r o, served r.1 (written fd o)).
Proof.
  intros Hb. unfold bridge_rx_handle_framed_frame. destruct (_ =? LORAHAM_FRAME_RX_PACKET).
  2: { destruct (_ =? _); apply yields_ret, served_nil. }
  apply (yields_bind _ _ (λ _ o, written fd o = [])); [destruct (_ <=? _); [by apply yields_emit|by apply yields_ret]|].
  intros _ o Ho. destruct (fd <? 0); [apply yields_ret; rewrite app_nil_r, Ho; apply served_nil|].
  destruct (_ <? _); [apply yields_ret; rewrite app_nil_r, Ho; apply served_nil|].
  eapply yields_mono; [by apply send_packet_served, Forall_drop|]. intros r o' H. by rewrite written_app, Ho.
Qed.

Lemma framed_chunk_served fd buf : ∀ fs stats,
  framed_wf fs → bytes_ok buf →
  yields (bridge_rx_handle_framed_chunk fd fs buf stats) (λ r o, served r.1.1 (written fd o)).
Proof.
  induction buf as [|b buf IH]; intros fs stats Hfs Hb; cbn [bridge_rx_handle_framed_chunk]; [apply yields_ret, served_nil|].
  apply Forall_cons in Hb as [Hb Hbuf].
  destruct (dec_step (SafeDecoder:=framed_safe) fs b Hfs Hb) as [Hfs' Hev].
  destruct (loraham_framed_decode_byte fs b) as [fs' ev]. cbn [fst snd] in *.
  destruct ev as [|frame|e]; [by apply IH| |apply yields_ret, served_nil].
  eapply yields_bind; [by apply framed_frame_served; destruct Hev as (_ & _ & ?)|]. intros [ret s] o Ho. cbn [fst] in Ho.
  destruct (Z.eqb_spec ret LHKT_OK) as [->|Hr]; cbn [negb]; [|apply yields_ret; by rewrite app_nil_r].
  eapply yields_mono; [by apply IH|]. intros r o' H. rewrite written_app. apply served_app; [by apply served_ok|done].
Qed.

(** ** In a world of bytes, with the trace *)

Definition obeys {A} (m : io A) (Q : A → list output → Prop) : Prop :=
  ∀ w, reads_ok w → wp m (λ a w', reads_ok w' ∧ ∃ o, extends w w' o ∧ Q a o) w.

Lemma obeys_intro {A} (m : io A) P (R : A → list output → Prop) :
  safe m P → yields m R → obeys m (λ a o, P a ∧ R a o).
Proof.
  intros Hs Hy w Hw. apply wp_intro. intros a w' E. destruct (safe_elim _ _ _ _ _ Hs Hw E) as [Hw' HP].
  split; [done|]. destruct (wp_elim _ _ _ _ _ (Hy w) E) as (o & Eo & _ & HR). by exists o.
Qed.

Lemma obeys_ret {A} (a : A) (Q : A → list output → Prop) : Q a [] → obeys (mret a) Q.
Proof. intros H w Hw. apply wp_ret. split; [done|]. exists []. split; [apply extends_refl|done]. Qed.

Lemma obeys_mono {A} (m : io A) (P Q : A → list output → Prop) :
  obeys m P → (∀ a o, P a o → Q a o) → obeys m Q.
Proof. intros Hm H w Hw. eapply wp_mono; [by apply Hm|]. intros a w' (Hw' & o & Eo & HP). split; [done|]. exists o. auto. Qed.

Lemma obeys_bind {A B} (m : io A) (k : A → io B) P Q :
  obeys m P → (∀ a o, P a o → obeys (k a) (λ b o', Q b (o ++ o'))) → obeys (m ≫= k) Q.
Proof.
  intros Hm Hk w Hw. apply wp_bind. eapply wp_mono; [by apply Hm|]. intros a w1 (Hw1 & o1 & E1 & HP).
  eapply wp_mono; [by apply Hk|]. intros b w2 (Hw2 & o2 & E2 & HQ). split; [done|].
  exists (o1 ++ o2). split; [by eapply extends_trans|done].
Qed.

(** A call in front that leaves no trace. *)
Lemma obeys_silent {A B} (m : io A) (k : A → io B) P Q :
  silent m (λ _, True) → safe m P → (∀ a, P a → obeys (k a) Q) → obeys (m ≫= k) Q.
Proof.
  intros Hm Hs Hk. eapply obeys_bind; [apply obeys_intro; [exact Hs|by apply yields_silent]|].
  intros a o (HP & -> & _). by apply Hk.
Qed.

Lemma obeys_loop {S A} (body : S → io (S + A)) (I : S → list output → Prop) (Q : A → list output → Prop) s :
  I s [] →
  (∀ s o, I s o → obeys (body s) (λ x o', match x with inl s' => I s' (o ++ o') | inr a => Q a (o ++ o') end)) →
  obeys (loop body s) Q.
Proof.
  intros H0 Hb w Hw. apply (wp_loop body (λ s w', reads_ok w' ∧ ∃ o, extends w w' o ∧ I s o)).
  - intros s' w1 (Hw1 & o1 & E1 & HI). eapply wp_mono; [by apply (Hb s' o1)|].
    intros [s2|a] w2 (Hw2 & o2 & E2 & H); (split; [done|]); exists (o1 ++ o2); (split; [by eapply extends_trans|done]).
  - split; [done|]. exists []. split; [apply extends_refl|done].
Qed.

(** *** Waiting for the result of a transmission

    The client is as before and has whole frames, or it failed and is not used any more. *)
Definition txr_served (client : Z) (s : txr_state) (o : list output) : Prop :=
  framed_wf (xr_frames s) ∧
  (xr_client s = client ∧ kiss_output 0 (written client o) ∨
   xr_client s < 0 ∧ xr_error s = LHKT_ERR_CLIENT_SOCKET ∧ kiss_output 1 (written client o)).

Lemma rx_output_none fd fd' o : fd < 0 → Forall (rx_output fd) o → written fd' o = [].
Proof.
  intros H F. apply written_none, (Forall_impl _ _ _ F). intros [] Hx; try done. destruct Hx as [_ ?]. lia.
Qed.

Section wait.
Context (client : Z).

Lemma txr_frame_served frame s o :
  bytes_ok (lf_payload frame) → txr_served client s o →
  obeys (txr_frame frame s) (λ s' o', txr_served client s' (o ++ o')).
Proof.
  intros Hb [Hwf Hs]. apply (obeys_mono _ (λ s' o', xr_frames s' = xr_frames s ∧ (framed_wf (xr_frames s) →
    txr_served client s' (o ++ o')))); [|by intros s' o' [_ H]; apply H].
  apply obeys_intro; [apply safe_txr_frame|]. unfold txr_frame.
  eapply yields_bind; [apply yields_and; [by apply (framed_frame_served (xr_client s))|apply framed_frame_yields]|].
  intros [ret stats] o1 [H1 [F1 _]]. cbn [fst] in H1. apply yields_ret. intros _. rewrite app_nil_r.
  unfold txr_served. rewrite !written_app. destruct Hs as [[E H]|(E1 & E2 & H)].
  - rewrite E in H1. destruct H1 as [H1|[-> H1]].
    + pose proof (kiss_output_app 0 0 _ _ H H1) as H2.
      destruct (Z.eqb_spec ret LHKT_ERR_CLIENT_SOCKET) as [->|]; (split; [done|]); cbn.
      * right. split; [lia|]. split; [done|]. by eapply kiss_output_le; [|exact H2]; lia.
      * left. by rewrite E.
    + rewrite Z.eqb_refl. split; [done|]. right. cbn. split; [lia|]. split; [done|]. by apply (kiss_output_app 0 1).
  - rewrite (rx_output_none (xr_client s) client o1), app_nil_r by done.
    destruct (Z.eqb_spec ret LHKT_ERR_CLIENT_SOCKET) as [->|]; (split; [done|]); right; cbn; [split; [lia|done]|done].
Qed.

Lemma txr_decode_served s o b :
  is_u8 b → txr_served client s o →
  txr_served client (txr_decode b s).1 o ∧ txr_served client (txr_drop (txr_decode b s).1) o ∧
  match (txr_decode b s).2 with Frame f => bytes_ok (lf_payload f) | _ => True end.
Proof.
  intros Hb [Hwf Hs]. pose proof (txr_decode_wf b s Hwf Hb) as Hwf'.
  destruct (dec_step (SafeDecoder:=framed_safe) (xr_frames s) b Hwf Hb) as [_ Hev]. unfold txr_decode in *.
  destruct (loraham_framed_decode_byte (xr_frames s) b) as [fs ev]. cbn in *.
  split; [by split|]. split; [by split|]. destruct ev; try done. by destruct Hev as (_ & _ & ?).
Qed.

Lemma txr_rest_served buf : ∀ s o,
  bytes_ok buf → txr_served client s o → obeys (txr_rest buf s) (λ r o', txr_served client r.2 (o ++ o')).
Proof.
  induction buf as [|b buf IH]; intros s o Hb H; cbn [txr_rest]; [apply obeys_ret; by rewrite app_nil_r|].
  apply Forall_cons in Hb as [Hb Hbuf]. destruct (txr_decode_served s o b Hb H) as (H1 & H2 & H3).
  destruct (txr_decode b s) as [s1 ev]. cbn [fst snd] in *.
  destruct ev as [|frame|e]; [by apply IH| |by apply obeys_ret; rewrite app_nil_r].
  destruct (_ =? _); [by apply IH|]. eapply obeys_bind; [by apply (txr_frame_served frame s1 o)|].
  intros s2 o2 H4. eapply obeys_mono; [by apply (IH s2 (o ++ o2))|]. intros r o3 H5. by rewrite app_assoc.
Qed.

Lemma txr_bytes_served buf : ∀ s o,
  bytes_ok buf → txr_served client s o → obeys (txr_bytes buf s) (λ r o', txr_served client r.2 (o ++ o')).
Proof.
  induction buf as [|b buf IH]; intros s o Hb H; cbn [txr_bytes]; [apply obeys_ret; by rewrite app_nil_r|].
  apply Forall_cons in Hb as [Hb Hbuf]. destruct (txr_decode_served s o b Hb H) as (H1 & H2 & H3).
  destruct (txr_decode b s) as [s1 ev]. cbn [fst snd] in *.
  destruct ev as [|frame|e]; [by apply IH| |by apply obeys_ret; rewrite app_nil_r].
  destruct (_ =? _).
  - destruct (loraham_decode_tx_result frame); [|by apply obeys_ret; rewrite app_nil_r].
    eapply obeys_bind; [by apply (txr_rest_served buf s1 o)|]. intros [ret s2] o2 H4. apply obeys_ret. by rewrite app_nil_r.
  - eapply obeys_bind; [by apply (txr_frame_served frame s1 o)|].
    intros s2 o2 H4. eapply obeys_mono; [by apply (IH s2 (o ++ o2))|]. intros r o3 H5. by rewrite app_assoc.
Qed.

Lemma wait_tx_result_served data fs cfg stats :
  framed_wf fs →
  obeys (bridge_loraham_wait_tx_result data client fs cfg stats) (λ r o, txr_served client r.2 o).
Proof.
  intros Hfs. assert (txr_served client (TxrState fs client LHKT_OK stats) []) as H0.
  { split; [done|]. left. split; [done|constructor]. }
  unfold bridge_loraham_wait_tx_result. destruct (fd_bad data); [by apply obeys_ret|].
  eapply obeys_silent; [apply silent_now|apply safe_now|]. intros start _.
  apply (obeys_loop _ (txr_served client)); [done|]. intros s o H. unfold wait_tx_result_round.
  eapply obeys_silent; [apply silent_should_stop|apply safe_should_stop|]. intros [] _;
    [apply obeys_ret; by rewrite app_nil_r|].
  eapply obeys_silent; [apply silent_now|apply safe_now|]. intros now _.
  destruct (_ <=? _); [apply obeys_ret; by rewrite app_nil_r|].
  eapply obeys_silent; [apply silent_select|apply safe_select|]. intros [| |[]] _;
    try (apply obeys_ret; by rewrite app_nil_r).
  eapply obeys_silent; [apply loraham_sock_read_silent|apply safe_sock_read|]. intros [[|b buf]|[]] Hr;
    try (apply obeys_ret; by rewrite app_nil_r).
  eapply obeys_bind; [by apply (txr_bytes_served (b :: buf) s o)|]. intros [[r|] s1] o1 H1;
    apply obeys_ret; by rewrite app_nil_r.
Qed.
End wait.

(** *** One packet, and the queue

    A cut frame, and the return code makes the main loop give up the client or one of the
    daemon's connections. *)
Definition gives_up (ret : Z) : Prop := ret = LHKT_ERR_CLIENT_SOCKET ∨ drops_daemon ret.
Definition settled (ret : Z) (bs : list Z) : Prop := kiss_output 0 bs ∨ gives_up ret ∧ kiss_output 1 bs.

Lemma settled_nil ret : settled ret [].
Proof. left. constructor. Qed.

Lemma env_inv_frames data conf e fs : env_inv data conf e → te_frames e = Some fs → framed_wf fs.
Proof. intros (_ & fs' & -> & [H _]) [= <-]. done. Qed.

Section transmission.
Context (cfg : lhkt_config_t) (client data conf : Z) (Hkc : client ≠ conf) (Hkd : client ≠ data).
Context (Hrx : receives_on cfg).

Lemma env_restore_client e :
  yields (env_restore cfg conf e) (λ r o, written client o = [] ∧ (r.1 = LHKT_OK ∨ drops_daemon r.1)).
Proof.
  destruct Hrx as [H1 H2]. eapply yields_mono; [by apply env_restore_parks|]. intros r o [F H].
  split; [by apply (writes_other conf client)|]. unfold parked_back in H.
  destruct (bridge_loraham_tx_shift_needed cfg); [|by left; destruct H].
  destruct H as [->|[H _]]; [by right|by left].
Qed.

Lemma with_txresult_client packet e :
  env_inv data conf e →
  obeys (send_with_txresult cfg client data conf packet e) (λ r o, settled r.1 (written client o)).
Proof.
  intros He. pose proof He as (_ & fs & Efs & Hfs). unfold send_with_txresult. rewrite Efs.
  eapply obeys_bind; [by apply wait_tx_result_served; destruct Hfs|]. intros [r s] o [_ Hs]. cbn [snd] in Hs.
  assert (∀ ret o', written client o' = [] → (xr_error s = LHKT_ERR_CLIENT_SOCKET → gives_up ret) →
    settled ret (written client (o ++ o'))) as Hend.
  { intros ret o' Ho' Hret. rewrite written_app, Ho', app_nil_r. destruct Hs as [[_ H]|(_ & E & H)]; [by left|].
    right. split; [by apply Hret|done]. }
  assert (∀ e0, yields (env_restore cfg conf e0) (λ r o, written client o = [] ∧ (r.1 = LHKT_OK ∨ drops_daemon r.1))) as Hre
    by apply env_restore_client.
  assert (∀ e0, safe (env_restore cfg conf e0) (λ _, True)) as Hsafe
    by (intros e0; eapply safe_mono; [apply safe_restore|done]).
  destruct r as [result|err].
  - eapply (obeys_bind _ _ (λ _ o', written client o' = [])).
    { destruct (_ =? _); [|by apply obeys_ret]. eapply obeys_mono; [apply obeys_intro; [apply safe_emit|]|].
      - by apply (yields_emit _ (λ _ o', written client o' = [])).
      - by intros a o' [_ ?]. }
    intros _ o1 H1. eapply obeys_bind; [apply obeys_intro; [apply Hsafe|apply Hre]|].
    intros [ret e'] o2 [_ [H2 Hret]]. cbn [fst] in Hret.
    assert (∀ ret', (xr_error s = LHKT_ERR_CLIENT_SOCKET → gives_up ret') → settled ret' (written client (o ++ o1 ++ o2 ++ []))) as Hall.
    { intros ret' H. apply Hend; [|done]. by rewrite !written_app, H1, H2. }
    destruct (Z.eqb_spec ret LHKT_OK) as [->|Hne]; cbn [negb].
    + destruct (negb _); apply obeys_ret, Hall; intros ->; by left.
    + apply obeys_ret, Hall. intros _. right. by destruct Hret.
  - eapply obeys_bind; [apply obeys_intro; [apply safe_emit|by apply (yields_emit _ (λ _ o', written client o' = []))]|].
    intros _ o1 [_ H1]. eapply obeys_bind; [apply obeys_intro; [apply Hsafe|apply Hre]|].
    intros [ret e'] o2 [_ [H2 Hret]]. apply obeys_ret. rewrite app_nil_r.
    apply Hend; [by rewrite written_app, H1, H2|]. intros _. by right.
Qed.

Lemma with_events_client packet e :
  yields (send_with_events cfg conf packet e) (λ _ o, written client o = []).
Proof.
  unfold send_with_events. eapply yields_silent_bind; [apply wait_tx_complete_silent|]. intros [confirm st] _.
  eapply (yields_bind _ _ (λ _ o, o = [])).
  { destruct (negb _); [|by apply yields_ret]. eapply yields_silent_bind; [apply bridge_runtime_sleep_ms_silent|].
    intros slept _. by apply yields_ret. }
  intros e1 ? ->. eapply yields_bind; [by apply (yields_emit _ (λ _ o, written client o = []))|]. intros [] o H.
  eapply yields_bind; [apply env_restore_client|]. intros [ret e2] o2 [H2 _].
  assert (written client ([] ++ o ++ o2 ++ []) = []) as E by (cbn [app]; by rewrite !written_app, H, H2).
  destruct (negb _); by apply yields_ret.
Qed.

(** A call that keeps the world one of bytes and writes nothing to the client. *)
Definition unseen {A} (m : io A) : Prop := obeys m (λ _ o, written client o = []).

Lemma unseen_intro {A} (m : io A) (P : A → Prop) : safe m P → yields m (λ _ o, written client o = []) → unseen m.
Proof. intros Hs Hy. eapply obeys_mono; [by apply obeys_intro|]. by intros a o [_ ?]. Qed.

(** The call ends in [get] of its answer. *)
Definition settling {A} (get : A → Z) (m : io A) : Prop := obeys m (λ r o, settled (get r) (written client o)).

Lemma settling_ret {A} (get : A → Z) a : settling get (mret a).
Proof. apply obeys_ret, settled_nil. Qed.

Lemma settling_unseen {A B} (get : B → Z) (m : io A) (k : A → io B) :
  unseen m → (∀ a, settling get (k a)) → settling get (m ≫= k).
Proof.
  intros Hm Hk. eapply obeys_bind; [exact Hm|]. intros a o Ho. eapply obeys_mono; [apply Hk|].
  intros b o' H. by rewrite written_app, Ho.
Qed.

Lemma unseen_ret {A} (a : A) : unseen (mret a).
Proof. by apply obeys_ret. Qed.
Lemma unseen_sleep ms : unseen (bridge_runtime_sleep_ms ms).
Proof.
  eapply unseen_intro; [apply safe_sleep|]. eapply yields_mono; [apply yields_silent, bridge_runtime_sleep_ms_silent|].
  by intros a o [-> _].
Qed.
Lemma unseen_freq f : unseen (bridge_loraham_send_config_freq cfg conf f).
Proof.
  eapply unseen_intro; [apply safe_config_freq|]. eapply yields_mono; [apply send_config_freq_yields|].
  intros r o [F _]. by apply (writes_other conf client).
Qed.
Lemma unseen_write packet : packet ≠ [] → unseen (bridge_loraham_write data packet).
Proof.
  intros Hp. eapply unseen_intro; [apply safe_loraham_write|]. eapply yields_mono; [by apply loraham_write_yields|].
  intros r o [F _]. by apply (writes_other data client).
Qed.
Lemma unseen_restore e : unseen (env_restore cfg conf e).
Proof.
  eapply unseen_intro; [apply safe_restore|]. eapply yields_mono; [apply env_restore_client|]. by intros r o [? _].
Qed.

Lemma send_packet_client packet e :
  env_inv data conf e →
  settling (λ r, r.1.1) (bridge_loraham_send_packet_with_client cfg client data conf packet e).
Proof.
  intros He. unfold bridge_loraham_send_packet_with_client.
  destruct (Z.eqb_spec (len packet) 0) as [|Hp]; [apply settling_ret|].
  destruct (data <? 0); [apply settling_ret|]. destruct (_ || _); [apply settling_ret|].
  apply settling_unseen; [destruct (bridge_loraham_tx_shift_needed cfg); [apply unseen_freq|apply unseen_ret]|]. intros ret.
  destruct (negb _); [apply settling_ret|].
  apply settling_unseen; [destruct (bridge_loraham_tx_shift_needed cfg); [apply unseen_sleep|apply unseen_ret]|]. intros slept.
  destruct (negb _); [apply settling_unseen; [apply unseen_restore|]; intros [r e']; apply settling_ret|].
  apply settling_unseen; [by apply unseen_write; intros ->|]. intros n. destruct (n <? 0).
  { apply settling_unseen; [apply unseen_sleep|]. intros _.
    apply settling_unseen; [apply unseen_restore|]. intros [r e']. apply settling_ret. }
  eapply (obeys_bind _ _ (λ r o, settled r.1 (written client o))).
  - destruct (bridge_conf_txresult_enabled _); [by apply with_txresult_client|].
    eapply obeys_mono; [apply obeys_intro; [by apply (safe_with_events data)|apply with_events_client]|].
    intros r o [_ H]. rewrite H. apply settled_nil.
  - intros [r e'] o H. apply obeys_ret. by rewrite app_nil_r.
Qed.

Definition round_code (x : drain_state + Z * drain_state) : Z :=
  match x with inl _ => LHKT_OK | inr r => r.1 end.

Lemma drain_round_client d :
  drain_inv cfg data conf d → settling round_code (drain_round cfg client data conf d).
Proof.
  destruct d as [q e]. intros [Hq He]. unfold drain_round. cbn [dr_queue dr_env] in *.
  destruct (bridge_tx_queue_head q) as [item|]; [|apply settling_ret].
  eapply obeys_silent.
  { destruct (0 <=? conf); [apply bridge_conf_read_available_silent|by apply silent_ret]. }
  { instantiate (1 := λ r, conf_inv conf r.2). destruct He as [Hc _].
    destruct (0 <=? conf); [by apply safe_conf_read|by apply safe_ret]. }
  intros [ret st] Hst. cbn [snd] in Hst.
  assert (env_inv data conf (TxEnv (te_stats e) st (te_frames e))) as He1 by (split; [done|by destruct He]).
  destruct (negb _); [apply settling_ret|]. destruct (_ && _); [apply settling_ret|].
  destruct (_ && _); [apply settling_ret|].
  eapply obeys_silent; [apply silent_now|apply safe_now|]. intros now _.
  destruct (bridge_tx_head_decision _ _ _ _) as [[] item']; [apply settling_ret| |apply settling_ret].
  destruct (data <? 0); [apply settling_ret|]. destruct (conf <? 0); [apply settling_ret|].
  eapply obeys_bind; [by apply send_packet_client|]. intros [[ret2 flag] e'] o H. apply obeys_ret. by rewrite app_nil_r.
Qed.

Lemma drain_client d :
  drain_inv cfg data conf d →
  obeys (bridge_loraham_tx_queue_drain_with_client cfg client data conf d) (λ r o, settled r.1 (written client o)).
Proof.
  intros Hd. apply (obeys_loop _ (λ d o, drain_inv cfg data conf d ∧ kiss_output 0 (written client o))).
  { split; [done|constructor]. }
  clear d Hd. intros d o [Hd Ho] w Hw. apply wp_intro. intros x w' E.
  destruct (safe_elim _ _ _ _ _ (safe_drain_round cfg client data conf d Hd) Hw E) as [_ Hx].
  destruct (wp_elim _ _ _ _ _ (drain_round_client d Hd w Hw) E) as (Hw' & o' & Eo & H).
  split; [done|]. exists o'. split; [done|]. rewrite written_app. destruct x as [d'|r]; cbn [round_code] in H.
  - split; [done|]. apply (kiss_output_app 0 0); [done|]. by destruct H as [H|[[[=]|[=]] _]].
  - destruct H as [H|[E' H]]; [left; by apply (kiss_output_app 0 0)|right; split; [done|by apply (kiss_output_app 0 1)]].
Qed.
End transmission.

(** ** The steps of the main loop

    Descriptors a step may close without touching the client. *)
Definition conns (st : bridge_state) : list Z := [br_data st; br_conf st; -1].

Lemma disconnect_data_keeping mine fd stats :
  fd ∈ mine → keeping mine (bridge_loraham_disconnect_data_socket fd stats) (λ r, r.1 < 0 ∧ (r.1 = fd ∨ r.1 = -1)).
Proof.
  intros H. unfold bridge_loraham_disconnect_data_socket. destruct (Z.ltb_spec fd 0); [apply keeping_ret; cbn; auto|].
  eapply keeping_bind; [by apply keeping_close|]. intros [] _. apply keeping_ret. cbn. auto with lia.
Qed.

Lemma disconnect_conf_keeping mine fd confst stats :
  fd ∈ mine →
  keeping mine (bridge_loraham_disconnect_conf_socket fd confst stats) (λ r, r.1.1 < 0 ∧ (r.1.1 = fd ∨ r.1.1 = -1)).
Proof.
  intros H. unfold bridge_loraham_disconnect_conf_socket. destruct (Z.ltb_spec fd 0); [apply keeping_ret; cbn; auto|].
  eapply keeping_bind; [by apply keeping_close|]. intros [] _. apply keeping_ret. cbn. auto with lia.
Qed.

(** The client stays, the daemon's connections may go. *)
Definition sheds (st st' : bridge_state) : Prop := br_client st' = br_client st ∧ conns st' ⊆ conns st.

Lemma sheds_refl st : sheds st st.
Proof. done. Qed.
Lemma sheds_trans a b c : sheds a b → sheds b c → sheds a c.
Proof. intros [E1 S1] [E2 S2]. split; [congruence|set_solver]. Qed.

Lemma drop_data_sheds st : keeping (conns st) (drop_data st) (λ st', sheds st st' ∧ br_data st' < 0).
Proof.
  unfold drop_data. eapply keeping_bind; [apply disconnect_data_keeping; by left|].
  intros [fd stats] [H1 H2]. cbn [fst] in *. apply keeping_ret. split; [|done]. split; [done|].
  unfold conns. cbn. destruct H2 as [->| ->]; set_solver.
Qed.

Lemma drop_conf_sheds st : keeping (conns st) (drop_conf st) (λ st', sheds st st' ∧ br_conf st' < 0).
Proof.
  unfold drop_conf. eapply keeping_bind; [apply disconnect_conf_keeping; right; by left|].
  intros [[fd confst] stats] [H1 H2]. cbn [fst] in *. apply keeping_ret. split; [|done]. split; [done|].
  unfold conns. cbn. destruct H2 as [->| ->]; set_solver.
Qed.

Lemma keeping_mono mine {A} (m : io A) (P Q : A → Prop) :
  keeping mine m P → (∀ a, P a → Q a) → keeping mine m Q.
Proof. intros Hm H. eapply yields_mono; [exact Hm|]. naive_solver. Qed.

Lemma reconnect_policy_sheds ret st :
  keeping (conns st) (reconnect_policy ret st) (λ st', sheds st st' ∧ (drops_daemon ret → br_data st' < 0 ∨ br_conf st' < 0)).
Proof.
  unfold reconnect_policy, drops_daemon. destruct (bridge_loraham_should_reconnect_data_socket ret).
  { eapply keeping_mono; [apply drop_data_sheds|]. naive_solver. }
  destruct (bridge_loraham_should_reconnect_conf_socket ret).
  { eapply keeping_mono; [apply drop_conf_sheds|]. naive_solver. }
  by apply keeping_ret.
Qed.

Lemma close_client_gone st : keeping (br_client st :: conns st) (close_client st) (λ st', br_client st' < 0).
Proof. eapply keeping_bind; [apply keeping_close; by left|]. intros [] _. by apply keeping_ret. Qed.

(** What a step does for the client: nothing any more; frames, of which [n] may be cut;
    or the client is new. *)
Definition serves (n : nat) (st st' : bridge_state) (o : list output) : Prop :=
  br_client st' < 0 ∨
  br_client st' = br_client st ∧ tidy (conns st) o ∧ kiss_output n (written (br_client st) o) ∨
  br_client st < 0 ∧ br_client st' ∈ omap obtained o ∧ written (br_client st') o = [].

Lemma serves_refl n st st' : br_client st' = br_client st → serves n st st' [].
Proof. intros E. right; left. split; [done|]. split; [done|constructor]. Qed.

(** Steps that write nothing. *)
Lemma serves_keeping n {A} (get : A → bridge_state) st (m : io A) :
  keeping (conns st) m (λ a, br_client (get a) < 0 ∨ br_client (get a) = br_client st) →
  yields m (λ a o, serves n st (get a) o).
Proof.
  intros Hm. eapply yields_mono; [exact Hm|]. intros a o (T & W & [H|H]); [by left|right; left].
  split; [done|]. split; [done|]. rewrite W. constructor.
Qed.

(** The end of a step of a flow. *)
Lemma serves_gone n st {A} (m : io bridge_state) (k : bridge_state → A) (get : A → bridge_state) :
  yields m (λ st' _, br_client st' < 0) → (∀ st', get (k st') = st') →
  yields (st' ← m; mret (k st')) (λ a o, serves n st (get a) o).
Proof. intros Hm Hk. eapply yields_bind; [exact Hm|]. intros st' o H. apply yields_ret. left. by rewrite Hk. Qed.

(** What the client got, over a step. *)
Lemma serves_since cfg listen_fd n m st st' h o :
  wire cfg listen_fd st h → fresh_after h o → serves m st st' o →
  (0 ≤ br_client st → kiss_output n (since (br_client st) h)) →
  0 ≤ br_client st' → kiss_output (n + m) (since (br_client st') (h ++ o)).
Proof.
  intros Hw Hf Hs Hn Hpos. destruct Hs as [?|[(E & T & K)|(Hc & Hin & W)]]; [lia| |].
  - rewrite E in *. pose proof (wire_distinct _ _ _ _ Hw) as [Dd Dc].
    rewrite (since_untouched (br_client st) o h (conns st)); [by apply kiss_output_app; [apply Hn|]|done| | |done].
    + rewrite (wi_holds _ _ _ _ Hw). unfold holds. rewrite holds1_self by done.
      pose proof (holds1_nonneg (br_data st) (br_client st)). pose proof (holds1_nonneg (br_conf st) (br_client st)).
      pose proof (holds1_nonneg listen_fd (br_client st)). lia.
    + unfold conns. rewrite !elem_of_cons. intros [E'|[E'|[E'|E']]]; [|..|lia|by apply not_elem_of_nil in E'].
      * destruct Dd as [D _]; [lia|done].
      * by apply Dc; [lia|].
  - rewrite since_new by done. constructor.
Qed.

Section steps.
Context (cfg : lhkt_config_t) (listen_fd : Z).

(** *** The drain *)

Definition broken (st st' : bridge_state) : bool :=
  (0 <=? br_data st) && (br_data st' <? 0) || (0 <=? br_conf st) && (br_conf st' <? 0).

Lemma after_drain_client ret st :
  yields (if bridge_loraham_should_reconnect_data_socket ret ||
             bridge_loraham_should_reconnect_conf_socket ret then reconnect_policy ret st
          else if should_disconnect_kiss_client ret then close_client st
          else mret st)
    (λ st' o, (∀ x, written x o = []) ∧ (br_client st' < 0 ∨ tidy (conns st) o ∧ sheds st st' ∧
       (gives_up ret → br_data st' < 0 ∨ br_conf st' < 0))).
Proof.
  destruct (_ || _) eqn:Er.
  - eapply yields_mono; [apply reconnect_policy_sheds|]. intros st' o (T & W & H & H'). split; [done|]. right.
    do 2 (split; [done|]). intros _. by apply H'.
  - destruct (should_disconnect_kiss_client ret) eqn:Ec.
    + eapply yields_mono; [apply close_client_gone|]. intros st' o (_ & W & H). split; [done|by left].
    + apply yields_ret. split; [done|]. right. split; [done|]. split; [done|].
      unfold gives_up, drops_daemon, should_disconnect_kiss_client in *. rewrite Er. intros [->|?]; done.
Qed.

Lemma drain_settles st :
  bridge_inv cfg st → distinct st → receives_on cfg →
  obeys (bridge_loraham_tx_queue_drain_with_client cfg (br_client st) (br_data st) (br_conf st)
      (DrainState (br_queue st) (TxEnv (br_stats st) (br_confst st) (Some (br_frames st)))))
    (λ r o, settled r.1 (written (br_client st) o) ∧
            (kiss_output 0 (written (br_client st) o) ∨ 0 ≤ br_data st ∧ 0 ≤ br_conf st)).
Proof.
  intros H [Dd Dc] Hrx.
  assert (drain_inv cfg (br_data st) (br_conf st) (DrainState (br_queue st) (TxEnv (br_stats st) (br_confst st) (Some (br_frames st))))) as Hd.
  { split; [apply (bi_queue _ _ H)|]. split; [apply (bi_conf _ _ H)|]. eexists. split; [done|]. apply (bi_data _ _ H). }
  assert (br_data st < 0 ∨ br_conf st < 0 ∨ 0 ≤ br_data st ∧ 0 ≤ br_conf st) as Hcase by lia.
  destruct Hcase as [Hc|[Hc|[Hdd Hcc]]].
  1, 2: eapply obeys_mono; [apply obeys_intro; [by apply safe_drain|apply drain_idle; by auto]|];
    intros r o [_ ->]; split; [apply settled_nil|left; constructor].
  destruct (Dd Hdd) as [Hkd _]. specialize (Dc Hcc).
  eapply obeys_mono; [by apply drain_client|]. intros r o Ho. by split; [|right].
Qed.

Lemma drain_step_serves st :
  bridge_inv cfg st → distinct st → receives_on cfg →
  obeys (drain_step cfg st) (λ st' o, serves (if broken st st' then 1 else 0) st st' o).
Proof.
  intros H D Hrx w Hw. apply wp_intro. intros st' w' E.
  destruct (safe_elim _ _ _ _ _ (drain_step_inv cfg st H) Hw E) as [Hw' _]. split; [done|].
  revert E. unfold drain_step. unfold mbind at 1, io_bind at 1.
  destruct (bridge_loraham_tx_queue_drain_with_client _ _ _ _ _ w) as [[[ret d] w1]|] eqn:E1; [|done]. intros E2.
  destruct (wp_elim _ _ _ _ _ (drain_settles st H D Hrx w Hw) E1) as (_ & o1 & Eo1 & Ho1 & Hboth). cbn [fst] in Ho1.
  destruct (wp_elim _ _ _ _ _ (fdless_drain cfg (br_client st) (br_data st) (br_conf st) _ w) E1) as (o1' & Eo1' & _ & F).
  assert (o1' = o1) as -> by (unfold extends in *; rewrite Eo1 in Eo1'; by apply app_inv_head in Eo1').
  cbv zeta in E2. unfold mbind, io_bind in E2.
  match type of E2 with match ?m w1 with _ => _ end = _ => destruct (m w1) as [[st2 w2]|] eqn:E3; [|done] end.
  injection E2 as <- <-.
  destruct (wp_elim _ _ _ _ _ (after_drain_client _ _ w1) E3) as (o2 & Eo2 & _ & W2 & H2).
  exists (o1 ++ o2). split; [by eapply extends_trans|]. unfold serves, broken.
  destruct (collect_cad_fds st2) as (-> & -> & -> & _). destruct H2 as [H2|(T & [E S] & Hg)]; [by left|right; left].
  split; [exact E|]. split; [apply tidy_app; [by apply tidy_fdless|]; eapply tidy_mono; [|exact T]; unfold conns; cbn; set_solver|].
  rewrite written_app, W2, app_nil_r. destruct Ho1 as [Ho1|[Hup Ho1]].
  { eapply kiss_output_le; [|exact Ho1]. lia. }
  destruct Hboth as [Hboth|[Hd Hc]]; [eapply kiss_output_le; [|exact Hboth]; lia|].
  assert ((0 <=? br_data st) && (br_data st2 <? 0) || (0 <=? br_conf st) && (br_conf st2 <? 0) = true) as ->; [|done].
  destruct (Hg Hup); lia.
Qed.

(** *** What is ready *)

Lemma client_bytes_sheds bs : ∀ st, keeping (conns st) (client_bytes cfg bs st) (λ st', sheds st st').
Proof.
  induction bs as [|b bs IH]; intros st; cbn [client_bytes]; [by apply keeping_ret|].
  destruct (kiss_decode_byte (br_dec st) b) as [dec [|frame|e]].
  1, 3: match goal with |- keeping _ (client_bytes _ _ ?s) _ => exact (IH s) end.
  eapply keeping_bind; [apply keeping_silent, silent_now|]. intros now _.
  destruct (bridge_kiss_handle_frame _ _ _ _ _ _) as [[[ret params] stats] queue]. cbv zeta.
  match goal with |- context [reconnect_policy ret ?s] => set (st1 := s) end.
  change (keeping (conns st1) (st' ← reconnect_policy ret st1; client_bytes cfg bs st') (λ st', sheds st1 st')).
  eapply keeping_bind; [apply reconnect_policy_sheds|]. intros st2 [H2 _].
  eapply yields_mono; [apply IH|]. intros st3 o (T & W & H3). split; [|split; [done|by eapply sheds_trans]].
  eapply tidy_mono; [|exact T]. apply H2.
Qed.

Lemma client_step_serves ready st : yields (client_step cfg ready st) (λ r o, serves 0 st r.2 o).
Proof.
  unfold client_step. destruct (_ && _); [|by apply yields_ret, serves_refl].
  eapply yields_silent_bind; [apply silent_read|].
  assert (∀ st1, yields (st' ← close_client st1; mret (Continue, st')) (λ r o, serves 0 st r.2 o)) as Hclose.
  { intros st1. apply (serves_gone 0 st _ (λ st', (Continue, st'))); [|done].
    eapply yields_mono; [apply close_client_gone|]. by intros st' o (_ & _ & H). }
  intros [[|b bs]|[]] _; try apply Hclose; try by apply yields_ret, serves_refl.
  apply (serves_keeping 0 (λ r : flow * bridge_state, r.2)).
  eapply keeping_bind; [apply client_bytes_sheds|]. intros st' [E _]. apply keeping_ret. by right.
Qed.

Lemma conf_step_serves ready st : yields (conf_step ready st) (λ r o, serves 0 st r.2 o).
Proof.
  apply (serves_keeping 0 (λ r : flow * bridge_state, r.2)). unfold conf_step.
  destruct (_ && _); [|apply keeping_ret; by right].
  eapply keeping_bind; [apply keeping_silent, bridge_conf_read_available_silent|]. intros [ret confst] _.
  destruct (negb _).
  - eapply keeping_bind; [apply (drop_conf_sheds (set_conf (br_conf st) confst st))|]. intros st' [[E _] _].
    apply keeping_ret. by right.
  - apply keeping_ret. right. cbn [snd]. by destruct (collect_cad_fds (set_conf (br_conf st) confst st)) as (-> & _).
Qed.

Lemma accept_step_serves ready st : yields (accept_step cfg listen_fd ready st) (λ r o, serves 0 st r.2 o).
Proof.
  unfold accept_step. destruct (Z.ltb_spec (br_client st) 0) as [Hc|]; cbn [andb]; [|by apply yields_ret, serves_refl].
  destruct (bool_decide _); [|by apply yields_ret, serves_refl].
  eapply yields_bind; [apply accept_gains|]. intros fd o (T & W & Hfd).
  destruct (fd =? LHKT_ERR_AGAIN); [apply yields_ret; by left|]. destruct (Z.ltb_spec fd 0).
  { eapply yields_silent_bind; [apply bridge_runtime_sleep_ms_silent|]. intros ret _. apply yields_ret. by left. }
  destruct Hfd as [?|Hfd]; [lia|].
  eapply yields_silent_bind; [apply set_nonblocking_silent|]. intros ret _. destruct (negb _).
  - eapply yields_bind; [apply close_runs|]. intros [] o' _. apply yields_ret. by left.
  - apply yields_ret. rewrite app_nil_r. right; right. by split; [|split; [|apply W]].
Qed.

(** Calls that leave the client alone, whatever else they do. *)
Definition apart (st : bridge_state) {A} (get : A → bridge_state) (m : io A) : Prop :=
  yields m (λ a o, br_client (get a) = br_client st ∧ tidy [] o ∧
    (0 ≤ br_client st → written (br_client st) o = [])).

Lemma apart_serves st {A} (get : A → bridge_state) (m : io A) :
  apart st get m → yields m (λ a o, serves 0 st (get a) o).
Proof.
  intros Hm. eapply yields_mono; [exact Hm|]. intros a o (E & T & W).
  destruct (Z.ltb_spec (br_client st) 0); [left; by rewrite E|]. right; left. split; [done|].
  split; [eapply tidy_mono; [|exact T]; set_solver|]. rewrite W by done. constructor.
Qed.

Lemma apart_ret st {A} (get : A → bridge_state) a : br_client (get a) = br_client st → apart st get (mret a).
Proof. intros E. by apply yields_ret. Qed.

Lemma apart_bind st {A B} (m : io A) (k : A → io B) (get : B → bridge_state) (P : A → Prop) :
  yields m (λ a o, P a ∧ tidy [] o ∧ (0 ≤ br_client st → written (br_client st) o = [])) →
  (∀ a, P a → apart st get (k a)) → apart st get (m ≫= k).
Proof.
  intros Hm Hk. eapply yields_bind; [exact Hm|]. intros a o (HP & T & W).
  eapply yields_mono; [by apply Hk|]. intros b o' (E & T' & W'). split; [done|].
  split; [apply tidy_app; [done|]; eapply tidy_mono; [|exact T']; set_solver|].
  intros Hpos. by rewrite written_app, W, W'.
Qed.

Lemma connect_apart st path :
  yields (connect_nonblocking path) (λ fd o, True ∧ tidy [] o ∧ (0 ≤ br_client st → written (br_client st) o = [])).
Proof. eapply yields_mono; [apply connect_gains|]. naive_solver. Qed.

Lemma config_apart st st1 :
  distinct st → br_client st1 = br_client st → br_conf st1 = br_conf st → 0 ≤ br_conf st →
  yields (send_initial_config cfg st1) (λ r o, br_client r.2 = br_client st ∧ tidy [] o ∧
    (0 ≤ br_client st → written (br_client st) o = [])).
Proof.
  intros [_ D] Ek Ec Hc. eapply yields_bind; [apply yields_and; [apply initial_config_yields|apply fdless_initial_config]|].
  intros [ret confst] o [F F']. apply yields_ret. rewrite app_nil_r. split; [exact Ek|]. split; [by apply tidy_fdless|].
  intros _. apply (writes_other (br_conf st1)); [|done]. rewrite Ec. intros E. by apply (D Hc).
Qed.

Lemma idle_step_serves st : distinct st → yields (idle_step cfg st) (λ st' o, serves 0 st st' o).
Proof.
  intros D. apply (apart_serves st id). unfold idle_step. destruct (Z.ltb_spec (br_conf st) 0) as [Hc|Hc].
  { unfold bridge_loraham_connect_conf_socket. eapply (apart_bind _ _ _ _ (λ _, True)).
    - eapply yields_bind; [apply (connect_apart st)|]. intros fd o (_ & T & W). apply yields_ret. by rewrite app_nil_r.
    - intros [fd confst] _. by apply apart_ret. }
  destruct (br_data st <? 0).
  - eapply apart_bind; [apply (connect_apart st)|]. intros fd _. destruct (0 <=? fd); [|by apply apart_ret].
    cbv zeta. eapply apart_bind; [by apply config_apart|]. intros [ok st'] E. by apply apart_ret.
  - destruct (negb _); [|by apply apart_ret]. eapply apart_bind; [by apply config_apart|].
    intros [ok st'] E. apply apart_ret. by destruct ok.
Qed.

(** The DATA socket: all of a chunk's frames, or the client is given up. *)
Lemma data_step_serves ready st :
  bridge_inv cfg st → obeys (data_step ready st) (λ r o, serves 0 st r.2 o).
Proof.
  intros H. pose proof (proj1 (bi_data _ _ H)) as Hfs. unfold data_step.
  destruct (_ && _); [|by apply obeys_ret, serves_refl].
  assert (∀ st1, br_client st1 = br_client st → conns st1 = conns st →
    obeys (st' ← drop_data st1; mret (Continue, st')) (λ r o, kiss_output 0 (written (br_client st) o) ∧ tidy (conns st) o ∧ br_client r.2 = br_client st)) as Hdrop.
  { intros st1 E1 E2. eapply obeys_bind; [apply obeys_intro; [|apply (drop_data_sheds st1)]|].
    { unfold drop_data, bridge_loraham_disconnect_data_socket. instantiate (1 := λ _, True). solve_safe. }
    intros st' o (_ & T & W & [E _] & _). apply obeys_ret. rewrite app_nil_r, W, <-E2. cbn [snd]. split; [constructor|]. split; [done|congruence]. }
  assert (∀ st1, br_client st1 = br_client st → conns st1 = conns st →
    obeys (st' ← drop_data st1; mret (Continue, st')) (λ r o, serves 0 st r.2 o)) as Hdrop0.
  { intros st1 E1 E2. eapply obeys_mono; [by apply Hdrop|]. intros r o (K & T & E). right; by left. }
  eapply obeys_silent; [apply loraham_sock_read_silent|apply safe_sock_read|].
  intros [[|b bs]|[]] Hr; try by apply Hdrop0. 2: { by apply obeys_ret, serves_refl. }
  eapply obeys_bind.
  { apply obeys_intro; [|apply yields_and; [by apply (framed_chunk_served (br_client st))|apply fdless_framed_chunk]].
    apply safe_framed_chunk; [done..]. }
  intros [[ret frames] stats] o (_ & Ho & F). cbv zeta. cbn [fst] in Ho. unfold should_disconnect_kiss_client.
  destruct (Z.eqb_spec ret LHKT_ERR_CLIENT_SOCKET) as [->|Hret].
  { eapply obeys_bind; [apply obeys_intro; [|apply close_client_gone]|].
    { unfold close_client. instantiate (1 := λ _, True). solve_safe. }
    intros st' o' (_ & _ & _ & Hgone). apply obeys_ret. by left. }
  destruct Ho as [Ho|[? _]]; [|done]. destruct (ret <? 0).
  - eapply obeys_mono; [by apply Hdrop|]. intros r o' (K & T & E). right; left. split; [done|].
    split; [apply tidy_app; [by apply tidy_fdless|eapply tidy_mono; [|exact T]; set_solver]|].
    rewrite written_app. by apply (kiss_output_app 0 0).
  - apply obeys_ret. rewrite app_nil_r. right; left. split; [done|]. split; [by apply tidy_fdless|done].
Qed.
End steps.

Lemma obeys_yields {A} (m : io A) P (Q : A → list output → Prop) : safe m P → yields m Q → obeys m Q.
Proof. intros Hs Hy. eapply obeys_mono; [by apply obeys_intro|]. by intros a o [_ ?]. Qed.

(** The state of an answer that carries more. *)
Lemma obeys_state {A} st (get : A → bridge_state) (m : io A) :
  obeys m (λ a o, serves 0 st (get a) o) → obeys (a ← m; mret (get a)) (λ st' o, serves 0 st st' o).
Proof. intros Hm. eapply obeys_bind; [exact Hm|]. intros a o H. apply obeys_ret. by rewrite app_nil_r. Qed.

Lemma other_step_serves cfg listen_fd st m :
  bridge_inv cfg st → distinct st → other_step cfg listen_fd st m → obeys m (λ st' o, serves 0 st st' o).
Proof.
  intros H D. destruct 1.
  - apply obeys_state. eapply obeys_yields; [by apply choose_timeout_inv|]. apply (serves_keeping 0 fst).
    unfold choose_timeout. eapply (keeping_bind _ _ _ (λ r, br_client r.1 = br_client st)).
    + destruct (_ <? _); [|by apply keeping_ret]. eapply keeping_bind; [apply keeping_silent, silent_now|].
      intros now _. destruct (stats_timeout _ _ _ _) as [next t]. by apply keeping_ret.
    + intros [st' t] E. apply keeping_ret. by right.
  - eapply obeys_silent; [apply silent_poll|apply safe_poll|]. intros r _. by apply obeys_ret, serves_refl.
  - eapply obeys_silent; [apply silent_should_stop|apply safe_should_stop|]. intros r _. by apply obeys_ret, serves_refl.
  - apply (obeys_state st id). eapply obeys_yields; [by apply idle_step_inv|by apply idle_step_serves].
  - apply obeys_state. eapply obeys_yields; [by apply accept_step_inv|apply accept_step_serves].
  - apply obeys_state. eapply obeys_yields; [by apply conf_step_inv|apply conf_step_serves].
  - apply obeys_state. by apply (data_step_serves cfg).
Qed.

(** ** The whole process *)

Lemma obeys_elim {A} (m : io A) Q w a w' :
  obeys m Q → reads_ok w → m w = Some (a, w') → ∃ o, w_out w' = w_out w ++ o ∧ Q a o.
Proof. intros H Hw E. by destruct (wp_elim _ _ _ _ _ (H w Hw) E) as (_ & o & Eo & HQ); exists o. Qed.

Lemma hang_up_broken st st' l : lg_broken (hang_up st st' l) = lg_broken l.
Proof. unfold hang_up. by destruct (_ && _). Qed.

Lemma life_client_stream inet_pton cfg listen_fd st h l :
  life inet_pton cfg listen_fd st h l → fresh h → receives_on cfg →
  0 ≤ br_client st → kiss_output (lg_broken l) (since (br_client st) h).
Proof.
  intros Hl Hf Hrx. induction Hl as [stats w st w1 w2 Hw E0 E El Hfd|st l w st' w' o H IH Hw E Eo|
    st l w ready f st' w' rs H IH Hw E Er|st l w m st' w' H IH Hw Hm E].
  - destruct (yields_elim _ _ _ _ _ (bridge_start_state cfg stats) E) as (o & _ & data & conf & ok & confst & ->).
    cbn. lia.
  - pose proof (life_inv _ _ _ _ _ _ H) as Hinv. rewrite Eo in Hf. apply fresh_app in Hf as [Hf1 Hf2].
    pose proof (life_wire _ _ _ _ _ _ H Hf1) as Hwire.
    destruct (obeys_elim _ _ _ _ _ (drain_step_serves cfg st Hinv (wire_distinct _ _ _ _ Hwire) Hrx) Hw E) as (o' & Eo' & Hs).
    rewrite Eo in Eo'. apply app_inv_head in Eo' as <-. intros Hpos. rewrite Eo, hang_up_broken. cbn [lg_broken enter_sent].
    fold (broken st st').
    eapply kiss_output_le; [|eapply (serves_since cfg listen_fd (lg_broken l)); [exact Hwire|exact Hf2|exact Hs|by apply IH|done]].
    destruct (broken st st'); lia.
  - pose proof (life_inv _ _ _ _ _ _ H) as Hinv.
    destruct (yields_elim _ _ _ _ _ (client_step_serves cfg ready st) E) as (o & Eo & Hs).
    rewrite Eo in *. apply fresh_app in Hf as [Hf1 Hf2]. rewrite hang_up_broken. cbn [lg_broken enter_read].
    intros Hpos. rewrite <-(Nat.add_0_r (lg_broken l)).
    eapply (serves_since cfg listen_fd); [by eapply life_wire|exact Hf2|exact Hs|by apply IH|done].
  - pose proof (life_inv _ _ _ _ _ _ H) as Hinv.
    destruct (yields_elim _ _ _ _ _ (other_step_wired cfg listen_fd st m Hm) E) as (o & Eo & _).
    rewrite Eo in *. apply fresh_app in Hf as [Hf1 Hf2]. pose proof (life_wire _ _ _ _ _ _ H Hf1) as Hwire.
    destruct (obeys_elim _ _ _ _ _ (other_step_serves cfg listen_fd st m Hinv (wire_distinct _ _ _ _ Hwire) Hm) Hw E) as (o' & Eo' & Hs).
    rewrite Eo in Eo'. apply app_inv_head in Eo' as <-. rewrite hang_up_broken. intros Hpos.
    rewrite <-(Nat.add_0_r (lg_broken l)).
    eapply (serves_since cfg listen_fd); [exact Hwire|exact Hf2|exact Hs|by apply IH|done].
Qed.

(** C7. The stream of the KISS client. Follow any run of a process for which an RX frequency
    is configured ([receives_on]; the default has one) step by step, as for
    [transmissions_submitted], and look at what was written to the client that is
    connected, from its connection on: KISS frames of well-formed AX.25 frames, one
    behind the other, of which at most as many are cut short as there were drains in
    which a connection to the daemon was given up. So while the daemon's connections hold,
    whatever the client's socket does (short writes, a full buffer, a broken connection)
    and however packets of other stations interleave with the bridge's own
    transmissions, the client's KISS decoder gets exactly the AX.25 frames that were
    sent to it, in order, and reports no error: a client that got half a frame is
    disconnected. *)
Theorem client_stream_intact inet_pton cfg listen_fd st h l
    (Hl : life inet_pton cfg listen_fd st h l) (Hfresh : fresh h) (Hrx : receives_on cfg)
    (Hclient : 0 ≤ br_client st) :
  kiss_output (lg_broken l) (since (br_client st) h) ∧
  (lg_broken l = 0%nat → ∃ fs, Forall ax25_frame_wf fs ∧
     since (br_client st) h = concat (map ax25_kiss fs) ∧
     ax25_received (since (br_client st) h) = map ax25_norm fs ∧
     Forall (λ ev : event kiss_frame_t, match ev with Fault _ => False | _ => True end)
       (kiss_decode kiss_decoder_init (since (br_client st) h)).2).
Proof.
  pose proof (life_client_stream _ _ _ _ _ _ Hl Hfresh Hrx Hclient) as H. split; [exact H|]. intros E.
  destruct (kiss_output_frames _ _ H E) as (fs & F & Es). exists fs. split; [done|]. split; [done|].
  rewrite Es. by apply kiss_frames_decode.
Qed.

(** The run of BridgeLedger, with a packet of another station in front of the result. *)
Definition client_example_heard : list Z :=
  framed_bytes (LoraFrame LORAHAM_FRAME_RX_PACKET ([0; 0; 0; 0] ++ loraham_hdr ++ str "DJ0CHE>APRS:!hi")) ++
  [4; 4; 0; 0; 0; 1; 0].
Definition client_example_world : world :=
  set_read [RdData wire_example_frame; RdData (str "STATUS TX=0 TXRESULT=1" ++ [10]); RdErr EAGAIN; RdErr EAGAIN;
            RdData client_example_heard] wire_example_world.

Lemma client_example_reads : reads_ok client_example_world.
Proof.
  unfold reads_ok, client_example_world. cbn [w_read set_read].
  repeat (apply Forall_cons; split; [first [exact I|apply (bool_decide_unpack _); by vm_compute]|]).
  apply Forall_nil_2.
Qed.

Lemma client_example :
  ∃ st w l, booked_run client_example_world = Some (4, st, w, l) ∧ fresh (w_out w) ∧ lg_broken l = 0%nat ∧
    br_client st = 7 ∧ len (since 7 (w_out w)) = 22.
Proof.
  assert (match booked_run client_example_world with
    | Some (fd, st, w, l) => bool_decide (fd = 4 ∧ fresh (w_out w) ∧ lg_broken l = 0%nat ∧ br_client st = 7 ∧
        len (since 7 (w_out w)) = 22)
    | None => false end = true) as H by (by vm_compute).
  destruct (booked_run client_example_world) as [[[[fd st] w] l]|]; [|done].
  apply bool_decide_eq_true_1 in H as (-> & H). by exists st, w, l.
Qed.

Lemma client_stream_intact_witness :
  ∃ h fs, since 7 h = concat (map ax25_kiss fs) ∧ len (since 7 h) = 22 ∧ ax25_received (since 7 h) = map ax25_norm fs.
Proof.
  destruct client_example as (st & w & l & E & Hf & El & Ek & Hl).
  pose proof (booked_run_life client_example_world 4 st w l client_example_reads eq_refl ltac:(lia) E) as H.
  destruct (client_stream_intact _ _ _ _ _ _ H Hf ltac:(split; [done|by vm_compute]) ltac:(by rewrite Ek)) as [_ Hs].
  destruct (Hs El) as (fs & _ & E1 & E2 & _). rewrite Ek in E1, E2. exists (w_out w), fs.
  split; [exact E1|]. split; [exact Hl|exact E2].
Defined.
