(* ===== verification/BridgeGaps.v ===== *)
(** Gaps of the bridge that the theorems elsewhere leave room for, each pinned down by a
    theorem or by a run: a lost connection is reopened only in a round without any
    traffic, a configuration that was cut short is repeated behind its own remains, a
    client that got half a frame may stay connected, and a packet may be sent twice. *)
From S2P Require Import Prelude Kiss Ax25 Tnc2 LorahamSock Tnc TxQueue Io SockIo LorahamConf BridgeConf BridgeKiss BridgeRx BridgeLoraham BridgeTx TcpServer Bridge BridgeInv BridgeWire.

(** ** Reconnecting waits for silence

    What is lost stays lost from [st] to [st']. *)
Record still_lost (st st' : bridge_state) : Prop := {
  sl_data : br_data st < 0 → br_data st' < 0;
  sl_conf : br_conf st < 0 → br_conf st' < 0;
  sl_ok : br_config_ok st = false → br_config_ok st' = false;
}.

#[global] Instance still_lost_preorder : PreOrder still_lost.
Proof. split; [by split|]. intros a b c [? ? ?] [? ? ?]. split; auto. Qed.

(** [loses get st m]: so does [m]. *)
Definition loses {A} (get : A → bridge_state) (st : bridge_state) (m : io A) : Prop :=
  yields m (λ a _, still_lost st (get a)).

Lemma loses_ret {A} (get : A → bridge_state) st a : still_lost st (get a) → loses get st (mret a).
Proof. intros H. by apply yields_ret. Qed.

Lemma loses_bind {A B} (get1 : A → bridge_state) (get : B → bridge_state) st (m : io A) (k : A → io B) :
  loses get1 st m → (∀ a, loses get (get1 a) (k a)) → loses get st (m ≫= k).
Proof.
  intros Hm Hk. eapply yields_bind; [exact Hm|]. intros a o H. eapply yields_mono; [apply Hk|].
  intros b o' H'. exact (transitivity H H').
Qed.

(** Calls that only answer. *)
Lemma loses_after {A B} (get : B → bridge_state) st (m : io A) (k : A → io B) :
  fdless m → (∀ a, loses get st (k a)) → loses get st (m ≫= k).
Proof. intros Hm Hk. eapply yields_bind; [exact Hm|]. intros a o _. apply Hk. Qed.

Lemma loses_same {A} (get : A → bridge_state) st st' (m : io A) :
  still_lost st st' → loses get st' m → loses get st m.
Proof. intros E H. eapply yields_mono; [exact H|]. intros a o H'. exact (transitivity E H'). Qed.

Lemma close_client_loses st : loses id st (close_client st).
Proof.
  eapply yields_bind; [apply close_runs|]. intros [] o _. by apply yields_ret.
Qed.

Lemma drop_data_loses st : loses id st (drop_data st).
Proof.
  eapply yields_bind; [apply disconnect_data_gone|]. intros [fd stats] o H. by apply yields_ret.
Qed.

Lemma drop_conf_loses st : loses id st (drop_conf st).
Proof.
  unfold loses, drop_conf, bridge_loraham_disconnect_conf_socket.
  eapply (yields_bind _ _ (λ r _, r.1.1 < 0)).
  - destruct (Z.ltb_spec (br_conf st) 0); [by apply yields_ret|].
    eapply yields_bind; [apply close_runs|]. intros [] o _. by apply yields_ret.
  - intros [[fd confst] stats] o H. by apply yields_ret.
Qed.

Lemma reconnect_policy_loses ret st : loses id st (reconnect_policy ret st).
Proof.
  unfold reconnect_policy. repeat case_match; [apply drop_data_loses|apply drop_conf_loses|by apply loses_ret].
Qed.

Lemma collect_cad_lost st : still_lost st (collect_cad st).
Proof. destruct (collect_cad_fds st) as (_ & E1 & E2 & E3). split; congruence. Qed.

Section loses.
Context (cfg : lhkt_config_t) (listen_fd : Z).
Abbreviation loses_flow st m := (loses (λ r : flow * bridge_state, r.2) st m).

Lemma loses_then st (m : io bridge_state) f : loses id st m → loses_flow st (st' ← m; mret (f, st')).
Proof. intros H. eapply loses_bind; [exact H|]. intros st'. by apply loses_ret. Qed.

Lemma drain_step_loses st : loses id st (drain_step cfg st).
Proof.
  apply loses_after; [auto with fdless|]. intros [ret d]. cbv zeta.
  match goal with |- context [reconnect_policy ret ?s] => apply (loses_same _ _ s); [done|] end.
  apply (loses_bind id); [|intros st'; apply loses_ret, collect_cad_lost].
  repeat case_match; [apply reconnect_policy_loses|apply close_client_loses|by apply loses_ret].
Qed.

Lemma accept_step_loses ready st : loses_flow st (accept_step cfg listen_fd ready st).
Proof.
  unfold accept_step. destruct (_ && _); [|by apply loses_ret].
  eapply yields_bind; [apply accept_runs|]. intros fd o _.
  destruct (_ =? _); [by apply yields_ret|]. destruct (_ <? _).
  { eapply yields_bind; [apply fdless_sleep|]. intros ret o' _. by apply yields_ret. }
  eapply yields_bind; [apply fdless_set_nonblocking|]. intros ret o' _.
  destruct (negb _); [|by apply yields_ret].
  eapply yields_bind; [apply close_runs|]. intros [] o2 _. by apply yields_ret.
Qed.

Lemma client_bytes_loses bs : ∀ st, loses id st (client_bytes cfg bs st).
Proof.
  induction bs as [|b bs IH]; intros st; cbn [client_bytes]; [by apply loses_ret|].
  destruct (kiss_decode_byte (br_dec st) b) as [dec [|frame|e]].
  1,3: by eapply loses_same; [|apply IH].
  apply loses_after; [auto with fdless|]. intros now.
  destruct (bridge_kiss_handle_frame _ _ _ _ _ _) as [[[ret params] stats] queue].
  eapply loses_same; [|eapply loses_bind; [apply reconnect_policy_loses|intros st'; apply IH]]; done.
Qed.

Lemma client_step_loses ready st : loses_flow st (client_step cfg ready st).
Proof.
  unfold client_step. destruct (_ && _); [|by apply loses_ret].
  apply loses_after; [auto with fdless|]. intros [[|b bs]|[]]; try by apply loses_ret.
  - by eapply loses_same; [|apply loses_then, close_client_loses].
  - apply loses_then, client_bytes_loses.
  - apply loses_then, close_client_loses.
Qed.

Lemma conf_step_loses ready st : loses_flow st (conf_step ready st).
Proof.
  unfold conf_step. destruct (_ && _); [|by apply loses_ret].
  apply loses_after; [auto with fdless|]. intros [ret confst].
  destruct (negb _); [by eapply loses_same; [|apply loses_then, drop_conf_loses]|].
  apply loses_ret. cbn [snd]. eapply (transitivity (y := set_conf (br_conf st) confst st)); [done|].
  apply collect_cad_lost.
Qed.

Lemma data_step_loses ready st : loses_flow st (data_step ready st).
Proof.
  unfold data_step. destruct (_ && _); [|by apply loses_ret].
  apply loses_after; [auto with fdless|].
  intros [[|b bs]|[]]; try by apply loses_then, drop_data_loses. 2: { by apply loses_ret. }
  apply loses_after; [auto with fdless|]. intros [[ret frames] stats]. cbv zeta.
  destruct (should_disconnect_kiss_client ret).
  { by eapply loses_same; [|apply loses_then, close_client_loses]. }
  destruct (ret <? 0); [by eapply loses_same; [|apply loses_then, drop_data_loses]|by apply loses_ret].
Qed.

Lemma andthen_loses st m k :
  loses_flow st m → (∀ st', loses_flow st' (k st')) → loses_flow st (andthen m k).
Proof.
  intros Hm Hk. eapply loses_bind; [exact Hm|]. intros [[] st']; [apply Hk|by apply loses_ret..].
Qed.

(** A lost connection of the daemon is reopened, and a failed configuration repeated,
    only where [select] found nothing ready: neither the drain nor anything that is done
    about ready descriptors does it. The wait for that is at most a second, but a client
    that sends a byte in every second, or a talkative CONF socket, keeps the bridge from
    ever reconnecting. *)
Lemma ready_never_reconnects ready st :
  yields (drain_step cfg st) (λ st' _, still_lost st st') ∧
  yields (ready_step cfg listen_fd ready st) (λ r _, still_lost st r.2).
Proof.
  split; [apply drain_step_loses|].
  apply andthen_loses; [apply accept_step_loses|]. intros st3.
  apply andthen_loses; [apply client_step_loses|]. intros st4.
  apply andthen_loses; [apply conf_step_loses|apply data_step_loses].
Qed.
End loses.

(** ** A configuration behind its own remains

    The CONF socket takes eight bytes of the first attempt and is then full for two
    seconds: the attempt fails. A round later the bridge tries again on the same connection,
    and this time all goes through: the bridge holds the daemon for configured, but the
    first line the daemon reads is "SET MODESET MODE=LORA FREQ=...". *)
Definition gap_state : bridge_state :=
  Bridge (-1) 6 5 false 0 0 0 kiss_decoder_init kiss_params_init loraham_framed_rx_state_init
    bridge_conf_state_init bridge_tx_queue_init lhkt_stats_init.
Definition gap_cfg : lhkt_config_t := tx_example_cfg.
Definition gap_config_world : world :=
  World [] [WrN 8; WrErr EAGAIN; WrN 300; WrN 300; WrN 300] [SelTimeout] (replicate 20 true) [] [] []
    (replicate 9 1000) [] [] [].

Definition two_idle_rounds : io bridge_state := st ← idle_step gap_cfg gap_state; idle_step gap_cfg st.

Lemma torn_configuration :
  outcome (λ st, (br_conf st, br_config_ok st)) two_idle_rounds gap_config_world =
    Some ((5, true), [Wrote 5 (str "SET MODE"); Wrote 5 (rx_line gap_cfg);
                      Wrote 5 (str "SET TXRESULT=1" ++ [10]); Wrote 5 (str "GET STATUS" ++ [10])]).
Proof. by vm_compute. Qed.

(** ** Half a frame for the client

    While the bridge waits for the result of a transmission, a packet of another station
    arrives; the client's socket takes three bytes of its KISS frame and fails. Then the
    daemon falls silent, and the wait ends with LHKT_ERR_TX_RESULT, which hides the
    client's error: the data connection is dropped, the client stays. *)
Definition gap_received : list Z :=
  framed_bytes (LoraFrame LORAHAM_FRAME_RX_PACKET ([0; 0; 0; 0] ++ loraham_hdr ++ str "DJ0CHE>APRS:!hi")).
Definition gap_client_world : world :=
  World [RdErr EAGAIN; RdData gap_received] [WrN 300; WrN 300; WrN 3; WrErr EOTHER; WrN 300]
    [SelTimeout; SelReady; SelTimeout] (replicate 20 true) [] [] [] (replicate 9 1000)
    (replicate 9 false) [] [].
Definition gap_sending : bridge_state :=
  Bridge 7 5 6 true 0 0 0 kiss_decoder_init kiss_params_init loraham_framed_rx_state_init
    (te_conf tx_example_env) (dr_queue tx_example_drain) lhkt_stats_init.

Lemma torn_client_stays :
  option_map (λ r, (br_client r.1, br_data r.1, since 7 r.2)) (outcome id (drain_step gap_cfg gap_sending) gap_client_world) =
    Some (7, -1, [192; 0; 130]).
Proof. by vm_compute. Qed.

(** ** A packet on the air twice

    The frame goes out whole, but the call that restores the flags of the descriptor
    fails, so loraham_sock_write reports a failed write. The packet stays in the queue and
    is sent again on the next data connection. *)
Definition gap_flags_world : world :=
  World [RdErr EAGAIN] (replicate 9 (WrN 300)) (replicate 9 SelTimeout)
    (replicate 5 true ++ false :: replicate 9 true) [] [] [] (replicate 9 1000) (replicate 9 false) [] [].

Lemma frame_sent_but_kept :
  option_map (λ r, (br_data r.1, packets (br_queue r.1), written 5 r.2))
    (outcome id (drain_step gap_cfg gap_sending) gap_flags_world) =
    Some (-1, [[60; 255; 1; 65]], tx_frame [60; 255; 1; 65]).
Proof. by vm_compute. Qed.
