(* ===== verification/Runtime.v ===== *)
(** The stop flag and the signals (bridge_runtime.c).

    In Io the flag is read from the world. Here is where its values come from: the flag
    is a variable of the process, the handler sets it, and signals arrive at any moment
    between two reads. [sigaction] can fail, then the signal keeps its default action,
    which ends the process. *)
From S2P Require Import Prelude Io SockIo LorahamSock Tnc BridgeConf BridgeRx BridgeLoraham TcpServer Bridge.

Inductive signal := SIGINT | SIGTERM.

(** [bridge_stop_requested] and which of the two signals have the handler. *)
Record runtime := Runtime {
  bridge_stop_requested : Z;
  rt_handles_int : bool;
  rt_handles_term : bool;
}.

Definition bridge_runtime_signal_handler (signo : signal) (rt : runtime) : runtime :=
  Runtime 1 (rt_handles_int rt) (rt_handles_term rt).

Definition bridge_runtime_reset_stop_requested (rt : runtime) : runtime :=
  Runtime 0 (rt_handles_int rt) (rt_handles_term rt).

(** [bridge_runtime_should_stop] as a function of the flag. *)
Definition should_stop (rt : runtime) : bool := negb (bridge_stop_requested rt =? 0).

(** [int_ok] and [term_ok] are the answers of the two [sigaction] calls; a failure is only
    printed. *)
Definition bridge_runtime_install_signal_handlers (int_ok term_ok : bool) (rt : runtime) : runtime :=
  Runtime (bridge_stop_requested rt) (int_ok || rt_handles_int rt) (term_ok || rt_handles_term rt).

(** A signal arrives: [None] when its default action ends the process. *)
Definition handles (rt : runtime) (signo : signal) : bool :=
  match signo with SIGINT => rt_handles_int rt | SIGTERM => rt_handles_term rt end.
Definition deliver (signo : signal) (rt : runtime) : option runtime :=
  if handles rt signo then Some (bridge_runtime_signal_handler signo rt) else None.

(** What happens to the flag, in order: signals and reads. The answers of the reads. *)
Inductive flag_event := Arrives (signo : signal) | Reads.

Fixpoint answers (rt : runtime) (evs : list flag_event) : option (list bool) :=
  match evs with
  | [] => Some []
  | Arrives signo :: evs => rt ← deliver signo rt; answers rt evs
  | Reads :: evs => l ← answers rt evs; Some (should_stop rt :: l)
  end.

(** The beginning of [lhkt_bridge_run]. *)
Definition run_prologue (int_ok term_ok : bool) (rt : runtime) : runtime :=
  bridge_runtime_install_signal_handlers int_ok term_ok (bridge_runtime_reset_stop_requested rt).

(** The reads before the first signal, and those after it. *)
Definition is_read (ev : flag_event) : bool := match ev with Reads => true | Arrives _ => false end.
Fixpoint reads_before (evs : list flag_event) : nat :=
  match evs with Reads :: evs => S (reads_before evs) | _ => 0 end.
Definition reads_in (evs : list flag_event) : nat := length (filter (λ ev, is_read ev = true) evs).

Lemma reads_in_arrives signo evs : reads_in (Arrives signo :: evs) = reads_in evs.
Proof. done. Qed.
Lemma reads_in_reads evs : reads_in (Reads :: evs) = S (reads_in evs).
Proof. done. Qed.

Lemma answers_stopped evs : ∀ rt l,
  bridge_stop_requested rt ≠ 0 → answers rt evs = Some l → l = replicate (reads_in evs) true.
Proof.
  induction evs as [|[signo|] evs IH]; intros rt l Hs; cbn [answers]; [by intros [= <-]|..].
  - unfold deliver. destruct (handles rt signo); [|done]. cbn [mbind option_bind].
    rewrite reads_in_arrives. by apply IH.
  - destruct (answers rt evs) as [l'|] eqn:E; [|done]. cbn [mbind option_bind]. intros [= <-].
    unfold should_stop. rewrite (proj2 (Z.eqb_neq _ _)) by done. rewrite reads_in_reads. cbn. f_equal. by eapply IH.
Qed.

Lemma answers_killed evs : ∀ rt,
  answers rt evs = None → ∃ signo, Arrives signo ∈ evs ∧ handles rt signo = false.
Proof.
  induction evs as [|[signo|] evs IH]; intros rt; cbn [answers]; [done|..].
  - unfold deliver. destruct (handles rt signo) eqn:E; cbn [mbind option_bind].
    + intros (s & Hin & H)%IH. exists s. split; [by right|]. by destruct s.
    + intros _. exists signo. split; [by left|done].
  - destruct (answers rt evs) as [l|] eqn:E; cbn [mbind option_bind]; [done|].
    intros _. destruct (IH rt E) as (s & Hin & H). exists s. split; [by right|done].
Qed.

(** The flag is sticky. After the beginning of [lhkt_bridge_run], with both handlers
    installed, no signal kills the process, and whatever the interleaving of signals and
    reads, the reads answer "go on" until the first signal and "stop" ever after. *)
Lemma stop_flag_sticky rt evs :
  answers (run_prologue true true rt) evs =
    Some (replicate (reads_before evs) false ++ replicate (reads_in evs - reads_before evs) true).
Proof.
  destruct (answers (run_prologue true true rt) evs) as [l|] eqn:E.
  2: { by apply answers_killed in E as ([] & _ & H). }
  f_equal. assert (bridge_stop_requested (run_prologue true true rt) = 0) as H0 by done.
  revert E H0. generalize (run_prologue true true rt) as rt0. clear rt. intros rt0. revert rt0 l.
  induction evs as [|[signo|] evs IH]; intros rt l; cbn [answers reads_before]; [by intros [= <-]|..].
  - unfold deliver. destruct (handles rt signo); [|done]. cbn [mbind option_bind]. intros E _.
    rewrite reads_in_arrives, Nat.sub_0_r. by apply answers_stopped in E.
  - destruct (answers rt evs) as [l'|] eqn:E; [|done]. cbn [mbind option_bind]. intros [= <-] H0.
    unfold should_stop. rewrite H0. rewrite reads_in_reads. cbn. f_equal. by eapply IH.
Qed.

(** ** Stopping is prompt

    Once the flag is set no wait of the program that looks at it begins another round:
    sleeps, the wait for a result and the wait for the client end at once with an error,
    and the main loop returns. (The waits for a writable daemon socket and for the start
    of a transmission do not look; they end after 2 s and 500 ms.) *)
Lemma stop_ends_waits w ws :
  w_stop w = true :: ws →
  (∀ ms, 0 < ms → bridge_runtime_sleep_ms ms w = Some (LHKT_ERR, set_stop ws w)) ∧
  (∀ fd, fd_bad fd = false → bridge_rx_wait_fd_writable fd w = Some (LHKT_ERR, set_stop ws w)) ∧
  (∀ data deadline s, wait_tx_result_round data deadline s w =
     Some (inr (Err LHKT_ERR_TX_RESULT, s), set_stop ws w)) ∧
  (∀ conf deadline st, cs_tx_busy st ≠ 0 → wait_tx_idle conf deadline st w = Some ((LHKT_ERR, st), set_stop ws w)) ∧
  (∀ cfg listen_fd st, bridge_loop cfg listen_fd st w = Some (st, set_stop ws w)).
Proof.
  intros E.
  assert (∀ {A} (k : bool → io A), (bridge_runtime_should_stop ≫= k) w = k true (set_stop ws w)) as Hs.
  { intros A k. unfold mbind, io_bind, bridge_runtime_should_stop. by rewrite (ask_eq _ _ _ _ _ E). }
  split_and!.
  - intros ms Hms. unfold bridge_runtime_sleep_ms. rewrite (proj2 (Z.leb_gt _ _)) by done. by rewrite Hs.
  - intros fd Hfd. unfold bridge_rx_wait_fd_writable. rewrite Hfd. unfold loop. cbn [iter].
    unfold mbind at 1, io_bind at 1. by rewrite Hs.
  - intros data deadline s. unfold wait_tx_result_round. by rewrite Hs.
  - intros conf deadline st Hb. unfold wait_tx_idle, loop. cbn [iter]. unfold mbind at 1, io_bind at 1.
    rewrite (proj2 (Z.eqb_neq _ _)) by done. by rewrite Hs.
  - intros cfg listen_fd st. unfold bridge_loop, loop. cbn [iter]. unfold mbind at 1, io_bind at 1. by rewrite Hs.
Qed.
