(* ===== verification/EndToEnd.v ===== *)
(** From one KISS client to another, over two TNCs. *)
From S2P Require Import Prelude Kiss Ax25 Tnc2 LorahamSock Tnc TxQueue Io SockIo BridgeKiss BridgeRx BridgeLoraham BridgeTx.

(** The frame of a client, with the clock at [now], puts exactly [p] into the queue. *)
Definition queues_packet (frame : kiss_frame_t) (params : kiss_params_t) (cfg : lhkt_config_t)
    (stats : lhkt_stats_t) (queue : bridge_tx_queue_t) (now : Z) (p : list Z) : Prop :=
  let '(ret, _, _, queue') := bridge_kiss_handle_frame frame params cfg stats queue now in
  ret = LHKT_OK ∧ TxQueue.Spec.contents queue' = TxQueue.Spec.contents queue ++ [TxItem p now 0].

(** C1. The gateway is transparent for packets: a client sends, as KISS, an AX.25 UI
    frame [f] (no NUL and no 3C FF 01 in its payload, at most 252 characters of text),
    and the sending TNC may transmit and has room in its queue. Then it queues one
    packet; the bytes it writes to its daemon for that packet are one frame that
    carries exactly the packet; when the daemon of another TNC delivers the packet,
    with any metadata, that TNC writes its client KISS bytes, all of them if the result
    is success, and it is when the socket takes them; and in these bytes the receiving
    client finds, whatever state its decoder is in, an AX.25 frame that decodes to the
    text normal form of [f]. *)
Theorem gateway_transparent raw f params cfg stats queue now fd meta stats' w
    (Hraw : bytes_ok raw) (Hdec : ax25_decode_ui raw = Ok f) (Hnul : 0 ∉ af_payload f)
    (Hhdr : no_hdr (af_payload f)) (Hlen : len (tnc2_text f) ≤ 252)
    (Htx : rx_only cfg = 0) (Hq : TxQueue.Spec.wf queue) (Hroom : queue_room cfg queue = true)
    (Hfd : fd_bad fd = false) (Hmeta : length meta = 4%nat) :
  ∃ p raw',
    (kiss_decode kiss_decoder_init (Kiss.Spec.wire raw)).2 = [Frame (KissFrame 0 0 raw)] ∧
    queues_packet (KissFrame 0 0 raw) params cfg stats queue now p ∧
    loraham_framed_decode loraham_framed_rx_state_init (tx_frame p) =
      (loraham_framed_rx_state_init, [Frame (LoraFrame LORAHAM_FRAME_TX_PACKET p)]) ∧
    let received := bridge_rx_handle_framed_frame fd (LoraFrame LORAHAM_FRAME_RX_PACKET (meta ++ p)) stats' in
    wp received (λ r w', ∃ w1 rssi snr, w_out w1 = w_out w ++ [RfRx rssi snr p] ∧
                         delivered fd (Kiss.Spec.wire raw') w1 r.1 w') w ∧
    (Forall accepting (w_write w) → (length (Kiss.Spec.wire raw') ≤ length (w_write w))%nat →
     ∃ r w', received w = Some (r, w') ∧ r.1 = LHKT_OK) ∧
    (∀ dec, kiss_decode dec (Kiss.Spec.wire raw') =
       (kiss_synced, (kiss_decode dec [KISS_FEND]).2 ++ [kiss_data_frame raw'])) ∧
    ax25_decode_ui raw' = Ok (tnc2_norm f).
Proof.
  apply ax25_decode_ui_wf in Hdec as Hwf; [|done]. destruct Hwf as [Hwf _].
  destruct (rx_frame_delivers fd meta f stats' w Hfd Hmeta Hwf Hnul Hhdr)
    as (raw' & rssi & snr & _ & Hd & Hk & Hrx & Hlive). cbv zeta in *.
  exists (loraham_hdr ++ tnc2_text f), raw'. split_and!.
  - rewrite (kiss_decode_wire kiss_decoder_init raw); [done|].
    apply ax25_decode_ui_length in Hdec. unfold LHKT_AX25_MAX_FRAME, LHKT_KISS_MAX_FRAME in *. lia.
  - pose proof (handle_frame_spec (KissFrame 0 0 raw) params cfg stats queue now Hraw Hq) as H.
    unfold queues_packet. destruct (bridge_kiss_handle_frame _ _ _ _ _ _) as [[[ret p'] s'] q']. destruct H as [_ H].
    unfold kiss_tx_packet in H. cbn [kf_command kf_port kf_data Z.eqb negb orb] in H.
    rewrite Hdec, bool_decide_eq_false_2, (proj2 (Z.ltb_ge _ _)) in H by done. cbn [orb] in H.
    by rewrite Htx, Hroom in H.
  - unfold tx_frame. rewrite <-(app_nil_r (framed_bytes _)), framed_decode_frame; [done|].
    cbn [lf_payload]. rewrite length_app. unfold LHKT_FRAMED_MAX_PAYLOAD. cbn. lia.
  - eapply wp_mono; [exact Hrx|]. intros r w' (w1 & E & H & _). by exists w1, rssi, snr.
  - intros Ha Hl. destruct (Hlive Ha Hl) as [w' E]. by do 2 eexists.
  - exact Hk.
  - exact Hd.
Qed.

Lemma gateway_transparent_witness :
  ∃ p raw',
    loraham_framed_decode loraham_framed_rx_state_init (tx_frame p) =
      (loraham_framed_rx_state_init, [Frame (LoraFrame LORAHAM_FRAME_TX_PACKET p)]) ∧
    ax25_decode_ui raw' = Ok (tnc2_norm (ax25_norm ax25_example)).
Proof.
  destruct (gateway_transparent ax25_example_bytes (ax25_norm ax25_example) kiss_params_init
    kiss_example_cfg lhkt_stats_init bridge_tx_queue_init 7 5 [0; 0; 0; 0] lhkt_stats_init rx_example_world)
    as (p & raw' & _ & _ & Hp & _ & _ & _ & Hd).
  - apply (bool_decide_unpack _). by vm_compute.
  - by vm_compute.
  - by apply (bool_decide_unpack _).
  - intros a b E. do 6 (destruct a as [|? a]; [discriminate|injection E as _ E]). by destruct a.
  - by vm_compute.
  - done.
  - apply bridge_tx_queue_init_wf.
  - by vm_compute.
  - done.
  - done.
  - exists p, raw'. split; [exact Hp|exact Hd].
Defined.
