(* ===== verification/Gmtime.v ===== *)
(** The calendar: [gmtime_r] and the [strftime] conversions of the RF log's time stamp,
    for times from 1970 on.

    A date is found by taking whole years, then whole months, off the days since the
    epoch; [posix_seconds] is the reference, the formula by which POSIX defines the
    seconds since the epoch. *)
From S2P Require Import Prelude Printf.

(** [struct tm], with the year and the month as they are printed. *)
Record tm := Tm {
  tm_year : Z;
  tm_mon : Z;
  tm_mday : Z;
  tm_hour : Z;
  tm_min : Z;
  tm_sec : Z;
}.

Definition leap (y : Z) : bool :=
  (y mod 4 =? 0) && (negb (y mod 100 =? 0) || (y mod 400 =? 0)).

Definition year_days (y : Z) : Z := if leap y then 366 else 365.

Definition month_lengths (y : Z) : list Z :=
  [31; if leap y then 29 else 28; 31; 30; 31; 30; 31; 31; 30; 31; 30; 31].

(** The year that [days] days from the first of January of [y] fall into, and the day
    of that year. *)
Fixpoint year_of (fuel : nat) (y days : Z) : Z * Z :=
  match fuel with
  | O => (y, days)
  | S fuel => if days <? year_days y then (y, days) else year_of fuel (y + 1) (days - year_days y)
  end.

Fixpoint month_of (lengths : list Z) (m day : Z) : Z * Z :=
  match lengths with
  | [] => (m, day)
  | l :: lengths => if day <? l then (m, day) else month_of lengths (m + 1) (day - l)
  end.

Definition gmtime (sec : Z) : tm :=
  let days := sec / 86400 in
  let '(y, yday) := year_of (S (Z.to_nat (days / 365))) 1970 days in
  let '(m, mday) := month_of (month_lengths y) 1 yday in
  Tm y m (mday + 1) (sec mod 86400 / 3600) (sec mod 3600 / 60) (sec mod 60).

(** "%Y-%m-%dT%H:%M:%S" *)
Definition strftime_iso (t : tm) : list Z :=
  let two z := pad0 2 (fmt_nat z) in
  fmt_nat (tm_year t) ++ str "-" ++ two (tm_mon t) ++ str "-" ++ two (tm_mday t) ++ str "T" ++
  two (tm_hour t) ++ str ":" ++ two (tm_min t) ++ str ":" ++ two (tm_sec t).

(** The stamp: [sec] and [nsec] are the answer of [clock_gettime(CLOCK_REALTIME)]. *)
Definition rflog_utc_now (out_size : Z) (sec nsec : Z) : list Z :=
  take (Z.to_nat (out_size - 1))
    (strftime_iso (gmtime sec) ++ str "." ++ pad0 3 (fmt_nat (nsec / 1000000)) ++ str "Z").

Example rflog_utc_now_example :
  rflog_utc_now 40 1709251199 7999999 = str "2024-02-29T23:59:59.007Z".
Proof. by vm_compute. Qed.

(** ** Correctness *)

(** The days before a year, and before a month of it. *)
Definition days_before_year (y : Z) : Z :=
  365 * (y - 1970) + (y - 1969) / 4 - (y - 1901) / 100 + (y - 1601) / 400.
Definition days_before_month (y m : Z) : Z :=
  foldr Z.add 0 (take (Z.to_nat (m - 1)) (month_lengths y)).

(** POSIX, "Seconds Since the Epoch". *)
Definition posix_seconds (t : tm) : Z :=
  tm_sec t + tm_min t * 60 + tm_hour t * 3600 +
  (days_before_month (tm_year t) (tm_mon t) + tm_mday t - 1 + days_before_year (tm_year t)) * 86400.

(** A date of the calendar and a time of the day. *)
Record tm_valid (t : tm) : Prop := {
  tv_mon : 1 ≤ tm_mon t ≤ 12;
  tv_mday : 1 ≤ tm_mday t ≤ month_lengths (tm_year t) !!! Z.to_nat (tm_mon t - 1);
  tv_hour : 0 ≤ tm_hour t < 24;
  tv_min : 0 ≤ tm_min t < 60;
  tv_sec : 0 ≤ tm_sec t < 60;
}.

Section calendar.
#[local] Ltac Zify.zify_post_hook ::= Z.to_euclidean_division_equations.

Lemma days_next_year y : days_before_year (y + 1) = days_before_year y + year_days y.
Proof.
  unfold days_before_year, year_days, leap.
  destruct (Z.eqb_spec (y mod 4) 0), (Z.eqb_spec (y mod 100) 0), (Z.eqb_spec (y mod 400) 0); cbn [andb orb negb]; lia.
Qed.

Lemma time_of_day sec :
  sec mod 60 + sec mod 3600 / 60 * 60 + sec mod 86400 / 3600 * 3600 + sec / 86400 * 86400 = sec ∧
  0 ≤ sec mod 86400 / 3600 < 24 ∧ 0 ≤ sec mod 3600 / 60 < 60 ∧ 0 ≤ sec mod 60 < 60.
Proof. lia. Qed.

End calendar.

Lemma year_days_bounds y : 365 ≤ year_days y ≤ 366.
Proof. unfold year_days. destruct (leap y); lia. Qed.

Lemma days_mono y z : y ≤ z → days_before_year y ≤ days_before_year z.
Proof.
  intros H. replace z with (y + Z.of_nat (Z.to_nat (z - y))) by lia.
  induction (Z.to_nat (z - y)) as [|n IH]; [rewrite Z.add_0_r; lia|].
  rewrite Nat2Z.inj_succ. replace (y + Z.succ (Z.of_nat n)) with (y + Z.of_nat n + 1) by lia.
  rewrite days_next_year. pose proof (year_days_bounds (y + Z.of_nat n)). lia.
Qed.

Lemma year_of_spec fuel : ∀ y days,
  0 ≤ days → days < 365 * Z.of_nat fuel →
  let '(y', yday) := year_of fuel y days in
  0 ≤ yday < year_days y' ∧ days_before_year y' + yday = days_before_year y + days.
Proof.
  induction fuel as [|fuel IH]; intros y days H0 Hd; [lia|]. cbn [year_of].
  destruct (Z.ltb_spec days (year_days y)); [done|].
  pose proof (IH (y + 1) (days - year_days y)) as H'. pose proof (year_days_bounds y). pose proof (days_next_year y).
  destruct (year_of fuel _ _) as [y' yday]. destruct H' as [? ?]; [lia|lia|]. split; [done|lia].
Qed.

Lemma month_of_spec lengths : ∀ m day,
  0 ≤ day < foldr Z.add 0 lengths →
  let '(m', mday) := month_of lengths m day in
  m ≤ m' < m + len lengths ∧ 0 ≤ mday < lengths !!! Z.to_nat (m' - m) ∧
  foldr Z.add 0 (take (Z.to_nat (m' - m)) lengths) + mday = day.
Proof.
  induction lengths as [|l lengths IH]; intros m day Hd; cbn [foldr] in Hd; [lia|]. cbn [month_of].
  destruct (Z.ltb_spec day l).
  { rewrite Z.sub_diag, length_cons. change (Z.to_nat 0) with 0%nat.
    change ((l :: lengths) !!! 0%nat) with l. cbn [take foldr]. lia. }
  specialize (IH (m + 1) (day - l) ltac:(lia)). destruct (month_of lengths _ _) as [m' mday].
  destruct IH as (H1 & H2 & H3). replace (Z.to_nat (m' - m)) with (S (Z.to_nat (m' - (m + 1)))) by lia.
  rewrite length_cons. split; [lia|]. split; [exact H2|]. cbn [take foldr]. lia.
Qed.

(** [gmtime] finds the date that POSIX says the time is. *)
Lemma gmtime_correct sec : 0 ≤ sec → tm_valid (gmtime sec) ∧ posix_seconds (gmtime sec) = sec.
Proof.
  intros Hs. unfold gmtime. assert (0 ≤ sec / 86400) as Hd by (apply Z.div_pos; lia).
  pose proof (Z.mul_succ_div_gt (sec / 86400) 365 ltac:(lia)) as Hf.
  pose proof (year_of_spec (S (Z.to_nat (sec / 86400 / 365))) 1970 (sec / 86400) Hd) as Hy.
  assert (0 ≤ sec / 86400 / 365) by (apply Z.div_pos; lia).
  destruct (year_of _ 1970 _) as [y yday]. destruct Hy as [Hyd Ey]; [lia|].
  assert (foldr Z.add 0 (month_lengths y) = year_days y) as El by (unfold month_lengths, year_days; by destruct (leap y)).
  pose proof (month_of_spec (month_lengths y) 1 yday ltac:(lia)) as Hm.
  destruct (month_of _ 1 yday) as [m mday]. destruct Hm as (Hm & Hmd & Em).
  change (len (month_lengths y)) with 12 in Hm. pose proof (time_of_day sec) as (Et & Hh & Hmi & Hse).
  split; [split; cbn [tm_year tm_mon tm_mday tm_hour tm_min tm_sec]; lia|].
  unfold posix_seconds, days_before_month. cbn [tm_year tm_mon tm_mday tm_hour tm_min tm_sec].
  change (days_before_year 1970) with 0 in Ey. lia.
Qed.

(** Up to the end of the year 9999 the stamp has the 24 characters of its format. *)
Definition stamp_ok (sec nsec : Z) : Prop := 0 ≤ sec < 253402300800 ∧ 0 ≤ nsec < 1000000000.

Lemma gmtime_year sec : 0 ≤ sec < 253402300800 → 1970 ≤ tm_year (gmtime sec) ≤ 9999.
Proof.
  intros Hs. destruct (gmtime_correct sec) as [[Hm Hd Hh Hmi Hse] E]; [lia|]. unfold posix_seconds in E.
  assert (0 ≤ days_before_month (tm_year (gmtime sec)) (tm_mon (gmtime sec)) + tm_mday (gmtime sec) - 1 <
          year_days (tm_year (gmtime sec))) as Hy.
  { revert Hm Hd. generalize (tm_mon (gmtime sec)) as m, (tm_mday (gmtime sec)) as d, (tm_year (gmtime sec)) as y.
    intros m d y Hm Hd.
    assert (m = 1 ∨ m = 2 ∨ m = 3 ∨ m = 4 ∨ m = 5 ∨ m = 6 ∨ m = 7 ∨ m = 8 ∨ m = 9 ∨ m = 10 ∨ m = 11 ∨ m = 12)
      as Hc by lia.
    revert Hd. unfold days_before_month, year_days, month_lengths.
    destruct (leap y); repeat destruct Hc as [->|Hc]; try subst m;
      match goal with |- 1 ≤ d ≤ ?a → 0 ≤ ?b + d - 1 < _ =>
        let a' := eval vm_compute in a in let b' := eval vm_compute in b in
        change a with a'; change b with b' end; lia. }
  set (y := tm_year (gmtime sec)) in *. split.
  - destruct (Z.leb_spec 1970 y) as [|H]; [done|]. pose proof (days_mono (y + 1) 1970 ltac:(lia)) as H1.
    rewrite days_next_year in H1. change (days_before_year 1970) with 0 in H1. lia.
  - destruct (Z.leb_spec y 9999) as [|H]; [done|]. pose proof (days_mono 10000 y ltac:(lia)) as H1.
    change (days_before_year 10000) with 2932897 in H1. lia.
Qed.

Lemma pad0_digits k z : (0 < k)%nat → 0 ≤ z < 10 ^ Z.of_nat k → length (pad0 k (fmt_nat z)) = k.
Proof. intros Hk Hz. apply pad0_length. by apply fmt_nat_length. Qed.

(** "%Y" does not pad. *)
Lemma year_digits y : 1970 ≤ y ≤ 9999 → length (fmt_nat y) = 4%nat.
Proof.
  intros Hy. assert (forallb (λ y, (length (fmt_nat y) =? 4)%nat) (seqZ 1970 8030) = true) as H by by vm_compute.
  rewrite forallb_forall in H. apply Nat.eqb_eq, H, list_elem_of_In, elem_of_seqZ. lia.
Qed.

Lemma rflog_utc_now_ok sec nsec :
  stamp_ok sec nsec → printable (rflog_utc_now 40 sec nsec) ∧ len (rflog_utc_now 40 sec nsec) = 24.
Proof.
  intros [Hs Hn]. pose proof (gmtime_year sec Hs) as Hy.
  destruct (gmtime_correct sec) as [[Hm Hd Hh Hmi Hse] _]; [lia|].
  assert (0 ≤ nsec / 1000000 < 1000) as Hms.
  { split; [apply Z.div_pos; lia|apply Z.div_lt_upper_bound; lia]. }
  assert (tm_mday (gmtime sec) < 100) as Hd2.
  { enough (month_lengths (tm_year (gmtime sec)) !!! Z.to_nat (tm_mon (gmtime sec) - 1) ≤ 31) by lia.
    assert (Forall (λ l, l ≤ 31) (month_lengths (tm_year (gmtime sec)))) as F
      by (unfold month_lengths; destruct (leap _); by repeat constructor).
    rewrite Forall_lookup_total in F. apply F. change (length (month_lengths _)) with 12%nat. lia. }
  unfold rflog_utc_now. revert Hy Hm Hd Hh Hmi Hse Hms Hd2.
  generalize (nsec / 1000000) as ms. destruct (gmtime sec) as [y m d h mi se].
  cbn [tm_year tm_mon tm_mday tm_hour tm_min tm_sec]. intros ms Hy Hm Hd Hh Hmi Hse Hms Hd2.
  assert (length (strftime_iso (Tm y m d h mi se)) = 19%nat) as Hl.
  { unfold strftime_iso. cbv zeta. cbn [tm_year tm_mon tm_mday tm_hour tm_min tm_sec].
    assert (length (fmt_nat y) = 4%nat) as Hyl.
    { apply year_digits. lia. }
    rewrite !length_app, Hyl, !pad0_digits by (cbn; lia). done. }
  split.
  - apply Forall_take. fold (printable (strftime_iso (Tm y m d h mi se) ++ str "." ++ pad0 3 (fmt_nat ms) ++ str "Z")).
    unfold strftime_iso. cbv zeta. cbn [tm_year tm_mon tm_mday tm_hour tm_min tm_sec].
    solve_printable.
  - rewrite length_take, !length_app, Hl, pad0_digits by (cbn; lia). done.
Qed.
