(* ===== verification/Rflog.v ===== *)
(** The RF log (rflog.c): the lines of received and sent packets and the file they go to.

    A formatter's buffer is the text written to it so far; a text longer than the
    buffer stands for a position past its end, where nothing is written any more.
    The time stamp is a parameter of the formatters, as in the code; [rflog_utc_now] of
    Gmtime makes it. What a write and a roll leave in the two files is stated by running
    the trace on their contents ([disk_run]). *)
From S2P Require Import Prelude Tnc Printf Double Gmtime Io SockIo LorahamConf BridgeLoraham.
From Stdlib Require Import SpecFloat.

Definition LHKT_RFLOG_LINE_MAX : Z := 1280.

(** Printable, but neither quote nor backslash; everything else is a dot. *)
Definition rflog_char (c : Z) : Z :=
  if (0x20 <=? c) && (c <? 0x7f) && negb (c =? 34) && negb (c =? 92) then c else 46.

Definition lhkt_rflog_tnc2_summary (packet : list Z) (out_size : Z) : option (list Z) :=
  if out_size =? 0 then None
  else if (len packet <? 3) || negb (packet !!! 0%nat =? 0x3c) || negb (packet !!! 1%nat =? 0xff) ||
          negb (packet !!! 2%nat =? 0x01) then None
  else Some (map rflog_char (take (Z.to_nat (out_size - 1)) (drop 3 packet))).

(** [digits[d]] *)
Definition rflog_digit (d : Z) : Z := if d <? 10 then 48 + d else 87 + d.

(** [rflog_put] appends; the two loops stop at the end of the buffer. *)
Definition rflog_put (text s : list Z) : list Z := text ++ s.

Fixpoint rflog_put_hex (out_size : Z) (text packet : list Z) : list Z :=
  match packet with
  | [] => text
  | c :: packet =>
      if len text + 2 <? out_size then
        rflog_put_hex out_size (text ++ [rflog_digit (Z.shiftr c 4); rflog_digit (Z.land c 0x0f)]) packet
      else text
  end.

Fixpoint rflog_put_ascii (out_size : Z) (text packet : list Z) : list Z :=
  match packet with
  | [] => text
  | c :: packet =>
      if len text + 1 <? out_size then rflog_put_ascii out_size (text ++ [rflog_char c]) packet
      else text
  end.

Definition rflog_append_tail (out_size : Z) (text packet : list Z) : list Z :=
  let text :=
    match lhkt_rflog_tnc2_summary packet 260 with
    | Some tnc2 => rflog_put (rflog_put (rflog_put text (str " tnc2=" ++ [34])) tnc2) [34]
    | None => text
    end in
  let text := rflog_put text (str " hex=") in
  let text := rflog_put_hex out_size text packet in
  let text := rflog_put text (str " ascii=" ++ [34]) in
  let text := rflog_put_ascii out_size text packet in
  let text := rflog_put text [34; 10] in
  if out_size <=? len text then take (Z.to_nat (out_size - 2)) text ++ [10] else text.

(** [cdb / 100.0] *)
Definition rflog_centi (cdb : Z) : double :=
  match cdb with
  | Z0 => S754_zero false
  | Zpos p => double_lit p 100
  | Zneg p => double_neg (double_lit p 100)
  end.

Definition rflog_rx_head (utc : list Z) (rssi_cdbm snr_cdb : Z) (packet : list Z) : list Z :=
  utc ++ str " RX rssi=" ++ fmt_f 2 (rflog_centi rssi_cdbm) ++ str " snr=" ++
  fmt_f 2 (rflog_centi snr_cdb) ++ str " len=" ++ fmt_nat (len packet).

Definition rflog_tx_head (utc outcome packet : list Z) : list Z :=
  utc ++ str " TX rssi=- snr=- len=" ++ fmt_nat (len packet) ++ str " outcome=" ++ outcome.

(** The line; its length is the return value. [snprintf] cuts the head to the buffer. *)
Definition lhkt_rflog_format_rx (out_size : Z) (utc : list Z) (rssi_cdbm snr_cdb : Z)
    (packet : list Z) : list Z :=
  if out_size <? 8 then []
  else rflog_append_tail out_size
         (take (Z.to_nat (out_size - 1)) (rflog_rx_head utc rssi_cdbm snr_cdb packet)) packet.

Definition lhkt_rflog_format_tx (out_size : Z) (utc outcome packet : list Z) : list Z :=
  if out_size <? 8 then []
  else rflog_append_tail out_size
         (take (Z.to_nat (out_size - 1)) (rflog_tx_head utc outcome packet)) packet.

Example rflog_example :
  lhkt_rflog_format_rx LHKT_RFLOG_LINE_MAX (str "2026-01-02T03:04:05.678Z") (-10550) 725
    [0x3c; 0xff; 0x01; 65; 62; 34] =
  str "2026-01-02T03:04:05.678Z RX rssi=-105.50 snr=7.25 len=6 tnc2=" ++ [34] ++ str "A>." ++ [34] ++
  str " hex=3cff01413e22 ascii=" ++ [34] ++ str "<..A>." ++ [34; 10].
Proof. by vm_compute. Qed.

(** ** The file

    The static variables of the module; [open] answers like [socket], [pread] like
    [read]. The real-time clock reading of an entry is an argument. *)
Definition LHKT_RFLOG_MAX_BYTES : Z := 5 * 1024 * 1024.

Record rflog_state := RflogState { rf_fd : Z; rf_path : list Z; rf_max : Z }.

Definition rflog_init : rflog_state := RflogState (-1) [] LHKT_RFLOG_MAX_BYTES.

Definition lhkt_rflog_active (st : rflog_state) : bool := 0 <=? rf_fd st.

Definition lhkt_rflog_set_max_bytes (max_bytes : Z) (st : rflog_state) : rflog_state :=
  RflogState (rf_fd st) (rf_path st) max_bytes.

Definition lhkt_rflog_open (path : list Z) (st : rflog_state) : io (Z * rflog_state) :=
  if negb (bool_decide (head path = Some 47)) || (LHKT_PATH_MAX + 8 - 2 <=? len path)
  then mret (LHKT_ERR, st)
  else
    r ← sys_socket;
    match r with
    | None => mret (LHKT_ERR, st)
    | Some fd =>
        _ ← (if 0 <=? rf_fd st then sys_close (rf_fd st) else mret ());
        mret (LHKT_OK, RflogState fd path (rf_max st))
    end.

Definition lhkt_rflog_close (st : rflog_state) : io rflog_state :=
  if 0 <=? rf_fd st then
    _ ← sys_close (rf_fd st); mret (RflogState (-1) (rf_path st) LHKT_RFLOG_MAX_BYTES)
  else mret (RflogState (rf_fd st) (rf_path st) LHKT_RFLOG_MAX_BYTES).

(** Writing until all is written; only EINTR is tried again. *)
Definition rflog_write_round (fd : Z) (rest : list Z) : io (list Z + bool) :=
  if len rest =? 0 then mret (inr true)
  else
    r ← sys_write fd rest;
    match r with
    | WrErr EINTR => mret (inl rest)
    | WrErr _ => mret (inr false)
    | WrN n => mret (inl (drop n rest))
    end.

(** The chunk at [off] is read and copied; the offset then moves by what was read. *)
Definition rflog_copy_round (fd pfd : Z) (off : Z) : io (Z + bool) :=
  n ← sys_pread fd off (Z.to_nat 65536);
  match n with
  | RdErr EINTR => mret (inl off)
  | RdErr _ => mret (inr false)
  | RdData [] => mret (inr true)
  | RdData chunk =>
      ok ← loop (rflog_write_round pfd) chunk;
      mret (if (ok : bool) then inl (off + len chunk) else inr false)
  end.

(** Opening <path>.1 empties it, before anything is copied. *)
Definition rflog_copy_to_previous (st : rflog_state) : io bool :=
  p ← sys_open_trunc;
  match p with
  | None => mret false
  | Some pfd =>
      ok ← loop (rflog_copy_round (rf_fd st) pfd) 0;
      _ ← sys_close pfd;
      mret ok
  end.

(** The roll when the line would pass the limit. *)
Definition rflog_roll (st : rflog_state) (n : Z) : io unit :=
  size ← sys_fstat (rf_fd st);
  match size with
  | Some size =>
      if rf_max st <? size + n then
        copied ← rflog_copy_to_previous st;
        if (copied : bool) then _ ← sys_ftruncate (rf_fd st); mret () else mret ()
      else mret ()
  | None => mret ()
  end.

Definition rflog_write_line (st : rflog_state) (line : list Z) : io unit :=
  if rf_fd st <? 0 then mret ()
  else
    _ ← rflog_roll st (len line);
    _ ← loop (rflog_write_round (rf_fd st)) line;
    mret ().

(** The clock reading of the entry is [sec] and [nsec]. *)
Definition lhkt_rflog_rx (st : rflog_state) (sec nsec : Z) (rssi_cdbm snr_cdb : Z) (packet : list Z) :
    io unit :=
  if rf_fd st <? 0 then mret ()
  else
    let utc := rflog_utc_now 40 sec nsec in
    rflog_write_line st (lhkt_rflog_format_rx LHKT_RFLOG_LINE_MAX utc rssi_cdbm snr_cdb packet).

Definition lhkt_rflog_tx (st : rflog_state) (sec nsec : Z) (outcome packet : list Z) : io unit :=
  if rf_fd st <? 0 then mret ()
  else
    let utc := rflog_utc_now 40 sec nsec in
    rflog_write_line st (lhkt_rflog_format_tx LHKT_RFLOG_LINE_MAX utc outcome packet).

(** ** The text of a line *)



























(** ** Retention *)

(** The two files: the live one, open as [live], and the previous segment, which is
    whatever else is written to. *)
Record disk := Disk { dk_live : list Z; dk_prev : list Z }.

(** What an output does to them. [None]: a [pread] did not find what the file holds at
    that offset, or the kernel gave out the descriptor of the live file again. *)
Definition disk_step (live : Z) (d : disk) (x : output) : option disk :=
  match x with
  | Wrote fd bs =>
      Some (if fd =? live then Disk (dk_live d ++ bs) (dk_prev d) else Disk (dk_live d) (dk_prev d ++ bs))
  | Truncated fd => Some (if fd =? live then Disk [] (dk_prev d) else Disk (dk_live d) [])
  | ReadAt fd off bs =>
      let rest := drop (Z.to_nat off) (dk_live d) in
      if bool_decide (fd = live ∧ take (length bs) rest = bs ∧ (bs = [] → rest = [])) then Some d else None
  | Opened fd => if fd =? live then None else Some d
  | _ => Some d
  end.

Definition disk_run (live : Z) (o : list output) (d : disk) : option disk :=
  foldl (λ d x, d ≫= λ d, disk_step live d x) (Some d) o.

Lemma disk_run_None live o : foldl (λ d x, d ≫= λ d, disk_step live d x) None o = None.
Proof. by induction o. Qed.

Lemma disk_run_app live a b d : disk_run live (a ++ b) d = disk_run live a d ≫= disk_run live b.
Proof.
  unfold disk_run. rewrite foldl_app. destruct (foldl _ (Some d) a); [done|]. by rewrite disk_run_None.
Qed.

Lemma disk_run_cons live x o d : disk_run live (x :: o) d = disk_step live d x ≫= disk_run live o.
Proof. change (x :: o) with ([x] ++ o). rewrite disk_run_app. done. Qed.

Lemma disk_run_writes live fd o d :
  Forall (is_write fd) o →
  disk_run live o d = Some (if fd =? live then Disk (dk_live d ++ written fd o) (dk_prev d)
                            else Disk (dk_live d) (dk_prev d ++ written fd o)).
Proof.
  intros F. revert d. induction F as [|x o [bs ->] F IH]; intros d.
  { cbn. rewrite !app_nil_r. by destruct d, (fd =? live). }
  rewrite disk_run_cons. cbn. rewrite IH, Z.eqb_refl. destruct (fd =? live); cbn; by rewrite app_assoc.
Qed.

(** [acts st m Q]: whatever the environment answers, as long as it deals with the two
    files as [disk_run] has it, [m] takes them from [d] to [d'] as [Q] says. *)
Definition acts {A} (live : Z) (m : io A) (Q : A → disk → disk → Prop) : Prop :=
  yields m (λ a o, ∀ d d', disk_run live o d = Some d' → Q a d d').

Lemma acts_ret {A} live (a : A) (Q : A → disk → disk → Prop) : (∀ d, Q a d d) → acts live (mret a) Q.
Proof. intros H. apply yields_ret. intros d d' [= <-]. apply H. Qed.

Lemma acts_bind {A B} live (m : io A) (k : A → io B) P Q :
  acts live m P → (∀ a, acts live (k a) (λ b d1 d', ∀ d, P a d d1 → Q b d d')) → acts live (m ≫= k) Q.
Proof.
  intros Hm Hk. eapply yields_bind; [exact Hm|]. intros a o Ho. eapply yields_mono; [apply Hk|].
  intros b o' Ho' d d'. rewrite disk_run_app. destruct (disk_run live o d) as [d1|] eqn:E; [|done].
  cbn. intros E'. by eapply Ho'; [|apply Ho].
Qed.

Lemma acts_mono {A} live (m : io A) (P Q : A → disk → disk → Prop) :
  acts live m P → (∀ a d d', P a d d' → Q a d d') → acts live m Q.
Proof. intros Hm H. eapply yields_mono; [exact Hm|]. naive_solver. Qed.

Lemma acts_loop {S A} live (body : S → io (S + A)) (I : S → disk → disk → Prop) Q s :
  (∀ d, I s d d) →
  (∀ s, acts live (body s) (λ x d1 d', ∀ d, I s d d1 → match x with inl s' => I s' d d' | inr a => Q a d d' end)) →
  acts live (loop body s) Q.
Proof.
  intros H0 Hb. apply (yields_loop _ (λ s o, ∀ d d', disk_run live o d = Some d' → I s d d')).
  { by intros d d' [= <-]. }
  intros s' o HI. eapply yields_mono; [apply Hb|].
  intros [s2|a] o' H d d'; rewrite disk_run_app; (destruct (disk_run live o d) as [d1|] eqn:E; [|done]);
    cbn; intros E'; exact (H d1 d' E' d (HI d d1 E)).
Qed.

Lemma acts_silent {A} live (m : io A) P : silent m P → acts live m (λ a d d', d' = d ∧ P a).
Proof.
  intros Hm. eapply yields_mono; [by apply yields_silent|]. by intros a o [-> HP] d d' [= <-].
Qed.

Lemma acts_emit live x Q : (∀ d d', disk_step live d x = Some d' → Q () d d') → acts live (emit x) Q.
Proof. intros H. apply yields_emit. intros d d' E. apply H. unfold disk_run in E. cbn in E. exact E. Qed.

(** Writing a buffer: a prefix of it reaches the file, all of it on success. *)
Lemma rflog_write_loop fd buf :
  yields (loop (rflog_write_round fd) buf) (λ ok o, Forall (is_write fd) o ∧
    ∃ b, buf = written fd o ++ b ∧ (ok = true → b = [])).
Proof.
  apply (yields_loop _ (λ rest o, Forall (is_write fd) o ∧ buf = written fd o ++ rest)); [done|].
  intros rest o [F Hb]. unfold rflog_write_round. destruct (Z.eqb_spec (len rest) 0) as [E|E].
  { apply yields_ret. rewrite app_nil_r. split; [done|]. exists rest. split; [done|]. by destruct rest. }
  intros w. apply wp_bind, wp_write.
  - intros e w' [Ho Hs]. assert (extends w w' []) as He by (unfold extends; by rewrite app_nil_r).
    destruct e; apply wp_ret; exists []; rewrite app_nil_r; split_and!; try done; try lia; by exists rest.
  - intros c e w' -> Ho Hs. apply wp_ret. exists [Wrote fd c]. split; [done|]. split; [lia|].
    rewrite drop_app_length. split; [apply Forall_app; split; [done|]; apply Forall_singleton; by exists c|].
    rewrite written_app, Hb, <-app_assoc. cbn. by rewrite Z.eqb_refl, app_nil_r.
Qed.

Lemma acts_write_loop live fd buf :
  acts live (loop (rflog_write_round fd) buf) (λ ok d d', fd ≠ live → ∃ a b, buf = a ++ b ∧
    d' = Disk (dk_live d) (dk_prev d ++ a) ∧ (ok = true → b = [])).
Proof.
  eapply yields_mono; [apply rflog_write_loop|]. intros ok o (F & b & Hb & Hok) d d' E Hfd. revert E.
  rewrite (disk_run_writes _ fd), (proj2 (Z.eqb_neq _ _)) by done. intros [= <-]. by exists (written fd o), b.
Qed.

(** Reading answers what the file holds at the offset, an empty chunk only at its end. *)
Lemma acts_pread live off max :
  acts live (sys_pread live off max) (λ r d d', d' = d ∧ match r with
    | RdData bs => let rest := drop (Z.to_nat off) (dk_live d) in take (length bs) rest = bs ∧ (bs = [] → rest = [])
    | RdErr _ => True end).
Proof.
  unfold sys_pread. eapply (acts_bind _ _ _ (λ _ d d', d' = d)).
  { eapply acts_mono; [apply (acts_silent _ _ (λ _, True))|by intros a d d' [-> _]].
    intros w. apply wp_read. intros r w' [Ho Hs] _. split; [done|]. split; [lia|done]. }
  intros [bs|e]; [|by apply acts_ret; intros d d0 ->].
  eapply acts_bind; [apply (acts_emit _ _ (λ _ d d', disk_step live d (ReadAt live off bs) = Some d')); auto|].
  intros []. apply acts_ret. intros d d1 E d0 ->. cbn [disk_step] in E.
  case_bool_decide as H; [|done]. injection E as <-. by destruct H as (_ & H).
Qed.

(** Copying from the start appends what was read: the first [off] bytes after each round,
    the whole file when the end was reached. *)
Definition copied (ok : bool) (d d' : disk) : Prop :=
  dk_live d' = dk_live d ∧ ∃ a b, dk_live d = a ++ b ∧ dk_prev d' = dk_prev d ++ a ∧ (ok = true → b = []).

(** The files after the round that starts at [off]: [d] is how they were before all. *)
Definition copying (live pfd off : Z) (d d' : disk) : Prop :=
  pfd ≠ live → 0 ≤ off ∧ dk_live d' = dk_live d ∧ dk_prev d' = dk_prev d ++ take (Z.to_nat off) (dk_live d).

Lemma rflog_copy_round_acts live pfd off :
  acts live (rflog_copy_round live pfd off) (λ x d1 d', ∀ d, copying live pfd off d d1 →
    match x with
    | inl off' => copying live pfd off' d d'
    | inr ok => pfd ≠ live → copied ok d d'
    end).
Proof.
  unfold rflog_copy_round. eapply acts_bind; [apply acts_pread|].
  assert (∀ d1 d : disk, copying live pfd off d d1 → pfd ≠ live → copied false d d1) as Hfail.
  { intros d1 d H Hfd. destruct (H Hfd) as (_ & E1 & E2). split; [done|].
    exists (take (Z.to_nat off) (dk_live d)), (drop (Z.to_nat off) (dk_live d)). by rewrite take_drop. }
  intros [[|c chunk]|[]].
  - apply acts_ret. intros d1 d0 [-> (_ & Hend)] d H Hfd. destruct (H Hfd) as (_ & E1 & E2).
    specialize (Hend eq_refl). split; [done|]. exists (dk_live d), []. rewrite app_nil_r. split_and!; [done| |done].
    rewrite E2, E1 in *. f_equal. rewrite <-(take_drop (Z.to_nat off) (dk_live d)) at 2. by rewrite Hend, app_nil_r.
  - eapply acts_bind; [by apply acts_write_loop|]. intros ok. apply acts_ret.
    intros d2 d1 Hw d0 [-> (Hread & _)] d H.
    assert (pfd ≠ live → if ok then copying live pfd (off + len (c :: chunk)) d d2 else copied false d d2) as Hd.
    { intros Hfd. destruct (H Hfd) as (Hoff & E1 & E2). destruct (Hw Hfd) as (a & b & Hb & -> & Hok).
      rewrite E1 in Hread. destruct ok.
      - rewrite (Hok eq_refl), app_nil_r in Hb. subst a. intros _. split; [lia|]. split; [done|]. cbn [dk_prev].
        rewrite E2, <-app_assoc. f_equal. rewrite Z2Nat.inj_add, Nat2Z.id by lia.
        by rewrite <-take_take_drop, Hread.
      - split; [done|]. exists (take (Z.to_nat off) (dk_live d) ++ a),
          (b ++ drop (length (c :: chunk)) (drop (Z.to_nat off) (dk_live d))).
        cbn [dk_prev]. rewrite E2, !app_assoc. split_and!; [|done|done]. rewrite <-(app_assoc _ a b), <-Hb.
        rewrite <-Hread at 1. by rewrite <-app_assoc, !take_drop. }
    destruct ok; [|exact Hd]. intros Hfd. by apply Hd.
  - apply acts_ret. by intros d1 d0 [-> _] d H.
  - apply acts_ret. intros d1 d0 [-> _] d H. by apply Hfail.
  - apply acts_ret. intros d1 d0 [-> _] d H. by apply Hfail.
Qed.

(** What a roll makes of the two files: nothing (the limit is not reached, or <path>.1
    cannot be opened); a copy that failed, which leaves a part of the live file in the
    place of the previous segment; a copy without the truncation; or all of it. *)
Inductive rolled (d : disk) : disk → Prop :=
  | roll_none : rolled d d
  | roll_failed a b : dk_live d = a ++ b → rolled d (Disk (dk_live d) a)
  | roll_copied : rolled d (Disk (dk_live d) (dk_live d))
  | roll_done : rolled d (Disk [] (dk_live d)).

Lemma acts_open_trunc live :
  acts live sys_open_trunc (λ r d d', match r with
    | Some fd => fd ≠ live ∧ d' = Disk (dk_live d) []
    | None => d' = d end).
Proof.
  unfold sys_open_trunc. eapply (acts_bind _ _ _ (λ r d d', d' = d ∧ ∀ fd, r = Some fd → fd ≠ live)).
  { unfold sys_socket. eapply (acts_bind _ _ _ (λ _ d d', d' = d)).
    { eapply acts_mono; [apply (acts_silent _ _ (λ _, True))|by intros a d d' [-> _]].
      intros w. apply wp_ask; [auto with askable|]. intros a w' [Ho Hs]. split; [done|]. split; [lia|done]. }
    intros [fd|]; [|by apply acts_ret; intros d d0 ->]. destruct (fd <? 0); [by apply acts_ret; intros d d0 ->|].
    eapply acts_bind; [apply (acts_emit _ _ (λ _ d d', disk_step live d (Opened fd) = Some d')); auto|].
    intros []. apply acts_ret. intros d d1 E d0 ->. cbn in E. destruct (Z.eqb_spec fd live); [done|].
    injection E as <-. split; [done|]. by intros fd' [= <-]. }
  intros [fd|]; [|apply acts_ret; by intros d d0 [-> _]].
  eapply acts_bind; [apply (acts_emit _ _ (λ _ d d', disk_step live d (Truncated fd) = Some d')); auto|].
  intros []. apply acts_ret. intros d d1 E d0 [-> Hfd]. specialize (Hfd fd eq_refl). split; [done|].
  cbn in E. rewrite (proj2 (Z.eqb_neq _ _)) in E by done. by injection E as <-.
Qed.

Lemma rflog_copy_acts st :
  acts (rf_fd st) (rflog_copy_to_previous st) (λ ok d d',
    if (ok : bool) then d' = Disk (dk_live d) (dk_live d)
    else d' = d ∨ ∃ a b, dk_live d = a ++ b ∧ d' = Disk (dk_live d) a).
Proof.
  unfold rflog_copy_to_previous. eapply acts_bind; [apply acts_open_trunc|].
  intros [pfd|]; [|apply acts_ret; auto].
  eapply (acts_bind _ _ _ (λ ok d d', pfd ≠ rf_fd st → copied ok d d')).
  { apply (acts_loop _ _ (copying (rf_fd st) pfd)); [|apply rflog_copy_round_acts].
    intros d _. split; [done|]. by rewrite app_nil_r. }
  intros ok. eapply acts_bind; [apply (acts_emit _ _ (λ _ d d', d' = d)); by intros d d' [= <-]|].
  intros []. apply acts_ret. intros d3 d2 -> d1 H d [Hfd ->].
  destruct (H Hfd) as (El & a & b & Ea & Ep & Hok). cbn [dk_live dk_prev app] in *. destruct d2 as [l p]. cbn in *.
  subst l p. destruct ok.
  - by rewrite (Hok eq_refl), app_nil_r in Ea; subst a.
  - right. by exists a, b.
Qed.

Lemma rflog_roll_acts st n :
  acts (rf_fd st) (rflog_roll st n) (λ _ d d', rolled d d').
Proof.
  unfold rflog_roll. eapply acts_bind; [apply (acts_silent _ _ (λ _, True))|].
  { intros w. unfold sys_fstat. apply wp_ask; [auto with askable|]. intros a w' [Ho Hs]. split; [done|]. split; [lia|done]. }
  intros [size|]; [|apply acts_ret; intros d d0 [-> _]; constructor].
  destruct (_ <? _); [|apply acts_ret; intros d d0 [-> _]; constructor].
  eapply acts_bind; [apply rflog_copy_acts|]. intros [].
  - eapply (acts_bind _ _ _ (λ _ d d', d' = d ∨ d' = Disk [] (dk_prev d))).
    { unfold sys_ftruncate. eapply acts_bind; [apply (acts_silent _ _ (λ _, True))|].
      { intros w. apply wp_ask; [auto with askable|]. intros a w' [Ho Hs]. split; [done|]. split; [lia|done]. }
      intros []; [|apply acts_ret; intros d d0 [-> _]; by left].
      eapply acts_bind; [apply (acts_emit _ _ (λ _ d d', d' = Disk [] (dk_prev d)))|].
      { intros d d'. cbn. rewrite Z.eqb_refl. by intros [= <-]. }
      intros []. apply acts_ret. intros d d1 -> d0 [-> _]. by right. }
    intros r. apply acts_ret. intros d3 d2 H d1 -> d [-> _]. cbn [dk_live dk_prev] in H.
    destruct H as [-> | ->]; constructor.
  - apply acts_ret. intros d2 d1 H d [-> _]. destruct H as [-> |(a & b & E & ->)]; [constructor|by eapply roll_failed].
Qed.

(** C40. What a line costs the log. Whatever the file system answers, as long as a
    [pread] returns what the live file holds at its offset and [open] a descriptor of
    its own, writing a line is a roll followed by a prefix of the line at the end of
    the live file, and nothing else changes the two files. A roll comes only when the
    line would take the live file over the limit. It empties the live file only after
    the previous segment received all of it, byte for byte; if anything fails before,
    the live file keeps every record it had. The records in <path>.1, however, are gone
    as soon as it is opened: after a copy that failed it holds a part of the live file,
    and nothing of the segment that was there. *)
Theorem rflog_keeps_records st line w :
  wp (rflog_write_line st line) (λ _ w', ∃ o, extends w w' o ∧ (rf_fd st < 0 → o = []) ∧
    ∀ d d', disk_run (rf_fd st) o d = Some d' →
      ∃ d1 a b, rolled d d1 ∧ line = a ++ b ∧ d' = Disk (dk_live d1 ++ a) (dk_prev d1) ∧
        (∀ size, head (w_stat w) = Some (Some size) → size + len line ≤ rf_max st → d1 = d)) w.
Proof.
  unfold rflog_write_line. destruct (Z.ltb_spec (rf_fd st) 0) as [Hfd|Hfd].
  { apply wp_ret. exists []. split; [apply extends_refl|]. split; [done|]. intros d d' [= <-].
    exists d, [], line. split; [constructor|]. rewrite app_nil_r. by destruct d. }
  assert (wp (rflog_roll st (len line)) (λ _ w', ∃ o, extends w w' o ∧ ∀ d d', disk_run (rf_fd st) o d = Some d' →
    rolled d d' ∧ (∀ size, head (w_stat w) = Some (Some size) → size + len line ≤ rf_max st → d' = d)) w) as Hroll.
  { destruct (w_stat w) as [|[size|] l] eqn:Es.
    - unfold rflog_roll. apply wp_bind. unfold wp, sys_fstat, ask. by rewrite Es.
    - destruct (Z.ltb_spec (rf_max st) (size + len line)) as [Hlt|Hge].
      + eapply wp_mono; [apply rflog_roll_acts|]. intros a w' (o & Eo & _ & H). exists o. split; [done|].
        intros d d' Hd. split; [by apply H|]. intros size' [= <-] ?. lia.
      + unfold rflog_roll. apply wp_bind. unfold wp at 1, sys_fstat, ask. rewrite Es.
        rewrite (proj2 (Z.ltb_ge _ _)) by done. apply wp_ret. exists []. split; [by unfold extends; rewrite app_nil_r|].
        intros d d' [= <-]. split; [constructor|done].
    - eapply wp_mono; [apply rflog_roll_acts|]. intros a w' (o & Eo & _ & H). exists o. split; [done|].
      intros d d' Hd. split; [by apply H|done]. }
  apply wp_bind. eapply wp_mono; [exact Hroll|]. intros [] w1 (o1 & E1 & H1).
  apply wp_bind. eapply wp_mono; [apply rflog_write_loop|].
  intros ok w2 (o2 & E2 & _ & F & b & Hb & _). apply wp_ret. exists (o1 ++ o2).
  split; [by eapply extends_trans|]. split; [lia|]. intros d d'. rewrite disk_run_app.
  destruct (disk_run (rf_fd st) o1 d) as [d1|] eqn:Ed; [|done]. cbn [mbind option_bind].
  rewrite (disk_run_writes _ (rf_fd st)), Z.eqb_refl by done. intros [= <-].
  destruct (H1 d d1 Ed) as [Hr Hs]. exists d1, (written (rf_fd st) o2), b. done.
Qed.

(** Two runs at the limit. The copy succeeds: the live file moves to <path>.1. The
    [pread] fails: the live file grows, and the previous segment is lost. *)
Definition roll_example (reads : list read_answer) : option disk :=
  match rflog_write_line (RflogState 3 [] 4) [65; 10]
          (World reads (replicate 9 (WrN 300)) [] [true] [Some 4] [] [] [] [] [Some 4] []) with
  | Some (_, w) => disk_run 3 (w_out w) (Disk [1; 2; 3; 10] [9; 10])
  | None => None
  end.

Example roll_done_example : roll_example [RdData [1; 2]; RdErr EINTR; RdData [3; 10]; RdData []] =
  Some (Disk [65; 10] [1; 2; 3; 10]).
Proof. by vm_compute. Qed.
Example failed_copy_loses_previous : roll_example [RdErr EOTHER] = Some (Disk [1; 2; 3; 10; 65; 10] []).
Proof. by vm_compute. Qed.
