(* ===== verification/Strto.v ===== *)
(** The conversions of the C library the configuration is read with: [strtol] with base
    0, [strtod], [strcasecmp].

    A conversion answers [None] when nothing was converted (the C functions then return
    0 and leave [end] at the text), otherwise the value, whether [errno] was set to
    ERANGE, and the text at [end]. *)
From S2P Require Import Prelude Tnc Printf.
From Stdlib Require Import SpecFloat.

(** ** Digits *)

(** The value of a digit of base 16; [None] for other characters. *)
Definition xdigit (c : Z) : option Z :=
  if isdigit c then Some (c - 48)
  else if (97 <=? c) && (c <=? 102) then Some (c - 87)
  else if (65 <=? c) && (c <=? 70) then Some (c - 55)
  else None.

Definition digit_of (base c : Z) : option Z :=
  match xdigit c with Some d => if d <? base then Some d else None | None => None end.

Definition is_digit_of (base c : Z) : bool :=
  match digit_of base c with Some _ => true | None => false end.

(** The number a text of digits stands for. *)
Definition digits_base (base : Z) (l : list Z) : Z :=
  foldl (λ acc c, base * acc + default 0 (digit_of base c)) 0 l.

(** An optional sign. *)
Definition sign_of (l : list Z) : bool * list Z :=
  match l with
  | c :: l' => if c =? 45 then (true, l') else if c =? 43 then (false, l') else (false, l)
  | [] => (false, [])
  end.

(** ** strtol, base 0 *)

(** The base the text chooses, and the text of the digits: [0x] only when a
    hexadecimal digit follows. *)
Definition strtol_base (l : list Z) : Z * list Z :=
  match l with
  | c :: l' =>
      if c =? 48 then
        match l' with
        | x :: d :: r =>
            if ((x =? 120) || (x =? 88)) && is_digit_of 16 d then (16, d :: r) else (8, l)
        | _ => (8, l)
        end
      else (10, l)
  | [] => (10, l)
  end.

Definition LONG_MIN : Z := - 2 ^ 63.
Definition LONG_MAX : Z := 2 ^ 63 - 1.

Definition strtol0 (l : list Z) : option (Z * bool * list Z) :=
  let '(_, l1) := span isspace l in
  let '(neg, l2) := sign_of l1 in
  let '(base, l3) := strtol_base l2 in
  let '(ds, rest) := span (is_digit_of base) l3 in
  match ds with
  | [] => None
  | _ =>
      let v := (if neg then Z.opp else id) (digits_base base ds) in
      if v <? LONG_MIN then Some (LONG_MIN, true, rest)
      else if LONG_MAX <? v then Some (LONG_MAX, true, rest)
      else Some (v, false, rest)
  end.

Example strtol0_examples :
  strtol0 (str " -12x") = Some (-12, false, str "x") ∧
  strtol0 (str "0x1F") = Some (31, false, []) ∧
  strtol0 (str "010") = Some (8, false, []) ∧
  strtol0 (str "09") = Some (0, false, str "9") ∧
  strtol0 (str "0xg") = Some (0, false, str "xg") ∧
  strtol0 (str "9223372036854775808") = Some (LONG_MAX, true, []) ∧
  strtol0 (str "-") = None.
Proof. by vm_compute. Qed.

(** ** strtod *)

Definition tolower (c : Z) : Z := if isupper c then c + 32 else c.

(** [strcasecmp(a, b) == 0] *)
Definition strcaseeq (a b : list Z) : bool := bool_decide (map tolower a = map tolower b).

(** [strncasecmp] with a prefix: the text after it. *)
Fixpoint strip_prefix_ci (p l : list Z) : option (list Z) :=
  match p, l with
  | [], _ => Some l
  | x :: p', y :: l' => if tolower y =? x then strip_prefix_ci p' l' else None
  | _ :: _, [] => None
  end.

(** [n * base^e], rounded to nearest. *)
Definition double_scale (n base e : Z) : double :=
  match n with
  | Zpos p =>
      if 0 <=? e then double_lit (p * Z.to_pos (base ^ e)) 1
      else double_lit p (Z.to_pos (base ^ (- e)))
  | _ => S754_zero false
  end.

(** The rounded value [x] is [n * base^e] itself. *)
Definition double_exact (x : double) (n base e : Z) : bool :=
  match x with
  | S754_finite _ m ex =>
      Z.pos m * 2 ^ (Z.max 0 ex) * base ^ (Z.max 0 (- e)) =?
      n * base ^ (Z.max 0 e) * 2 ^ (Z.max 0 (- ex))
  | S754_zero _ => n =? 0
  | _ => false
  end.

(** 2^-1022, the least positive normal number. *)
Definition DBL_MIN : double := S754_finite false (2 ^ 52) (-1074).

(** ERANGE: an infinite result, or a tiny one that is not exact. *)
Definition double_erange (x : double) (n base e : Z) : bool :=
  match x with
  | S754_infinity _ => true
  | _ => SFltb x DBL_MIN && negb (double_exact x n base e)
  end.

(** The exponent after a mantissa: its letter in lower case, an optional sign and at
    least one decimal digit, or else nothing is consumed. *)
Definition exponent_of (letter : Z) (l : list Z) : Z * list Z :=
  match l with
  | c :: l' =>
      if tolower c =? letter then
        let '(neg, l2) := sign_of l' in
        let '(ds, rest) := span isdigit l2 in
        match ds with
        | [] => (0, l)
        | _ => ((if neg then Z.opp else id) (digits_value ds), rest)
        end
      else (0, l)
  | [] => (0, l)
  end.

(** The digits before and after an optional point; at least one digit in all. *)
Definition mantissa_of (base : Z) (l : list Z) : option (list Z * list Z * list Z) :=
  let '(a, l1) := span (is_digit_of base) l in
  let '(b, rest) :=
    match l1 with
    | c :: l2 => if c =? 46 then span (is_digit_of base) l2 else ([], l1)
    | [] => ([], l1)
    end in
  match a, b with
  | [], [] => None
  | _, _ => Some (a, b, rest)
  end.

(** A number of base [base] whose exponent counts in [ebase]; a hexadecimal digit
    after the point is four binary places. *)
Definition number_of (base ebase places letter : Z) (l : list Z) :
    option (double * bool * list Z) :=
  '(a, b, rest) ← mantissa_of base l;
  let '(e, rest) := exponent_of letter rest in
  let n := digits_base base (a ++ b) in
  let e := e - places * len b in
  let x := double_scale n ebase e in
  Some (x, double_erange x n ebase e, rest).

Definition hex_number (l : list Z) : option (double * bool * list Z) :=
  match l with
  | z :: x :: l' =>
      if (z =? 48) && ((x =? 120) || (x =? 88)) then number_of 16 2 4 112 l' else None
  | _ => None
  end.

(** [nan], or [nan] and a parenthesised word. *)
Definition nan_rest (l : list Z) : list Z :=
  match l with
  | c :: l' =>
      if c =? 40 then
        match span (λ c, isalnum c || (c =? 95)) l' with
        | (_, c :: rest) => if c =? 41 then rest else l
        | _ => l
        end
      else l
  | [] => l
  end.

Definition special_number (l : list Z) : option (double * bool * list Z) :=
  match strip_prefix_ci (str "infinity") l with
  | Some rest => Some (S754_infinity false, false, rest)
  | None =>
      match strip_prefix_ci (str "inf") l with
      | Some rest => Some (S754_infinity false, false, rest)
      | None =>
          match strip_prefix_ci (str "nan") l with
          | Some rest => Some (S754_nan, false, nan_rest rest)
          | None => None
          end
      end
  end.

Definition strtod (l : list Z) : option (double * bool * list Z) :=
  let '(_, l1) := span isspace l in
  let '(neg, l2) := sign_of l1 in
  let signed r := let '(x, er, rest) := r in (if neg then double_neg x else x, er, rest) in
  match special_number l2 with
  | Some r => Some (signed r)
  | None =>
      match hex_number l2 with
      | Some r => Some (signed r)
      | None => signed <$> number_of 10 10 1 101 l2
      end
  end.

Example strtod_examples :
  strtod (str "433.775 ") = Some (double_lit 433775 1000, false, str " ") ∧
  strtod (str "-1.25e1e") = Some (double_neg (double_lit 125 10), false, str "e") ∧
  strtod (str "0x1.8p3") = Some (double_lit 12 1, false, []) ∧
  strtod (str "0xp1") = Some (S754_zero false, false, str "xp1") ∧
  strtod (str ".") = None ∧
  strtod (str "InfinitY") = Some (S754_infinity false, false, []) ∧
  strtod (str "1e400") = Some (S754_infinity false, true, []) ∧
  strtod (str "1e-400") = Some (S754_zero false, true, []) ∧
  strtod (str "nan(1") = Some (S754_nan, false, str "(1").
Proof. by vm_compute. Qed.

(** ** What [%d] prints, [strtol] reads back *)

(** No leading zero. *)
Lemma udigits_head fuel : ∀ z acc,
  0 < z < 10 ^ Z.of_nat fuel → ∃ d l, udigits fuel z acc = d :: l ∧ d ≠ 48.
Proof.
  induction fuel as [|fuel IH]; intros z acc Hz; [cbn in Hz; lia|]. cbn [udigits].
  pose proof (Z.div_mod z 10 ltac:(lia)). pose proof (Z.mod_pos_bound z 10 ltac:(lia)).
  destruct (Z.eqb_spec (z / 10) 0); [eexists _, _; split; [done|lia]|].
  apply IH. rewrite Nat2Z.inj_succ, Z.pow_succ_r in Hz by lia.
  split; [|apply Z.div_lt_upper_bound; lia]. assert (0 ≤ z / 10) by (apply Z.div_pos; lia). lia.
Qed.

Lemma fmt_nat_fuel z : 0 ≤ z → z < 10 ^ Z.of_nat (S (Z.to_nat (Z.log2 z))).
Proof.
  intros Hz. destruct (decide (z = 0)) as [->|]; [by vm_compute|].
  rewrite Nat2Z.inj_succ, Z2Nat.id by apply Z.log2_nonneg.
  apply Z.lt_le_trans with (2 ^ Z.succ (Z.log2 z)); [by apply Z.log2_spec; lia|].
  apply Z.pow_le_mono_l. lia.
Qed.

Lemma fmt_nat_head z : 0 < z → ∃ d l, fmt_nat z = d :: l ∧ d ≠ 48.
Proof. intros Hz. apply udigits_head. pose proof (fmt_nat_fuel z). lia. Qed.

Lemma isdigit_spec c : isdigit c = true → 48 ≤ c ≤ 57.
Proof. unfold isdigit. lia. Qed.

Lemma digit_of_10 c : isdigit c = true → digit_of 10 c = Some (c - 48).
Proof.
  intros H. unfold digit_of, xdigit. rewrite H. apply isdigit_spec in H. by zdecide.
Qed.

Lemma digits_base_10 l :
  Forall (λ c, isdigit c = true) l → digits_base 10 l = digits_value l.
Proof.
  unfold digits_base, digits_value. intros H.
  assert (∀ a, foldl (λ acc c, 10 * acc + default 0 (digit_of 10 c)) a l =
               foldl (λ acc d, 10 * acc + (d - 48)) a l) as E; [|apply E].
  induction H as [|c l Hc _ IH]; intros a; cbn [foldl]; [done|]. rewrite digit_of_10 by done. apply IH.
Qed.

(** The sign in front of a decimal number, and what [strtol] makes of the whole. *)
Definition clamp_long (v : Z) : Z * bool :=
  if v <? LONG_MIN then (LONG_MIN, true) else if LONG_MAX <? v then (LONG_MAX, true) else (v, false).

Lemma strtol_base_fmt_nat z r :
  0 ≤ z → (z = 0 → r = []) →
  ∃ b, strtol_base (fmt_nat z ++ r) = (b, fmt_nat z ++ r) ∧ (b = 10 ∨ z = 0 ∧ b = 8).
Proof.
  intros Hz Hr. destruct (decide (z = 0)) as [->|].
  - rewrite Hr by done. exists 8. split; [by vm_compute|by right].
  - destruct (fmt_nat_head z) as (d & l & E & Hd); [lia|]. rewrite E. cbn. exists 10.
    destruct (Z.eqb_spec d 48); [done|]. by split; [|left].
Qed.

Lemma strtol0_fmt_d v : strtol0 (fmt_d v) = Some (clamp_long v, []).
Proof.
  set (neg := v <? 0). set (n := Z.abs v).
  assert (fmt_d v = (if neg then str "-" else []) ++ fmt_nat n) as ->.
  { unfold fmt_d, neg, n. destruct (Z.ltb_spec v 0); [by rewrite Z.abs_neq by lia|].
    by rewrite Z.abs_eq by lia. }
  assert (0 ≤ n) as Hn by apply Z.abs_nonneg.
  destruct (strtol_base_fmt_nat n []) as (b & Eb & Hb); [done..|]. rewrite app_nil_r in Eb.
  pose proof (fmt_nat_digits n) as Hd.
  assert (∃ d l, fmt_nat n = d :: l ∧ isdigit d = true) as (d & l & E & Hd1).
  { destruct (decide (n = 0)) as [->|]; [by exists 48, []|].
    destruct (fmt_nat_head n) as (d & l & E & _); [lia|]. exists d, l. rewrite E in Hd |- *.
    by apply Forall_cons in Hd as [Hd _]. }
  apply isdigit_spec in Hd1 as Hd2.
  assert (sign_of (snd (span isspace ((if neg then str "-" else []) ++ fmt_nat n))) =
          (neg, fmt_nat n)) as Es.
  { rewrite E. destruct neg; cbn [app str]; [by vm_compute|].
    cbn. assert (isspace d = false) as -> by (unfold isspace; lia). cbn. by zdecide. }
  assert (span (is_digit_of b) (fmt_nat n) = (fmt_nat n, []) ∧ digits_base b (fmt_nat n) = n)
    as [Esp Ev].
  { destruct Hb as [->|[-> ->]]; [|by vm_compute]. split.
    - rewrite <-(app_nil_r (fmt_nat n)) at 1. apply span_app; [|done].
      eapply Forall_impl; [exact Hd|]. intros c Hc. unfold is_digit_of. by rewrite digit_of_10.
    - rewrite digits_base_10 by done. by apply fmt_nat_value. }
  unfold strtol0. destruct (span isspace _) as [? l1]. cbn [snd] in Es. rewrite Es, Eb, Esp, Ev, E.
  unfold clamp_long. assert ((if neg then Z.opp else id) n = v) as ->; [|by repeat case_match].
  unfold neg, n. destruct (Z.ltb_spec v 0); cbn; lia.
Qed.

Lemma fmt_d_chars v : Forall (λ c, isdigit c = true ∨ c = 45) (fmt_d v).
Proof.
  pose proof (λ z, Forall_impl _ (λ c, isdigit c = true ∨ c = 45) _ (fmt_nat_digits z)) as H.
  unfold fmt_d. destruct (v <? 0).
  - apply Forall_cons. split; [by right|]. apply H. auto.
  - apply H. auto.
Qed.
