(* ===== verification/Config.v ===== *)
(** The configuration file (config.c): [key=value] lines with their ranges.

    A function that fills fields of the configuration returns its code and the
    configuration after it; [copy_string] changes its destination even when it fails. *)
From S2P Require Import Prelude Tnc Printf Strto.
From Stdlib Require Import SpecFloat.

(** ** Assignment of one field *)

Definition config_eta (cfg : lhkt_config_t) : lhkt_config_t :=
  Config (kiss_host cfg) (kiss_port cfg) (bind_spec cfg) (bind_net cfg) (bind_prefix cfg)
    (data_socket cfg) (conf_socket cfg) (rx_only cfg) (verbose cfg) (rf_log cfg)
    (rf_log_path cfg) (stats_interval cfg) (tx_settle_ms cfg) (tx_return_ms cfg)
    (tx_busy_timeout_ms cfg) (tx_queue_len cfg) (tx_packet_ttl_ms cfg) (rx_freq cfg)
    (tx_freq cfg) (have_rx_freq cfg) (have_tx_freq cfg) (sf cfg) (bw cfg) (cr cfg) (crc cfg)
    (preamble cfg) (syncword cfg) (ldro cfg) (ldro_auto cfg) (power cfg).

(** The record with the field [proj] replaced. *)
Ltac with_field proj v cfg :=
  let t := eval unfold config_eta in (config_eta cfg) in
  let t := eval pattern (proj cfg) in t in
  match t with ?f _ => let r := eval cbv beta in (f v) in exact r end.

Definition set_kiss_host v cfg : lhkt_config_t := ltac:(with_field kiss_host v cfg).
Definition set_kiss_port v cfg : lhkt_config_t := ltac:(with_field kiss_port v cfg).
Definition set_data_socket v cfg : lhkt_config_t := ltac:(with_field data_socket v cfg).
Definition set_conf_socket v cfg : lhkt_config_t := ltac:(with_field conf_socket v cfg).
Definition set_rx_only v cfg : lhkt_config_t := ltac:(with_field rx_only v cfg).
Definition set_verbose v cfg : lhkt_config_t := ltac:(with_field verbose v cfg).
Definition set_rf_log v cfg : lhkt_config_t := ltac:(with_field rf_log v cfg).
Definition set_rf_log_path v cfg : lhkt_config_t := ltac:(with_field rf_log_path v cfg).
Definition set_stats_interval v cfg : lhkt_config_t := ltac:(with_field stats_interval v cfg).
Definition set_tx_settle_ms v cfg : lhkt_config_t := ltac:(with_field tx_settle_ms v cfg).
Definition set_tx_return_ms v cfg : lhkt_config_t := ltac:(with_field tx_return_ms v cfg).
Definition set_tx_busy_timeout_ms v cfg : lhkt_config_t :=
  ltac:(with_field tx_busy_timeout_ms v cfg).
Definition set_tx_queue_len v cfg : lhkt_config_t := ltac:(with_field tx_queue_len v cfg).
Definition set_tx_packet_ttl_ms v cfg : lhkt_config_t := ltac:(with_field tx_packet_ttl_ms v cfg).
Definition set_rx_freq v cfg : lhkt_config_t := ltac:(with_field rx_freq v cfg).
Definition set_tx_freq v cfg : lhkt_config_t := ltac:(with_field tx_freq v cfg).
Definition set_have_rx_freq v cfg : lhkt_config_t := ltac:(with_field have_rx_freq v cfg).
Definition set_have_tx_freq v cfg : lhkt_config_t := ltac:(with_field have_tx_freq v cfg).
Definition set_sf v cfg : lhkt_config_t := ltac:(with_field sf v cfg).
Definition set_bw v cfg : lhkt_config_t := ltac:(with_field bw v cfg).
Definition set_cr v cfg : lhkt_config_t := ltac:(with_field cr v cfg).
Definition set_crc v cfg : lhkt_config_t := ltac:(with_field crc v cfg).
Definition set_preamble v cfg : lhkt_config_t := ltac:(with_field preamble v cfg).
Definition set_syncword v cfg : lhkt_config_t := ltac:(with_field syncword v cfg).
Definition set_ldro v cfg : lhkt_config_t := ltac:(with_field ldro v cfg).
Definition set_ldro_auto v cfg : lhkt_config_t := ltac:(with_field ldro_auto v cfg).
Definition set_power v cfg : lhkt_config_t := ltac:(with_field power v cfg).

(** ** Values *)

(** Without leading blanks; a text of blanks only is empty now, otherwise the trailing
    blanks go. *)
Definition trim (s : list Z) : list Z := rstrip isspace (snd (span isspace s)).

(** The text in [dst] is cut to its size, and the code says so. *)
Definition copy_string (dst_size : Z) (src : list Z) : Z * list Z :=
  (if dst_size <=? len src then LHKT_ERR_NOSPACE else LHKT_OK,
   take (Z.to_nat (dst_size - 1)) src).

(** What [strtol] leaves in [value], [errno] and [end]. *)
Definition converted {A} (zero : A) (text : list Z) (r : option (A * bool * list Z)) :
    A * bool * list Z :=
  match r with Some r => r | None => (zero, false, text) end.

Definition parse_long_value (text : list Z) (min max : Z) : res Z :=
  if len text =? 0 then Err LHKT_ERR_FORMAT
  else
    let '(value, erange, rest) := converted 0 text (strtol0 text) in
    if erange then Err LHKT_ERR_FORMAT
    else if negb (len (trim rest) =? 0) then Err LHKT_ERR_FORMAT
    else if (value <? min) || (max <? value) then Err LHKT_ERR_FORMAT
    else Ok value.

Definition isfinite (x : double) : bool :=
  match x with S754_zero _ | S754_finite _ _ _ => true | _ => false end.

Definition parse_double_value (text : list Z) (min max : double) : res double :=
  if len text =? 0 then Err LHKT_ERR_FORMAT
  else
    let '(value, erange, rest) := converted (S754_zero false) text (strtod text) in
    if erange then Err LHKT_ERR_FORMAT
    else if negb (len (trim rest) =? 0) then Err LHKT_ERR_FORMAT
    else if negb (isfinite value) then Err LHKT_ERR_FORMAT
    else if double_lt value min || double_gt value max then Err LHKT_ERR_FORMAT
    else Ok value.

Definition parse_bool_value (text : list Z) : res Z :=
  if strcaseeq text (str "true") || strcaseeq text (str "yes") || strcaseeq text (str "on") then Ok 1
  else if strcaseeq text (str "false") || strcaseeq text (str "no") || strcaseeq text (str "off")
  then Ok 0
  else
    match parse_long_value text 0 1 with Ok value => Ok value | Err _ => Err LHKT_ERR_FORMAT end.

Definition FREQ_MIN : double := double_lit 1 1000.
Definition FREQ_MAX : double := double_lit 10000 1.

(** The frequency and whether there is one. *)
Definition parse_optional_freq (value : list Z) : res (double * Z) :=
  if len value =? 0 then Ok (S754_zero false, 0)
  else
    match parse_double_value value FREQ_MIN FREQ_MAX with
    | Ok parsed => Ok (parsed, 1)
    | Err _ => Err LHKT_ERR_FORMAT
    end.

(** ** One line *)

(** [if (ret == LHKT_OK) cfg->field = value; return ret;] *)
Definition assign {A} (r : res A) (set : A → lhkt_config_t → lhkt_config_t) (cfg : lhkt_config_t) :
    Z * lhkt_config_t :=
  match r with Ok v => (LHKT_OK, set v cfg) | Err e => (e, cfg) end.

(** [return copy_string(cfg->field, sizeof(cfg->field), value);] *)
Definition assign_string (dst_size : Z) (value : list Z)
    (set : list Z → lhkt_config_t → lhkt_config_t) (cfg : lhkt_config_t) : Z * lhkt_config_t :=
  let '(ret, text) := copy_string dst_size value in (ret, set text cfg).

Definition streq (a b : list Z) : bool := bool_decide (a = b).

Section config.
Variable inet_pton : list Z → option Z.

(** The key and the value, trimmed, after the tests on the line. *)
Definition config_set (cfg : lhkt_config_t) (key value : list Z) : Z * lhkt_config_t :=
  if streq key (str "kiss_host") then assign_string LHKT_HOST_MAX value set_kiss_host cfg
  else if streq key (str "bind") then
    assign (lhkt_bind_apply inet_pton cfg value) (λ cfg' _, cfg') cfg
  else if streq key (str "data_socket") then assign_string LHKT_PATH_MAX value set_data_socket cfg
  else if streq key (str "conf_socket") then assign_string LHKT_PATH_MAX value set_conf_socket cfg
  else if streq key (str "kiss_port") then assign (parse_long_value value 1 65535) set_kiss_port cfg
  else if streq key (str "rf_log") then assign (parse_bool_value value) set_rf_log cfg
  else if streq key (str "rf_log_path") then assign_string LHKT_PATH_MAX value set_rf_log_path cfg
  else if streq key (str "rx_only") then assign (parse_bool_value value) set_rx_only cfg
  else if streq key (str "verbose") then assign (parse_bool_value value) set_verbose cfg
  else if streq key (str "stats_interval") then
    assign (parse_long_value value 0 86400) set_stats_interval cfg
  else if streq key (str "tx_settle_ms") then
    assign (parse_long_value value 0 60000) set_tx_settle_ms cfg
  else if streq key (str "tx_return_ms") then
    assign (parse_long_value value 0 60000) set_tx_return_ms cfg
  else if streq key (str "tx_busy_timeout_ms") then
    assign (parse_long_value value 0 600000) set_tx_busy_timeout_ms cfg
  else if streq key (str "tx_queue_len") then
    assign (parse_long_value value 1 16) set_tx_queue_len cfg
  else if streq key (str "tx_packet_ttl_ms") then
    assign (parse_long_value value 1000 3600000) set_tx_packet_ttl_ms cfg
  else if streq key (str "rx_freq") then
    assign (parse_optional_freq value)
      (λ '(f, have) cfg, set_have_rx_freq have (set_rx_freq f cfg)) cfg
  else if streq key (str "tx_freq") then
    assign (parse_optional_freq value)
      (λ '(f, have) cfg, set_have_tx_freq have (set_tx_freq f cfg)) cfg
  else if streq key (str "sf") then assign (parse_long_value value 7 12) set_sf cfg
  else if streq key (str "bw") then
    assign (parse_double_value value (double_lit 1 1) (double_lit 1000 1)) set_bw cfg
  else if streq key (str "cr") then assign (parse_long_value value 5 8) set_cr cfg
  else if streq key (str "crc") then assign (parse_bool_value value) set_crc cfg
  else if streq key (str "preamble") then assign (parse_long_value value 1 65535) set_preamble cfg
  else if streq key (str "syncword") then assign (parse_long_value value 0 255) set_syncword cfg
  else if streq key (str "ldro") then
    if streq value (str "AUTO") || streq value (str "auto") then (LHKT_OK, set_ldro_auto 1 cfg)
    else assign (parse_bool_value value) (λ v cfg, set_ldro_auto 0 (set_ldro v cfg)) cfg
  else if streq key (str "power") then assign (parse_long_value value 0 20) set_power cfg
  else (LHKT_ERR_FORMAT, cfg).

Definition lhkt_config_parse_line (cfg : lhkt_config_t) (line : list Z) : Z * lhkt_config_t :=
  let line := match strchr 35 line with Some (before, _) => before | None => line end in
  let key := trim line in
  if len key =? 0 then (LHKT_OK, cfg)
  else
    match strchr 61 key with
    | None => (LHKT_ERR_FORMAT, cfg)
    | Some (key, value) =>
        let key := trim key in
        let value := trim value in
        if len key =? 0 then (LHKT_ERR_FORMAT, cfg) else config_set cfg key value
    end.

(** ** The file *)

(** [fgets]: at most [n] bytes, up to a newline or the end of the file; the rest of the
    file, and whether its end was met. *)
Fixpoint fgets (n : nat) (file : list Z) : list Z * list Z * bool :=
  match n with
  | O => ([], file, false)
  | S n =>
      match file with
      | [] => ([], [], true)
      | c :: file =>
          if c =? 10 then ([c], file, false)
          else let '(line, rest, eof) := fgets n file in (c :: line, rest, eof)
      end
  end.

(** One round of the loop per unit of fuel; every round reads a byte. *)
Fixpoint load_loop (fuel : nat) (cfg : lhkt_config_t) (file : list Z) : option (Z * lhkt_config_t) :=
  match fuel with
  | O => None
  | S fuel =>
      let '(bytes, rest, eof) := fgets (Z.to_nat (LHKT_TNC2_MAX_LINE - 1)) file in
      if len bytes =? 0 then Some (LHKT_OK, cfg)
      else
        let line := cstr bytes in
        if negb (bool_decide (10 ∈ line)) && negb eof then Some (LHKT_ERR_LONG, cfg)
        else
          let '(ret, cfg) := lhkt_config_parse_line cfg line in
          if negb (ret =? LHKT_OK) then Some (ret, cfg) else load_loop fuel cfg rest
  end.

(** [fopen] and reading: the bytes of the file at a path, [None] when it cannot be opened. *)
Variable fopen : list Z → option (list Z).

Definition lhkt_config_load_file (cfg : lhkt_config_t) (path : list Z) : Z * lhkt_config_t :=
  if len path =? 0 then (LHKT_ERR, cfg)
  else
    match fopen path with
    | None => (LHKT_ERR, cfg)
    | Some file => default (LHKT_ERR, cfg) (load_loop (S (length file)) cfg file)
    end.
End config.

(** ** Blanks and comments *)

Abbreviation blank l := (Forall (λ c, isspace c = true) l).
Abbreviation no_blank l := (Forall (λ c, isspace c = false) l).

Lemma blank_forallb l : blank l → forallb isspace l = true.
Proof. induction 1 as [|c l Hc _ IH]; cbn; [done|]. by rewrite Hc, IH. Qed.

Lemma span_blank a l : blank a → snd (span isspace (a ++ l)) = snd (span isspace l).
Proof.
  induction 1 as [|c a Hc _ IH]; cbn; [done|]. rewrite Hc.
  destruct (span isspace (a ++ l)) as [? r]. exact IH.
Qed.

Lemma span_keep c l : isspace c = false → snd (span isspace (c :: l)) = c :: l.
Proof. cbn. by intros ->. Qed.

Lemma rstrip_keep c l : isspace c = false → rstrip isspace (c :: l) = c :: rstrip isspace l.
Proof. cbn. intros Hc. rewrite Hc. by destruct (rstrip isspace l). Qed.

Lemma rstrip_app_keep a c l :
  isspace c = false → rstrip isspace (a ++ c :: l) = a ++ c :: rstrip isspace l.
Proof.
  intros Hc. induction a as [|x a IH]; cbn [app]; [by apply rstrip_keep|].
  cbn [rstrip]. rewrite IH. by destruct a.
Qed.

Lemma trim_blank_l a l : blank a → trim (a ++ l) = trim l.
Proof. intros Ha. unfold trim. by rewrite span_blank. Qed.

Lemma trim_rstrip l : trim (rstrip isspace l) = trim l.
Proof.
  destruct (rstrip_prefix isspace l) as (r & El & Hr). rewrite El at 2. clear El.
  set (s := rstrip isspace l). clearbody s. clear l. induction s as [|c s IH]; unfold trim in *; cbn.
  - assert (blank r) as Hb.
    { apply Forall_forall. intros c Hc. rewrite forallb_forall in Hr. apply Hr. by apply list_elem_of_In. }
    rewrite <-(app_nil_r r), span_blank by done. done.
  - destruct (isspace c) eqn:Hc.
    + destruct (span isspace s), (span isspace (s ++ r)). exact IH.
    + cbn [snd]. change (c :: s ++ r) with ((c :: s) ++ r). by rewrite rstrip_app_all.
Qed.

Lemma trim_blank_r l b : blank b → trim (l ++ b) = trim l.
Proof.
  intros Hb. rewrite <-(trim_rstrip (l ++ b)), rstrip_app_all by by apply blank_forallb. apply trim_rstrip.
Qed.

Lemma trim_no_blank l : no_blank l → trim l = l.
Proof.
  intros H. unfold trim. destruct l as [|c l]; [done|].
  rewrite span_keep by by apply Forall_cons in H as [? _]. by apply rstrip_id.
Qed.

(** A newline at the end is a blank like any other. *)
Lemma parse_line_newline inet_pton cfg line :
  lhkt_config_parse_line inet_pton cfg (line ++ [10]) = lhkt_config_parse_line inet_pton cfg line.
Proof.
  assert (blank [10]) as Hnl by by apply Forall_singleton.
  unfold lhkt_config_parse_line. destruct (strchr 35 line) as [[a b]|] eqn:E.
  - apply strchr_Some in E as [-> Ha]. by rewrite <-app_assoc, <-app_comm_cons, strchr_app.
  - apply strchr_None_inv in E. rewrite strchr_None.
    + by rewrite trim_blank_r.
    + rewrite elem_of_app, elem_of_cons, elem_of_nil. naive_solver.
Qed.

(** A comment: nothing, or a number sign and anything. *)
Definition comment (l : list Z) : Prop := l = [] ∨ ∃ l', l = 35 :: l'.

Lemma cut_comment l t :
  35 ∉ l → comment t →
  match strchr 35 (l ++ t) with Some (before, _) => before | None => l ++ t end = l.
Proof.
  intros Hl [->|[t' ->]]; [|by rewrite strchr_app]. rewrite app_nil_r. by rewrite strchr_None.
Qed.

(** Blanks around the key and the value and a comment after them do not matter. *)
Lemma parse_line_entry inet_pton cfg a key b value t :
  blank a → blank b → no_blank key → key ≠ [] → 35 ∉ key → 61 ∉ key → 35 ∉ value → comment t →
  lhkt_config_parse_line inet_pton cfg (a ++ key ++ b ++ 61 :: value ++ t) =
  config_set inet_pton cfg key (trim value).
Proof.
  intros Ha Hb Hk Hne Hk35 Hk61 Hv Ht.
  assert (∀ l c, blank l → isspace c = false → c ∉ l) as Hno.
  { intros l c Hl Hc Hin. rewrite Forall_forall in Hl. rewrite Hl in Hc; done. }
  unfold lhkt_config_parse_line.
  assert (a ++ key ++ b ++ 61 :: value ++ t = (a ++ key ++ b ++ 61 :: value) ++ t) as ->.
  { rewrite <-!app_assoc. by rewrite <-app_comm_cons. }
  rewrite cut_comment; [|rewrite !elem_of_app, elem_of_cons|done].
  2: { pose proof (Hno a 35 Ha eq_refl). pose proof (Hno b 35 Hb eq_refl). naive_solver. }
  rewrite trim_blank_l by done. destruct key as [|k key]; [done|].
  assert (trim ((k :: key) ++ b ++ 61 :: value) = ((k :: key) ++ b) ++ 61 :: rstrip isspace value) as ->.
  { unfold trim. cbn [app]. rewrite span_keep by by apply Forall_cons in Hk as [? _].
    change (k :: key ++ b ++ 61 :: value) with ((k :: key) ++ b ++ 61 :: value).
    rewrite app_assoc. by apply rstrip_app_keep. }
  rewrite strchr_app.
  2: { rewrite elem_of_app. pose proof (Hno b 61 Hb eq_refl). naive_solver. }
  rewrite trim_rstrip, trim_blank_r, trim_no_blank by done.
  by zdecide.
Qed.

(** ** Options with an integer *)

(** The options that are read as an integer with a range: the key, the least and the
    greatest value, and the assignment. *)
Definition int_options : list (list Z * (Z * Z) * (Z → lhkt_config_t → lhkt_config_t)) :=
  [(str "kiss_port", (1, 65535), set_kiss_port);
   (str "stats_interval", (0, 86400), set_stats_interval);
   (str "tx_settle_ms", (0, 60000), set_tx_settle_ms);
   (str "tx_return_ms", (0, 60000), set_tx_return_ms);
   (str "tx_busy_timeout_ms", (0, 600000), set_tx_busy_timeout_ms);
   (str "tx_queue_len", (1, 16), set_tx_queue_len);
   (str "tx_packet_ttl_ms", (1000, 3600000), set_tx_packet_ttl_ms);
   (str "sf", (7, 12), set_sf);
   (str "cr", (5, 8), set_cr);
   (str "preamble", (1, 65535), set_preamble);
   (str "syncword", (0, 255), set_syncword);
   (str "power", (0, 20), set_power)].

Lemma parse_long_fmt_d v lo hi :
  LONG_MIN ≤ lo → hi ≤ LONG_MAX →
  parse_long_value (fmt_d v) lo hi =
    if (lo <=? v) && (v <=? hi) then Ok v else Err LHKT_ERR_FORMAT.
Proof.
  intros Hlo Hhi. unfold parse_long_value. rewrite strtol0_fmt_d.
  assert (fmt_d v ≠ []) as Hne.
  { intros E. pose proof (strtol0_fmt_d v) as H. by rewrite E in H. }
  destruct (Z.eqb_spec (len (fmt_d v)) 0) as [E|_]; [by destruct (fmt_d v)|].
  cbn [converted]. unfold clamp_long.
  destruct (Z.ltb_spec v LONG_MIN), (Z.ltb_spec LONG_MAX v); cbn [negb trim span rstrip snd length];
    try by rewrite ?(proj2 (Z.leb_gt lo v)), ?(proj2 (Z.leb_gt v hi)), ?andb_false_r by lia.
  change (len (trim []) =? 0) with true. cbn [negb].
  destruct (Z.ltb_spec v lo), (Z.ltb_spec hi v), (Z.leb_spec lo v), (Z.leb_spec v hi);
    try lia; done.
Qed.

Lemma fmt_d_no_blank v : no_blank (fmt_d v).
Proof.
  eapply Forall_impl; [apply fmt_d_chars|]. intros c [Hc|Hc]; [apply isdigit_spec in Hc|];
    unfold isspace; lia.
Qed.

Lemma fmt_d_not_in c v : isdigit c = false → c ≠ 45 → c ∉ fmt_d v.
Proof.
  intros H1 H2 Hin. pose proof (fmt_d_chars v) as H. rewrite Forall_forall in H.
  destruct (H c Hin); congruence.
Qed.

(** What the lines need of the keys. *)
Definition key_ok (k : list Z) : bool :=
  forallb (λ c, negb (isspace c) && negb (c =? 35) && negb (c =? 61)) k && negb (len k =? 0).

Lemma key_ok_spec k : key_ok k = true → no_blank k ∧ k ≠ [] ∧ (35 ∉ k) ∧ (61 ∉ k).
Proof.
  unfold key_ok. rewrite andb_true_iff, forallb_forall. intros [H Hk].
  assert (∀ c, c ∈ k → isspace c = false ∧ c ≠ 35 ∧ c ≠ 61) as H'.
  { intros c Hc. apply list_elem_of_In, H in Hc. destruct (isspace c); cbn in Hc; [done|].
    revert Hc. by repeat zcase. }
  split_and!.
  - apply Forall_forall. intros c Hc. by apply H'.
  - by intros ->.
  - intros Hc. naive_solver.
  - intros Hc. naive_solver.
Qed.

(** Every row of the table is what [config_set] does with the key. *)
Lemma int_options_set inet_pton cfg k lo hi set value :
  (k, (lo, hi), set) ∈ int_options →
  config_set inet_pton cfg k value = assign (parse_long_value value lo hi) set cfg ∧
  key_ok k = true ∧ LONG_MIN ≤ lo ∧ hi ≤ LONG_MAX.
Proof.
  intros H. unfold int_options in H.
  repeat (apply elem_of_cons in H as [H|H];
    [injection H as -> -> -> ->; split_and!; [reflexivity|by vm_compute..]|]).
  by apply elem_of_nil in H.
Qed.

(** C36. A line that sets an integer option to a decimal number, with blanks around the
    key and the value and a comment behind, is accepted exactly if the number is in the
    range of the option, and then sets exactly this field. *)
Theorem config_int_option inet_pton cfg k lo hi set v a b c d t
    (Hopt : (k, (lo, hi), set) ∈ int_options)
    (Hblank : blank a ∧ blank b ∧ blank c ∧ blank d) (Ht : comment t) :
  lhkt_config_parse_line inet_pton cfg
      (a ++ k ++ b ++ str "=" ++ (c ++ fmt_d v ++ d) ++ t) =
    if (lo <=? v) && (v <=? hi) then (LHKT_OK, set v cfg) else (LHKT_ERR_FORMAT, cfg).
Proof.
  destruct Hblank as (Ha & Hb & Hc & Hd).
  destruct (int_options_set inet_pton cfg k lo hi set (fmt_d v) Hopt) as (Hset & Hk & Hlo & Hhi).
  apply key_ok_spec in Hk as (Hk & Hne & H35 & H61).
  change (str "=" ++ (c ++ fmt_d v ++ d) ++ t) with (61 :: (c ++ fmt_d v ++ d) ++ t).
  rewrite parse_line_entry; try done.
  - rewrite trim_blank_l, trim_blank_r, trim_no_blank by first [done | apply fmt_d_no_blank].
    rewrite Hset, parse_long_fmt_d by done. by destruct (_ && _).
  - assert (∀ l, blank l → 35 ∉ l) as Hno.
    { intros l Hl Hin. rewrite Forall_forall in Hl. by apply Hl in Hin. }
    pose proof (fmt_d_not_in 35 v eq_refl ltac:(done)). rewrite !elem_of_app. naive_solver.
Qed.

Lemma config_int_option_witness :
  let cfg := lhkt_config_defaults (λ _, None) (λ _, false) in
  lhkt_config_parse_line (λ _, None) cfg (str " sf = 9  # slow") = (LHKT_OK, set_sf 9 cfg).
Proof.
  cbv zeta. set (cfg := lhkt_config_defaults (λ _, None) (λ _, false)).
  apply (config_int_option (λ _, None) cfg (str "sf") 7 12 set_sf 9 (str " ") (str " ") (str " ") (str "  ")
           (str "# slow")).
  - unfold int_options. rewrite !elem_of_cons. do 7 right. by left.
  - split_and!; apply (bool_decide_unpack _); by vm_compute.
  - right. by eexists.
Defined.

(** ** A file is its lines *)

(** The lines ended by a newline, and the text after the last of them. *)
Fixpoint split_lines (file : list Z) : list (list Z) * list Z :=
  match file with
  | [] => ([], [])
  | c :: file =>
      let '(ls, last) := split_lines file in
      if c =? 10 then ([] :: ls, last)
      else match ls with [] => ([], c :: last) | l :: ls => ((c :: l) :: ls, last) end
  end.

(** The lines in order up to the first failure. A line that does not fit the buffer with
    its newline, or that has a NUL byte before its newline, is one. *)
Fixpoint load_lines (inet_pton : list Z → option Z) (cfg : lhkt_config_t) (ls : list (list Z))
    (last : list Z) : Z * lhkt_config_t :=
  match ls with
  | [] =>
      if 511 <=? len last then (LHKT_ERR_LONG, cfg)
      else lhkt_config_parse_line inet_pton cfg (cstr last)
  | l :: ls =>
      if (511 <=? len l) || bool_decide (0 ∈ l) then (LHKT_ERR_LONG, cfg)
      else
        let '(ret, cfg) := lhkt_config_parse_line inet_pton cfg l in
        if ret =? LHKT_OK then load_lines inet_pton cfg ls last else (ret, cfg)
  end.

Lemma split_lines_nl l rest :
  10 ∉ l → split_lines (l ++ 10 :: rest) =
    let '(ls, last) := split_lines rest in (l :: ls, last).
Proof.
  induction l as [|c l IH]; intros Hl; cbn [app split_lines].
  - by destruct (split_lines rest).
  - rewrite elem_of_cons in Hl. rewrite IH by naive_solver. destruct (split_lines rest) as [ls last].
    destruct (Z.eqb_spec c 10); naive_solver.
Qed.

Lemma split_lines_last l : 10 ∉ l → split_lines l = ([], l).
Proof.
  induction l as [|c l IH]; intros Hl; cbn [split_lines]; [done|].
  rewrite elem_of_cons in Hl. rewrite IH by naive_solver. destruct (Z.eqb_spec c 10); naive_solver.
Qed.

(** A text with a newline, cut at the first one. *)
Lemma cut_line file : (10 ∉ file) ∨ ∃ l rest, file = l ++ 10 :: rest ∧ (10 ∉ l).
Proof.
  destruct (strchr 10 file) as [[l rest]|] eqn:E.
  - right. exists l, rest. by apply strchr_Some.
  - left. by apply strchr_None_inv.
Qed.

Lemma fgets_line n l rest :
  10 ∉ l → (length l < n)%nat → fgets n (l ++ 10 :: rest) = (l ++ [10], rest, false).
Proof.
  revert n. induction l as [|c l IH]; intros [|n] Hl Hn; cbn in Hn; try lia; cbn [app fgets]; [done|].
  rewrite elem_of_cons in Hl. destruct (Z.eqb_spec c 10); [naive_solver|].
  rewrite IH by first [naive_solver | lia]. done.
Qed.

Lemma fgets_full n file l rest :
  file = l ++ rest → 10 ∉ l → length l = n → fgets n file = (l, rest, false).
Proof.
  intros -> Hl <-. induction l as [|c l IH]; cbn [app fgets length]; [done|].
  rewrite elem_of_cons in Hl. destruct (Z.eqb_spec c 10); [naive_solver|]. by rewrite IH by naive_solver.
Qed.

Lemma fgets_last n file :
  10 ∉ file → (length file < n)%nat → fgets n file = (file, [], true).
Proof.
  revert n. induction file as [|c l IH]; intros [|n] Hl Hn; cbn in Hn; try lia; cbn [fgets]; [done|].
  rewrite elem_of_cons in Hl. destruct (Z.eqb_spec c 10); [naive_solver|].
  by rewrite IH by first [naive_solver | lia].
Qed.

Lemma cstr_incl c l : c ∈ cstr l → c ∈ l.
Proof.
  induction l as [|x l IH]; cbn; [done|]. destruct (x =? 0); [by intros ?%elem_of_nil|].
  rewrite !elem_of_cons. naive_solver.
Qed.

Lemma cstr_nul l r : 0 ∈ l → cstr (l ++ r) = cstr l.
Proof.
  induction l as [|x l IH]; [by intros ?%elem_of_nil|]. cbn. rewrite elem_of_cons.
  destruct (Z.eqb_spec x 0); [done|]. intros [?|?]; [congruence|]. by rewrite IH.
Qed.

Lemma no_nul_elem l : no_nul l ↔ 0 ∉ l.
Proof. unfold no_nul. rewrite Forall_forall. naive_solver. Qed.

(** A text that fills the buffer without a newline. *)
Lemma load_loop_long inet_pton fuel cfg l rest :
  10 ∉ l → 511 ≤ len l →
  load_loop inet_pton (S fuel) cfg (l ++ rest) = Some (LHKT_ERR_LONG, cfg).
Proof.
  intros Hl Hlen. cbn [load_loop]. change (Z.to_nat (LHKT_TNC2_MAX_LINE - 1)) with 511%nat.
  rewrite (fgets_full _ _ (take 511 l) (drop 511 l ++ rest)).
  - rewrite (proj2 (Z.eqb_neq _ _)) by (rewrite length_take; lia).
    rewrite bool_decide_false; [done|]. intros H%cstr_incl. destruct Hl.
    rewrite <-(take_drop 511 l), elem_of_app. by left.
  - by rewrite app_assoc, take_drop.
  - intros H. destruct Hl. rewrite <-(take_drop 511 l), elem_of_app. by left.
  - rewrite length_take. lia.
Qed.

Lemma load_loop_lines inet_pton fuel : ∀ cfg file,
  (length file < fuel)%nat →
  load_loop inet_pton fuel cfg file =
    let '(ls, last) := split_lines file in Some (load_lines inet_pton cfg ls last).
Proof.
  induction fuel as [|fuel IH]; intros cfg file Hf; [lia|].
  destruct (cut_line file) as [Hlast|(l & rest & -> & Hl)].
  - rewrite split_lines_last by done. cbn [load_lines]. destruct (Z.leb_spec 511 (len file)) as [H|H].
    { rewrite <-(app_nil_r file). by apply load_loop_long. }
    cbn [load_loop]. change (Z.to_nat (LHKT_TNC2_MAX_LINE - 1)) with 511%nat.
    rewrite fgets_last by first [done | lia].
    destruct (Z.eqb_spec (len file) 0) as [E|E]; [by destruct file|].
    rewrite andb_false_r. destruct (lhkt_config_parse_line _ _ _) as [ret cfg'].
    destruct (Z.eqb_spec ret LHKT_OK) as [->|]; cbn [negb]; [|done].
    destruct fuel; [destruct file; cbn in *; lia|]. done.
  - rewrite split_lines_nl by done. pose proof (λ cfg, IH cfg rest) as IH'.
    rewrite length_app, length_cons in Hf. destruct (split_lines rest) as [ls last].
    cbn [load_lines]. destruct (Z.leb_spec 511 (len l)) as [H|H]; cbn [orb].
    { by apply load_loop_long. }
    cbn [load_loop]. change (Z.to_nat (LHKT_TNC2_MAX_LINE - 1)) with 511%nat.
    rewrite fgets_line by first [done | lia].
    rewrite (proj2 (Z.eqb_neq _ _)) by (rewrite length_app; cbn; lia).
    rewrite andb_true_r. destruct (bool_decide_reflect (0 ∈ l)) as [Hnul|Hnul].
    { rewrite cstr_nul by done. rewrite bool_decide_false; [done|]. by intros ?%cstr_incl. }
    rewrite cstr_id by (apply Forall_app; split; [by apply no_nul_elem|by apply Forall_singleton]).
    rewrite bool_decide_true by (rewrite elem_of_app, elem_of_cons; naive_solver). cbn [negb].
    rewrite parse_line_newline. destruct (lhkt_config_parse_line _ _ _) as [ret cfg'].
    destruct (ret =? LHKT_OK); cbn [negb]; [|done]. rewrite IH' by lia. done.
Qed.

(** C35. Loading a file is parsing its lines in order: [fgets] with its buffer of 512
    bytes loses and joins nothing. The first refused line ends it with the code of the
    line and the configuration so far; a line of more than 510 bytes or with a NUL byte
    before its newline is refused as too long. The last line needs no newline. *)
Theorem config_load_lines inet_pton fopen cfg path :
  lhkt_config_load_file inet_pton fopen cfg path =
    match path, fopen path with
    | _ :: _, Some file => let '(ls, last) := split_lines file in load_lines inet_pton cfg ls last
    | _, _ => (LHKT_ERR, cfg)
    end.
Proof.
  unfold lhkt_config_load_file. destruct path as [|c path]; [done|]. cbn [length].
  rewrite (proj2 (Z.eqb_neq _ _)) by lia. destruct (fopen (c :: path)) as [file|]; [|done].
  rewrite load_loop_lines by lia. by destruct (split_lines file).
Qed.
