(* ===== verification/ConfigValid.v ===== *)
(** What every accepted configuration satisfies, and what follows for the CONF commands.

    [config_valid] is the contract between the readers of the configuration (Config,
    Cli) and its users: the ranges of the numbers, strings that fit their arrays. *)
From S2P Require Import Prelude Tnc Printf Double Strto Io SockIo LorahamConf Config.
From Stdlib Require Import SpecFloat.

(** ** The contract *)

(** A string in an array of [n] characters. *)
Definition c_string (n : Z) (s : list Z) : Prop := no_nul s ∧ len s < n.

Definition in_range (lo hi x : double) : Prop :=
  isfinite x = true ∧ double_lt x lo = false ∧ double_gt x hi = false ∧
  (∀ s m e, x = S754_finite s m e → Zpos m < 2 ^ 53).

(** A frequency that is not given is 0. *)
Definition freq_valid (have : Z) (f : double) : Prop :=
  have = 0 ∧ f = S754_zero false ∨ have = 1 ∧ in_range FREQ_MIN FREQ_MAX f.

Record config_valid (cfg : lhkt_config_t) : Prop := {
  v_kiss_host : c_string LHKT_HOST_MAX (kiss_host cfg);
  v_kiss_port : 1 ≤ kiss_port cfg ≤ 65535;
  v_bind_spec : c_string LHKT_HOST_MAX (bind_spec cfg);
  v_bind_net : is_u32 (bind_net cfg);
  v_bind_prefix : 0 ≤ bind_prefix cfg ≤ 32;
  v_data_socket : c_string LHKT_PATH_MAX (data_socket cfg);
  v_conf_socket : c_string LHKT_PATH_MAX (conf_socket cfg);
  v_rx_only : is_flag (rx_only cfg);
  v_verbose : is_flag (verbose cfg);
  v_rf_log : is_flag (rf_log cfg);
  v_rf_log_path : c_string LHKT_PATH_MAX (rf_log_path cfg);
  v_stats_interval : 0 ≤ stats_interval cfg ≤ 86400;
  v_tx_settle_ms : 0 ≤ tx_settle_ms cfg ≤ 60000;
  v_tx_return_ms : 0 ≤ tx_return_ms cfg ≤ 60000;
  v_tx_busy_timeout_ms : 0 ≤ tx_busy_timeout_ms cfg ≤ 600000;
  v_tx_queue_len : 1 ≤ tx_queue_len cfg ≤ 16;
  v_tx_packet_ttl_ms : 1000 ≤ tx_packet_ttl_ms cfg ≤ 3600000;
  v_rx_freq : freq_valid (have_rx_freq cfg) (rx_freq cfg);
  v_tx_freq : freq_valid (have_tx_freq cfg) (tx_freq cfg);
  v_sf : 7 ≤ sf cfg ≤ 12;
  v_bw : in_range (double_lit 1 1) (double_lit 1000 1) (bw cfg);
  v_cr : 5 ≤ cr cfg ≤ 8;
  v_crc : is_flag (crc cfg);
  v_preamble : 1 ≤ preamble cfg ≤ 65535;
  v_syncword : 0 ≤ syncword cfg ≤ 255;
  v_ldro : is_flag (ldro cfg);
  v_ldro_auto : is_flag (ldro_auto cfg);
  v_power : 0 ≤ power cfg ≤ 20;
}.

(** ** Values *)

Lemma double_scale_mantissa n base e s m ex :
  double_scale n base e = S754_finite s m ex → Zpos m < 2 ^ 53.
Proof. unfold double_scale. repeat case_match; try done; apply double_lit_mantissa. Qed.

(** A conversion whose mantissa has at most 53 bits. *)
Definition narrow (r : double * bool * list Z) : Prop :=
  ∀ s m e, r.1.1 = S754_finite s m e → Zpos m < 2 ^ 53.

Lemma number_of_narrow base ebase places letter l r :
  number_of base ebase places letter l = Some r → narrow r.
Proof.
  unfold number_of. destruct (mantissa_of base l) as [[[a b] rest]|]; [|done]. cbn.
  destruct (exponent_of letter rest) as [e rest']. intros [= <-] s m ex. apply double_scale_mantissa.
Qed.

Lemma hex_number_narrow l r : hex_number l = Some r → narrow r.
Proof. unfold hex_number. repeat case_match; try done. apply number_of_narrow. Qed.

Lemma special_number_narrow l r : special_number l = Some r → narrow r.
Proof. unfold special_number. repeat case_match; intros [= <-]; done. Qed.

Lemma strtod_narrow l r : strtod l = Some r → narrow r.
Proof.
  unfold strtod. destruct (span isspace l) as [? l1]. destruct (sign_of l1) as [neg l2].
  set (signed := λ r : double * bool * list Z, let '(x, er, rest) := r in
                 (if neg then double_neg x else x, er, rest)).
  assert (∀ r, narrow r → narrow (signed r)) as Hsigned.
  { intros [[x er] rest] Hr s m e. destruct neg; [|apply Hr]. cbn.
    destruct x as [| | |s' m' e']; try done. intros [= _ <- _]. by apply (Hr s' m' e'). }
  destruct (special_number l2) eqn:E1.
  { intros [= <-]. by eapply Hsigned, special_number_narrow. }
  destruct (hex_number l2) eqn:E2.
  { intros [= <-]. by eapply Hsigned, hex_number_narrow. }
  destruct (number_of 10 10 1 101 l2) eqn:E3; intros [= <-]. by eapply Hsigned, number_of_narrow.
Qed.

Lemma parse_double_Ok text lo hi x : parse_double_value text lo hi = Ok x → in_range lo hi x.
Proof.
  unfold parse_double_value. destruct (_ =? 0); [done|].
  destruct (strtod text) as [[[v er] rest]|] eqn:E; cbn [converted].
  - destruct er; [done|]. destruct (negb _); [done|]. destruct (isfinite v) eqn:Ef; [|done]. cbn [negb].
    destruct (double_lt v lo) eqn:E1; [done|]. destruct (double_gt v hi) eqn:E2; [done|].
    intros [= <-]. split_and!; try done. by apply (strtod_narrow _ _ E).
  - destruct (negb _); [done|]. cbn [isfinite negb].
    destruct (double_lt _ lo) eqn:E1; [done|]. destruct (double_gt _ hi) eqn:E2; [done|].
    intros [= <-]. by split_and!.
Qed.

Lemma parse_long_Ok text lo hi v : parse_long_value text lo hi = Ok v → lo ≤ v ≤ hi.
Proof.
  unfold parse_long_value. destruct (_ =? 0); [done|]. destruct (converted _ _ _) as [[v' er] rest].
  destruct er; [done|]. destruct (negb _); [done|].
  destruct (Z.ltb_spec v' lo), (Z.ltb_spec hi v'); try done. intros [= <-]. lia.
Qed.

Lemma parse_bool_Ok text v : parse_bool_value text = Ok v → is_flag v.
Proof.
  unfold parse_bool_value, is_flag. repeat case_match; intros [= <-]; auto.
  match goal with H : parse_long_value _ _ _ = _ |- _ => apply parse_long_Ok in H end. lia.
Qed.

Lemma parse_optional_freq_Ok text f have : parse_optional_freq text = Ok (f, have) → freq_valid have f.
Proof.
  unfold parse_optional_freq, freq_valid. destruct (_ =? 0); [intros [= <- <-]; by left|].
  destruct (parse_double_value _ _ _) eqn:E; [|done]. intros [= <- <-]. right. split; [done|].
  by apply parse_double_Ok in E.
Qed.

Lemma c_string_take n s : 0 < n → no_nul s → c_string n (take (Z.to_nat (n - 1)) s).
Proof. intros Hn Hs. split; [by apply Forall_take|]. rewrite length_take. lia. Qed.

(** ** Every reader keeps the contract *)

Lemma cidr_text_string net prefix :
  is_u32 net → 0 ≤ prefix ≤ 32 → c_string LHKT_HOST_MAX (cidr_text net prefix).
Proof.
  intros Hn Hp. unfold cidr_text. split.
  - apply printable_no_nul. solve_printable.
  - assert (∀ b, 0 ≤ b < 1000 → (length (fmt_u b) ≤ 3)%nat) as Hlen.
    { intros b Hb. etrans; [apply (udigits_length 20 3); cbn; lia|]. cbn. lia. }
    assert (∀ z, (length (fmt_u (Z.land z 0xFF)) ≤ 3)%nat) as Hbyte.
    { intros z. apply Hlen. change 0xFF with (Z.ones 8). rewrite Z.land_ones by lia.
      pose proof (Z.mod_pos_bound z (2 ^ 8)). lia. }
    rewrite !length_app. pose proof (Hlen prefix). pose proof (Hbyte (Z.shiftr net 24)).
    pose proof (Hbyte (Z.shiftr net 16)). pose proof (Hbyte (Z.shiftr net 8)). pose proof (Hbyte net).
    change (length (str ".")) with 1%nat. change (length (str "/")) with 1%nat. unfold LHKT_HOST_MAX. lia.
Qed.

Section valid.
Variable inet_pton : list Z → option Z.
Hypothesis inet_pton_u32 : ∀ s ip, inet_pton s = Some ip → is_u32 ip.

Lemma bind_apply_valid cfg arg cfg' :
  lhkt_bind_apply inet_pton cfg arg = Ok cfg' → config_valid cfg → config_valid cfg'.
Proof.
  unfold lhkt_bind_apply. destruct (_ =? 0); [done|]. destruct (_ <=? _); [done|]. rewrite bind_Ok.
  intros ([host prefix] & [Hp _]%bind_split_Ok & E) Hv.
  destruct (inet_pton host) as [ip|] eqn:Eip; [|done]. apply inet_pton_u32 in Eip.
  apply Ok_inj in E as <-. pose proof (bind_net_u32 ip prefix Eip Hp) as Hn.
  pose proof (cidr_text_string _ prefix Hn Hp) as Hs. destruct Hv.
  constructor; cbn [set_bind kiss_host kiss_port bind_spec bind_net bind_prefix]; try done.
  assert (c_string LHKT_HOST_MAX (str "127.0.0.1") ∧ c_string LHKT_HOST_MAX (str "0.0.0.0")) as [].
  { split; (split; [apply printable_no_nul; solve_printable_str|done]). }
  by case_match.
Qed.

Lemma c_string_copy n s : 0 < n → no_nul s → c_string n (copy_string n s).2.
Proof. apply c_string_take. Qed.

Lemma assign_valid {A} (r : res A) set cfg :
  (∀ v, r = Ok v → config_valid (set v cfg)) → config_valid cfg → config_valid (assign r set cfg).2.
Proof. destruct r as [v|e]; cbn; auto. Qed.

Lemma assign_string_valid n value set cfg :
  (c_string n (copy_string n value).2 → config_valid (set (copy_string n value).2 cfg)) →
  0 < n → no_nul value → config_valid (assign_string n value set cfg).2.
Proof. intros H Hn Hv. by apply H, c_string_copy. Qed.
End valid.

(** One branch of [config_set]: a field gets a value with its range. *)
Ltac solve_assign :=
  first
    [ apply assign_string_valid; [|done|done]
    | apply assign_valid; [|done] ];
  let H := fresh in
  intros ?; try intros H;
  try first
    [ apply parse_long_Ok in H | apply parse_bool_Ok in H | apply parse_double_Ok in H ];
  match goal with H : config_valid _ |- _ => destruct H end; by constructor.

Lemma config_set_valid inet_pton cfg key value :
  (∀ s ip, inet_pton s = Some ip → is_u32 ip) → no_nul value →
  config_valid cfg → config_valid (config_set inet_pton cfg key value).2.
Proof.
  intros Hpton Hval Hv. unfold config_set.
  repeat (match goal with |- config_valid (if ?b then _ else _).2 => destruct b end;
    [try by solve_assign|]); [..|done].
  - apply assign_valid; [|done]. intros cfg' E. by eapply bind_apply_valid.
  - apply assign_valid; [|done]. intros [f have] E%parse_optional_freq_Ok. destruct Hv. by constructor.
  - apply assign_valid; [|done]. intros [f have] E%parse_optional_freq_Ok. destruct Hv. by constructor.
  - destruct Hv. constructor; try done. by right.
  - apply assign_valid; [|done]. intros v E%parse_bool_Ok. destruct Hv. constructor; try done. by left.
Qed.

(** ** Lines and files *)

Lemma trim_Forall (P : Z → Prop) s : Forall P s → Forall P (trim s).
Proof.
  intros Hs. unfold trim. assert (Forall P (snd (span isspace s))) as H.
  { induction Hs as [|c s Hc Hs IH]; cbn; [done|]. destruct (isspace c); [|by constructor].
    destruct (span isspace s). exact IH. }
  destruct (rstrip_prefix isspace (snd (span isspace s))) as (r & E & _). rewrite E in H.
  by apply Forall_app in H as [H _].
Qed.

Lemma strchr_Forall (P : Z → Prop) c l a b : strchr c l = Some (a, b) → Forall P l → Forall P a ∧ Forall P b.
Proof. intros [-> _]%strchr_Some [Ha Hb]%Forall_app. by apply Forall_cons in Hb as [_ Hb]. Qed.

Section readers.
Context (inet_pton : list Z → option Z) (Hpton : ∀ s ip, inet_pton s = Some ip → is_u32 ip).

Lemma parse_line_valid cfg line :
  no_nul line → config_valid cfg → config_valid (lhkt_config_parse_line inet_pton cfg line).2.
Proof.
  intros Hl Hv. unfold lhkt_config_parse_line.
  assert (no_nul (match strchr 35 line with Some (before, _) => before | None => line end)) as Hcut.
  { destruct (strchr 35 line) as [[a b]|] eqn:E; [|done]. by apply (strchr_Forall _ _ _ _ _ E). }
  apply trim_Forall in Hcut. destruct (_ =? 0); [done|].
  destruct (strchr 61 _) as [[key value]|] eqn:E; [|done].
  destruct (_ =? 0); [done|]. apply config_set_valid; [done| |done].
  by apply trim_Forall, (strchr_Forall _ _ _ _ _ E).
Qed.

Lemma load_loop_valid fuel : ∀ cfg file r,
  load_loop inet_pton fuel cfg file = Some r → config_valid cfg → config_valid r.2.
Proof.
  induction fuel as [|fuel IH]; intros cfg file r E Hv; cbn [load_loop] in E; [done|].
  destruct (fgets _ file) as [[bytes rest] eof]. destruct (_ =? 0); [by injection E as <-|].
  destruct (negb _ && _); [by injection E as <-|].
  pose proof (parse_line_valid cfg (cstr bytes) (cstr_no_nul bytes) Hv) as Hp.
  destruct (lhkt_config_parse_line _ _ _) as [ret cfg']. cbn [snd] in Hp.
  destruct (negb _); [by injection E as <-|]. by eapply IH.
Qed.

Lemma load_file_valid fopen cfg path :
  config_valid cfg → config_valid (lhkt_config_load_file inet_pton fopen cfg path).2.
Proof.
  intros Hv. unfold lhkt_config_load_file. destruct (_ =? 0); [done|].
  destruct (fopen path) as [file|]; [|done].
  destruct (load_loop _ _ _ _) as [r|] eqn:E; [|done]. by eapply load_loop_valid.
Qed.

Lemma sockpath_string is_sock runp tmpp :
  c_string LHKT_PATH_MAX runp → c_string LHKT_PATH_MAX tmpp →
  c_string LHKT_PATH_MAX (loraham_sockpath is_sock runp tmpp).
Proof. unfold loraham_sockpath. by case_match. Qed.

Lemma in_range_lit lo hi n d m e :
  double_lit n d = S754_finite false m e →
  double_lt (double_lit n d) lo = false → double_gt (double_lit n d) hi = false →
  in_range lo hi (double_lit n d).
Proof.
  intros E H1 H2. rewrite E in *. split_and!; try done. intros s m' e' [= _ <- _].
  by apply (double_lit_mantissa n d false _ e).
Qed.

Lemma defaults_valid is_sock : config_valid (lhkt_config_defaults inet_pton is_sock).
Proof.
  unfold lhkt_config_defaults. set (cfg := Config _ _ _ _ _ _ _ _ _ _ _ _ _ _ _ _ _ _ _ _ _ _ _ _ _ _ _ _ _ _).
  assert (config_valid cfg) as Hv.
  { assert (∀ s, bool_decide (printable s) && (len s <? 64) = true → c_string 64 s) as Hs.
    { intros s [H1%bool_decide_eq_true H2%Z.ltb_lt]%andb_true_iff. split; [by apply printable_no_nul|done]. }
    assert (∀ s, bool_decide (printable s) && (len s <? 64) = true → c_string 256 s) as Hs'.
    { intros s [H1 H2]%Hs. split; [done|lia]. }
    unfold cfg. constructor; cbn -[double_lit]; unfold is_flag, freq_valid, is_u32; try lia.
    - by apply Hs.
    - by apply Hs.
    - apply sockpath_string; by apply Hs'.
    - apply sockpath_string; by apply Hs'.
    - by apply Hs'.
    - right. split; [done|]. by eapply in_range_lit.
    - right. split; [done|]. by eapply in_range_lit.
    - by eapply in_range_lit. }
  destruct (lhkt_bind_apply _ cfg _) eqn:E; [|done]. by eapply bind_apply_valid.
Qed.
End readers.

(** ** The commands of a valid configuration *)

(** A number in a range with a positive lower end is positive, and its value is at most
    the upper end. *)
Lemma in_range_pos lo hi x m0 e0 m1 e1 :
  lo = S754_finite false m0 e0 → hi = S754_finite false m1 e1 →
  e1 < 0 → 2 ^ 52 ≤ Zpos m1 → in_range lo hi x →
  ∃ m e, x = S754_finite false m e ∧ e < 0 ∧ Zpos m * 2 ^ (- e1) ≤ Zpos m1 * 2 ^ (- e).
Proof.
  intros -> -> He1 Hm1 (Hf & Hlo & Hhi & Hm). destruct x as [[]|[]| |[] m e]; try done.
  exists m, e. split; [done|]. specialize (Hm false m e eq_refl).
  unfold double_gt, SFltb in Hhi. cbn in Hhi. destruct (Z.compare_spec e1 e) as [E|E|E]; [|done|].
  - subst e. split; [done|]. rewrite Pos.compare_cont_spec in Hhi. cbn in Hhi.
    destruct (Pos.compare_spec m1 m); [|done|]; [by subst|].
    apply Z.mul_le_mono_nonneg_r; [by apply Z.pow_nonneg|lia].
  - split; [lia|]. replace (- e) with (- e1 + Z.succ (e1 - e - 1)) by lia.
    rewrite Z.pow_add_r, Z.pow_succ_r by lia.
    assert (0 < 2 ^ (- e1)) by (apply Z.pow_pos_nonneg; lia).
    assert (0 < 2 ^ (e1 - e - 1)) by (apply Z.pow_pos_nonneg; lia).
    set (P := 2 ^ (- e1)) in *. set (Q := 2 ^ (e1 - e - 1)) in *. clearbody P Q.
    assert (P ≤ P * Q) by nia. assert (Zpos m * P ≤ 2 * Zpos m1 * P) by nia. nia.
Qed.

Lemma round_half_even_le m e b :
  e < 0 → m ≤ b * 2 ^ (- e) → round_half_even m e ≤ b.
Proof.
  intros He Hm. unfold round_half_even. rewrite (proj2 (Z.leb_gt _ _)) by done.
  assert (0 < 2 ^ (- e)) as HD by (apply Z.pow_pos_nonneg; lia). set (D := 2 ^ (- e)) in *. clearbody D.
  pose proof (Z.div_mod m D ltac:(lia)). pose proof (Z.mod_pos_bound m D HD).
  destruct (decide (m / D = b)) as [E|].
  - rewrite E in *. rewrite (proj2 (Z.ltb_ge _ _)), (proj2 (Z.eqb_neq _ _)) by lia. done.
  - assert (m / D < b) by nia. case_match; lia.
Qed.

(** The text of a number in such a range is short. *)
Lemma fmt_f_in_range (p k : nat) lo hi x m0 e0 m1 e1 :
  lo = S754_finite false m0 e0 → hi = S754_finite false m1 e1 →
  e1 < 0 → 2 ^ 52 ≤ Zpos m1 → (0 < k)%nat →
  Zpos m1 * 10 ^ Z.of_nat p ≤ (10 ^ Z.of_nat k * 10 ^ Z.of_nat p - 1) * 2 ^ (- e1) →
  in_range lo hi x → (0 < p)%nat → (length (fmt_f p x) ≤ k + 1 + p)%nat.
Proof.
  intros Elo Ehi He1 Hm1 Hk Hb Hx Hp.
  destruct (in_range_pos lo hi x m0 e0 m1 e1) as (m & e & -> & He & Hle); [done..|].
  cbn [fmt_f app]. set (n := round_half_even _ e).
  assert (0 < 10 ^ Z.of_nat p) as Hpp by (apply Z.pow_pos_nonneg; lia).
  assert (n ≤ 10 ^ Z.of_nat k * 10 ^ Z.of_nat p - 1) as Hn.
  { apply round_half_even_le; [done|].
    assert (0 < 2 ^ (- e1)) by (apply Z.pow_pos_nonneg; lia).
    assert (0 < 2 ^ (- e)) by (apply Z.pow_pos_nonneg; lia).
    apply (Z.mul_le_mono_pos_r _ _ (2 ^ (- e1))); [done|].
    apply (Z.mul_le_mono_pos_r _ _ (10 ^ Z.of_nat p)) in Hle; [|done].
    apply (Z.mul_le_mono_pos_r _ _ (2 ^ (- e))) in Hb; [|done]. lia. }
  assert (0 ≤ n) as Hn0 by (apply round_half_even_nonneg; lia).
  rewrite !length_app, pad0_length.
  - change (length (str ".")) with 1%nat.
    assert (length (fmt_nat (n / 10 ^ Z.of_nat p)) ≤ k)%nat; [|lia]. apply fmt_nat_length; [done|].
    split; [apply Z.div_pos; lia|]. apply Z.div_lt_upper_bound; lia.
  - apply fmt_nat_length; [done|]. apply Z.mod_pos_bound. lia.
Qed.

Ltac solve_text H := apply H; try assumption; try lia; by vm_compute.

Lemma fmt_f_freq f : in_range FREQ_MIN FREQ_MAX f → (length (fmt_f 6 f) ≤ 12)%nat.
Proof. intros H. solve_text (fmt_f_in_range 6 5 FREQ_MIN FREQ_MAX f 4611686018427388 (-62) 5497558138880000 (-39)). Qed.

Lemma fmt_f_bw f : in_range (double_lit 1 1) (double_lit 1000 1) f → (length (fmt_f 3 f) ≤ 8)%nat.
Proof. intros H. solve_text (fmt_f_in_range 3 4 (double_lit 1 1) (double_lit 1000 1) f 4503599627370496 (-52) 8796093022208000 (-43)). Qed.

Lemma fmt_d_length k v : (0 < k)%nat → 0 ≤ v < 10 ^ Z.of_nat k → (length (fmt_d v) ≤ k)%nat.
Proof.
  intros Hk Hv. unfold fmt_d. rewrite (proj2 (Z.ltb_ge _ _)) by lia. by apply fmt_nat_length.
Qed.

Lemma fmt_02X_length v : 0 ≤ v ≤ 255 → (length (fmt_02X v) ≤ 2)%nat.
Proof.
  intros Hv. assert ((length (fmt_02X v) <=? 2)%nat = true) as H; [|by apply Nat.leb_le in H].
  apply (u8_forall (λ v, (length (fmt_02X v) <=? 2)%nat)); [by vm_compute|]. unfold is_u8. lia.
Qed.

(** The lengths of the literals in a goal. *)
Ltac literal_lengths :=
  repeat match goal with
  | |- context [ length (str ?s) ] =>
      let n := eval vm_compute in (length (str s)) in change (length (str s)) with n
  end.

Lemma ldro_value_length cfg : (length (loraham_ldro_value cfg) ≤ 4)%nat.
Proof.
  unfold loraham_ldro_value. destruct (negb _); [cbn; lia|].
  destruct (ldro cfg =? 0); vm_compute; lia.
Qed.

(** The longest command of a valid configuration. *)
Lemma config_line_short cfg freq :
  config_valid cfg → (∀ f, freq = Some f → in_range FREQ_MIN FREQ_MAX f) →
  len (loraham_config_line cfg freq) < 256.
Proof.
  intros [] Hfreq. unfold loraham_config_line.
  pose proof (fmt_d_length 2 (sf cfg)). pose proof (fmt_f_bw _ v_bw0).
  pose proof (fmt_d_length 1 (cr cfg)). pose proof (fmt_d_length 1 (crc cfg)).
  pose proof (fmt_d_length 5 (preamble cfg)). pose proof (fmt_02X_length (syncword cfg)).
  pose proof (fmt_d_length 2 (power cfg)). unfold is_flag in *.
  assert (length (match freq with Some f => str " FREQ=" ++ fmt_f 6 f | None => [] end) ≤ 18)%nat.
  { destruct freq as [f|]; [|cbn; lia]. pose proof (fmt_f_freq f (Hfreq f eq_refl)).
    rewrite length_app. cbn [length]. change (length (str " FREQ=")) with 6%nat. lia. }
  pose proof (ldro_value_length cfg).
  rewrite !length_app. literal_lengths. cbn [length]. lia.
Qed.

Lemma freq_positive f : in_range FREQ_MIN FREQ_MAX f → double_le0 f = false.
Proof.
  intros Hf. destruct (in_range_pos FREQ_MIN FREQ_MAX f
    4611686018427388 (-62) 5497558138880000 (-39)) as (m & e & -> & _); done.
Qed.

(** Sending a command is writing its line. *)
Lemma config_line_sends cfg conf_fd freq :
  config_valid cfg → 0 ≤ conf_fd → (∀ f, freq = Some f → in_range FREQ_MIN FREQ_MAX f) →
  loraham_send_config_line conf_fd cfg freq =
    (ret ← loraham_sock_write conf_fd (loraham_config_line cfg freq);
     mret (if ret <? 0 then LHKT_ERR else LHKT_OK)).
Proof.
  intros Hv Hfd Hf. unfold loraham_send_config_line. rewrite (proj2 (Z.ltb_ge _ _)) by done.
  cbv zeta. by rewrite (proj2 (Z.leb_gt _ _)) by by apply config_line_short.
Qed.

Lemma config_freq_sends cfg conf_fd f :
  config_valid cfg → 0 ≤ conf_fd → in_range FREQ_MIN FREQ_MAX f →
  loraham_send_config_freq conf_fd cfg f =
    (ret ← loraham_sock_write conf_fd (loraham_config_line cfg (Some f));
     mret (if ret <? 0 then LHKT_ERR else LHKT_OK)).
Proof.
  intros Hv Hfd Hf. unfold loraham_send_config_freq. rewrite freq_positive by done.
  apply config_line_sends; naive_solver.
Qed.

(** C38. A command that a valid configuration asks for is never refused: the line with any
    frequency of the configuration fits the buffer, and the frequency passes the test
    for a positive number, so sending it is writing the line to the socket, whole or
    with the error of the write. *)
Theorem valid_config_sends cfg conf_fd
    (Hv : config_valid cfg) (Hfd : 0 ≤ conf_fd) :
  let write line := ret ← loraham_sock_write conf_fd line; mret (if ret <? 0 then LHKT_ERR else LHKT_OK) in
  (have_rx_freq cfg = 1 →
    loraham_send_config conf_fd cfg = write (loraham_config_line cfg (Some (rx_freq cfg)))) ∧
  (have_rx_freq cfg = 0 → loraham_send_config conf_fd cfg = write (loraham_config_line cfg None)) ∧
  (have_tx_freq cfg = 1 →
    loraham_send_config_freq conf_fd cfg (tx_freq cfg) =
      write (loraham_config_line cfg (Some (tx_freq cfg)))).
Proof.
  cbv zeta. destruct (v_rx_freq cfg Hv) as [[Hr _]|[Hr Hrx]], (v_tx_freq cfg Hv) as [[Ht _]|[Ht Htx]];
    split_and!; intros ?; try congruence; unfold loraham_send_config; rewrite ?Hr; cbn [negb Z.eqb];
    first [by apply config_freq_sends | by apply config_line_sends].
Qed.

(** ** Frequencies *)

Abbreviation digits l := (Forall (λ c, isdigit c = true) l).

(** Digits, and after a point more digits if there are any. *)
Definition freq_text (a b : list Z) : list Z := a ++ match b with [] => [] | _ => 46 :: b end.

(** The number of Hertz of a frequency in MHz with up to six decimals. *)
Definition text_hz (a b : list Z) : Z := digits_value (a ++ b) * 10 ^ (6 - len b).

Lemma digits_is_digit_of l : digits l → Forall (λ c, is_digit_of 10 c = true) l.
Proof. intros H. eapply Forall_impl; [exact H|]. intros c Hc. unfold is_digit_of. by rewrite digit_of_10. Qed.

Lemma span_digits l : digits l → span (is_digit_of 10) l = (l, []).
Proof.
  intros H. rewrite <-(app_nil_r l) at 1. apply span_app; [|done]. by apply digits_is_digit_of.
Qed.

Lemma mantissa_freq_text a b :
  digits a → digits b → a ≠ [] → mantissa_of 10 (freq_text a b) = Some (a, b, []).
Proof.
  intros Ha Hb Hne. unfold mantissa_of, freq_text. destruct b as [|c b].
  - rewrite app_nil_r, span_digits by done. by destruct a.
  - rewrite span_app by first [by apply digits_is_digit_of | done]. cbn [Z.eqb Pos.eqb].
    rewrite span_digits by done. by destruct a.
Qed.

Lemma special_number_digit c l : isdigit c = true → special_number (c :: l) = None.
Proof.
  intros Hc. unfold special_number. apply isdigit_spec in Hc.
  assert (tolower c = c) as Et by (unfold tolower, isupper; by zdecide).
  change (str "infinity") with (105 :: str "nfinity"). change (str "inf") with (105 :: str "nf").
  change (str "nan") with (110 :: str "an"). cbn [strip_prefix_ci]. rewrite Et. by zdecide.
Qed.

Lemma hex_number_freq_text a b : digits a → digits b → a ≠ [] → hex_number (freq_text a b) = None.
Proof.
  intros Ha Hb Hne. unfold freq_text. destruct a as [|c [|x a]]; [done|..]; cbn [app hex_number].
  - destruct b; [done|]. by rewrite andb_false_r.
  - apply Forall_cons in Ha as [_ [Hx%isdigit_spec _]%Forall_cons].
    rewrite (proj2 (Z.eqb_neq x 120)), (proj2 (Z.eqb_neq x 88)) by lia. by rewrite andb_false_r.
Qed.

Lemma strtod_freq_text a b :
  digits a → digits b → a ≠ [] →
  let n := digits_value (a ++ b) in
  let x := double_scale n 10 (- len b) in
  strtod (freq_text a b) = Some (x, double_erange x n 10 (- len b), []).
Proof.
  intros Ha Hb Hne. pose proof (mantissa_freq_text a b Ha Hb Hne) as Em.
  pose proof (hex_number_freq_text a b Ha Hb Hne) as Eh. cbv zeta.
  assert (∃ c l, freq_text a b = c :: l ∧ isdigit c = true) as (c & l & E & Hc).
  { unfold freq_text. destruct a as [|c a]; [done|]. apply Forall_cons in Ha as [Hc _]. by eexists _, _. }
  unfold strtod. rewrite E in *. apply isdigit_spec in Hc as Hc'.
  assert (span isspace (c :: l) = ([], c :: l)) as ->.
  { cbn. assert (isspace c = false) as -> by (unfold isspace; lia). done. }
  assert (sign_of (c :: l) = (false, c :: l)) as -> by (cbn; by zdecide).
  rewrite special_number_digit, Eh by done. unfold number_of. rewrite Em. cbn [mbind option_bind].
  unfold mbind, option_bind. cbn [exponent_of fmap option_fmap option_map].
  rewrite digits_base_10 by by apply Forall_app.
  by replace (0 - 1 * len b) with (- len b) by lia.
Qed.

Lemma SFltb_pos m1 e1 m2 e2 :
  SFltb (S754_finite false m1 e1) (S754_finite false m2 e2) =
    match Z.compare e1 e2 with Lt => true | Gt => false | Eq => Zpos m1 <? Zpos m2 end.
Proof.
  unfold SFltb. cbn. change (Pos.compare_cont Eq m1 m2) with (Zpos m1 ?= Zpos m2). unfold Z.ltb.
  by repeat case_match.
Qed.

Lemma FREQ_MIN_eq : FREQ_MIN = S754_finite false 4611686018427388 (-62).
Proof. by vm_compute. Qed.

Lemma FREQ_MAX_eq : FREQ_MAX = S754_finite false 5497558138880000 (-39).
Proof. by vm_compute. Qed.

(** A double that is not an edge case of the range of frequencies. *)
Lemma double_lit_freq n d hz :
  Zpos n * 10 ^ 6 = hz * Zpos d → 1000 < hz < 10 ^ 10 →
  ∃ m e, double_lit n d = S754_finite false m e ∧ -62 ≤ e ∧ Zpos m < 2 ^ 53 ∧
    double_lt (double_lit n d) FREQ_MIN = false ∧ double_gt (double_lit n d) FREQ_MAX = false.
Proof.
  intros E Hhz.
  assert (1001 * Zpos d ≤ hz * Zpos d ≤ (10 ^ 10 - 1) * Zpos d) as Hq.
  { split; apply Z.mul_le_mono_pos_r; lia. }
  destruct (double_lit_close n d) as (m & e & -> & He & Hm & Hc); [lia..|].
  exists m, e. split; [done|].
  rewrite FREQ_MIN_eq, FREQ_MAX_eq.
  assert (∀ k, Zpos m < k → Zpos m * Zpos d < k * Zpos d) as Hlt by (intros; nia).
  assert (∀ k, k < Zpos m → (k + 1) * Zpos d ≤ Zpos m * Zpos d) as Hgt by (intros; nia).
  assert (-62 ≤ e ∧ (e = -62 → 4611686018427388 ≤ Zpos m)) as [H1 H2].
  { destruct (decide (e < -62)) as [H|H].
    - assert (2 ^ 63 ≤ 2 ^ (- e)) by (apply Z.pow_le_mono_r; lia).
      assert (Zpos n * 2 ^ 63 ≤ Zpos n * 2 ^ (- e)) by (by apply Z.mul_le_mono_pos_l).
      pose proof (Hlt (2 ^ 53)). lia.
    - split; [lia|]. intros ->. change (2 ^ (- -62)) with (2 ^ 62) in Hc.
      pose proof (Hlt 4611686018427388). lia. }
  assert (e ≤ -39 ∧ (e = -39 → Zpos m ≤ 5497558138880000)) as [H3 H4].
  { destruct (decide (-39 < e)) as [H|H].
    - assert (2 ^ (- e) ≤ 2 ^ 38) by (apply Z.pow_le_mono_r; lia).
      assert (Zpos n * 2 ^ (- e) ≤ Zpos n * 2 ^ 38) by (by apply Z.mul_le_mono_pos_l).
      pose proof (Hgt (2 ^ 52 - 1)). lia.
    - split; [lia|]. intros ->. change (2 ^ (- -39)) with (2 ^ 39) in Hc.
      pose proof (Hgt 5497558138880000). lia. }
  split; [done|]. split; [lia|]. unfold double_lt, double_gt. rewrite !SFltb_pos.
  split.
  - destruct (Z.compare_spec e (-62)) as [Ee|Ee|Ee]; [|lia|done]. by apply Z.ltb_ge, H2.
  - destruct (Z.compare_spec (-39) e) as [Ee|Ee|Ee]; [|lia|done]. symmetry in Ee. by apply Z.ltb_ge, H4.
Qed.

Lemma double_erange_freq n d hz v base e :
  Zpos n * 10 ^ 6 = hz * Zpos d → 1000 < hz < 10 ^ 10 → double_erange (double_lit n d) v base e = false.
Proof.
  intros E Hhz. destruct (double_lit_freq n d hz E Hhz) as (m & ex & -> & Hex & _).
  unfold double_erange, DBL_MIN. rewrite SFltb_pos.
  destruct (Z.compare_spec ex (-1074)); [lia..|done].
Qed.

(** The frequency between the bounds is accepted, and reads back to the Hertz. *)
Lemma parse_freq_text a b :
  digits a → digits b → a ≠ [] → (length b ≤ 6)%nat → 1000 < text_hz a b < 10 ^ 10 →
  ∃ f, parse_optional_freq (freq_text a b) = Ok (f, 1) ∧ freq_hz f = Some (text_hz a b) ∧
    in_range FREQ_MIN FREQ_MAX f.
Proof.
  intros Ha Hb Hne Hl Hhz. pose proof (strtod_freq_text a b Ha Hb Hne) as Es. cbv zeta in Es.
  unfold text_hz in *. assert (0 < 10 ^ (6 - len b)) as Hp by (apply Z.pow_pos_nonneg; lia).
  destruct (digits_value (a ++ b)) as [|n|n] eqn:En; [lia| |lia].
  assert (∃ d, double_scale (Zpos n) 10 (- len b) = double_lit n d ∧ Zpos d = 10 ^ len b) as (d & Ex & Ed).
  { unfold double_scale. rewrite Z.opp_involutive. destruct b as [|c b].
    - exists 1%positive. split; [|done]. cbn. by rewrite Pos.mul_1_r.
    - rewrite (proj2 (Z.leb_gt _ _)) by (cbn [length]; lia). eexists. split; [done|].
      apply Z2Pos.id, Z.pow_pos_nonneg; lia. }
  rewrite Ex in Es. set (hz := Zpos n * 10 ^ (6 - len b)) in *.
  assert (Zpos n * 10 ^ 6 = hz * Zpos d) as Ehz.
  { unfold hz. rewrite Ed, <-Z.mul_assoc, <-Z.pow_add_r by lia. do 2 f_equal. lia. }
  destruct (double_lit_freq n d hz Ehz Hhz) as (m & e & Ef & _ & Hm & Hlo & Hhi).
  destruct (double_lit_decimals 6 n d hz) as (m' & e' & Ef' & Er); [lia|done|lia|].
  rewrite Ef in Ef'. injection Ef' as <- <-.
  exists (double_lit n d). split; [|split].
  - unfold parse_optional_freq, parse_double_value. rewrite Es. cbn [converted].
    assert ((len (freq_text a b) =? 0) = false) as -> by (apply Z.eqb_neq; destruct a; [done|cbn; lia]).
    rewrite (double_erange_freq n d hz) by done. change (len (trim []) =? 0) with true. cbn [negb].
    rewrite Hlo, Hhi. by rewrite Ef.
  - rewrite Ef. cbn [freq_hz]. by rewrite Er.
  - rewrite Ef in *. split_and!; try done. by intros s m1 e1 [= _ <- _].
Qed.

(** A line of the file with [key] and the frequency. *)
Lemma freq_line inet_pton cfg key x y a b c d t :
  key_ok key = true → digits x → digits y → blank a → blank b → blank c → blank d → comment t →
  lhkt_config_parse_line inet_pton cfg (a ++ key ++ b ++ str "=" ++ (c ++ freq_text x y ++ d) ++ t) =
  config_set inet_pton cfg key (freq_text x y).
Proof.
  intros (Hk & Hkne & Hk35 & Hk61)%key_ok_spec Hx Hy Ha Hb Hc Hd Ht.
  assert (no_blank (freq_text x y) ∧ 35 ∉ freq_text x y) as [Hnb H35].
  { assert (Forall (λ c, isdigit c = true ∨ c = 46) (freq_text x y)) as H.
    { assert (∀ l, digits l → Forall (λ c, isdigit c = true ∨ c = 46) l) as Hd'
        by (intros l Hl; eapply Forall_impl; [exact Hl|]; auto).
      apply Forall_app. split; [by apply Hd'|]. destruct y; [done|]. apply Forall_cons. auto. }
    split; [eapply Forall_impl; [exact H|]; intros z [Hz%isdigit_spec|Hz]; unfold isspace; lia|].
    intros Hin. rewrite Forall_forall in H. by destruct (H 35 Hin). }
  change (str "=" ++ (c ++ freq_text x y ++ d) ++ t) with (61 :: (c ++ freq_text x y ++ d) ++ t).
  assert (35 ∉ c ++ freq_text x y ++ d) as Hno35.
  { assert (∀ l, blank l → 35 ∉ l) as Hno.
    { intros l Hl Hin. rewrite Forall_forall in Hl. by apply Hl in Hin. }
    rewrite !elem_of_app. naive_solver. }
  rewrite (parse_line_entry inet_pton cfg a key b) by done.
  rewrite trim_blank_l, trim_blank_r, trim_no_blank by done. reflexivity.
Qed.

Lemma set_freq_valid cfg f :
  config_valid cfg → in_range FREQ_MIN FREQ_MAX f →
  config_valid (set_have_rx_freq 1 (set_rx_freq f cfg)) ∧ config_valid (set_have_tx_freq 1 (set_tx_freq f cfg)).
Proof. intros Hv Hf. assert (freq_valid 1 f) as H by by right. split; destruct Hv; by constructor. Qed.

(** C37. A frequency of the configuration file reaches the radio to the Hertz. A decimal
    number of MHz with up to six decimals, strictly between 0.001 and 10000, is accepted
    for [rx_freq] and [tx_freq], with blanks and a comment as usual, and sets that
    frequency and its flag and nothing else. In the configuration that results, when
    the rest of it is valid, the initial command and the command for the RX frequency
    (for [rx_freq]), or the command for the TX frequency (for [tx_freq]), are each one
    line written to the CONF socket whose FREQ field, read as a number with six
    decimals, is that number of Hertz. *)
Theorem config_freq_exact inet_pton cfg x y a b c d t
    (Hx : digits x) (Hne : x ≠ []) (Hy : digits y) (Hlen : (length y ≤ 6)%nat)
    (Hhz : 1000 < text_hz x y < 10 ^ 10)
    (Hblank : blank a ∧ blank b ∧ blank c ∧ blank d) (Ht : comment t) :
  let line key := a ++ key ++ b ++ str "=" ++ (c ++ freq_text x y ++ d) ++ t in
  let tunes fd (m : io Z) := ∃ command, command_hz command = Some (text_hz x y) ∧
    m = (ret ← loraham_sock_write fd command; mret (if ret <? 0 then LHKT_ERR else LHKT_OK)) in
  ∃ f,
    (let cfg' := set_have_rx_freq 1 (set_rx_freq f cfg) in
     lhkt_config_parse_line inet_pton cfg (line (str "rx_freq")) = (LHKT_OK, cfg') ∧
     (config_valid cfg → ∀ fd, 0 ≤ fd →
        tunes fd (loraham_send_config fd cfg') ∧ tunes fd (loraham_send_config_freq fd cfg' (rx_freq cfg')))) ∧
    (let cfg' := set_have_tx_freq 1 (set_tx_freq f cfg) in
     lhkt_config_parse_line inet_pton cfg (line (str "tx_freq")) = (LHKT_OK, cfg') ∧
     (config_valid cfg → ∀ fd, 0 ≤ fd → tunes fd (loraham_send_config_freq fd cfg' (tx_freq cfg')))).
Proof.
  cbv zeta. destruct (parse_freq_text x y Hx Hy Hne Hlen Hhz) as (f & Hf & Hfhz & Hr).
  destruct Hblank as (Ha & Hb & Hc & Hd). exists f.
  assert (∀ cfg' fd, config_valid cfg' → 0 ≤ fd → ∃ command, command_hz command = Some (text_hz x y) ∧
    loraham_send_config_freq fd cfg' f =
      (ret ← loraham_sock_write fd command; mret (if ret <? 0 then LHKT_ERR else LHKT_OK))) as Hsend.
  { intros cfg' fd Hv Hfd. exists (loraham_config_line cfg' (Some f)).
    split; [by apply command_hz_line|by apply config_freq_sends]. }
  split; (split; [rewrite freq_line by done; unfold config_set; cbn [streq bool_decide]; by rewrite Hf|]);
    intros Hv fd Hfd; destruct (set_freq_valid cfg f Hv Hr) as [Hv1 Hv2].
  - by split; apply Hsend.
  - by apply Hsend.
Qed.

Lemma config_freq_exact_witness :
  let cfg := lhkt_config_defaults (λ _, None) (λ _, false) in
  ∃ f command, let cfg' := set_have_tx_freq 1 (set_tx_freq f cfg) in
    lhkt_config_parse_line (λ _, None) cfg (str "tx_freq=433.9") = (LHKT_OK, cfg') ∧
    command_hz command = Some 433900000 ∧
    loraham_send_config_freq 3 cfg' (tx_freq cfg') =
      (ret ← loraham_sock_write 3 command; mret (if ret <? 0 then LHKT_ERR else LHKT_OK)).
Proof.
  cbv zeta. set (cfg := lhkt_config_defaults (λ _, None) (λ _, false)).
  destruct (config_freq_exact (λ _, None) cfg (str "433") (str "9") [] [] [] [] [])
    as (f & _ & Hset & Hsend).
  - apply (bool_decide_unpack _). by vm_compute.
  - done.
  - apply (bool_decide_unpack _). by vm_compute.
  - cbn. lia.
  - by vm_compute.
  - by split_and!.
  - by left.
  - destruct (Hsend ltac:(by apply defaults_valid) 3 ltac:(lia)) as (command & Hc & E).
    exists f, command. split; [exact Hset|]. split; [exact Hc|exact E].
Defined.

Lemma valid_config_sends_witness :
  let cfg := lhkt_config_defaults (λ _, None) (λ _, false) in
  loraham_send_config 3 cfg =
    (ret ← loraham_sock_write 3 (loraham_config_line cfg (Some (rx_freq cfg)));
     mret (if ret <? 0 then LHKT_ERR else LHKT_OK)).
Proof.
  cbv zeta. set (cfg := lhkt_config_defaults (λ _, None) (λ _, false)).
  destruct (valid_config_sends cfg 3) as [H _].
  - by apply defaults_valid.
  - done.
  - by apply H.
Defined.
