(* ===== verification/Report.v ===== *)
(** What the program reports on its standard output: the counters
    (loraham_kiss_tnc.c: lhkt_stats_print) and the configuration in force
    (cli.c: lhkt_cli_print_config), as text; what a reader of the report gets back. *)
From S2P Require Import Prelude Tnc Printf Double Strto Io SockIo LorahamConf Config ConfigValid.
From Stdlib Require Import SpecFloat.

(** [%PRIu64] *)
Definition stat (name : list Z) (c : counter) (stats : lhkt_stats_t) : list Z :=
  name ++ [61] ++ fmt_nat (count stats c).

Definition lhkt_stats_print (stats : lhkt_stats_t) : list Z :=
  stat (str "[STAT] KISS rx") kiss_rx stats ++ stat (str " tx") kiss_tx stats ++ stat (str " drop") kiss_drop stats ++ [10] ++
  stat (str "[STAT] AX25 rx") ax25_rx stats ++ stat (str " tx") ax25_tx stats ++ stat (str " drop") ax25_drop stats ++ [10] ++
  stat (str "[STAT] TNC2 rx") tnc2_rx stats ++ stat (str " tx") tnc2_tx stats ++ stat (str " drop") tnc2_drop stats ++ [10] ++
  stat (str "[STAT] LoRaHAM rx") loraham_rx stats ++ stat (str " tx") loraham_tx stats ++
  stat (str " drop") loraham_drop stats ++ stat (str " framed_errors") loraham_framed_errors stats ++ [10] ++
  str "[STAT] CAD current_busy" ++ [61] ++ fmt_d (cad_current_busy stats) ++
  stat (str " busy_events") cad_busy_events stats ++ stat (str " idle_events") cad_idle_events stats ++ [10] ++
  stat (str "[STAT] TX oversize") tx_drop_oversize stats ++ stat (str " unconfirmed") tx_unconfirmed stats ++
  stat (str " restore_failures") tx_restore_failures stats ++ stat (str " reconnects") socket_reconnects stats ++
  stat (str " client_disconnects") client_disconnects stats ++ [10].

(** The line of the radio parameters. *)
Definition config_radio_line (cfg : lhkt_config_t) : list Z :=
  str "[CFG] sf=" ++ fmt_d (sf cfg) ++ str " bw=" ++ fmt_f 3 (bw cfg) ++ str " cr=" ++ fmt_d (cr cfg) ++
  str " crc=" ++ fmt_d (crc cfg) ++ str " preamble=" ++ fmt_d (preamble cfg) ++
  str " syncword=0x" ++ fmt_02X (syncword cfg) ++ str " ldro=" ++
  (if negb (ldro_auto cfg =? 0) then str "AUTO" else fmt_d (ldro cfg)) ++
  str " power=" ++ fmt_d (power cfg) ++ [10].

Definition config_freq_line (name : list Z) (have : Z) (freq : double) : list Z :=
  if negb (have =? 0) then str "[CFG] " ++ name ++ str "=" ++ fmt_f 6 freq ++ [10] else [].

(** The format has two blanks before [allow]. *)
Definition lhkt_cli_print_config (cfg : lhkt_config_t) : list Z :=
  str "[CFG] listen=" ++ kiss_host cfg ++ str ":" ++ fmt_d (kiss_port cfg) ++
    str "  allow=" ++ bind_spec cfg ++ [10] ++
  str "[CFG] data_socket=" ++ data_socket cfg ++ [10] ++
  str "[CFG] conf_socket=" ++ conf_socket cfg ++ [10] ++
  str "[CFG] rx_only=" ++ fmt_d (rx_only cfg) ++ [10] ++
  str "[CFG] rf_log=" ++ fmt_d (rf_log cfg) ++ str " path=" ++
    (if len (rf_log_path cfg) =? 0 then str "-" else rf_log_path cfg) ++ [10] ++
  str "[CFG] verbose=" ++ fmt_d (verbose cfg) ++ [10] ++
  str "[CFG] stats_interval=" ++ fmt_d (stats_interval cfg) ++ [10] ++
  str "[CFG] tx_settle_ms=" ++ fmt_d (tx_settle_ms cfg) ++ [10] ++
  str "[CFG] tx_return_ms=" ++ fmt_d (tx_return_ms cfg) ++ [10] ++
  str "[CFG] tx_busy_timeout_ms=" ++ fmt_d (tx_busy_timeout_ms cfg) ++ [10] ++
  str "[CFG] tx_queue_len=" ++ fmt_d (tx_queue_len cfg) ++ [10] ++
  str "[CFG] tx_packet_ttl_ms=" ++ fmt_d (tx_packet_ttl_ms cfg) ++ [10] ++
  config_freq_line (str "rx_freq") (have_rx_freq cfg) (rx_freq cfg) ++
  config_freq_line (str "tx_freq") (have_tx_freq cfg) (tx_freq cfg) ++
  config_radio_line cfg.

(** ** Reading a report

    The values behind the signs '=', up to the next blank or line end. *)
Fixpoint values_from (cur : option (list Z)) (l : list Z) : list (list Z) :=
  match l with
  | [] => option_list cur
  | c :: l =>
      match cur with
      | None => if c =? 61 then values_from (Some []) l else values_from None l
      | Some v => if (c =? 32) || (c =? 10) then v :: values_from None l else values_from (Some (v ++ [c])) l
      end
  end.
Definition values (l : list Z) : list (list Z) := values_from None l.

(** A value: no blank, no line end. *)
Definition token (l : list Z) : Prop := Forall (λ c, c ≠ 32 ∧ c ≠ 10) l.
#[export] Instance token_dec l : Decision (token l) := _.

Lemma values_name name l : 61 ∉ name → values (name ++ l) = values l.
Proof.
  unfold values. induction name as [|c name IH]; intros H; [done|]. apply not_elem_of_cons in H as [Hc H].
  cbn. rewrite (proj2 (Z.eqb_neq c 61)) by congruence. by apply IH.
Qed.

Lemma values_token v : ∀ acc l, token v → values_from (Some acc) (v ++ l) = values_from (Some (acc ++ v)) l.
Proof.
  induction v as [|c v IH]; intros acc l H; [by rewrite app_nil_r|]. apply Forall_cons in H as [[H1 H2] H].
  cbn. rewrite (proj2 (Z.eqb_neq c 32)), (proj2 (Z.eqb_neq c 10)) by done. cbn [orb].
  by rewrite IH, <-app_assoc.
Qed.

(** A text of fields: the names carry the blank or line end before them. *)
Fixpoint report (fs : list (list Z * list Z)) : list Z :=
  match fs with
  | [] => [10]
  | (name, v) :: fs => name ++ [61] ++ v ++ report fs
  end.

Definition starts_apart (l : list Z) : Prop :=
  match l with c :: _ => c = 32 ∨ c = 10 | [] => False end.
#[export] Instance starts_apart_dec l : Decision (starts_apart l).
Proof. destruct l; apply _. Defined.

Definition separate (names : list (list Z)) : Prop :=
  Forall (λ n, 61 ∉ n) names ∧ Forall starts_apart (tail names).
#[export] Instance separate_dec names : Decision (separate names) := _.

Lemma values_apart v l : starts_apart l → values_from (Some v) l = v :: values l.
Proof. destruct l as [|c l]; [done|]. cbn. by intros [-> | ->]. Qed.

Lemma report_apart fs : Forall starts_apart (map fst fs) → starts_apart (report fs).
Proof.
  destruct fs as [|[n v] fs]; cbn; [by right|]. intros [H _]%Forall_cons. cbn in H. by destruct n.
Qed.

Lemma values_report fs :
  separate (map fst fs) → Forall token (map snd fs) → values (report fs) = map snd fs.
Proof.
  induction fs as [|[n v] fs IH]; cbn [map fst snd report]; [done|].
  intros [[Hn Hns]%Forall_cons Ha] [Hv Hvs]%Forall_cons. cbn [tail] in Ha.
  rewrite values_name by done. unfold values. cbn [app values_from]. change (61 =? 61) with true. cbn iota.
  rewrite values_token, app_nil_l, values_apart by (done || by apply report_apart).
  f_equal. apply IH; [|done]. split; [done|]. by destruct fs; [|inversion Ha].
Qed.

(** ** The conversions are tokens *)

Lemma token_digits l : Forall (λ c, isdigit c = true ∨ c = 45) l → token l.
Proof.
  intros H. eapply Forall_impl; [exact H|]. intros c [Hc|Hc]; [apply isdigit_spec in Hc|]; lia.
Qed.

Lemma token_app a b : token a → token b → token (a ++ b).
Proof. intros. by apply Forall_app. Qed.

Lemma fmt_nat_token z : token (fmt_nat z).
Proof. apply token_digits. eapply Forall_impl; [apply fmt_nat_digits|]. by left. Qed.

Lemma fmt_d_token z : token (fmt_d z).
Proof. apply token_digits. eapply Forall_impl; [apply fmt_d_chars|]. done. Qed.

Lemma pad0_token n l : token l → token (pad0 n l).
Proof. intros. apply token_app; [|done]. apply Forall_replicate. lia. Qed.

Lemma xdigits_token fuel : ∀ z acc, token acc → token (xdigits fuel z acc).
Proof.
  induction fuel as [|fuel IH]; intros z acc Hacc; cbn; [done|].
  assert (token (hex_digit_upper (z mod 16) :: acc)).
  { apply Forall_cons. split; [|done]. unfold hex_digit_upper.
    pose proof (Z.mod_pos_bound z 16). zcase; lia. }
  case_match; [done|by apply IH].
Qed.

Lemma fmt_02X_token z : token (fmt_02X z).
Proof. apply pad0_token, xdigits_token. constructor. Qed.

Ltac solve_token_str := apply (bool_decide_unpack _); by vm_compute.

Lemma fmt_f_token prec x : token (fmt_f prec x).
Proof.
  assert (∀ s : bool, token (if s then str "-" else [])) as Hs.
  { intros []; [solve_token_str|constructor]. }
  destruct x as [s|s| |s m e]; cbn [fmt_f]; [|destruct s; solve_token_str|solve_token_str|];
    repeat (apply token_app; [first [done|apply fmt_nat_token|solve_token_str]|]).
  - apply Forall_replicate. lia.
  - apply pad0_token, fmt_nat_token.
Qed.

Lemma ldro_token cfg : token (loraham_ldro_value cfg).
Proof. unfold loraham_ldro_value. case_match; [solve_token_str|apply fmt_d_token]. Qed.

Create HintDb token.
#[export] Hint Resolve fmt_nat_token fmt_d_token fmt_02X_token fmt_f_token ldro_token token_app : token.

(** ** What a report says *)

Definition stats_fields (stats : lhkt_stats_t) : list (list Z * list Z) :=
  let c name k := (name, fmt_nat (count stats k)) in
  let nl name k := ([10] ++ name, fmt_nat (count stats k)) in
  [c (str "[STAT] KISS rx") kiss_rx; c (str " tx") kiss_tx; c (str " drop") kiss_drop;
   nl (str "[STAT] AX25 rx") ax25_rx; c (str " tx") ax25_tx; c (str " drop") ax25_drop;
   nl (str "[STAT] TNC2 rx") tnc2_rx; c (str " tx") tnc2_tx; c (str " drop") tnc2_drop;
   nl (str "[STAT] LoRaHAM rx") loraham_rx; c (str " tx") loraham_tx; c (str " drop") loraham_drop;
   c (str " framed_errors") loraham_framed_errors;
   ([10] ++ str "[STAT] CAD current_busy", fmt_d (cad_current_busy stats));
   c (str " busy_events") cad_busy_events; c (str " idle_events") cad_idle_events;
   nl (str "[STAT] TX oversize") tx_drop_oversize; c (str " unconfirmed") tx_unconfirmed;
   c (str " restore_failures") tx_restore_failures; c (str " reconnects") socket_reconnects;
   c (str " client_disconnects") client_disconnects].

Ltac tokens fields :=
  cbv [fields map snd]; repeat (apply Forall_cons; split; [auto with token|]); by apply Forall_nil.

Lemma lhkt_stats_print_report stats : lhkt_stats_print stats = report (stats_fields stats).
Proof. unfold lhkt_stats_print, stats_fields, stat. cbn [report]. by rewrite <-!app_assoc. Qed.

Lemma stats_names stats : separate (map fst (stats_fields stats)).
Proof. apply (bool_decide_unpack _). by vm_compute. Qed.

(** The report of the counters reads back: the values behind the signs '=' are the
    counters, each once, in the order of the report. *)
Lemma stats_report_reads_back stats :
  (∀ c, 0 ≤ count stats c) → 0 ≤ cad_current_busy stats →
  map digits_value (values (lhkt_stats_print stats)) =
  map (count stats) [kiss_rx; kiss_tx; kiss_drop; ax25_rx; ax25_tx; ax25_drop; tnc2_rx; tnc2_tx; tnc2_drop;
    loraham_rx; loraham_tx; loraham_drop; loraham_framed_errors] ++
  [cad_current_busy stats] ++
  map (count stats) [cad_busy_events; cad_idle_events; tx_drop_oversize; tx_unconfirmed; tx_restore_failures;
    socket_reconnects; client_disconnects].
Proof.
  intros Hc Hb. rewrite lhkt_stats_print_report, values_report; [|apply stats_names|tokens stats_fields].
  cbn [stats_fields map snd app]. unfold fmt_d. rewrite (proj2 (Z.ltb_ge _ _)) by done.
  by rewrite !fmt_nat_value.
Qed.

(** ** The configuration shown and the one sent *)

Definition radio_fields (cfg : lhkt_config_t) : list (list Z * list Z) :=
  [(str "[CFG] sf", fmt_d (sf cfg)); (str " bw", fmt_f 3 (bw cfg));
   (str " cr", fmt_d (cr cfg)); (str " crc", fmt_d (crc cfg)); (str " preamble", fmt_d (preamble cfg));
   (str " syncword", str "0x" ++ fmt_02X (syncword cfg)); (str " ldro", loraham_ldro_value cfg);
   (str " power", fmt_d (power cfg))].

Definition command_fields (cfg : lhkt_config_t) : list (list Z * list Z) :=
  [(str "SET MODE", str "LORA"); (str " FREQ", fmt_f 6 (rx_freq cfg)); (str " SF", fmt_d (sf cfg));
   (str " BW", fmt_f 3 (bw cfg)); (str " CR", fmt_d (cr cfg)); (str " CRC", fmt_d (crc cfg));
   (str " PREAMBLE", fmt_d (preamble cfg)); (str " SYNC", str "0x" ++ fmt_02X (syncword cfg));
   (str " LDRO", loraham_ldro_value cfg); (str " POWER", fmt_d (power cfg))].

Lemma radio_line_report cfg : is_flag (ldro cfg) → config_radio_line cfg = report (radio_fields cfg).
Proof.
  intros Hl. replace (config_radio_line cfg) with
    (str "[CFG] sf=" ++ fmt_d (sf cfg) ++ str " bw=" ++ fmt_f 3 (bw cfg) ++ str " cr=" ++ fmt_d (cr cfg) ++
     str " crc=" ++ fmt_d (crc cfg) ++ str " preamble=" ++ fmt_d (preamble cfg) ++
     str " syncword=0x" ++ fmt_02X (syncword cfg) ++ str " ldro=" ++ loraham_ldro_value cfg ++
     str " power=" ++ fmt_d (power cfg) ++ [10]).
  - cbn [radio_fields report]. by rewrite <-!app_assoc.
  - unfold config_radio_line, loraham_ldro_value. by destruct Hl as [-> | ->].
Qed.

Lemma freq_line_report name freq : config_freq_line name 1 freq = report [(str "[CFG] " ++ name, fmt_f 6 freq)].
Proof. cbn [report]. unfold config_freq_line. change (negb (1 =? 0)) with true. cbn iota. by rewrite <-!app_assoc. Qed.

Lemma config_line_report cfg :
  loraham_config_line cfg (Some (rx_freq cfg)) = report (command_fields cfg).
Proof. unfold loraham_config_line. cbn [command_fields report]. by rewrite <-!app_assoc. Qed.

Lemma hex_token z : token (str "0x" ++ fmt_02X z).
Proof. apply token_app; [solve_token_str|apply fmt_02X_token]. Qed.
#[export] Hint Resolve hex_token : token.

(** The radio parameters shown at the start are the ones sent to the daemon: the values
    of the receive frequency line and of the radio line are, in order, those of the
    configuration command, which adds only [MODE=LORA]. *)
Lemma config_report_is_sent cfg :
  config_valid cfg → have_rx_freq cfg = 1 →
  let sent := values (loraham_config_line cfg (Some (rx_freq cfg))) in
  let rx_line := config_freq_line (str "rx_freq") (have_rx_freq cfg) (rx_freq cfg) in
  let tx_line := config_freq_line (str "tx_freq") (have_tx_freq cfg) (tx_freq cfg) in
  (∃ before, lhkt_cli_print_config cfg = before ++ rx_line ++ tx_line ++ config_radio_line cfg) ∧
  values rx_line ++ values (config_radio_line cfg) = tail sent.
Proof.
  intros Hv Hf sent rx_line tx_line. split.
  { eexists. unfold lhkt_cli_print_config. by rewrite !app_assoc. }
  subst sent rx_line. rewrite Hf, freq_line_report, radio_line_report, config_line_report by (by destruct Hv).
  rewrite !values_report by
    first [tokens radio_fields|tokens command_fields|apply (bool_decide_unpack _); by vm_compute].
  done.
Qed.
