(* ===== verification/BridgeLive.v ===== *)
(** A queued packet gets on the air: in an environment that cooperates, the drain sends
    the packet at the head, finds its confirmation and removes it.

    [lives n rs rs' m Q] is the total counterpart of [yields]: in a world of [n] more
    cooperating answers of every kind in which the peers follow the script [rs], [m]
    returns, its answer satisfies [Q], and [rs'] is left of the script. *)
From S2P Require Import Prelude LorahamSock Tnc TxQueue Io SockIo LorahamConf BridgeConf BridgeRx BridgeLoraham BridgeTx Bridge Config ConfigValid.

Section live.
(** All clock readings are between [T] and [T + D]. *)
Context (T D : Z).

(** What the peers do, in order: the answers of the reads, of [socket] and of the
    [select] of the main loop. *)
Record script := Script {
  sc_read : list read_answer;
  sc_socket : list (option Z);
  sc_poll : list poll_answer;
}.

(** More to read before the rest. *)
Definition hears (l : list read_answer) (rs : script) : script :=
  Script (l ++ sc_read rs) (sc_socket rs) (sc_poll rs).

Lemma hears_cons r l rs : hears (r :: l) rs = hears [r] (hears l rs).
Proof. done. Qed.

(** The kernel takes at least a byte per write, no call fails, what is waited for gets
    ready, nobody asks the process to stop. *)
Record willing (n : nat) (rs : script) (w : world) : Prop := {
  wl_script : Script (w_read w) (w_socket w) (w_poll w) = rs;
  wl_write : Forall accepting (w_write w) ∧ (n ≤ length (w_write w))%nat;
  wl_select : Forall (λ r, r = SelReady) (w_select w) ∧ (n ≤ length (w_select w))%nat;
  wl_ok : Forall (λ b, b = true) (w_ok w) ∧ (n ≤ length (w_ok w))%nat;
  wl_clock : Forall (λ t, T ≤ t < T + D) (w_clock w) ∧ (n ≤ length (w_clock w))%nat;
  wl_stop : Forall (λ b, b = false) (w_stop w) ∧ (n ≤ length (w_stop w))%nat;
}.

Definition lives {A} (n : nat) (rs rs' : script) (m : io A) (Q : A → Prop) : Prop :=
  ∀ k w, willing (n + k) rs w → ∃ a w', m w = Some (a, w') ∧ Q a ∧ willing k rs' w'.

Lemma willing_less n n' rs w : (n' ≤ n)%nat → willing n rs w → willing n' rs w.
Proof. intros Hn [? [] [] [] [] []]. split; [done|..]; (split; [done|lia]). Qed.

Lemma lives_ret {A} (a : A) rs (Q : A → Prop) : Q a → lives 0 rs rs (mret a) Q.
Proof. intros H k w Hw. by exists a, w. Qed.

Lemma lives_bind {A B} n n' rs rs1 rs' (m : io A) (f : A → io B) P Q :
  lives n rs rs1 m P → (∀ a, P a → lives n' rs1 rs' (f a) Q) → lives (n + n') rs rs' (m ≫= f) Q.
Proof.
  intros Hm Hf k w Hw. rewrite <-Nat.add_assoc in Hw.
  destruct (Hm _ w Hw) as (a & w1 & E1 & Ha & Hw1). destruct (Hf a Ha k w1 Hw1) as (b & w2 & E2 & Hb & Hw2).
  exists b, w2. split; [|done]. unfold mbind, io_bind. by rewrite E1.
Qed.

Lemma lives_mono {A} n n' rs rs' (m : io A) (P Q : A → Prop) :
  lives n rs rs' m P → (n ≤ n')%nat → (∀ a, P a → Q a) → lives n' rs rs' m Q.
Proof.
  intros Hm Hn H k w Hw. destruct (Hm (n' - n + k)%nat w) as (a & w' & E & Ha & Hw').
  - apply (willing_less (n' + k)); [lia|done].
  - exists a, w'. split; [done|]. split; [by apply H|]. eapply willing_less; [|done]. lia.
Qed.

(** Under a bind, with the cost split off. *)
Lemma lives_step {A B} n n' rs rs1 rs' (m : io A) (f : A → io B) P Q :
  lives n rs rs1 m P → (n ≤ n')%nat → (∀ a, P a → lives (n' - n) rs1 rs' (f a) Q) →
  lives n' rs rs' (m ≫= f) Q.
Proof.
  intros Hm Hn Hf. replace n' with (n + (n' - n))%nat by lia. by eapply lives_bind.
Qed.

Lemma lives_done {A} n (a : A) rs (Q : A → Prop) : Q a → lives n rs rs (mret a) Q.
Proof. intros H. eapply lives_mono; [by apply lives_ret|lia|done]. Qed.

Lemma lives_assoc {A B C} n rs rs' (m : io A) (f : A → io B) (g : B → io C) Q :
  lives n rs rs' (a ← m; f a ≫= g) Q → lives n rs rs' ((m ≫= f) ≫= g) Q.
Proof.
  intros H k w Hw. destruct (H k w Hw) as (c & w' & E & ?). exists c, w'. split; [|done].
  rewrite <-E. unfold mbind, io_bind. by destruct (m w) as [[a w1]|].
Qed.

(** A loop that is left in its first round, and one that goes round. *)
Lemma lives_loop_once {S A} n rs rs' (body : S → io (S + A)) s (Q : A → Prop) :
  lives n rs rs' (body s) (λ x, match x with inl _ => False | inr a => Q a end) →
  lives n rs rs' (loop body s) Q.
Proof.
  intros H k w Hw. destruct (H k w Hw) as ([s'|a] & w' & E & Ha & Hw'); [done|]. exists a, w'.
  split; [|done]. unfold loop. cbn [iter]. unfold mbind, io_bind. by rewrite E.
Qed.

Lemma lives_loop {S A} n rs rs' (body : S → io (S + A)) s (Q : A → Prop) :
  shrinking body →
  lives n rs rs' (x ← body s; match x with inl s' => loop body s' | inr a => mret a end) Q →
  lives n rs rs' (loop body s) Q.
Proof. intros Hb H k w Hw. rewrite loop_unfold by done. by apply H. Qed.

(** *** Calls *)

(** Taking an answer: there is one, and it cooperates. *)
Ltac solve_lives get :=
  let k := fresh "k" in let w := fresh "w" in let E := fresh "E" in
  intros k w [? [] [] [] [] []]; destruct (get w) as [|? ?] eqn:E; [cbn in *; lia|];
  repeat match goal with H : Forall _ (_ :: _) |- _ => apply Forall_cons in H as [? ?] end;
  unfold bridge_runtime_now_ms, bridge_runtime_should_stop, sys_ok, sys_select, ask, mbind, io_bind;
  rewrite E; do 2 eexists; (split; [reflexivity|]);
  (split; [|split; cbn in *; [done|..]; (split; [done|lia])]).

Lemma lives_now rs : lives 1 rs rs bridge_runtime_now_ms (λ t, T ≤ t < T + D).
Proof. by solve_lives w_clock. Qed.
Lemma lives_should_stop rs : lives 1 rs rs bridge_runtime_should_stop (λ b, b = false).
Proof. by solve_lives w_stop. Qed.
Lemma lives_ok rs fd : lives 1 rs rs (sys_ok fd) (λ b, b = true).
Proof. by solve_lives w_ok. Qed.
Lemma lives_select rs fd ms :
  lives 1 rs rs (sys_select fd ms) (λ r, r = if fd <? 0 then SelTimeout else SelReady).
Proof. solve_lives w_select. by subst. Qed.
Lemma lives_emit rs o : lives 0 rs rs (emit o) (λ _, True).
Proof. intros k w [? [] [] [] [] []]. do 2 eexists. split; [done|]. by split. Qed.
Lemma lives_read r rs fd max :
  lives 0 (hears [r] rs) rs (sys_read fd max) (λ r', r' = match r with RdData bs => RdData (take max bs) | e => e end).
Proof.
  intros k w [E [] [] [] [] []]. destruct rs as [reads socks polls]. injection E as E <- <-.
  unfold sys_read, ask, mbind, io_bind. rewrite E.
  do 2 eexists. split; [done|]. split; [by destruct r|by split].
Qed.

(** *** Writing and sleeping *)

Lemma lives_write_loop wait fd rs buf :
  (∀ fd, silent (wait fd) (λ r, r = 0 ∨ r = -1)) →
  lives (length buf) rs rs (loop (write_round wait fd) buf) (λ r, r = 0).
Proof.
  intros Hwait. remember (length buf) as n eqn:Hn. assert (length buf ≤ n)%nat as Hle by lia. clear Hn.
  revert buf Hle. induction n as [|n IH]; intros buf Hn k w Hw;
    rewrite loop_unfold by (by apply write_round_shrinking); unfold mbind, io_bind, write_round.
  { destruct buf; [|cbn in Hn; lia]. by exists 0, w. }
  destruct (Z.eqb_spec (len buf) 0).
  { exists 0, w. split; [done|]. split; [done|]. eapply willing_less; [|exact Hw]. lia. }
  destruct Hw as [E [Ha Hl] [] [] [] []]. destruct (w_write w) as [|r ws] eqn:Ew; [cbn in Hl; lia|].
  apply Forall_cons in Ha as [[j ->] Ha]. destruct buf as [|b buf]; [done|].
  unfold mbind, io_bind. rewrite (sys_write_eq _ _ _ _ _ Ew). cbn in *.
  apply IH; [rewrite length_drop; lia|]. split; cbn; [done|..]; (split; [done|lia]).
Qed.

Lemma lives_sock_write fd buf rs :
  fd_bad fd = false → lives (length buf + 3) rs rs (loraham_sock_write fd buf) (λ r, r = len buf).
Proof.
  intros Hfd. unfold loraham_sock_write. rewrite Hfd.
  destruct (Z.eqb_spec (len buf) 0) as [->|]; [by apply lives_done|].
  eapply lives_step; [apply lives_ok|lia|]. intros ? ->. cbn [negb].
  eapply lives_step; [apply lives_ok|lia|]. intros ? ->. cbn [negb].
  eapply lives_step; [apply lives_write_loop, loraham_wait_writable_silent|lia|]. intros ? ->.
  eapply lives_step; [apply lives_ok|lia|]. intros ? ->. by apply lives_done.
Qed.

Lemma lives_sleep ms rs : lives 3 rs rs (bridge_runtime_sleep_ms ms) (λ r, r = LHKT_OK).
Proof.
  unfold bridge_runtime_sleep_ms. destruct (ms <=? 0); [by apply lives_done|].
  eapply lives_step; [apply lives_should_stop|lia|]. intros ? ->. apply lives_loop_once.
  eapply lives_step; [apply lives_select|lia|]. intros ? ->. cbn.
  eapply lives_step; [apply lives_should_stop|lia|]. intros ? ->. by apply lives_done.
Qed.

(** *** Commands and frames *)

Lemma lives_sends fd line rs :
  fd_bad fd = false →
  lives (length line + 3) rs rs
    (ret ← loraham_sock_write fd line; mret (if ret <? 0 then LHKT_ERR else LHKT_OK))
    (λ r, r = LHKT_OK).
Proof.
  intros Hfd. eapply lives_step; [by apply lives_sock_write|lia|]. intros ? ->.
  rewrite (proj2 (Z.ltb_ge _ _)) by lia. by apply lives_done.
Qed.

Lemma lives_config_freq cfg fd f rs :
  config_valid cfg → fd_bad fd = false → in_range FREQ_MIN FREQ_MAX f →
  lives 259 rs rs (bridge_loraham_send_config_freq cfg fd f) (λ r, r = LHKT_OK).
Proof.
  intros Hv Hfd Hf. unfold bridge_loraham_send_config_freq. rewrite freq_positive by done.
  assert (0 ≤ fd) as Hpos by (unfold fd_bad in Hfd; lia).
  rewrite (proj2 (Z.ltb_ge _ _)) by done. rewrite config_freq_sends by done.
  pose proof (config_line_short cfg (Some f) Hv ltac:(naive_solver)) as Hl.
  eapply lives_step; [by apply lives_sends|lia|]. intros ? ->. by apply lives_done.
Qed.

Lemma lives_write_packet fd packet rs :
  fd_bad fd = false → len packet ≤ LHKT_LORAHAM_TX_MAX →
  lives 261 rs rs (bridge_loraham_write fd packet) (λ r, r = len packet).
Proof.
  intros Hfd Hp. unfold bridge_loraham_write, loraham_send_framed_tx_packet, loraham_framed_tx_bytes.
  assert (0 ≤ fd) as Hpos by (unfold fd_bad in Hfd; lia). unfold LHKT_LORAHAM_TX_MAX in *.
  rewrite (proj2 (Z.ltb_ge fd 0)), (proj2 (Z.ltb_ge _ _)) by done.
  eapply lives_step; [apply lives_sends; [done]|cbn; lia|]. intros ? ->. by apply lives_done.
Qed.

(** The RX frequency is restored at the first attempt. *)
Lemma lives_restore cfg conf e rs :
  config_valid cfg → fd_bad conf = false → have_rx_freq cfg = 1 →
  lives 259 rs rs (env_restore cfg conf e) (λ r, r = (LHKT_OK, e)).
Proof.
  intros Hv Hfd Hrx. destruct (v_rx_freq cfg Hv) as [[H _]|[_ Hf]]; [congruence|].
  unfold env_restore, bridge_loraham_restore_rx_freq. rewrite Hrx. cbn [Z.eqb].
  eapply (lives_step 259 259 _ _ _ _ _ (λ r, r = (LHKT_OK, te_stats e))); [|lia|].
  - destruct (negb _); [by apply lives_done|].
    eapply lives_step; [by apply lives_config_freq|lia|]. intros ? ->. by apply lives_done.
  - intros [ret stats] [= -> ->]. apply lives_done. by destruct e.
Qed.

(** *** Waiting for the confirmation *)

(** The state after frames nobody listens to. *)
Definition txr_after (s : txr_state) (fs : loraham_framed_rx_state_t) (frames : list loraham_frame_t) :
    txr_state :=
  TxrState fs (xr_client s) (xr_error s) (foldl unclaimed (xr_stats s) frames).

(** Frames that come before the result: of other types, and only when there is no
    client to write them to. *)
Definition foregoing (client : Z) (frames : list loraham_frame_t) : Prop :=
  Forall (λ f, lf_type f ≠ LORAHAM_FRAME_TX_RESULT) frames ∧ (client < 0 ∨ frames = []).

Lemma foregoing_app client a b :
  foregoing client (a ++ b) ↔ foregoing client a ∧ foregoing client b.
Proof.
  unfold foregoing. rewrite Forall_app. split.
  - intros [[] [?|[-> ->]%app_nil]]; tauto.
  - intros [[? Ha] [? Hb]]. split; [done|]. destruct Ha as [?|?]; [by left|].
    destruct Hb as [?|?]; [by left|]. right. by subst.
Qed.

Lemma lives_txr_frame frame s rs :
  xr_client s < 0 →
  lives 0 rs rs (txr_frame frame s) (λ s', s' = txr_after s (xr_frames s) [frame]).
Proof.
  intros Hc k w Hw. unfold txr_frame, mbind, io_bind.
  assert (∃ w', bridge_rx_handle_framed_frame (xr_client s) frame (xr_stats s) w =
    Some ((LHKT_OK, unclaimed (xr_stats s) frame), w') ∧ willing k rs w') as (w' & -> & Hw').
  { unfold bridge_rx_handle_framed_frame, unclaimed.
    destruct (Z.eqb_spec (lf_type frame) LORAHAM_FRAME_RX_PACKET) as [->|]; cbn [andb].
    - rewrite (proj2 (Z.ltb_lt _ 0)) by done. unfold mbind, io_bind.
      change (LORAHAM_FRAME_RX_PACKET =? LORAHAM_FRAME_ERROR) with false.
      destruct (_ <=? _); eexists; (split; [done|]); [|done]. by destruct Hw.
    - destruct (_ =? LORAHAM_FRAME_ERROR); by exists w. }
  do 2 eexists. split; [reflexivity|done].
Qed.

(** A decoded byte. *)
Lemma decode_cons fs b buf :
  loraham_framed_decode fs (b :: buf) =
    let '(fs1, ev) := loraham_framed_decode_byte fs b in
    let '(fs2, evs) := loraham_framed_decode fs1 buf in
    (fs2, match ev with Quiet => evs | _ => ev :: evs end).
Proof. apply run_cons. Qed.

Lemma txr_after_after s fs1 a fs2 b :
  txr_after (txr_after s fs1 a) fs2 b = txr_after s fs2 (a ++ b).
Proof. unfold txr_after. cbn. by rewrite foldl_app. Qed.

Lemma lives_txr_rest buf fs' rs : ∀ s,
  loraham_framed_decode (xr_frames s) buf = (fs', []) →
  lives 0 rs rs (txr_rest buf s) (λ r, r = (LHKT_OK, txr_after s fs' [])).
Proof.
  induction buf as [|b buf IH]; intros s E; cbn [txr_rest].
  { injection E as <-. apply lives_ret. by destruct s. }
  rewrite decode_cons in E. unfold txr_decode.
  destruct (loraham_framed_decode_byte (xr_frames s) b) as [fs1 ev].
  destruct (loraham_framed_decode fs1 buf) as [fs2 evs] eqn:E2. destruct ev; [|done..].
  injection E as -> ->. eapply lives_mono; [by apply IH|lia|]. by intros ? ->.
Qed.

(** The events of a chunk, with or without the result at their end. *)
Definition chunk_events (frames : list loraham_frame_t) (res : option loraham_frame_t) :
    list (event loraham_frame_t) :=
  map Frame frames ++ match res with Some f => [Frame f] | None => [] end.

Lemma lives_txr_bytes buf fs' res (result : loraham_tx_result_t) rs : ∀ frames s,
  loraham_framed_decode (xr_frames s) buf = (fs', chunk_events frames res) →
  foregoing (xr_client s) frames →
  (∀ f, res = Some f → loraham_decode_tx_result f = Ok result) →
  lives 0 rs rs (txr_bytes buf s)
    (λ r, r = (match res with Some _ => Some (Ok result) | None => None end, txr_after s fs' frames)).
Proof.
  induction buf as [|b buf IH]; intros frames s E Hf Hres; cbn [txr_bytes].
  { injection E as <- E. destruct frames; [|done]. destruct res; [done|]. apply lives_ret. by destruct s. }
  rewrite decode_cons in E. unfold txr_decode.
  destruct (loraham_framed_decode_byte (xr_frames s) b) as [fs1 ev].
  destruct (loraham_framed_decode fs1 buf) as [fs2 evs] eqn:E2. destruct ev as [|f|e].
  - injection E as -> ->. eapply lives_mono; [by apply (IH frames)|lia|]. by intros ? ->.
  - destruct frames as [|f' frames]; unfold chunk_events in E; cbn in E.
    + destruct res as [f'|]; [|done]. injection E as -> -> ->. specialize (Hres f' eq_refl).
      assert ((lf_type f' =? LORAHAM_FRAME_TX_RESULT) = true) as ->.
      { unfold loraham_decode_tx_result in Hres. by destruct (lf_type f' =? LORAHAM_FRAME_TX_RESULT). }
      rewrite Hres. eapply lives_step; [apply (lives_txr_rest buf fs'); exact E2|lia|]. intros ? ->.
      by apply lives_done.
    + injection E as -> -> ->. apply (foregoing_app _ [f'] frames) in Hf as [[Ht Hc] Hf].
      destruct Hc as [Hc|]; [|done]. apply Forall_cons in Ht as [Ht _].
      rewrite (proj2 (Z.eqb_neq _ _)) by done.
      eapply lives_step; [by apply lives_txr_frame|lia|]. intros ? ->.
      eapply lives_mono; [by apply (IH frames)|lia|]. intros ? ->. by rewrite !txr_after_after.
  - destruct frames; [|done]. by destruct res.
Qed.

Lemma wait_round_shrinking data deadline : shrinking (wait_tx_result_round data deadline).
Proof.
  intros s w. unfold wait_tx_result_round. apply wp_bind, wp_should_stop. intros stop w1 [_ L].
  match goal with |- wp ?m _ _ => assert (fdless m) as H by (destruct stop; solve_fdless) end.
  eapply wp_mono; [apply H|]. intros [s'|r] w2 (o & _ & L2 & _); [lia|done].
Qed.

(** The events of a stream, chunk by chunk: either the chunk holds the result, or the
    rest does. *)
Lemma split_events fs chunk rest fs' frames res :
  loraham_framed_decode fs (chunk ++ rest) = (fs', chunk_events frames (Some res)) →
  let '(fs1, e1) := loraham_framed_decode fs chunk in
  e1 = chunk_events frames (Some res) ∨
  ∃ a b, frames = a ++ b ∧ e1 = chunk_events a None ∧
    loraham_framed_decode fs1 rest = (fs', chunk_events b (Some res)).
Proof.
  unfold loraham_framed_decode. rewrite run_app.
  destruct (run loraham_framed_decode_byte fs chunk) as [fs1 e1].
  destruct (run loraham_framed_decode_byte fs1 rest) as [fs2 e2]. intros [= -> E].
  unfold chunk_events in *. destruct e2 as [|x e2 _] using rev_ind; [left; by rewrite app_nil_r in E|].
  rewrite app_assoc in E. apply app_inj_tail in E as [E ->]. right.
  symmetry in E. apply map_eq_app in E as (a & b & -> & <- & <-).
  exists a, b. by rewrite app_nil_r.
Qed.

(** What one read delivers. *)
Definition readable (chunk : list Z) : Prop := chunk ≠ [] ∧ (length chunk ≤ 512)%nat.

Lemma lives_wait_loop data fs' res result rs chunks : ∀ frames s,
  fd_bad data = false → Forall readable chunks →
  loraham_framed_decode (xr_frames s) (concat chunks) = (fs', chunk_events frames (Some res)) →
  foregoing (xr_client s) frames → loraham_decode_tx_result res = Ok result →
  ∃ heard rest, chunks = heard ++ rest ∧ ∀ deadline, T + D ≤ deadline →
    lives (3 * length chunks) (hears (map RdData chunks) rs) (hears (map RdData rest) rs)
      (loop (wait_tx_result_round data deadline) s)
      (λ r, r = (Ok result, txr_after s (loraham_framed_decode (xr_frames s) (concat heard)).1 frames)).
Proof.
  induction chunks as [|c chunks IH]; intros frames s Hfd Hch E Hf Hres.
  { injection E as _ E. by destruct frames. }
  apply Forall_cons in Hch as [[Hne Hlen] Hch]. cbn [concat] in E. pose proof E as Hall.
  assert ((data <? 0) = false) as Hdata by (unfold fd_bad in Hfd; lia).
  assert (∀ deadline rest Q, T + D ≤ deadline → lives (3 * length chunks) (hears (map RdData chunks) rs) (hears (map RdData rest) rs)
      (a ← txr_bytes c s;
       match a.1 with
       | Some r => mret (r, a.2) | None => loop (wait_tx_result_round data deadline) a.2
       end) Q →
    lives (3 * length (c :: chunks)) (hears (map RdData (c :: chunks)) rs) (hears (map RdData rest) rs)
      (loop (wait_tx_result_round data deadline) s) Q) as Hround.
  { intros deadline rest Q Hdl H. apply lives_loop; [apply wait_round_shrinking|].
    set (again := loop (wait_tx_result_round data deadline)) in *. clearbody again.
    unfold wait_tx_result_round. apply lives_assoc.
    eapply lives_step; [apply lives_should_stop|cbn [length]; lia|]. intros ? ->. apply lives_assoc.
    eapply lives_step; [apply lives_now|cbn [length]; lia|]. intros now [Hn1 Hn2].
    rewrite (proj2 (Z.leb_gt deadline now)) by lia. apply lives_assoc.
    eapply lives_step; [apply lives_select|cbn [length]; lia|]. intros ? ->. rewrite Hdata. apply lives_assoc.
    unfold loraham_sock_read. rewrite Hdata. cbn [map]. rewrite hears_cons.
    eapply lives_step; [apply lives_read|lia|]. intros ? ->. rewrite take_ge by done.
    destruct c as [|b c]; [done|]. apply lives_assoc.
    apply (lives_mono (3 * length chunks) _ _ _ _ Q); [|cbn [length]; lia|done].
    intros k w Hw. destruct (H k w Hw) as (r & w' & Er & ?). exists r, w'. split; [|done].
    rewrite <-Er. unfold mbind, io_bind. by destruct (txr_bytes (b :: c) s w) as [[[[?|] ?] ?]|]. }
  apply split_events in E. destruct (loraham_framed_decode (xr_frames s) c) as [fs1 e1] eqn:Ec.
  destruct E as [->|(a & b & -> & -> & E)].
  - exists [c], chunks. split; [done|]. intros deadline Hdl. apply Hround; [done|].
    eapply lives_step; [by eapply lives_txr_bytes; [exact Ec|done|intros ? [= <-]]|lia|].
    intros ? ->. cbn [concat]. rewrite app_nil_r, Ec. by apply lives_done.
  - apply foregoing_app in Hf as [Ha Hb].
    destruct (IH b (txr_after s fs1 a) Hfd Hch E Hb Hres) as (heard & rest & -> & Hrec).
    exists (c :: heard), rest. split; [done|]. intros deadline Hdl. apply Hround; [done|].
    eapply lives_step; [by apply (lives_txr_bytes _ _ _ result _ _ _ Ec)|lia|]. intros ? ->.
    cbn [concat]. eapply lives_mono; [by apply Hrec|lia|]. intros ? ->. rewrite txr_after_after.
    unfold loraham_framed_decode in *. rewrite run_app, Ec.
    cbn [xr_frames txr_after]. by destruct (run loraham_framed_decode_byte fs1 (concat heard)).
Qed.

(** *** One packet *)

(** What the daemon says about the packet: the chunks in which its bytes arrive, the
    frames before the result, the result. *)
Record answer := Answer {
  an_chunks : list (list Z);
  an_frames : list loraham_frame_t;
  an_result : loraham_tx_result_t;
}.

(** The decoder [fs] finds them in the bytes. *)
Definition answers (client : Z) (fs : loraham_framed_rx_state_t) (x : answer) : Prop :=
  Forall readable (an_chunks x) ∧ foregoing client (an_frames x) ∧
  ∃ fs' res, loraham_framed_decode fs (concat (an_chunks x)) = (fs', chunk_events (an_frames x) (Some res)) ∧
             loraham_decode_tx_result res = Ok (an_result x).

(** The statistics afterwards. *)
Definition answered (stats : lhkt_stats_t) (x : answer) : lhkt_stats_t :=
  bump (if tr_status (an_result x) =? LORAHAM_TX_STATUS_OK then loraham_tx else loraham_drop)
    (foldl unclaimed stats (an_frames x)).

(** The chunks still unread when the result is there. *)
Definition env_after (e : tx_env) (fs : loraham_framed_rx_state_t) (x : answer) (heard : list (list Z)) :
    tx_env :=
  TxEnv (answered (te_stats e) x) (te_conf e) (Some (loraham_framed_decode fs (concat heard)).1).

Lemma lives_with_txresult cfg client data conf packet e fs x rs :
  config_valid cfg → have_rx_freq cfg = 1 → tx_busy_timeout_ms cfg = D →
  fd_bad data = false → fd_bad conf = false → te_frames e = Some fs → answers client fs x →
  ∃ heard rest, an_chunks x = heard ++ rest ∧
    lives (260 + 3 * length (an_chunks x)) (hears (map RdData (an_chunks x)) rs) (hears (map RdData rest) rs)
      (send_with_txresult cfg client data conf packet e)
      (λ r, r = (LHKT_OK, env_after e fs x heard)).
Proof.
  intros Hv Hrx HD Hdata Hconf Efs (Hch & Hf & fs' & res & Hdec & Hres). unfold send_with_txresult. rewrite Efs.
  destruct (lives_wait_loop data fs' res (an_result x) rs (an_chunks x) (an_frames x)
    (TxrState fs client LHKT_OK (te_stats e)) Hdata Hch Hdec Hf Hres) as (heard & rest & E & Hwait).
  exists heard, rest. split; [done|].
  eapply (lives_step (1 + 3 * length (an_chunks x))); [|lia|].
  { unfold bridge_loraham_wait_tx_result. rewrite Hdata.
    eapply lives_step; [apply lives_now|lia|]. intros start [Hs _].
    eapply lives_mono; [apply (Hwait (start + tx_busy_timeout_ms cfg)); lia|lia|]. intros r Hr. exact Hr. }
  intros ? ->. cbn [xr_stats xr_frames xr_error txr_after].
  eapply (lives_step 0 _ _ _ _ _ _ (λ _, True)); [|lia|].
  { destruct (_ =? _); [apply lives_emit|by apply lives_done]. }
  intros _ _. eapply lives_step; [by apply lives_restore|lia|]. intros ? ->. cbn [negb Z.eqb LHKT_OK].
  unfold env_after, answered. destruct (tr_status (an_result x) =? LORAHAM_TX_STATUS_OK); by apply lives_done.
Qed.

(** A configuration and descriptors one can send with. *)
Definition sendable (cfg : lhkt_config_t) (data conf : Z) : Prop :=
  config_valid cfg ∧ have_rx_freq cfg = 1 ∧ have_tx_freq cfg = 1 ∧
  fd_bad data = false ∧ fd_bad conf = false.

Lemma lives_send_packet cfg client data conf packet e fs x rs :
  sendable cfg data conf → tx_busy_timeout_ms cfg = D → 1 ≤ len packet ≤ LHKT_LORAHAM_TX_MAX →
  bridge_conf_txresult_enabled (te_conf e) = true → te_frames e = Some fs → answers client fs x →
  ∃ heard rest, an_chunks x = heard ++ rest ∧
    lives (783 + 3 * length (an_chunks x)) (hears (map RdData (an_chunks x)) rs) (hears (map RdData rest) rs)
      (bridge_loraham_send_packet_with_client cfg client data conf packet e)
      (λ r, r = (LHKT_OK, true, env_after e fs x heard)).
Proof.
  intros (Hv & Hrx & Htx & Hdata & Hconf) HD Hp Hen Efs Hx.
  destruct (lives_with_txresult cfg client data conf packet e fs x rs Hv Hrx HD Hdata Hconf Efs Hx)
    as (heard & rest & E & Hafter). exists heard, rest. split; [done|].
  destruct (v_tx_freq cfg Hv) as [[H _]|[_ Hf]]; [congruence|].
  assert ((data <? 0) = false) as Hd by (unfold fd_bad in Hdata; lia).
  unfold bridge_loraham_send_packet_with_client.
  rewrite (proj2 (Z.eqb_neq (len packet) 0)), Hd, Hrx, Htx by lia. cbn [Z.eqb orb].
  eapply (lives_step 259 _ _ _ _ _ _ (λ r, r = LHKT_OK)); [|lia|].
  { destruct (bridge_loraham_tx_shift_needed cfg); [by apply lives_config_freq|by apply lives_done]. }
  intros ? ->. cbn [negb Z.eqb LHKT_OK].
  eapply (lives_step 3 _ _ _ _ _ _ (λ r, r = LHKT_OK)); [|lia|].
  { destruct (bridge_loraham_tx_shift_needed cfg); [apply lives_sleep|by apply lives_done]. }
  intros ? ->. cbn [negb Z.eqb LHKT_OK].
  eapply lives_step; [by apply lives_write_packet; [|lia]|lia|]. intros ? ->.
  rewrite (proj2 (Z.ltb_ge (len packet) 0)), Hen by lia.
  eapply lives_step; [exact Hafter|lia|]. intros ? ->. by apply lives_done.
Qed.

(** *** The drain *)

(** The daemon is idle and has reported that it confirms packets. *)
Definition daemon_idle (st : bridge_conf_state_t) : Prop :=
  cs_have_status st ≠ 0 ∧ cs_tx_busy st = 0 ∧ bridge_conf_txresult_enabled st = true.

(** Nothing new on the CONF socket. *)
Lemma lives_conf_read fd st rs :
  0 ≤ fd → lives 0 (hears [RdErr EAGAIN] rs) rs (bridge_conf_read_available fd st) (λ r, r = (LHKT_OK, st)).
Proof.
  intros Hfd. unfold bridge_conf_read_available. rewrite (proj2 (Z.ltb_ge _ _)) by done.
  apply lives_loop_once. eapply lives_step; [apply lives_read|lia|]. intros ? ->. by apply lives_done.
Qed.

Lemma lives_drain_round cfg client data conf q e fs x item rest rs :
  sendable cfg data conf → tx_busy_timeout_ms cfg = D → Spec.wf q →
  bridge_tx_queue_head q = Some item → packets q = ti_packet item :: rest →
  T + D ≤ ti_queued_ms item + tx_packet_ttl_ms cfg →
  daemon_idle (te_conf e) → te_frames e = Some fs → answers client fs x →
  ∃ heard unread, an_chunks x = heard ++ unread ∧
    lives (784 + 3 * length (an_chunks x)) (hears (RdErr EAGAIN :: map RdData (an_chunks x)) rs)
      (hears (map RdData unread) rs)
      (drain_round cfg client data conf (DrainState q e))
      (λ r, ∃ d', r = inr (LHKT_OK, d') ∧ packets (dr_queue d') = rest ∧
                  dr_env d' = env_after e fs x heard).
Proof.
  intros Hs HD Hq Hh Ep Httl (Hst & Hbusy & Hen) Efs Hx.
  destruct (head_packets q item Hq Hh) as (rest' & Ep' & Hset).
  rewrite Ep in Ep'. injection Ep' as <-.
  pose proof (Spec.wf_packets _ Hq) as Hlen. rewrite head_contents in Hh by done.
  assert (1 ≤ len (ti_packet item) ≤ LHKT_LORAHAM_TX_MAX) as Hp.
  { destruct (Spec.contents q); [done|]. injection Hh as ->. by apply Forall_cons in Hlen as [? _]. }
  destruct (lives_send_packet cfg client data conf (ti_packet item) e fs x rs Hs HD Hp Hen Efs Hx)
    as (heard & unread & E & Hsend). exists heard, unread. split; [done|].
  destruct Hs as (Hv & Hrx & Htx & Hdata & Hconf).
  assert (0 ≤ conf ∧ 0 ≤ data) as [Hc Hd] by (unfold fd_bad in *; lia).
  unfold drain_round. cbn [dr_queue dr_env].
  rewrite head_contents, Hh, (proj2 (Z.leb_le 0 conf)) by done.
  rewrite hears_cons.
  eapply lives_step; [by apply lives_conf_read|lia|]. intros ? ->. cbn [negb Z.eqb LHKT_OK andb].
  unfold bridge_conf_txresult_enabled in Hen. apply andb_prop in Hen as [Hkn Hen].
  apply negb_true_iff in Hkn, Hen. rewrite Hkn, Hen, (proj2 (Z.eqb_neq _ _) Hst). cbn [negb andb].
  eapply lives_step; [apply lives_now|lia|]. intros now [Hn1 Hn2].
  unfold bridge_tx_head_decision. rewrite (proj2 (Z.leb_gt (tx_packet_ttl_ms cfg) _)), andb_false_r, Hbusy by lia.
  cbn [Z.eqb negb]. rewrite (proj2 (Z.ltb_ge data 0)), (proj2 (Z.ltb_ge conf 0)) by done. cbn [ti_packet].
  assert (TxEnv (te_stats e) (te_conf e) (te_frames e) = e) as -> by by destruct e.
  eapply lives_step; [exact Hsend|lia|]. intros ? ->. cbn [orb]. apply lives_done. eexists. split; [done|].
  split; [|done]. by apply Hset.
Qed.
End live.

(** C2. A queued packet gets on the air. The daemon is idle, has reported its status and
    confirms packets; the packet at the head of the queue is not about to expire. Then,
    in an environment that cooperates (writes accept at least a byte, calls succeed,
    what is waited for comes within the busy timeout, nobody stops the process) and in
    which the DATA socket delivers, in whatever pieces, frames and then the TX_RESULT of
    the packet, the drain returns with success: exactly the frame of the packet has
    been written to the DATA socket, the packet and only it has left the queue, and it
    is counted as sent, or as dropped if the daemon reports so. Frames that come before
    the result are counted if no client is connected; with a client, the result comes
    first. What is behind the chunk with the result is still to be read, and the decoder
    is where the chunks that were read take it. *)
Theorem queued_packet_is_sent T cfg client data conf q e fs x item rest rs w
    (Hs : sendable cfg data conf) (Hdist : conf ≠ data ∧ client ≠ conf ∧ client ≠ data)
    (Hq : Spec.wf q) (Hhead : bridge_tx_queue_head q = Some item)
    (Hpackets : packets q = ti_packet item :: rest)
    (Hidle : daemon_idle (te_conf e)) (Hfs : te_frames e = Some fs) (Hx : answers client fs x)
    (Httl : T + tx_busy_timeout_ms cfg ≤ ti_queued_ms item + tx_packet_ttl_ms cfg)
    (Hw : willing T (tx_busy_timeout_ms cfg) (784 + 3 * length (an_chunks x))
            (hears (RdErr EAGAIN :: map RdData (an_chunks x)) rs) w) :
  ∃ d' w' o heard unread,
    bridge_loraham_tx_queue_drain_with_client cfg client data conf (DrainState q e) w =
      Some ((LHKT_OK, d'), w') ∧
    extends w w' o ∧ written data o = tx_frame (ti_packet item) ∧ packets (dr_queue d') = rest ∧
    te_stats (dr_env d') = answered (te_stats e) x ∧
    an_chunks x = heard ++ unread ∧ w_read w' = map RdData unread ++ sc_read rs ∧
    te_frames (dr_env d') = Some (loraham_framed_decode fs (concat heard)).1.
Proof.
  destruct (lives_drain_round T _ cfg client data conf q e fs x item rest rs Hs eq_refl Hq Hhead Hpackets
    Httl Hidle Hfs Hx) as (heard & unread & E & Hlive).
  destruct (Hlive 0%nat w) as (r & w' & Er & (d' & -> & Hp & He) & Hw'); [by rewrite Nat.add_0_r|].
  destruct Hdist as (Hcd & Hkc & Hkd).
  pose proof (drain_round_yields cfg client data conf (DrainState q e) fs Hcd Hkc Hkd Hfs Hq w) as Hy.
  destruct (wp_elim _ _ _ _ _ Hy Er) as (o & Ho & _ & _ & Hd). cbn [dr_queue] in Hd.
  exists d', w', o, heard, unread. rewrite He. split.
  { unfold bridge_loraham_tx_queue_drain_with_client. rewrite loop_unfold by apply drain_round_shrinking.
    unfold mbind, io_bind. by rewrite Er. }
  split; [done|]. split; [|destruct Hw' as [Hsc _ _ _ _ _]; by injection Hsc as -> _ _].
  rewrite Hpackets, Hp in Hd. destruct Hd as [(_ & Hd & _)|(p & rest2 & e2 & flag & [= <- <-] & _ & _ & Hd & Hrun)].
  - apply (f_equal length) in Hd. cbn in Hd. lia.
  - destruct flag; [|apply (f_equal length) in Hd; cbn in Hd; lia].
    by apply (run_data cfg data conf _ _ _ _ _ _ Hcd) in Hrun.
Qed.

(** The example of BridgeTx: an answer in two pieces, behind a frame of another station;
    no client. *)
Definition live_example_cfg : lhkt_config_t := tx_example_cfg.
Definition live_example_answer : answer :=
  Answer [[1; 5; 0; 255; 255; 0]; [0; 66; 4; 4; 0; 0; 0; 1; 0]] [LoraFrame 1 [255; 255; 0; 0; 66]] (TxResult 0 0 1).
Definition live_example_world : world :=
  World (RdErr EAGAIN :: map RdData (an_chunks live_example_answer)) (replicate 800 (WrN 300))
    (replicate 800 SelReady) (replicate 800 true) [] [] [] (replicate 800 1000) (replicate 800 false) [] [].

Lemma live_example_willing :
  willing 1000 (tx_busy_timeout_ms live_example_cfg) (784 + 3 * length (an_chunks live_example_answer))
    (hears (RdErr EAGAIN :: map RdData (an_chunks live_example_answer)) (Script [] [] [])) live_example_world.
Proof.
  split; [done|..]; (split; [apply Forall_replicate|cbn [w_write w_select w_ok w_clock w_stop live_example_world];
    rewrite length_replicate; cbn; lia]); [by exists 299%nat|done..| |done].
  split; [done|by vm_compute].
Qed.

Lemma queued_packet_is_sent_witness :
  ∃ d' w' o, bridge_loraham_tx_queue_drain_with_client live_example_cfg (-1) 5 6 tx_example_drain
      live_example_world = Some ((LHKT_OK, d'), w') ∧
    written 5 o = tx_frame [60; 255; 1; 65] ∧ packets (dr_queue d') = [].
Proof.
  destruct (queued_packet_is_sent 1000 live_example_cfg (-1) 5 6 (dr_queue tx_example_drain) tx_example_env
    loraham_framed_rx_state_init live_example_answer (TxItem [60; 255; 1; 65] 500 0) [] (Script [] [] []) live_example_world)
    as (d' & w' & o & heard & unread & E & _ & Hw & Hp & _).
  - split; [apply defaults_valid; done|]. by vm_compute.
  - lia.
  - apply tx_example_wf.
  - by vm_compute.
  - by vm_compute.
  - split; [by vm_compute|split; by vm_compute].
  - done.
  - split; [|split].
    + by repeat constructor.
    + split; [by repeat constructor|left; lia].
    + do 2 eexists. split; [by vm_compute|by vm_compute].
  - by vm_compute.
  - apply live_example_willing.
  - exists d', w', o. split; [exact E|]. split; [exact Hw|exact Hp].
Defined.
