(* ===== verification/BridgeOutage.v ===== *)
(** An outage of the daemon: both connections are lost, packets are waiting.

    [outage_survived] follows the main loop through the four rounds that bring the first
    packet on the air: connect the CONF socket; connect the DATA socket and configure
    the radio; read the status; send. [performs] is [lives] with the trace of the call,
    [like] the equivalence of states that such rounds do not tell apart. *)
From S2P Require Import Prelude Kiss LorahamSock Tnc TxQueue Io SockIo LorahamConf BridgeConf BridgeKiss BridgeRx BridgeLoraham BridgeTx Bridge BridgeInv BridgeWire Config ConfigValid BridgeLive.

(** ** Runs in a cooperating environment, with their trace *)

Section performs.
Context (T D : Z).

Definition performs {A} (n : nat) (rs rs' : script) (m : io A) (Q : A → list output → Prop) : Prop :=
  ∀ k w, willing T D (n + k) rs w →
    ∃ a w' o, m w = Some (a, w') ∧ extends w w' o ∧ Q a o ∧ willing T D k rs' w'.

(** What it answers, and what any run of it does. *)
Lemma performs_intro {A} n rs rs' (m : io A) P (R : A → list output → Prop) :
  lives T D n rs rs' m P → yields m R → performs n rs rs' m (λ a o, P a ∧ R a o).
Proof.
  intros Hl Hy k w Hw. destruct (Hl k w Hw) as (a & w' & E & HP & Hw').
  destruct (wp_elim _ _ _ _ _ (Hy w) E) as (o & Eo & _ & HR). by exists a, w', o.
Qed.

Lemma performs_lives {A} n rs rs' (m : io A) P :
  lives T D n rs rs' m P → silent m (λ _, True) → performs n rs rs' m (λ a o, P a ∧ o = []).
Proof.
  intros Hl Hs. apply performs_intro; [done|]. eapply yields_mono; [by apply yields_silent|]. by intros a o [-> _].
Qed.

Lemma performs_mono {A} n n' rs rs' (m : io A) (P Q : A → list output → Prop) :
  performs n rs rs' m P → (n ≤ n')%nat → (∀ a o, P a o → Q a o) → performs n' rs rs' m Q.
Proof.
  intros Hm Hn H k w Hw. destruct (Hm (n' - n + k)%nat w) as (a & w' & o & E & Eo & Ha & Hw').
  - eapply willing_less; [|exact Hw]. lia.
  - exists a, w', o. do 2 (split; [done|]). split; [by apply H|]. eapply willing_less; [|done]. lia.
Qed.

Lemma performs_ret {A} n (a : A) rs (Q : A → list output → Prop) : Q a [] → performs n rs rs (mret a) Q.
Proof.
  intros H k w Hw. exists a, w, []. split; [done|]. split; [apply extends_refl|]. split; [done|].
  eapply willing_less; [|done]. lia.
Qed.

(** Under a bind, with the cost split off, as [lives_step]. *)
Lemma performs_step {A B} n n' rs rs1 rs' (m : io A) (f : A → io B) P (Q : B → list output → Prop) :
  performs n rs rs1 m P → (n ≤ n')%nat →
  (∀ a o, P a o → performs (n' - n) rs1 rs' (f a) (λ b o', Q b (o ++ o'))) →
  performs n' rs rs' (m ≫= f) Q.
Proof.
  intros Hm Hn Hf k w Hw. replace (n' + k)%nat with (n + (n' - n + k))%nat in Hw by lia.
  destruct (Hm _ w Hw) as (a & w1 & o & E & Eo & Ha & Hw1).
  destruct (Hf a o Ha k w1 Hw1) as (b & w2 & o' & E' & Eo' & Hb & Hw2).
  exists b, w2, (o ++ o'). split; [unfold mbind, io_bind; by rewrite E|].
  split; [by eapply extends_trans|done].
Qed.

(** A call without a trace in front. *)
Lemma performs_quiet {A B} n n' rs rs1 rs' (m : io A) (f : A → io B) P (Q : B → list output → Prop) :
  lives T D n rs rs1 m P → silent m (λ _, True) → (n ≤ n')%nat →
  (∀ a, P a → performs (n' - n) rs1 rs' (f a) Q) → performs n' rs rs' (m ≫= f) Q.
Proof.
  intros Hl Hs Hn Hf. eapply performs_step; [by apply performs_lives|done|]. intros a o [HP ->]. by apply Hf.
Qed.

(** A loop that is left in its first round. *)
Lemma performs_loop_once {S A} n rs rs' (body : S → io (S + A)) s (Q : A → list output → Prop) :
  performs n rs rs' (body s) (λ x o, match x with inl _ => False | inr a => Q a o end) →
  performs n rs rs' (loop body s) Q.
Proof.
  intros H k w Hw. destruct (H k w Hw) as ([s'|a] & w' & o & E & Eo & Ha & Hw'); [done|]. exists a, w', o.
  split; [|done]. unfold loop. cbn [iter]. unfold mbind, io_bind. by rewrite E.
Qed.

(** *** The calls of the main loop *)

Lemma lives_poll fds us p reads socks polls :
  lives T D 0 (Script reads socks (p :: polls)) (Script reads socks polls) (sys_poll fds us)
    (λ r, r = match p with PollReady l => PollReady (filter (λ fd, fd ∈ fds) l) | _ => p end).
Proof.
  intros k w [E [] [] [] [] []]. injection E as E1 E2 E3.
  unfold sys_poll, ask, mbind, io_bind. rewrite E3. do 2 eexists. split; [done|]. split; [done|].
  split; cbn; [congruence|done..].
Qed.

Lemma lives_socket fd reads socks polls :
  0 ≤ fd →
  lives T D 0 (Script reads (Some fd :: socks) polls) (Script reads socks polls) sys_socket (λ s, s = Some fd).
Proof.
  intros Hfd k w [E [] [] [] [] []]. injection E as E1 E2 E3.
  unfold sys_socket, ask, mbind, io_bind. rewrite E2, (proj2 (Z.ltb_ge fd 0)) by done.
  do 2 eexists. split; [done|]. split; [done|]. split; cbn; [congruence|done..].
Qed.

(** A path that fits the address. *)
Definition reachable_path (path : list Z) : Prop := 1 ≤ len path < SUN_PATH_SIZE.

Lemma lives_connect path fd reads socks polls :
  reachable_path path → 0 ≤ fd →
  lives T D 3 (Script reads (Some fd :: socks) polls) (Script reads socks polls) (connect_nonblocking path)
    (λ r, r = fd).
Proof.
  intros [H1 H2] Hfd. unfold connect_nonblocking, loraham_sock_connect, bridge_runtime_set_fd_nonblocking.
  rewrite (proj2 (Z.eqb_neq (len path) 0)), (proj2 (Z.leb_gt _ (len path))) by lia.
  eapply (lives_step _ _ 1 _ _ _ _ _ _ (λ r, r = fd)); [|lia|].
  { eapply lives_step; [by apply lives_socket|lia|]. intros ? ->.
    eapply lives_step; [apply lives_ok|lia|]. intros ? ->. by apply lives_done. }
  intros ? ->. rewrite (proj2 (Z.ltb_ge fd 0)) by done.
  eapply (lives_step _ _ 2 _ _ _ _ _ _ (λ r, r = LHKT_OK)); [|lia|].
  { eapply lives_step; [apply lives_ok|lia|]. intros ? ->.
    eapply lives_step; [apply lives_ok|lia|]. intros ? ->. by apply lives_done. }
  intros ? ->. by apply lives_done.
Qed.

(** The three commands of the initial configuration. *)
Lemma lives_initial_config cfg fd st rs :
  config_valid cfg → fd_bad fd = false → have_rx_freq cfg = 1 →
  lives T D 291 rs rs (bridge_loraham_send_initial_config_with_state cfg fd st)
    (λ r, r = (LHKT_OK, forget_status st)).
Proof.
  intros Hv Hfd Hrx. destruct (v_rx_freq cfg Hv) as [[H _]|[_ Hf]]; [congruence|].
  assert (0 ≤ fd) as Hpos by (unfold fd_bad in Hfd; lia).
  unfold bridge_loraham_send_initial_config_with_state, loraham_send_config, loraham_send_txresult_enable,
    bridge_loraham_send_status_request. rewrite (proj2 (Z.ltb_ge fd 0)), Hrx by done. cbn [negb Z.eqb].
  rewrite config_freq_sends by done. pose proof (config_line_short cfg (Some (rx_freq cfg)) Hv ltac:(naive_solver)) as Hl.
  eapply lives_step; [by apply lives_sends|lia|]. intros ? ->. cbn [negb Z.eqb LHKT_OK].
  eapply lives_step; [by apply lives_sends|change (length (str "SET TXRESULT=1" ++ [10])) with 15%nat; lia|].
  intros ? ->. cbn [negb Z.eqb LHKT_OK].
  eapply lives_step; [by apply lives_sends| |intros ? ->; by apply lives_done].
  change (length (str "SET TXRESULT=1" ++ [10])) with 15%nat. change (length (str "GET STATUS" ++ [10])) with 11%nat. lia.
Qed.
End performs.

(** ** States a round does not tell apart

    What the counters, the timers and the marks of the queue items do not show. *)
Definition stamped (q : bridge_tx_queue_t) : list (list Z * Z) :=
  map (λ item, (ti_packet item, ti_queued_ms item)) (Spec.contents q).

Record like (st st' : bridge_state) : Prop := {
  lk_client : br_client st' = br_client st;
  lk_data : br_data st' = br_data st;
  lk_conf : br_conf st' = br_conf st;
  lk_dec : br_dec st' = br_dec st;
  lk_params : br_params st' = br_params st;
  lk_frames : br_frames st' = br_frames st;
  lk_confst : br_confst st' = br_confst st;
  lk_wf : Spec.wf (br_queue st) ↔ Spec.wf (br_queue st');
  lk_queue : stamped (br_queue st') = stamped (br_queue st);
}.

#[export] Instance like_equiv : Equivalence like.
Proof.
  split.
  - by split.
  - intros ? ? []. by split.
  - intros ? ? ? [? ? ? ? ? ? ? W ?] [? ? ? ? ? ? ? W' ?]. split; try congruence. by rewrite W.
Qed.

#[export] Instance set_conf_like fd confst : Proper (like ==> like) (set_conf fd confst).
Proof. intros ? ? []. by split. Qed.
#[export] Instance set_data_like fd frames : Proper (like ==> like) (set_data fd frames).
Proof. intros ? ? []. by split. Qed.

Create HintDb like.

Lemma like_stats stats st : like st (set_stats stats st).
Proof. by split. Qed.
Lemma like_config_ok ok st : like st (set_config_ok ok st).
Proof. by split. Qed.
Lemma like_next_stats next st : like st (set_next_stats next st).
Proof. by split. Qed.
Lemma like_collect st : like st (collect_cad st).
Proof. unfold collect_cad. by destruct (bridge_conf_collect_cad_stats _ _) as [[? ?] ?]. Qed.
#[export] Hint Resolve like_stats like_config_ok like_next_stats like_collect : like.

(** A queue with another mark at its head. *)
Lemma set_head_stamped q item item' :
  Spec.wf q → bridge_tx_queue_head q = Some item →
  ti_packet item' = ti_packet item → ti_queued_ms item' = ti_queued_ms item →
  Spec.wf (bridge_tx_queue_set_head item' q) ∧ stamped (bridge_tx_queue_set_head item' q) = stamped q.
Proof.
  intros Hwf Hh Hp Ht. destruct (head_packets q item Hwf Hh) as (rest & _ & Hset).
  destruct (Hset item' Hp) as (Hw & _). split; [done|]. unfold stamped.
  rewrite head_contents in Hh by done.
  assert (tq_count q ≠ 0%nat) as Hc.
  { rewrite <-contents_length. by destruct (Spec.contents q). }
  rewrite contents_insert_head by done. destruct (Spec.contents q); [done|]. injection Hh as ->.
  cbn [tail map]. by rewrite Hp, Ht.
Qed.

Lemma packets_stamped q : packets q = map fst (stamped q).
Proof. unfold packets, stamped. by rewrite map_map. Qed.

(** The first packet does not expire before [T]. *)
Definition waits (T : Z) (cfg : lhkt_config_t) (q : bridge_tx_queue_t) (p : list Z) : Prop :=
  Spec.wf q ∧ ∃ t rest, stamped q = (p, t) :: rest ∧ T ≤ t + tx_packet_ttl_ms cfg.

Lemma waits_head T cfg q p :
  waits T cfg q p →
  ∃ item, bridge_tx_queue_head q = Some item ∧ ti_packet item = p ∧ T ≤ ti_queued_ms item + tx_packet_ttl_ms cfg.
Proof.
  intros [Hwf (t & rest & E & Ht)]. rewrite head_contents by done. unfold stamped in E.
  destruct (Spec.contents q) as [|item l]; [done|]. injection E as E1 E2 _. exists item.
  split; [done|]. split; [done|]. lia.
Qed.

#[export] Instance waits_like T cfg :
  Proper (like ==> eq ==> iff) (λ st p, waits T cfg (br_queue st) p).
Proof.
  intros st st' [_ _ _ _ _ _ _ W E] p p' <-. unfold waits. by rewrite E, W.
Qed.

(** ** The drain while it cannot send *)

Section rounds.
Context (T D : Z) (cfg : lhkt_config_t) (p : list Z).

Abbreviation performs := (performs T D).
Abbreviation lives := (lives T D).

Lemma tx_env_eta e : TxEnv (te_stats e) (te_conf e) (te_frames e) = e.
Proof. by destruct e. Qed.

(** No daemon: the packet stays. *)
Lemma drain_without_sockets client data conf q e rs :
  waits (T + D) cfg q p → data < 0 → conf < 0 →
  performs 1 rs rs (bridge_loraham_tx_queue_drain_with_client cfg client data conf (DrainState q e))
    (λ r o, o = [] ∧ (r.1 = LHKT_OK ∨ r.1 = LHKT_ERR_CONF_SOCKET) ∧ dr_env r.2 = e ∧
       (Spec.wf q ↔ Spec.wf (dr_queue r.2)) ∧ stamped (dr_queue r.2) = stamped q).
Proof.
  intros Hq Hd Hc. pose proof (proj1 Hq) as Hwf. destruct (waits_head _ _ _ _ Hq) as (item & Hh & _ & Httl).
  apply performs_loop_once. unfold drain_round. cbn [dr_queue dr_env]. rewrite Hh, (proj2 (Z.leb_gt 0 conf)) by done.
  eapply (performs_quiet _ _ 0 _ _ _ _ _ _ (λ r, r = (LHKT_OK, te_conf e)));
    [by apply lives_done|by apply silent_ret|lia|]. intros ? ->.
  rewrite tx_env_eta. cbn [negb Z.eqb LHKT_OK andb].
  destruct (_ && _); [apply performs_ret; by auto|].
  eapply performs_quiet; [apply lives_now|apply silent_now|lia|]. intros now [Hn1 Hn2].
  unfold bridge_tx_head_decision. rewrite (proj2 (Z.leb_gt (tx_packet_ttl_ms cfg) _)), andb_false_r by lia.
  rewrite (proj2 (Z.ltb_lt data 0)) by done. apply performs_ret. split; [done|]. split; [by left|]. split; [done|].
  destruct (set_head_stamped q item (TxItem (ti_packet item) (ti_queued_ms item) 0) Hwf Hh) as [Hw E]; done.
Qed.

(** The daemon has not reported its status yet. *)
Lemma drain_without_status client data conf q e rs :
  waits (T + D) cfg q p → 0 ≤ conf → cs_have_status (te_conf e) = 0 →
  performs 0 (hears [RdErr EAGAIN] rs) rs
    (bridge_loraham_tx_queue_drain_with_client cfg client data conf (DrainState q e))
    (λ r o, o = [] ∧ r = (LHKT_OK, DrainState q e)).
Proof.
  intros Hq Hc Hst. destruct (waits_head _ _ _ _ Hq) as (item & Hh & _ & Httl).
  apply performs_loop_once. unfold drain_round. cbn [dr_queue dr_env]. rewrite Hh, (proj2 (Z.leb_le 0 conf)) by done.
  eapply performs_quiet; [by apply lives_conf_read| |lia|].
  { intros w. eapply wp_mono; [apply bridge_conf_read_available_silent|]. naive_solver. }
  intros ? ->. rewrite tx_env_eta, Hst. by apply performs_ret.
Qed.

Lemma drain_step_without_sockets st rs :
  waits (T + D) cfg (br_queue st) p → br_data st < 0 → br_conf st < 0 →
  performs 1 rs rs (drain_step cfg st) (λ st' o, o = [] ∧ like st st').
Proof.
  intros Hq Hd Hc. unfold drain_step.
  eapply performs_step; [by apply drain_without_sockets|done|].
  intros [ret [q e]] o (-> & Hret & E & Hw & Hs). cbn [fst snd dr_queue dr_env] in *. subst e. cbn [te_stats te_conf te_frames].
  set (st1 := set_queue _ _). assert (like st st1) as H1 by (by split).
  eapply (performs_step _ _ 0 _ _ _ _ _ _ (λ st' o, o = [] ∧ like st st')); [|done|].
  - destruct Hret as [-> | ->]; [by apply performs_ret|]. unfold reconnect_policy, drop_conf. cbn [bridge_loraham_should_reconnect_data_socket bridge_loraham_should_reconnect_conf_socket].
    unfold bridge_loraham_disconnect_conf_socket. change (br_conf st1) with (br_conf st).
    rewrite (proj2 (Z.ltb_lt (br_conf st) 0)) by done. apply performs_ret. by split.
  - intros st2 o [-> H2]. apply performs_ret. split; [done|]. rewrite H2. auto with like.
Qed.

Lemma drain_step_without_status st rs :
  waits (T + D) cfg (br_queue st) p → 0 ≤ br_conf st → cs_have_status (br_confst st) = 0 →
  performs 0 (hears [RdErr EAGAIN] rs) rs (drain_step cfg st)
    (λ st' o, o = [] ∧ like st st' ∧ br_config_ok st' = br_config_ok st).
Proof.
  intros Hq Hc Hst. unfold drain_step.
  eapply performs_step; [by apply drain_without_status|done|].
  intros [ret d] o (-> & [= -> ->]). cbn [dr_queue dr_env te_stats te_conf te_frames].
  eapply (performs_step _ _ 0 _ _ _ _ _ _ (λ st' o, o = [] ∧ like st st' ∧ br_config_ok st' = br_config_ok st)); [|done|].
  - by apply performs_ret.
  - intros st2 o (-> & H2 & Hok). apply performs_ret. split; [done|].
    split; [rewrite H2; auto with like|]. unfold collect_cad. by destruct (bridge_conf_collect_cad_stats _ _) as [[? ?] ?].
Qed.

(** ** A round *)

(** All descriptors fit the set of [select]. *)
Definition watchable (listen_fd : Z) (st : bridge_state) : Prop :=
  0 ≤ listen_fd < FD_SETSIZE ∧ br_client st < FD_SETSIZE ∧ br_data st < FD_SETSIZE ∧ br_conf st < FD_SETSIZE.

Lemma add_fd_some fd fds max_fd :
  0 ≤ fd < FD_SETSIZE → ∃ max', add_fd fd (Some (fds, max_fd)) = Some (fd :: fds, max').
Proof.
  intros [H1 H2]. unfold add_fd, bridge_runtime_add_fd_to_set. cbn.
  rewrite (proj2 (Z.ltb_ge fd 0)), (proj2 (Z.leb_gt FD_SETSIZE fd)) by done. by eexists.
Qed.

Lemma wait_set_some listen_fd st :
  watchable listen_fd st →
  ∃ fds max_fd, wait_set listen_fd st = Some (fds, max_fd) ∧ (0 ≤ br_conf st → br_conf st ∈ fds).
Proof.
  intros (Hl & Hk & Hd & Hc). unfold wait_set.
  assert (∃ fds m, (if 0 <=? br_data st then add_fd (br_data st) (Some ([], -1)) else Some ([], -1)) = Some (fds, m)) as (fds & m & ->).
  { destruct (Z.leb_spec 0 (br_data st)); [|by eauto]. destruct (add_fd_some (br_data st) [] (-1)) as [? ->]; [lia|by eauto]. }
  assert (∃ fds' m', (if 0 <=? br_conf st then add_fd (br_conf st) (Some (fds, m)) else Some (fds, m)) = Some (fds', m') ∧
    (0 ≤ br_conf st → br_conf st ∈ fds')) as (fds' & m' & -> & Hin).
  { destruct (Z.leb_spec 0 (br_conf st)); [|by exists fds, m; split; [|lia]].
    destruct (add_fd_some (br_conf st) fds m) as [m' ->]; [lia|]. do 2 eexists. split; [done|]. intros _. by left. }
  set (fd := if 0 <=? br_client st then br_client st else listen_fd).
  destruct (add_fd_some fd fds' m') as [m2 ->]; [unfold fd; destruct (Z.leb_spec 0 (br_client st)); lia|].
  do 2 eexists. split; [done|]. intros H. right. by apply Hin.
Qed.

Lemma choose_timeout_performs st rs :
  performs 1 rs rs (choose_timeout cfg st) (λ r o, o = [] ∧ ∃ next, r.1 = set_next_stats next st).
Proof.
  unfold choose_timeout. destruct (0 <? stats_interval cfg).
  - eapply (performs_step _ _ 1 _ _ _ _ _ _ (λ r o, o = [] ∧ ∃ next, r.1 = set_next_stats next st)); [|done|].
    + eapply performs_quiet; [apply lives_now|apply silent_now|done|]. intros now _.
      destruct (stats_timeout _ _ _ _) as [next t]. apply performs_ret. split; [done|]. by exists next.
    + intros [st' t] o [-> [next E]]. cbn [fst] in E. subst st'. apply performs_ret. split; [done|]. by exists next.
  - eapply (performs_step _ _ 0 _ _ _ _ _ _ (λ r o, o = [] ∧ r.1 = st)); [by apply performs_ret|lia|].
    intros [st' t] o [-> E]. cbn [fst] in E. subst st'. apply performs_ret. split; [done|].
    exists (br_next_stats st). by destruct st.
Qed.

(** What a round does with the answer of [select]. *)
Definition after_poll (listen_fd : Z) (r : poll_answer) (st : bridge_state) : io (flow * bridge_state) :=
  match r with
  | PollErr EINTR => mret (Continue, st)
  | PollErr _ => mret (Break, st)
  | PollTimeout => st ← idle_step cfg st; mret (Continue, st)
  | PollReady ready => ready_step cfg listen_fd ready st
  end.

Lemma bridge_round_performs n n' N rs reads socks polls rs' listen_fd st ready (P : bridge_state → list output → Prop) Q :
  performs n rs (Script reads socks (match ready with Some l => PollReady l | None => PollTimeout end :: polls))
    (drain_step cfg st) P →
  (∀ st' o, P st' o → watchable listen_fd st' ∧ ∀ l, ready = Some l → Forall (λ fd, fd = br_conf st' ∧ 0 ≤ fd) l) →
  (∀ st' o next, P st' o →
     performs n' (Script reads socks polls) rs'
       (after_poll listen_fd (match ready with Some l => PollReady l | None => PollTimeout end) (set_next_stats next st'))
       (λ r o', Q r (o ++ o'))) →
  (n + (1 + n') ≤ N)%nat → performs N rs rs' (bridge_round cfg listen_fd st) Q.
Proof.
  intros Hdrain Hfds Hk HN. unfold bridge_round. eapply performs_step; [exact Hdrain|lia|]. intros st1 o1 H1.
  destruct (Hfds _ _ H1) as [Hw Hl]. destruct (wait_set_some _ _ Hw) as (fds & m & -> & Hin).
  eapply performs_step; [apply choose_timeout_performs|lia|]. intros [st2 [sec usec]] o2 [-> [next E]].
  cbn [fst] in E. subst st2. eapply performs_quiet; [apply lives_poll| |lia|].
  { intros w. apply wp_poll. intros r w' [E L]. split; [done|]. split; [lia|done]. }
  intros r ->. eapply (performs_mono _ _ n'); [|lia|].
  - specialize (Hk _ _ next H1). destruct ready as [l|]; [|exact Hk].
    rewrite (filter_all (λ fd, fd ∈ fds) l); [exact Hk|].
    apply (Forall_impl _ _ _ (Hl l eq_refl)). intros fd [-> ?]. by apply Hin.
  - intros r o H. by cbn [app].
Qed.

(** ** The four rounds *)

Definition unwritten (o : list output) : Prop := ∀ fd, written fd o = [].

Lemma unwritten_nil : unwritten [].
Proof. done. Qed.
Lemma unwritten_app a b : unwritten a → unwritten b → unwritten (a ++ b).
Proof. intros Ha Hb fd. by rewrite written_app, Ha, Hb. Qed.

Lemma close_unwritten fd : yields (lhkt_tcp_server_close fd) (λ _ o, unwritten o).
Proof.
  unfold lhkt_tcp_server_close. destruct (0 <=? fd); [by apply yields_emit|by apply yields_ret].
Qed.

Lemma connect_unwritten path : yields (connect_nonblocking path) (λ _ o, unwritten o).
Proof.
  unfold connect_nonblocking. eapply (yields_bind _ _ (λ _ o, unwritten o)).
  - unfold loraham_sock_connect. destruct (_ =? _); [by apply yields_ret|].
    apply (yields_bind _ _ (λ _ o, unwritten o)); [by apply yields_socket|].
    intros [fd|] o Ho; [|apply yields_ret; by rewrite app_nil_r].
    assert (∀ e, yields (_ ← sys_close fd; mret e) (λ (_ : Z) o', unwritten o')) as Hc.
    { intros e. by eapply yields_bind; [apply (yields_emit _ (λ _ o, unwritten o))|intros [] o' H; apply yields_ret; by rewrite app_nil_r]. }
    eapply yields_mono; [|intros a o' H; apply unwritten_app; [exact Ho|exact H]].
    destruct (_ <=? _); [apply Hc|]. eapply yields_silent_bind; [apply silent_ok|]. intros [] _; [by apply yields_ret|apply Hc].
  - intros fd o Ho. destruct (fd <? 0); [apply yields_ret; by rewrite app_nil_r|].
    eapply yields_silent_bind; [apply set_nonblocking_silent|]. intros ret _.
    destruct (negb _); [|apply yields_ret; by rewrite app_nil_r].
    eapply yields_bind; [apply close_unwritten|]. intros [] o' Ho'. apply yields_ret. rewrite app_nil_r. by apply unwritten_app.
Qed.

Lemma performs_connect path fd reads socks polls :
  reachable_path path → 0 ≤ fd →
  performs 3 (Script reads (Some fd :: socks) polls) (Script reads socks polls) (connect_nonblocking path)
    (λ r o, r = fd ∧ unwritten o).
Proof. intros Hp Hfd. apply performs_intro; [by apply lives_connect|apply connect_unwritten]. Qed.

(** *** When nothing is ready *)

Lemma idle_connects_conf st c reads socks polls :
  reachable_path (conf_socket cfg) → 0 ≤ c → br_conf st < 0 →
  performs 3 (Script reads (Some c :: socks) polls) (Script reads socks polls) (idle_step cfg st)
    (λ st' o, st' = set_conf c bridge_conf_state_init st ∧ unwritten o).
Proof.
  intros Hp Hc Hst. unfold idle_step, bridge_loraham_connect_conf_socket. rewrite (proj2 (Z.ltb_lt (br_conf st) 0)) by done.
  eapply (performs_step _ _ 3 _ _ _ _ _ _ (λ r o, r = (c, bridge_conf_state_init) ∧ unwritten o)); [|done|].
  - eapply performs_step; [by apply performs_connect|done|]. intros ? o [-> Ho]. apply performs_ret.
    rewrite app_nil_r, (proj2 (Z.ltb_ge c 0)) by done. done.
  - intros ? o [-> Ho]. apply performs_ret. by rewrite app_nil_r.
Qed.

Lemma send_initial_config_performs st rs :
  config_valid cfg → fd_bad (br_conf st) = false → have_rx_freq cfg = 1 →
  performs 291 rs rs (send_initial_config cfg st) (λ r o,
    r = (true, set_conf (br_conf st) (forget_status (br_confst st)) st) ∧
    written (br_conf st) o = rx_line cfg ++ status_lines ∧ ∀ fd, fd ≠ br_conf st → written fd o = []).
Proof.
  intros Hv Hc Hrx. unfold send_initial_config. eapply performs_step; [|done|].
  { apply (performs_intro _ _ _ _ _ _ _ _ (lives_initial_config _ _ _ _ _ _ Hv Hc Hrx)
      (yields_and _ _ _ (initial_config_done cfg _ _) (initial_config_yields cfg _ _))). }
  intros ? o (-> & H & F). destruct (H eq_refl) as [_ Hw]. apply performs_ret. rewrite app_nil_r.
  split; [done|]. split; [apply Hw; lia|]. intros fd Hne. by rewrite (writes_other (br_conf st) fd).
Qed.

Lemma idle_connects_data st d reads socks polls :
  config_valid cfg → have_rx_freq cfg = 1 → reachable_path (data_socket cfg) → 0 ≤ d →
  fd_bad (br_conf st) = false → br_data st < 0 →
  performs 294 (Script reads (Some d :: socks) polls) (Script reads socks polls) (idle_step cfg st) (λ st' o,
    like (set_conf (br_conf st) (forget_status (br_confst st)) (set_data d loraham_framed_rx_state_init st)) st' ∧
    br_config_ok st' = true ∧
    written (br_conf st) o = rx_line cfg ++ status_lines ∧ ∀ fd, fd ≠ br_conf st → written fd o = []).
Proof.
  intros Hv Hrx Hp Hd Hc Hst. unfold idle_step.
  assert (0 ≤ br_conf st) as Hpos by (unfold fd_bad in Hc; lia).
  rewrite (proj2 (Z.ltb_ge (br_conf st) 0)), (proj2 (Z.ltb_lt (br_data st) 0)) by done.
  eapply performs_step; [by apply performs_connect|lia|]. intros ? o [-> Ho].
  rewrite (proj2 (Z.leb_le 0 d)) by done. cbv zeta.
  eapply performs_step; [apply send_initial_config_performs; by auto|lia|]. intros ? o' (-> & Hw & Hother).
  apply performs_ret. rewrite app_nil_r. cbn [br_conf set_data set_stats] in *. split; [by split|]. split; [done|].
  split; [by rewrite written_app, Ho, Hw|]. intros fd Hne. rewrite written_app, Ho. by apply Hother.
Qed.

Lemma idle_connected st rs :
  0 ≤ br_conf st → 0 ≤ br_data st → br_config_ok st = true →
  performs 0 rs rs (idle_step cfg st) (λ st' o, st' = st ∧ o = []).
Proof.
  intros Hc Hd Hok. unfold idle_step.
  rewrite (proj2 (Z.ltb_ge (br_conf st) 0)), (proj2 (Z.ltb_ge (br_data st) 0)), Hok by done. by apply performs_ret.
Qed.

(** *** When the CONF socket is ready *)

Lemma lives_conf_status fd st line rs :
  0 ≤ fd → line ≠ [] → (length line ≤ 256)%nat →
  lives 0 (hears [RdData line; RdErr EAGAIN] rs) rs (bridge_conf_read_available fd st)
    (λ r, r = (LHKT_OK, bridge_conf_feed st line)).
Proof.
  intros Hfd Hne Hl. pose proof (lives_conf_read T D fd (bridge_conf_feed st line) rs Hfd) as Hlast. revert Hlast.
  unfold bridge_conf_read_available. rewrite (proj2 (Z.ltb_ge fd 0)) by done. intros Hlast. rewrite hears_cons.
  apply lives_loop.
  { intros s w. apply wp_bind, wp_read. intros r w' [_ L] _. by destruct r as [[|b bs]|[]]. }
  apply lives_assoc.
  eapply lives_step; [apply lives_read|done|]. intros ? ->. rewrite take_ge by done.
  destruct line as [|b line]; [done|]. exact Hlast.
Qed.

(** *** First round: the CONF socket *)

Lemma first_round listen_fd st c reads socks polls :
  waits (T + D) cfg (br_queue st) p → watchable listen_fd st → br_conf st < 0 → br_data st < 0 →
  reachable_path (conf_socket cfg) → 0 ≤ c →
  performs 10 (Script reads (Some c :: socks) (PollTimeout :: polls)) (Script reads socks polls)
    (bridge_round cfg listen_fd st)
    (λ r o, r.1 = Continue ∧ like (set_conf c bridge_conf_state_init st) r.2 ∧ unwritten o).
Proof.
  intros Hq Hw Hc Hd Hp Hfd. eapply (bridge_round_performs 1 3 10 _ _ _ _ _ _ _ None).
  - by apply drain_step_without_sockets.
  - intros st1 o [_ H]. split; [|done]. destruct H as [E1 E2 E3 _ _ _ _ _ _]. unfold watchable in *. by rewrite E1, E2, E3.
  - intros st1 o next [-> H]. cbn [after_poll].
    eapply (performs_step _ _ 3); [apply idle_connects_conf; [done..|by cbn; rewrite (lk_conf _ _ H)]|done|].
    intros st2 o [-> Ho]. apply performs_ret. rewrite app_nil_r. split; [done|]. split; [|exact Ho].
    cbn [snd]. by rewrite <-(like_next_stats next st1), <-H.
  - lia.
Qed.

(** *** Second round: the DATA socket and the configuration *)

Lemma second_round listen_fd st d reads socks polls :
  config_valid cfg → have_rx_freq cfg = 1 → waits (T + D) cfg (br_queue st) p → watchable listen_fd st →
  0 ≤ br_conf st → br_data st < 0 → cs_have_status (br_confst st) = 0 →
  reachable_path (data_socket cfg) → 0 ≤ d →
  performs 300 (hears [RdErr EAGAIN] (Script reads (Some d :: socks) (PollTimeout :: polls))) (Script reads socks polls)
    (bridge_round cfg listen_fd st)
    (λ r o, r.1 = Continue ∧
       like (set_conf (br_conf st) (forget_status (br_confst st)) (set_data d loraham_framed_rx_state_init st)) r.2 ∧
       br_config_ok r.2 = true ∧
       written (br_conf st) o = rx_line cfg ++ status_lines ∧ ∀ fd, fd ≠ br_conf st → written fd o = []).
Proof.
  intros Hv Hrx Hq Hw Hc Hd Hst Hp Hfd. eapply (bridge_round_performs 0 294 300 _ _ _ _ _ _ _ None).
  - apply (drain_step_without_status st (Script reads (Some d :: socks) (PollTimeout :: polls))); done.
  - intros st1 o (_ & H & _). split; [|done]. destruct H as [E1 E2 E3 _ _ _ _ _ _]. unfold watchable in *. by rewrite E1, E2, E3.
  - intros st1 o next (-> & H & _). cbn [after_poll]. destruct Hw as (_ & _ & _ & Hcs).
    pose proof (lk_conf _ _ H) as Ec. pose proof (lk_confst _ _ H) as Ecs.
    eapply (performs_step _ _ 294); [apply idle_connects_data; try done; cbn [br_conf br_data set_next_stats]|done|].
    + unfold fd_bad. rewrite Ec. lia.
    + by rewrite (lk_data _ _ H).
    + intros st2 o (H2 & Hok & Hwr & Hother). apply performs_ret. rewrite app_nil_r.
      cbn [br_conf br_confst set_next_stats] in *. rewrite Ec, Ecs in *.
      split; [done|]. split; [|done]. cbn [snd]. by rewrite <-H2, <-(like_next_stats next st1), <-H.
  - lia.
Qed.

(** *** Third round: the status *)

Lemma conf_step_reads st line rs :
  0 ≤ br_conf st → line ≠ [] → (length line ≤ 256)%nat →
  performs 0 (hears [RdData line; RdErr EAGAIN] rs) rs (conf_step [br_conf st] st)
    (λ r o, o = [] ∧ r.1 = Go ∧ like (set_conf (br_conf st) (bridge_conf_feed (br_confst st) line) st) r.2 ∧
       br_config_ok r.2 = br_config_ok st).
Proof.
  intros Hc Hne Hl. unfold conf_step. rewrite (proj2 (Z.leb_le 0 (br_conf st))), bool_decide_true by (done || by left). cbn [andb].
  eapply performs_quiet; [by apply lives_conf_status| |done|].
  { intros w. eapply wp_mono; [apply bridge_conf_read_available_silent|]. naive_solver. }
  intros ? ->. cbn [negb Z.eqb LHKT_OK]. apply performs_ret. split; [done|]. split; [done|]. split; [apply like_collect|].
  cbn [snd]. unfold collect_cad. by destruct (bridge_conf_collect_cad_stats _ _) as [[? ?] ?].
Qed.

Lemma third_round listen_fd st line reads socks polls :
  waits (T + D) cfg (br_queue st) p → watchable listen_fd st → 0 ≤ br_conf st →
  br_data st ≠ br_conf st → br_client st ≠ br_conf st → listen_fd ≠ br_conf st →
  cs_have_status (br_confst st) = 0 → line ≠ [] → (length line ≤ 256)%nat →
  performs 1 (hears [RdErr EAGAIN; RdData line; RdErr EAGAIN] (Script reads socks (PollReady [br_conf st] :: polls)))
    (Script reads socks polls) (bridge_round cfg listen_fd st)
    (λ r o, o = [] ∧ r.1 = Go ∧ like (set_conf (br_conf st) (bridge_conf_feed (br_confst st) line) st) r.2 ∧
       br_config_ok r.2 = br_config_ok st).
Proof.
  intros Hq Hw Hc Hd Hk Hlc Hst Hne Hl. eapply (bridge_round_performs 0 0 1 _ _ _ _ _ _ _ (Some [br_conf st])).
  - apply (drain_step_without_status st (Script (RdData line :: RdErr EAGAIN :: reads) socks (PollReady [br_conf st] :: polls))); done.
  - intros st1 o (_ & H & _). destruct H as [E1 E2 E3 _ _ _ _ _ _]. split.
    + unfold watchable in *. by rewrite E1, E2, E3.
    + intros l [= <-]. rewrite E3. apply Forall_singleton. lia.
  - intros st1 o next (-> & H & Hok). cbn [after_poll]. unfold ready_step, andthen.
    pose proof (lk_client _ _ H) as E1. pose proof (lk_data _ _ H) as E2. pose proof (lk_conf _ _ H) as E3.
    set (st2 := set_next_stats next st1).
    assert (accept_step cfg listen_fd [br_conf st] st2 = mret (Go, st2)) as ->.
    { unfold accept_step. rewrite (bool_decide_false (listen_fd ∈ _)) by (by rewrite list_elem_of_singleton). by rewrite andb_false_r. }
    eapply (performs_quiet _ _ 0 _ _ _ _ _ _ (λ r, r = (Go, st2))); [by apply lives_done|by apply silent_ret|done|]. intros ? ->.
    assert (client_step cfg [br_conf st] st2 = mret (Go, st2)) as ->.
    { unfold client_step. rewrite (bool_decide_false (br_client st2 ∈ _)) by (rewrite list_elem_of_singleton; cbn; congruence). by rewrite andb_false_r. }
    eapply (performs_quiet _ _ 0 _ _ _ _ _ _ (λ r, r = (Go, st2))); [by apply lives_done|by apply silent_ret|done|]. intros ? ->.
    change (Script (RdData line :: RdErr EAGAIN :: reads) socks polls) with (hears [RdData line; RdErr EAGAIN] (Script reads socks polls)).
    rewrite <-E3. change (br_conf st1) with (br_conf st2).
    eapply (performs_step _ _ 0); [apply conf_step_reads; [cbn; by rewrite E3|done..]|done|].
    intros [f st3] o (-> & Ef & H3 & Hok3). cbn [fst snd] in *. subst f.
    assert (data_step [br_conf st2] st3 = mret (Go, st3)) as ->.
    { unfold data_step. rewrite (bool_decide_false (br_data st3 ∈ _)), ?andb_false_r by
        (rewrite list_elem_of_singleton, (lk_data _ _ H3); cbn; congruence). done. }
    apply performs_ret. split; [done|]. split; [done|]. cbn [fst snd].
    split; [|rewrite Hok3; exact Hok]. rewrite <-H3. subst st2. cbn [br_conf br_confst set_next_stats]. rewrite E3, (lk_confst _ _ H).
    by rewrite <-(like_next_stats next st1), <-H.
  - lia.
Qed.

(** *** Fourth round: the packet *)

Lemma waits_packets q rest :
  waits T cfg q p → packets q = p :: rest → Spec.wf q ∧ ∃ item,
    bridge_tx_queue_head q = Some item ∧ ti_packet item = p ∧ packets q = ti_packet item :: rest ∧
    T ≤ ti_queued_ms item + tx_packet_ttl_ms cfg.
Proof.
  intros Hq Ep. split; [apply Hq|]. destruct (waits_head _ _ _ _ Hq) as (item & Hh & E & Ht).
  exists item. by rewrite E.
Qed.
End rounds.

Lemma fourth_drain T cfg st p rest x rs :
  let D := tx_busy_timeout_ms cfg in
  waits (T + D) cfg (br_queue st) p → packets (br_queue st) = p :: rest →
  sendable cfg (br_data st) (br_conf st) → distinct st → daemon_idle (br_confst st) →
  answers (br_client st) (br_frames st) x →
  ∃ heard unread, an_chunks x = heard ++ unread ∧
    performs T D (784 + 3 * length (an_chunks x)) (hears (RdErr EAGAIN :: map RdData (an_chunks x)) rs)
      (hears (map RdData unread) rs) (drain_step cfg st)
      (λ st' o, written (br_data st) o = tx_frame p ∧ packets (br_queue st') = rest ∧
         br_client st' = br_client st ∧ br_data st' = br_data st ∧ br_conf st' = br_conf st ∧
         br_confst st' = br_confst st ∧ br_config_ok st' = br_config_ok st).
Proof.
  intros D Hq Ep Hs Hdist Hidle Hx. destruct (waits_packets _ _ _ _ _ Hq Ep) as (Hwf & item & Hh & <- & Ep' & Httl).
  set (e := TxEnv (br_stats st) (br_confst st) (Some (br_frames st))).
  destruct (lives_drain_round T D cfg (br_client st) (br_data st) (br_conf st) (br_queue st) e (br_frames st) x item
    rest rs Hs eq_refl Hwf Hh Ep' Httl Hidle eq_refl Hx) as (heard & unread & E & Hlive).
  exists heard, unread. split; [done|]. unfold drain_step.
  assert (0 ≤ br_data st ∧ 0 ≤ br_conf st) as [Hd Hc].
  { destruct Hs as (_ & _ & _ & H1 & H2). unfold fd_bad in *. lia. }
  destruct Hdist as [Dd Dc]. destruct (Dd Hd) as [D1 D2].
  eapply (performs_step _ _ _ _ _ _ _ _ _ (λ r o, r.1 = LHKT_OK ∧ written (br_data st) o = tx_frame (ti_packet item) ∧
    packets (dr_queue r.2) = rest ∧ te_conf (dr_env r.2) = br_confst st)); [|done|].
  - unfold bridge_loraham_tx_queue_drain_with_client. apply performs_loop_once.
    eapply performs_mono; [apply performs_intro; [exact Hlive|]|done|].
    { eapply (drain_round_yields _ _ _ _ _ (br_frames st)); [exact D2|by apply Dc|exact D1|done|done]. }
    intros r o [(d' & -> & Hp & He) [_ Hy]]. cbn [fst snd dr_queue]. rewrite He. split; [done|].
    split; [|done]. cbn [dr_queue] in Hy. rewrite Ep', Hp in Hy.
    destruct Hy as [(_ & Hy & _)|(p & rest2 & e2 & flag & [= <- <-] & _ & _ & Hy & Hrun)];
      [by apply (f_equal length) in Hy; cbn in Hy; lia|].
    destruct flag; [|apply (f_equal length) in Hy; cbn in Hy; lia].
    by apply (run_data cfg (br_data st) (br_conf st) _ _ _ _ _ _ D2) in Hrun.
  - intros [ret d] o (Eret & Hw & Hp & He). cbn [fst snd] in *. subst ret.
    eapply (performs_step _ _ 0 _ _ _ _ _ _ (λ st' o, o = [] ∧ st' = _)); [by apply performs_ret|lia|].
    intros ? o' [-> ->]. apply performs_ret. rewrite !app_nil_r.
    unfold collect_cad. destruct (bridge_conf_collect_cad_stats _ _) as [[? ?] ?]. by split_and!.
Qed.

Lemma fourth_round T cfg listen_fd st p rest x reads socks polls :
  let D := tx_busy_timeout_ms cfg in
  waits (T + D) cfg (br_queue st) p → packets (br_queue st) = p :: rest →
  sendable cfg (br_data st) (br_conf st) → distinct st → daemon_idle (br_confst st) →
  answers (br_client st) (br_frames st) x → watchable listen_fd st → br_config_ok st = true →
  ∃ reads', performs T D (785 + 3 * length (an_chunks x))
      (hears (RdErr EAGAIN :: map RdData (an_chunks x)) (Script reads socks (PollTimeout :: polls)))
      (Script reads' socks polls) (bridge_round cfg listen_fd st)
      (λ r o, r.1 = Continue ∧ written (br_data st) o = tx_frame p ∧ packets (br_queue r.2) = rest ∧
         br_client r.2 = br_client st ∧ br_data r.2 = br_data st ∧ br_conf r.2 = br_conf st ∧
         br_config_ok r.2 = true).
Proof.
  intros D Hq Ep Hs Hdist Hidle Hx Hw Hok.
  destruct (fourth_drain T cfg st p rest x (Script reads socks (PollTimeout :: polls)) Hq Ep Hs Hdist Hidle Hx)
    as (heard & unread & E & Hdrain).
  assert (0 ≤ br_data st ∧ 0 ≤ br_conf st) as [Hd Hc].
  { destruct Hs as (_ & _ & _ & H1 & H2). unfold fd_bad in *. lia. }
  exists (map RdData unread ++ reads).
  eapply (bridge_round_performs T D cfg _ 0 _ _ _ _ _ _ _ _ None); [exact Hdrain| | |lia].
  - intros st1 o (_ & _ & E1 & E2 & E3 & _). split; [|done]. unfold watchable in *. by rewrite E1, E2, E3.
  - intros st1 o next (Hwr & Hp & E1 & E2 & E3 & _ & Eok). cbn [after_poll].
    eapply (performs_step _ _ 0); [apply idle_connected; cbn; [by rewrite E3|by rewrite E2|by rewrite Eok]|done|].
    intros st2 o' [-> ->]. apply performs_ret. rewrite !app_nil_r. cbn. by rewrite Eok.
Qed.

(** ** Several turns of the main loop

    [None] when the loop was left. *)
Fixpoint turns (cfg : lhkt_config_t) (listen_fd : Z) (n : nat) (st : bridge_state) : io (option bridge_state) :=
  match n with
  | O => mret (Some st)
  | S n =>
      stop ← bridge_runtime_should_stop;
      if (stop : bool) then mret None
      else
        '(f, st) ← bridge_round cfg listen_fd st;
        match f with Break => mret None | _ => turns cfg listen_fd n st end
  end.

(** The loop passes through the state after the turns. *)
Lemma turns_loop cfg listen_fd n : ∀ st w st' w',
  turns cfg listen_fd n st w = Some (Some st', w') →
  bridge_loop cfg listen_fd st w = bridge_loop cfg listen_fd st' w'.
Proof.
  induction n as [|n IH]; intros st w st' w' E; [by injection E as -> ->|].
  unfold bridge_loop. rewrite loop_unfold.
  - cbn [turns] in E. unfold mbind, io_bind in *.
    destruct (bridge_runtime_should_stop w) as [[[] w1]|]; [done| |done].
    destruct (bridge_round cfg listen_fd st w1) as [[[[] st1] w2]|]; [..|done]; [by apply IH|by apply IH|done].
  - intros st1 w1. apply wp_bind, wp_should_stop. intros [] w2 [_ L]; [done|]. apply wp_bind.
    eapply wp_mono; [apply bridge_round_keeps|]. intros [f st2] w3 (o & _ & L2 & _). apply wp_ret.
    destruct f; [lia|lia|done].
Qed.

Lemma turns_add cfg listen_fd n m : ∀ st w st1 w1 r,
  turns cfg listen_fd n st w = Some (Some st1, w1) → turns cfg listen_fd m st1 w1 = r →
  turns cfg listen_fd (n + m) st w = r.
Proof.
  induction n as [|n IH]; intros st w st1 w1 r E H; [by injection E as -> ->|].
  cbn [turns Nat.add] in *. unfold mbind, io_bind in *.
  destruct (bridge_runtime_should_stop w) as [[[] w2]|]; [done| |done].
  by destruct (bridge_round cfg listen_fd st w2) as [[[[] st2] w3]|]; [eapply IH|eapply IH|..].
Qed.

Lemma turns_performs T D cfg listen_fd n N m rs rs1 rs' st P Q :
  performs T D n rs rs1 (bridge_round cfg listen_fd st) (λ r o, r.1 ≠ Break ∧ P r.2 o) → (1 + n ≤ N)%nat →
  (∀ st' o, P st' o → performs T D (N - 1 - n) rs1 rs' (turns cfg listen_fd m st') (λ r o', Q r (o ++ o'))) →
  performs T D N rs rs' (turns cfg listen_fd (S m) st) Q.
Proof.
  intros Hr HN Hk. cbn [turns].
  eapply performs_quiet; [apply lives_should_stop|apply silent_should_stop|lia|]. intros ? ->.
  eapply performs_step; [exact Hr|lia|]. intros [f st'] o [Hf H]. cbn [fst snd] in *.
  destruct f; [by apply Hk|by apply Hk|done].
Qed.

(** ** The outage *)

(** Descriptors the daemon connections can get: usable, and not in use. *)
Definition new_fds (listen_fd : Z) (st : bridge_state) (c d : Z) : Prop :=
  fd_bad listen_fd = false ∧ br_client st < FD_SETSIZE ∧ fd_bad c = false ∧ fd_bad d = false ∧
  c ≠ d ∧ listen_fd ≠ c ∧ br_client st ≠ c ∧ br_client st ≠ d.

(** What the peers do: the daemon accepts both connections, reports its status, and
    answers the packet with [x]; the CONF socket is silent otherwise. *)
Definition recovery (c d : Z) (line : list Z) (x : answer) (rs : script) : script :=
  Script (RdErr EAGAIN :: RdErr EAGAIN :: RdData line :: RdErr EAGAIN :: RdErr EAGAIN ::
            map RdData (an_chunks x) ++ sc_read rs)
    (Some c :: Some d :: sc_socket rs)
    (PollTimeout :: PollTimeout :: PollReady [c] :: PollTimeout :: sc_poll rs).

(** The two connections are there and the status is known. *)
Lemma three_turns T D cfg listen_fd st c d line p rest x rs :
  config_valid cfg → have_rx_freq cfg = 1 →
  reachable_path (conf_socket cfg) → reachable_path (data_socket cfg) →
  br_conf st < 0 → br_data st < 0 → new_fds listen_fd st c d →
  waits (T + D) cfg (br_queue st) p → packets (br_queue st) = p :: rest →
  line ≠ [] → (length line ≤ 256)%nat →
  performs T D 400 (recovery c d line x rs)
    (hears (RdErr EAGAIN :: map RdData (an_chunks x)) (Script (sc_read rs) (sc_socket rs) (PollTimeout :: sc_poll rs)))
    (turns cfg listen_fd 3 st)
    (λ r o, ∃ st', r = Some st' ∧ br_config_ok st' = true ∧
       like (set_conf c (bridge_conf_feed bridge_conf_state_init line) (set_data d loraham_framed_rx_state_init st)) st' ∧
       written d o = [] ∧ written c o = rx_line cfg ++ status_lines).
Proof.
  intros Hv Hrx Hpc Hpd Hc Hd (Hfl & Hfk & Hfc & Hfd & Ncd & Nlc & Nkc & Nkd) Hq Ep Hne Hl.
  assert (0 ≤ listen_fd < FD_SETSIZE ∧ 0 ≤ c < FD_SETSIZE ∧ 0 ≤ d < FD_SETSIZE) as (Bl & Bc & Bd)
    by (unfold fd_bad in *; lia).
  eapply (turns_performs _ _ _ _ 10 _ _ _ _ _ _ (λ st1 o, like (set_conf c bridge_conf_state_init st) st1 ∧ unwritten o)).
  { eapply performs_mono; [eapply (first_round T D cfg p)|done|]; try done.
    { unfold watchable. lia. } { lia. }
    intros [f st1] o (Ef & H & Ho). cbn [fst snd] in *. by subst f. }
  { lia. }
  intros st1 o1 [H1 Ho1]. pose proof (proj1 (waits_like _ _ _ _ H1 p p eq_refl) Hq) as Hq1.
  pose proof (lk_conf _ _ H1) as C1. pose proof (lk_data _ _ H1) as D1. pose proof (lk_client _ _ H1) as K1.
  pose proof (lk_confst _ _ H1) as S1. cbn [br_conf br_data br_client br_confst set_conf] in C1, D1, K1, S1.
  eapply (turns_performs _ _ _ _ 300 _ _ _ _ _ _ (λ st2 o,
    like (set_conf c bridge_conf_state_init (set_data d loraham_framed_rx_state_init st1)) st2 ∧ br_config_ok st2 = true ∧
    written c o = rx_line cfg ++ status_lines ∧ ∀ fd, fd ≠ c → written fd o = [])).
  { eapply performs_mono; [eapply (second_round T D cfg p listen_fd st1 d)|done|]; try done.
    { unfold watchable. lia. } { lia. } { lia. } { by rewrite S1. } { lia. }
    rewrite C1, S1. intros [f st2] o (Ef & H & Hok & Hwr & Hother). cbn [fst snd] in *. by subst f. }
  { lia. }
  intros st2 o2 (H2 & Hok2 & Hwr2 & Hother2). rewrite <-H1 in H2.
  pose proof (proj1 (waits_like _ _ _ _ H2 p p eq_refl) Hq) as Hq2.
  pose proof (lk_conf _ _ H2) as C2. pose proof (lk_data _ _ H2) as D2. pose proof (lk_client _ _ H2) as K2.
  pose proof (lk_confst _ _ H2) as S2. cbn [br_conf br_data br_client br_confst set_conf set_data] in C2, D2, K2, S2.
  eapply (turns_performs _ _ _ _ 1 _ _ _ _ _ _ (λ st3 o, o = [] ∧ br_config_ok st3 = true ∧
    like (set_conf c (bridge_conf_feed bridge_conf_state_init line) st2) st3)).
  { pose proof (third_round T D cfg p listen_fd st2 line) as R3. rewrite C2, D2, K2, S2, Hok2 in R3.
    eapply performs_mono; [apply R3; try done; unfold watchable; lia|done|].
    intros [f st3] o (-> & Ef & H & Hok). cbn [fst snd] in *. by subst f. }
  { lia. }
  intros st3 o3 (-> & Hok3 & H3). apply performs_ret. exists st3. split; [done|]. split; [done|]. rewrite <-H2 in H3.
  split; [exact H3|]. rewrite app_nil_r, !written_app, !Ho1, Hwr2, Hother2 by done. by rewrite app_nil_r.
Qed.

(** From there, the packet. *)
Lemma fourth_turn T cfg listen_fd st c d p rest x reads socks polls :
  let D := tx_busy_timeout_ms cfg in
  config_valid cfg → have_rx_freq cfg = 1 → have_tx_freq cfg = 1 →
  waits (T + D) cfg (br_queue st) p → packets (br_queue st) = p :: rest →
  br_conf st = c → br_data st = d → daemon_idle (br_confst st) → answers (br_client st) (br_frames st) x →
  br_config_ok st = true → new_fds listen_fd st c d →
  ∃ reads', performs T D (800 + 3 * length (an_chunks x))
    (hears (RdErr EAGAIN :: map RdData (an_chunks x)) (Script reads socks (PollTimeout :: polls)))
    (Script reads' socks polls) (turns cfg listen_fd 1 st)
    (λ r o, ∃ st', r = Some st' ∧ written d o = tx_frame p ∧ packets (br_queue st') = rest ∧
       br_client st' = br_client st ∧ br_data st' = d ∧ br_conf st' = c ∧ br_config_ok st' = true).
Proof.
  intros D Hv Hrx Htx Hq Ep <- <- Hidle Hx Hok (Hfl & Hfk & Hfc & Hfd & Ncd & Nlc & Nkc & Nkd).
  assert (distinct st) as Hdist by (unfold distinct; intuition congruence).
  assert (watchable listen_fd st) as Hw by (unfold watchable, fd_bad in *; lia).
  destruct (fourth_round T cfg listen_fd st p rest x reads socks polls) as (reads' & H4); try done.
  exists reads'. eapply (turns_performs _ _ _ _ _ _ _ _ _ _ _ (λ st' o, written (br_data st) o = tx_frame p ∧
    packets (br_queue st') = rest ∧ br_client st' = br_client st ∧ br_data st' = br_data st ∧
    br_conf st' = br_conf st ∧ br_config_ok st' = true)).
  - eapply performs_mono; [exact H4|done|]. intros [f st'] o (Ef & H). cbn [fst snd] in *. by subst f.
  - lia.
  - intros st' o H. apply performs_ret. rewrite app_nil_r. by exists st'.
Qed.

(** C3. An outage of the daemon is survived, and the packet that waited gets on the
    air. Both daemon connections are lost; packets are in the queue, the first of which
    does not expire meanwhile. When the daemon is back (both sockets can be connected,
    and the environment cooperates as for [queued_packet_is_sent]), four turns of the
    main loop suffice: the CONF socket is connected; the DATA socket is connected and
    the radio configured; the status line of the daemon is read; the packet is sent.
    Afterwards both connections are open and the configuration is in place, the commands
    for the radio opened the stream on the new CONF socket, exactly the frame of the
    packet has been written to the new DATA socket, the rest of the queue is kept in its
    order, the client is still connected, and the loop goes on from there. *)
Theorem outage_survived T cfg listen_fd st c d line p rest x rs w
    (Hcfg : config_valid cfg ∧ have_rx_freq cfg = 1 ∧ have_tx_freq cfg = 1)
    (Hpaths : reachable_path (conf_socket cfg) ∧ reachable_path (data_socket cfg))
    (Hdown : br_conf st < 0 ∧ br_data st < 0) (Hfds : new_fds listen_fd st c d)
    (Hq : waits (T + tx_busy_timeout_ms cfg) cfg (br_queue st) p)
    (Hpackets : packets (br_queue st) = p :: rest)
    (Hline : line ≠ [] ∧ (length line ≤ 256)%nat ∧ daemon_idle (bridge_conf_feed bridge_conf_state_init line))
    (Hx : answers (br_client st) loraham_framed_rx_state_init x)
    (Hw : willing T (tx_busy_timeout_ms cfg) (1200 + 3 * length (an_chunks x)) (recovery c d line x rs) w) :
  ∃ st' w' o, turns cfg listen_fd 4 st w = Some (Some st', w') ∧ extends w w' o ∧
    br_conf st' = c ∧ br_data st' = d ∧ br_config_ok st' = true ∧ br_client st' = br_client st ∧
    rx_line cfg ++ status_lines `prefix_of` written c o ∧ written d o = tx_frame p ∧
    packets (br_queue st') = rest ∧
    bridge_loop cfg listen_fd st w = bridge_loop cfg listen_fd st' w'.
Proof.
  set (D := tx_busy_timeout_ms cfg) in *. destruct Hcfg as (Hv & Hrx & Htx), Hpaths as [Hpc Hpd], Hdown as [Hc Hd].
  destruct Hline as (Hne & Hl & Hidle). destruct rs as [reads socks polls].
  pose proof (three_turns T D cfg listen_fd st c d line p rest x (Script reads socks polls) Hv Hrx Hpc Hpd Hc Hd
    Hfds Hq Hpackets Hne Hl) as H3.
  destruct (H3 (800 + 3 * length (an_chunks x))%nat w) as (r & w3 & o3 & E3 & Eo3 & (st3 & -> & Hok & H & Hd3 & Hc3) & Hw3).
  { eapply willing_less; [|exact Hw]. lia. }
  pose proof (proj1 (waits_like _ _ _ _ H p p eq_refl) Hq) as Hq3.
  destruct H as [K3 D3 C4 _ _ F3 S3 _ Q3]. cbn [br_conf br_data br_client br_confst br_frames br_queue set_conf set_data] in *.
  assert (packets (br_queue st3) = p :: rest) as Ep3.
  { rewrite <-Hpackets, !packets_stamped. by rewrite Q3. }
  destruct (fourth_turn T cfg listen_fd st3 c d p rest x reads socks polls) as (reads' & H1); try done.
  { by rewrite S3. }
  { by rewrite F3, K3. }
  { unfold new_fds. by rewrite K3. }
  destruct (H1 0%nat w3) as (r & w' & o & E4 & Eo4 & (st' & -> & Hwr & Hp & K & Ed & Ec & Eok) & _).
  { by rewrite Nat.add_0_r. }
  assert (turns cfg listen_fd 4 st w = Some (Some st', w')) as E.
  { exact (turns_add cfg listen_fd 3 1 st w st3 w3 _ E3 E4). }
  exists st', w', (o3 ++ o). split; [done|]. split; [by eapply extends_trans|].
  do 3 (split; [done|]). split; [by rewrite K|]. split.
  { exists (written c o). by rewrite written_app, Hc3. }
  split; [by rewrite written_app, Hd3|]. split; [done|]. exact (turns_loop _ _ _ _ _ _ _ E).
Qed.

(** The example of BridgeLive: after an outage, the packet is sent on the new connection. *)
Definition outage_example : bridge_state :=
  Bridge (-1) (-1) (-1) false 0 0 0 kiss_decoder_init kiss_params_init loraham_framed_rx_state_init
    bridge_conf_state_init (dr_queue tx_example_drain) lhkt_stats_init.
Definition outage_example_line : list Z := str "STATUS RADIO=READY TX=0 CAD=0 TXRESULT=1" ++ [10].
Definition outage_example_script : script := recovery 6 5 outage_example_line live_example_answer (Script [] [] []).
Definition outage_example_world : world :=
  World (sc_read outage_example_script) (replicate 1300 (WrN 300)) (replicate 1300 SelReady) (replicate 1300 true)
    (sc_socket outage_example_script) [] (sc_poll outage_example_script) (replicate 1300 1000)
    (replicate 1300 false) [] [].

Lemma outage_survived_witness :
  ∃ st' w' o, turns live_example_cfg 3 4 outage_example outage_example_world = Some (Some st', w') ∧
    br_conf st' = 6 ∧ br_data st' = 5 ∧ written 5 o = tx_frame [60; 255; 1; 65] ∧ packets (br_queue st') = [].
Proof.
  destruct (outage_survived 1000 live_example_cfg 3 outage_example 6 5 outage_example_line [60; 255; 1; 65] []
    live_example_answer (Script [] [] []) outage_example_world)
    as (st' & w' & o & E & _ & Ec & Ed & _ & _ & _ & Hw & Hp & _).
  - split; [by apply defaults_valid|]. by vm_compute.
  - by vm_compute.
  - done.
  - unfold new_fds. by vm_compute.
  - split; [apply tx_example_wf|]. exists 500, []. by vm_compute.
  - by vm_compute.
  - split; [done|]. split; [apply (bool_decide_unpack _); by vm_compute|]. split; [by vm_compute|split; by vm_compute].
  - split; [|split].
    + by repeat constructor.
    + split; [by repeat constructor|left; by vm_compute].
    + do 2 eexists. split; [by vm_compute|by vm_compute].
  - split; [done|..]; (split; [apply Forall_replicate|
      cbn [w_write w_select w_ok w_clock w_stop outage_example_world]; rewrite length_replicate; cbn; lia]);
      [by exists 299%nat|done..| |done]. split; [done|by vm_compute].
  - exists st', w', o. split; [exact E|]. split; [exact Ec|]. split; [exact Ed|]. split; [exact Hw|exact Hp].
Defined.
