(* ===== verification/Cli.v ===== *)
(** The command line (cli.c): the options, their values, and the order defaults,
    configuration file, command line.

    The arguments are those after the program name. [getopt_long] is the GNU one, which
    goes on after a word that is no option (POSIXLY_CORRECT is not set); what it calls
    '?' is an argument error. *)
From S2P Require Import Prelude Tnc Printf Strto Io SockIo LorahamConf Config ConfigValid.
From Stdlib Require Import SpecFloat.

(** ** Values *)

Definition copy_arg (dst_size : Z) (src : list Z) : Z * list Z :=
  (if dst_size <=? len src then LHKT_ERR_NOSPACE else LHKT_OK,
   take (Z.to_nat (dst_size - 1)) src).

Definition parse_int_arg (text : list Z) (min max : Z) : res Z :=
  if len text =? 0 then Err LHKT_ERR_FORMAT
  else
    let '(value, erange, rest) := converted 0 text (strtol0 text) in
    if erange || negb (len rest =? 0) then Err LHKT_ERR_FORMAT
    else if (value <? min) || (max <? value) then Err LHKT_ERR_FORMAT
    else Ok value.

Definition parse_double_arg (text : list Z) (min max : double) : res double :=
  if len text =? 0 then Err LHKT_ERR_FORMAT
  else
    let '(value, erange, rest) := converted (S754_zero false) text (strtod text) in
    if erange || negb (len rest =? 0) then Err LHKT_ERR_FORMAT
    else if negb (isfinite value) then Err LHKT_ERR_FORMAT
    else if double_lt value min || double_gt value max then Err LHKT_ERR_FORMAT
    else Ok value.

(** ** The first pass *)

(** [-cFILE]: the text after [-c], when there is any. *)
Definition attached_c (arg : list Z) : option (list Z) :=
  match arg with
  | dash :: c :: x :: rest => if (dash =? 45) && (c =? 99) then Some (x :: rest) else None
  | _ => None
  end.

Fixpoint find_config_arg (args : list (list Z)) : option (list Z) :=
  match args with
  | [] => None
  | arg :: args =>
      if streq arg (str "-c") || streq arg (str "--config") then head args
      else
        match strip_prefix (str "--config=") arg with
        | Some path => Some path
        | None =>
            match attached_c arg with
            | Some path => Some path
            | None => find_config_arg args
            end
        end
  end.

(** ** getopt_long *)

(** The values of the options, by the name of their long form. *)
Inductive cli_opt :=
  | OPT_CONFIG | OPT_KISS_HOST | OPT_KISS_PORT | OPT_BIND | OPT_DATA_SOCKET | OPT_CONF_SOCKET
  | OPT_RX_FREQ | OPT_TX_FREQ | OPT_RX_ONLY | OPT_RF_LOG | OPT_RF_LOG_PATH
  | OPT_TX_SETTLE_MS | OPT_TX_RETURN_MS | OPT_TX_BUSY_TIMEOUT_MS | OPT_TX_QUEUE_LEN
  | OPT_TX_PACKET_TTL_MS | OPT_VERSION | OPT_VERBOSE | OPT_HELP.

#[export] Instance cli_opt_eq_dec : EqDecision cli_opt.
Proof. solve_decision. Defined.

(** Name, whether an argument is required, value. *)
Definition long_opts : list (list Z * bool * cli_opt) :=
  [(str "config", true, OPT_CONFIG);
   (str "kiss-host", true, OPT_KISS_HOST);
   (str "kiss-port", true, OPT_KISS_PORT);
   (str "bind", true, OPT_BIND);
   (str "data-socket", true, OPT_DATA_SOCKET);
   (str "conf-socket", true, OPT_CONF_SOCKET);
   (str "rx-freq", true, OPT_RX_FREQ);
   (str "tx-freq", true, OPT_TX_FREQ);
   (str "rx-only", false, OPT_RX_ONLY);
   (str "rflog", true, OPT_RF_LOG);
   (str "rflog-path", true, OPT_RF_LOG_PATH);
   (str "tx-settle-ms", true, OPT_TX_SETTLE_MS);
   (str "tx-return-ms", true, OPT_TX_RETURN_MS);
   (str "tx-busy-timeout-ms", true, OPT_TX_BUSY_TIMEOUT_MS);
   (str "tx-queue-len", true, OPT_TX_QUEUE_LEN);
   (str "tx-packet-ttl-ms", true, OPT_TX_PACKET_TTL_MS);
   (str "version", false, OPT_VERSION);
   (str "verbose", false, OPT_VERBOSE);
   (str "help", false, OPT_HELP)].

(** The short options, ["c:vh"]. *)
Definition short_opt (c : Z) : option (bool * cli_opt) :=
  if c =? 99 then Some (true, OPT_CONFIG)
  else if c =? 118 then Some (false, OPT_VERBOSE)
  else if c =? 104 then Some (false, OPT_HELP)
  else None.

(** What one call reports: an option with its [optarg], or '?'. *)
Inductive getopt_event :=
  | Opt (o : cli_opt) (optarg : list Z)
  | OptBad.

(** The option a long name stands for: the one of this name, or else the only one that
    begins with it. *)
Definition long_lookup (name : list Z) : option (bool * cli_opt) :=
  match filter (λ '(n, _, _), n = name) long_opts with
  | (_, arg, o) :: _ => Some (arg, o)
  | [] =>
      match filter (λ '(n, _, _), is_Some (strip_prefix name n)) long_opts with
      | [(_, arg, o)] => Some (arg, o)
      | _ => None
      end
  end.

(** A cluster of short options, [next] the argument after it; the second result is
    whether that was used up. *)
Fixpoint short_cluster (cluster : list Z) (next : option (list Z)) : list getopt_event * bool :=
  match cluster with
  | [] => ([], false)
  | c :: cluster =>
      match short_opt c with
      | None => let '(evs, used) := short_cluster cluster next in (OptBad :: evs, used)
      | Some (false, o) => let '(evs, used) := short_cluster cluster next in (Opt o [] :: evs, used)
      | Some (true, o) =>
          match cluster, next with
          | [], Some arg => ([Opt o arg], true)
          | [], None => ([OptBad], false)
          | _, _ => ([Opt o cluster], false)
          end
      end
  end.

(** A word after [--], [next] the argument after it. *)
Definition long_option (text : list Z) (next : option (list Z)) : getopt_event * bool :=
  let '(name, value) :=
    match strchr 61 text with Some (name, value) => (name, Some value) | None => (text, None) end in
  match long_lookup name with
  | None => (OptBad, false)
  | Some (true, o) =>
      match value, next with
      | Some value, _ => (Opt o value, false)
      | None, Some arg => (Opt o arg, true)
      | None, None => (OptBad, false)
      end
  | Some (false, o) =>
      match value with Some _ => (OptBad, false) | None => (Opt o [], false) end
  end.

(** All calls up to the end, and the words that are no options. [skip] says that the
    first word was an argument of the option before it. *)
Fixpoint getopt_long (skip : bool) (args : list (list Z)) : list getopt_event * list (list Z) :=
  match args with
  | [] => ([], [])
  | arg :: args =>
      if skip then getopt_long false args
      else
        match arg with
        | dash :: (c :: cluster) as text =>
            if negb (dash =? 45) then
              let '(evs, words) := getopt_long false args in (evs, arg :: words)
            else if c =? 45 then
              match cluster with
              | [] => ([], args)
              | _ =>
                  let '(ev, used) := long_option cluster (head args) in
                  let '(evs, words) := getopt_long used args in (ev :: evs, words)
              end
            else
              let '(evs0, used) := short_cluster (tl arg) (head args) in
              let '(evs, words) := getopt_long used args in (evs0 ++ evs, words)
        | _ => let '(evs, words) := getopt_long false args in (evs, arg :: words)
        end
  end.

Example getopt_examples :
  getopt_long false [str "-vcx"; str "word"; str "--kiss-p"; str "80"; str "--rx-only=1"] =
    ([Opt OPT_VERBOSE []; Opt OPT_CONFIG (str "x"); Opt OPT_KISS_PORT (str "80"); OptBad],
     [str "word"]) ∧
  getopt_long false [str "--conf"; str "-"; str "--"; str "-v"] = ([OptBad], [str "-"; str "-v"]) ∧
  getopt_long false [str "-c"] = ([OptBad], []).
Proof. by vm_compute. Qed.

(** ** The second pass *)

(** What an option does: go on, return with a code, or [exit(0)]. *)
Inductive cli_step :=
  | CliGo (cfg : lhkt_config_t)
  | CliStop (ret : Z) (cfg : lhkt_config_t)
  | CliExit.

(** [ret = ...; if (ret != LHKT_OK) return ret; break;] *)
Definition go_assign {A} (r : res A) (set : A → lhkt_config_t → lhkt_config_t) (cfg : lhkt_config_t) :
    cli_step :=
  match r with Ok v => CliGo (set v cfg) | Err e => CliStop e cfg end.

Definition go_string (dst_size : Z) (optarg : list Z) (set : list Z → lhkt_config_t → lhkt_config_t)
    (cfg : lhkt_config_t) : cli_step :=
  let '(ret, text) := copy_arg dst_size optarg in
  if ret =? LHKT_OK then CliGo (set text cfg) else CliStop ret (set text cfg).

Section cli.
Variable inet_pton : list Z → option Z.

(** The body of the switch. *)
Definition cli_option (cfg : lhkt_config_t) (o : cli_opt) (optarg : list Z) : cli_step :=
  match o with
  | OPT_CONFIG => CliGo cfg
  | OPT_VERBOSE => CliGo (set_verbose 1 cfg)
  | OPT_HELP => CliExit
  | OPT_VERSION => CliExit
  | OPT_KISS_HOST => go_string LHKT_HOST_MAX optarg set_kiss_host cfg
  | OPT_BIND => go_assign (lhkt_bind_apply inet_pton cfg optarg) (λ cfg' _, cfg') cfg
  | OPT_KISS_PORT => go_assign (parse_int_arg optarg 1 65535) set_kiss_port cfg
  | OPT_DATA_SOCKET => go_string LHKT_PATH_MAX optarg set_data_socket cfg
  | OPT_CONF_SOCKET => go_string LHKT_PATH_MAX optarg set_conf_socket cfg
  | OPT_RX_FREQ =>
      go_assign (parse_double_arg optarg FREQ_MIN FREQ_MAX)
        (λ f cfg, set_have_rx_freq 1 (set_rx_freq f cfg)) cfg
  | OPT_TX_FREQ =>
      go_assign (parse_double_arg optarg FREQ_MIN FREQ_MAX)
        (λ f cfg, set_have_tx_freq 1 (set_tx_freq f cfg)) cfg
  | OPT_RX_ONLY => CliGo (set_rx_only 1 cfg)
  | OPT_RF_LOG =>
      if streq optarg (str "on") then CliGo (set_rf_log 1 cfg)
      else if streq optarg (str "off") then CliGo (set_rf_log 0 cfg)
      else CliStop LHKT_ERR_FORMAT cfg
  | OPT_RF_LOG_PATH =>
      if negb (bool_decide (head optarg = Some 47)) || (LHKT_PATH_MAX <=? len optarg)
      then CliStop LHKT_ERR_FORMAT cfg
      else CliGo (set_rf_log_path optarg cfg)
  | OPT_TX_SETTLE_MS => go_assign (parse_int_arg optarg 0 60000) set_tx_settle_ms cfg
  | OPT_TX_RETURN_MS => go_assign (parse_int_arg optarg 0 60000) set_tx_return_ms cfg
  | OPT_TX_BUSY_TIMEOUT_MS => go_assign (parse_int_arg optarg 0 600000) set_tx_busy_timeout_ms cfg
  | OPT_TX_QUEUE_LEN => go_assign (parse_int_arg optarg 1 16) set_tx_queue_len cfg
  | OPT_TX_PACKET_TTL_MS => go_assign (parse_int_arg optarg 1000 3600000) set_tx_packet_ttl_ms cfg
  end.

Fixpoint cli_options (cfg : lhkt_config_t) (evs : list getopt_event) : cli_step :=
  match evs with
  | [] => CliGo cfg
  | Opt o optarg :: evs =>
      match cli_option cfg o optarg with CliGo cfg => cli_options cfg evs | s => s end
  | OptBad :: _ => CliStop LHKT_ERR_FORMAT cfg
  end.

Definition parse_cli_args (args : list (list Z)) (cfg : lhkt_config_t) : cli_step :=
  let '(evs, words) := getopt_long false args in
  match cli_options cfg evs with
  | CliGo cfg => if bool_decide (words = []) then CliGo cfg else CliStop LHKT_ERR_FORMAT cfg
  | s => s
  end.

Variable fopen : list Z → option (list Z).

Definition lhkt_cli_apply (args : list (list Z)) (cfg : lhkt_config_t) : cli_step :=
  let parse cfg := parse_cli_args args cfg in
  match find_config_arg args with
  | Some config_path =>
      let '(ret, cfg) := lhkt_config_load_file inet_pton fopen cfg config_path in
      if negb (ret =? LHKT_OK) then CliStop ret cfg else parse cfg
  | None => parse cfg
  end.
End cli.

(** The configuration in a result. *)
Definition step_cfg (s : cli_step) : option lhkt_config_t :=
  match s with CliGo cfg | CliStop _ cfg => Some cfg | CliExit => None end.

(** ** The contract *)

Lemma parse_int_Ok text lo hi v : parse_int_arg text lo hi = Ok v → lo ≤ v ≤ hi.
Proof.
  unfold parse_int_arg. destruct (_ =? 0); [done|]. destruct (converted _ _ _) as [[v' er] rest].
  destruct (_ || _); [done|].
  destruct (Z.ltb_spec v' lo), (Z.ltb_spec hi v'); try done. intros [= <-]. lia.
Qed.

Lemma parse_double_arg_Ok text lo hi x : parse_double_arg text lo hi = Ok x → in_range lo hi x.
Proof.
  unfold parse_double_arg. destruct (_ =? 0); [done|].
  assert (narrow (converted (S754_zero false) text (strtod text))) as Hn.
  { destruct (strtod text) as [r|] eqn:E; [by eapply strtod_narrow|done]. }
  destruct (converted _ _ _) as [[v er] rest]. destruct (_ || _); [done|].
  destruct (isfinite v) eqn:Ef; [|done]. cbn [negb].
  destruct (double_lt v lo) eqn:E1; [done|]. destruct (double_gt v hi) eqn:E2; [done|].
  intros [= <-]. by split_and!.
Qed.

(** A step that ends with a valid configuration, if with any. *)
Definition step_valid (s : cli_step) : Prop := ∀ cfg, step_cfg s = Some cfg → config_valid cfg.

Lemma go_assign_valid {A} (r : res A) set cfg :
  (∀ v, r = Ok v → config_valid (set v cfg)) → config_valid cfg → step_valid (go_assign r set cfg).
Proof. destruct r as [v|e]; intros H Hv cfg'; intros [= <-]; auto. Qed.

Lemma go_string_valid n s set cfg :
  (c_string n (copy_arg n s).2 → config_valid (set (copy_arg n s).2 cfg)) →
  0 < n → no_nul s → step_valid (go_string n s set cfg).
Proof.
  intros H Hn Hs cfg' E. unfold go_string in E.
  assert (config_valid (set (copy_arg n s).2 cfg)) as Hv by by apply H, c_string_take.
  destruct (copy_arg n s) as [ret text]. destruct (ret =? LHKT_OK); by injection E as <-.
Qed.

Section contract.
Context (inet_pton : list Z → option Z) (Hpton : ∀ s ip, inet_pton s = Some ip → is_u32 ip).

Lemma go_valid cfg : config_valid cfg → step_valid (CliGo cfg).
Proof. by intros Hv cfg' [= <-]. Qed.

Lemma cli_option_valid cfg o optarg :
  no_nul optarg → config_valid cfg → step_valid (cli_option inet_pton cfg o optarg).
Proof.
  intros Ha Hv. destruct o; cbn [cli_option]; try done; try (by apply go_valid);
    try (apply go_string_valid; [intros ?; destruct Hv; by constructor|done|done]);
    try (apply go_assign_valid; [intros v E%parse_int_Ok; destruct Hv; by constructor|done]).
  - apply go_assign_valid; [|done]. intros cfg' E. by eapply bind_apply_valid.
  - apply go_assign_valid; [|done]. intros f E%parse_double_arg_Ok. destruct Hv. constructor; try done. by right.
  - apply go_assign_valid; [|done]. intros f E%parse_double_arg_Ok. destruct Hv. constructor; try done. by right.
  - apply go_valid. destruct Hv. constructor; try done. by right.
  - destruct (streq _ _); [|destruct (streq _ _)]; intros cfg' [= <-]; destruct Hv; constructor; try done;
      first [by left | by right].
  - destruct (negb _); [by intros cfg' [= <-]|]. cbn [orb]. destruct (Z.leb_spec LHKT_PATH_MAX (len optarg));
      intros cfg' [= <-]; [done|]. destruct Hv. by constructor.
  - apply go_valid. destruct Hv. constructor; try done. by right.
Qed.

Definition event_ok (ev : getopt_event) : Prop :=
  match ev with Opt _ optarg => no_nul optarg | OptBad => True end.

Lemma cli_options_valid evs : ∀ cfg,
  Forall event_ok evs → config_valid cfg → step_valid (cli_options inet_pton cfg evs).
Proof.
  induction evs as [|[o optarg|] evs IH]; intros cfg Hevs Hv; cbn [cli_options]; [by apply go_valid| |].
  - apply Forall_cons in Hevs as [Ha Hevs]. pose proof (cli_option_valid cfg o optarg Ha Hv) as H.
    destruct (cli_option inet_pton cfg o optarg) as [cfg'|ret cfg'|]; [|done|done].
    apply IH; [done|]. by apply H.
  - by intros cfg' [= <-].
Qed.

(** The arguments of the options are parts of the words. *)
Lemma short_cluster_ok cluster next :
  no_nul cluster → (∀ a, next = Some a → no_nul a) → Forall event_ok (short_cluster cluster next).1.
Proof.
  intros Hc Hn. induction Hc as [|c cluster Hc Hcl IH]; cbn [short_cluster]; [done|].
  destruct (short_opt c) as [[[] o]|].
  - destruct cluster, next; cbn; apply Forall_singleton; first [done | by apply Hn | by apply Hcl].
  - destruct (short_cluster cluster next). constructor; [constructor|done].
  - destruct (short_cluster cluster next). by constructor.
Qed.

Lemma long_option_ok text next :
  no_nul text → (∀ a, next = Some a → no_nul a) → event_ok (long_option text next).1.
Proof.
  intros Ht Hn. unfold long_option. destruct (strchr 61 text) as [[name value]|] eqn:E.
  - destruct (long_lookup name) as [[[] o]|]; [|done|done]. by apply (strchr_Forall _ _ _ _ _ E).
  - destruct (long_lookup text) as [[[] o]|]; [|constructor|done]. destruct next; [by apply Hn|done].
Qed.

Lemma getopt_ok args : ∀ skip, Forall no_nul args → Forall event_ok (getopt_long skip args).1.
Proof.
  induction args as [|arg args IH]; intros skip Hargs; [done|]. cbn [getopt_long].
  apply Forall_cons in Hargs as [Harg Hargs].
  assert (∀ a, head args = Some a → no_nul a) as Hnext.
  { intros a Ea. destruct args; [done|]. injection Ea as ->. by apply Forall_cons in Hargs as [? _]. }
  assert (∀ skip, Forall event_ok (getopt_long skip args).1) as IH' by auto. clear IH.
  destruct skip; [apply IH'|]. destruct arg as [|dash [|c cluster]].
  - specialize (IH' false). by destruct (getopt_long false args).
  - specialize (IH' false). by destruct (getopt_long false args).
  - destruct (negb (dash =? 45)).
    { specialize (IH' false). by destruct (getopt_long false args). }
    apply Forall_cons in Harg as [_ Harg]. destruct (c =? 45).
    + destruct cluster as [|x cluster]; [done|]. apply Forall_cons in Harg as [_ Harg].
      pose proof (long_option_ok (x :: cluster) (head args) Harg Hnext) as H.
      destruct (long_option _ _) as [ev used]. specialize (IH' used).
      destruct (getopt_long used args). by constructor.
    + pose proof (short_cluster_ok (c :: cluster) (head args) Harg Hnext) as H. cbn [tl].
      destruct (short_cluster _ _) as [evs0 used]. specialize (IH' used).
      destruct (getopt_long used args). by apply Forall_app.
Qed.

Lemma parse_cli_args_valid args cfg :
  Forall no_nul args → config_valid cfg → step_valid (parse_cli_args inet_pton args cfg).
Proof.
  intros Hargs Hv. unfold parse_cli_args. pose proof (getopt_ok args false Hargs) as H.
  destruct (getopt_long false args) as [evs words]. pose proof (cli_options_valid evs cfg H Hv) as Hs.
  destruct (cli_options inet_pton cfg evs) as [cfg'|ret cfg'|]; [|done|done].
  destruct (bool_decide _); [done|]. intros cfg0 [= <-]. by apply Hs.
Qed.

Lemma cli_apply_valid fopen args cfg :
  Forall no_nul args → config_valid cfg → step_valid (lhkt_cli_apply inet_pton fopen args cfg).
Proof.
  intros Hargs Hv. unfold lhkt_cli_apply. destruct (find_config_arg args) as [path|].
  - pose proof (load_file_valid inet_pton Hpton fopen cfg path Hv) as H.
    destruct (lhkt_config_load_file _ _ _ _) as [ret cfg']. cbn [snd] in H.
    destruct (negb _); [by intros cfg0 [= <-]|]. by apply parse_cli_args_valid.
  - by apply parse_cli_args_valid.
Qed.
End contract.

(** ** Options as they are written *)









(** A word that the first pass takes for the configuration option. *)
Definition config_like (a : list Z) : bool :=
  streq a (str "-c") || streq a (str "--config") ||
  bool_decide (is_Some (strip_prefix (str "--config=") a)) || bool_decide (is_Some (attached_c a)).


Lemma find_config_skip a args : config_like a = false → find_config_arg (a :: args) = find_config_arg args.
Proof.
  unfold config_like. rewrite !orb_false_iff, !bool_decide_eq_false. intros [[[H1 H2] H3] H4].
  cbn [find_config_arg]. rewrite H1, H2. cbn [orb].
  destruct (strip_prefix _ a); [by destruct H3|]. destruct (attached_c a); [by destruct H4|done].
Qed.



Section apply.
Context (inet_pton : list Z → option Z) (fopen : list Z → option (list Z)).


(** An abbreviation of [--config] is an accepted option, but its file is never opened. *)
Lemma config_abbreviation_ignored path cfg :
  config_like path = false →
  lhkt_cli_apply inet_pton fopen [str "--confi"; path] cfg = CliGo cfg.
Proof.
  intros Hp. unfold lhkt_cli_apply. change (find_config_arg [str "--confi"; path]) with (find_config_arg [path]).
  by rewrite (find_config_skip path []).
Qed.

(** [--kiss-host] before [--bind] has no effect. *)
Lemma kiss_host_before_bind host arg cfg cfg' :
  cli_options inet_pton cfg [Opt OPT_KISS_HOST host; Opt OPT_BIND arg] = CliGo cfg' →
  kiss_host cfg' = str "127.0.0.1" ∨ kiss_host cfg' = str "0.0.0.0".
Proof.
  cbn [cli_options cli_option]. unfold go_string. destruct (copy_arg _ host) as [ret text].
  destruct (ret =? LHKT_OK); [|done].
  destruct (lhkt_bind_apply inet_pton (set_kiss_host text cfg) arg) as [cfg1|e] eqn:E; [|done].
  cbn [go_assign]. intros [= <-]. unfold lhkt_bind_apply in E.
  destruct (_ =? 0); [done|]. destruct (_ <=? _); [done|]. apply bind_Ok in E as ([h p] & _ & E).
  destruct (inet_pton h); [|done]. apply Ok_inj in E as <-. cbn [set_bind kiss_host]. case_match; auto.
Qed.
End apply.


