(* ===== verification/Main.v ===== *)
(** The entry point (main.c): defaults, command line, RF log, bridge.

    [setvbuf], [signal(SIGPIPE, SIG_IGN)] and the printing have no counterpart; a write
    to a closed connection is an error answer of the world, never a signal. *)
From S2P Require Import Prelude Tnc Printf Io SockIo TcpServer Config ConfigValid Cli Bridge Rflog.

Section main.
Context (inet_pton : list Z → option Z) (is_sock : list Z → bool).
Context (fopen : list Z → option (list Z)).

(** The bridge, the end of the log, the exit code. *)
Definition run_and_close (cfg : lhkt_config_t) (log : rflog_state) : io Z :=
  '(ret, _) ← lhkt_bridge_run inet_pton cfg lhkt_stats_init;
  _ ← lhkt_rflog_close log;
  mret ret.

Definition main (args : list (list Z)) : io Z :=
  match lhkt_cli_apply inet_pton fopen args (lhkt_config_defaults inet_pton is_sock) with
  | CliExit => mret 0
  | CliStop _ _ => mret 1
  | CliGo cfg =>
      if negb (rf_log cfg =? 0) then
        if len (rf_log_path cfg) =? 0 then mret 1
        else
          '(ret, log) ← lhkt_rflog_open (rf_log_path cfg) rflog_init;
          if negb (ret =? LHKT_OK) then mret 1 else run_and_close cfg log
      else run_and_close cfg rflog_init
  end.

(** ** Descriptors *)

Lemma run_and_close_balance cfg log x :
  yields (run_and_close cfg log) (λ _ o, balance x o = - holds1 (rf_fd log) x).
Proof.
  eapply yields_bind; [apply bridge_run_balance|]. intros [ret stats] o E.
  eapply (yields_bind _ _ (λ _ o', balance x o' = - holds1 (rf_fd log) x)).
  - unfold lhkt_rflog_close, holds1. destruct (0 <=? rf_fd log); cbn [andb]; [|by apply yields_ret].
    eapply yields_bind; [by apply (yields_emit _ (λ _ o, o = [Closed (rf_fd log)]))|].
    intros [] o' ->. apply yields_ret. cbn. by destruct (rf_fd log =? x).
  - intros st o' E'. apply yields_ret. rewrite app_nil_r, balance_app, E, E'. lia.
Qed.

Lemma rflog_open_balance path x :
  yields (lhkt_rflog_open path rflog_init)
    (λ r o, (r.1 = LHKT_OK ∨ r.2 = rflog_init) ∧ balance x o = holds1 (rf_fd r.2) x).
Proof.
  unfold lhkt_rflog_open. destruct (_ || _); [by apply yields_ret; auto|].
  eapply yields_bind; [apply (yields_socket (λ r o, match r with
    | Some fd => 0 ≤ fd ∧ o = [Opened fd] | None => o = [] end)); [done|by intros]|].
  intros [fd|] o E; [destruct E as [Hfd ->]|subst o; by apply yields_ret; auto].
  cbn [rf_fd rflog_init]. eapply yields_bind; [by apply (yields_ret _ (λ _ o, o = []))|].
  intros [] o ->. apply yields_ret. cbn. split; [by left|]. unfold holds1.
  rewrite (proj2 (Z.leb_le 0 fd)) by done. cbn. by destruct (fd =? x).
Qed.

(** ** Start-up *)

Lemma main_balance args x : yields (main args) (λ _ o, balance x o = 0).
Proof.
  unfold main. destruct (lhkt_cli_apply _ _ _ _) as [cfg|ret cfg|]; [|by apply yields_ret..].
  assert (∀ log, yields (run_and_close cfg log) (λ _ o, holds1 (rf_fd log) x + balance x o = 0)) as Hrun.
  { intros log. eapply yields_mono; [apply (run_and_close_balance cfg log x)|]. intros ret o E. cbn in E. lia. }
  destruct (negb _).
  - destruct (_ =? 0); [by apply yields_ret|].
    eapply yields_bind; [apply (rflog_open_balance _ x)|]. intros [ret log] o [Hr E]. cbn [fst snd] in *.
    destruct (Z.eqb_spec ret LHKT_OK) as [->|Hne]; cbn [negb].
    + eapply yields_mono; [apply Hrun|]. intros ret o' E'. cbn in E'. rewrite balance_app. lia.
    + destruct Hr as [?| ->]; [done|]. apply yields_ret. by rewrite app_nil_r, E.
  - eapply yields_mono; [apply Hrun|]. intros ret o E. cbn [rf_fd rflog_init] in E.
    by rewrite (holds1_neg (-1)) in E.
Qed.

(** C14. Start-up and the end of the process. A command line or configuration file that
    is refused ends the process with 1 (help and version with 0) before it touches a
    socket or the log. Otherwise the configuration the bridge runs with is valid; an RF
    log that is asked for without an absolute path ends the process the same way. And
    however the process ends, it has closed the descriptors it obtained, the one of the
    RF log included. *)
Theorem main_starts_valid args
    (Hpton : ∀ s ip, inet_pton s = Some ip → is_u32 ip) (Hargs : Forall no_nul args) :
  (match lhkt_cli_apply inet_pton fopen args (lhkt_config_defaults inet_pton is_sock) with
   | CliExit => main args = mret 0
   | CliStop _ _ => main args = mret 1
   | CliGo cfg =>
       config_valid cfg ∧
       (rf_log cfg = 1 → head (rf_log_path cfg) ≠ Some 47 → main args = mret 1) ∧
       (rf_log cfg = 0 → main args = run_and_close cfg rflog_init)
   end) ∧
  yields (main args) (λ _ o, ∀ x, balance x o = 0).
Proof.
  split.
  - pose proof (cli_apply_valid inet_pton Hpton fopen args _ Hargs (defaults_valid inet_pton Hpton is_sock)) as Hv.
    unfold main. destruct (lhkt_cli_apply _ _ _ _) as [cfg|ret cfg|]; [|done..].
    split; [by apply Hv|]. split; intros Hlog; rewrite Hlog; cbn [Z.eqb negb]; [|done].
    intros Hpath. destruct (_ =? 0); [done|]. unfold lhkt_rflog_open.
    by rewrite bool_decide_eq_false_2.
  - intros w. unfold wp. pose proof (λ x, main_balance args x w) as H. unfold wp in H.
    destruct (main args w) as [[ret w']|]; [|done]. destruct (H 0) as (o & Eo & L & _). exists o.
    split; [done|]. split; [done|]. intros x. destruct (H x) as (o' & Eo' & _ & E).
    unfold extends in *. rewrite Eo in Eo'. by apply app_inv_head in Eo' as ->.
Qed.
End main.

Lemma main_starts_valid_witness :
  ∃ cfg, lhkt_cli_apply (λ _, None) (λ _, None) [str "--rflog"; str "on"]
           (lhkt_config_defaults (λ _, None) (λ _, false)) = CliGo cfg ∧ config_valid cfg ∧
         main (λ _, None) (λ _, false) (λ _, None) [str "--rflog"; str "on"] = mret 1.
Proof.
  destruct (main_starts_valid (λ _, None) (λ _, false) (λ _, None) [str "--rflog"; str "on"]) as [H _].
  - done.
  - apply (bool_decide_unpack _). by vm_compute.
  - eexists. split; [reflexivity|]. destruct H as (Hv & Hm & _). split; [exact Hv|]. by apply Hm.
Defined.
