(* ===== verification/RepoTests.v ===== *)
(** The repository's own tests of the bridge (src/tests/test_bridge.c), run on the model.

    Each example has the name of a test function there, and states what its assertions
    state. The socket pairs of the tests are worlds: what the test wrote to the other end
    is what the reads answer, and after it reads block (EAGAIN) or, in [select], time out.
    Where the tests stub the CONF commands and the DATA write by hooks ([LHKT_TEST]), the
    answers of the world's writes take their place: a command or a packet that the hook
    reports as sent is written whole, one it reports as failed is refused. The commands
    are then compared as text, which is stronger than the frequencies the tests look at. *)
From S2P Require Import Prelude Kiss Ax25 Tnc2 LorahamSock Tnc TxQueue Io SockIo LorahamConf BridgeConf BridgeKiss BridgeRx BridgeLoraham BridgeTx TcpServer Bridge Runtime Config.

(** The defaults, with the shorter wait of most tests. *)
Definition test_cfg : lhkt_config_t := set_tx_busy_timeout_ms 100 tx_example_cfg.
Abbreviation nl := [10].

(** Reads, writes and the answers of [select]; everything else succeeds, the clock goes on
    by 20 ms whenever it is read. *)
Definition test_clock : list Z := map (λ i, 1000 + 20 * i) (seqZ 0 80).
Definition test_world (reads : list read_answer) (writes : list write_answer) (selects : list select_answer) : world :=
  World reads writes selects (replicate 60 true) [] [] [] test_clock (replicate 90 false) [] [].

(** All writes succeed, all waits time out. *)
Abbreviation takes_all := (replicate 9 (WrN 300)).
Abbreviation times_out := (replicate 90 SelTimeout).

(** ** The CONF socket *)

(** [lhkt_test_bridge_conf_feed_events]; the fields are read off the state. *)
Definition lhkt_test_bridge_conf_feed (text : list Z) : bridge_conf_state_t := bridge_conf_feed bridge_conf_state_init text.

Example test_conf_status_parser :
  (let st := lhkt_test_bridge_conf_feed (str "TX=1" ++ nl ++ str "CAD=1" ++ nl ++ str "STATUS RADIO=READY TX=0 CAD=0 GETRSSI=0" ++ nl) in
   (cs_tx_busy st, cs_cad_busy st, cs_radio_ready st, cs_have_status st) = (0, 0, 1, 1)) ∧
  (let st := lhkt_test_bridge_conf_feed (str "STATUS RADIO=FAILED TX=1 CAD=1 GETRSSI=0" ++ nl) in
   (cs_tx_busy st, cs_cad_busy st, cs_radio_ready st, cs_have_status st) = (1, 1, 0, 1)).
Proof. by vm_compute. Qed.

Example test_conf_event_transition_counters :
  let st := lhkt_test_bridge_conf_feed (str "TX=1" ++ nl ++ str "TX=0" ++ nl ++ str "CAD=1" ++ nl ++ str "CAD=0" ++ nl ++
                       str "STATUS RADIO=READY TX=1 CAD=1 GETRSSI=0" ++ nl) in
  (cs_tx_busy st, cs_cad_busy st, cs_radio_ready st, cs_have_status st) = (1, 1, 1, 1) ∧
  (cs_tx_seq st, cs_tx_busy_seq st, cs_tx_idle_seq st) = (2, 1, 1) ∧
  (cs_cad_seq st, cs_cad_busy_seq st, cs_cad_idle_seq st) = (2, 1, 1).
Proof. by vm_compute. Qed.

Example test_conf_txresult_status_parser :
  let st := lhkt_test_bridge_conf_feed (str "STATUS RADIO=READY TX=0 CAD=0 TXRESULT=1" ++ nl) in
  let st' := bridge_conf_feed st (str "STATUS RADIO=READY TX=0 CAD=0 TXRESULT=0" ++ nl) in
  (cs_txresult_known st, cs_txresult_enabled st, bridge_conf_txresult_enabled st) = (1, 1, true) ∧
  (cs_txresult_known st', cs_txresult_enabled st', bridge_conf_txresult_enabled st') = (1, 0, false).
Proof. by vm_compute. Qed.

Definition daemon_120_line : list Z :=
  str "STATUS RADIO=READY TX=0 CAD=0 GETRSSI=0 TXRESULT=1 TXMODE=MANAGED " ++
  str "TXQUEUE=1 TXQ=0 TXQDROP=0 TXQREJECT=0 TXQSTALE=0 TXQRESULTDROP=0 " ++
  str "TXQDONE=0 TXQLAST=NONE TXQSEQ=0 CADWAIT=1500 CADIDLE=250 CADPOLL=50 " ++
  str "CADTXAFTERTIMEOUT=0 CADMONITOR=0 CADRSSI=-90 RXREADY=1 HIGHPOWER=0 " ++
  str "CHIPFAMILY=SX127x" ++ nl.

Example test_conf_daemon_120_status_line_is_parsed :
  len daemon_120_line = 284 ∧
  let st := lhkt_test_bridge_conf_feed daemon_120_line in (cs_have_status st, cs_radio_ready st) = (1, 1).
Proof. by vm_compute. Qed.

Example test_conf_longest_accepted_line_is_parsed :
  let head := str "STATUS RADIO=READY TX=0 CAD=0 " in
  let st := lhkt_test_bridge_conf_feed (head ++ replicate (511 - length head) 88 ++ nl) in
  (cs_have_status st, cs_radio_ready st) = (1, 1).
Proof. by vm_compute. Qed.

Example test_conf_overlong_line_is_discarded :
  cs_tx_busy (lhkt_test_bridge_conf_feed (replicate (Z.to_nat LHKT_CONF_LINE_MAX + 20) 88 ++ str "TX=1" ++ nl)) = 0.
Proof. by vm_compute. Qed.

Example test_conf_cad_stats_collection :
  let st := lhkt_test_bridge_conf_feed (str "CAD=1" ++ nl ++ str "CAD=0" ++ nl ++ str "STATUS RADIO=READY TX=0 CAD=1 GETRSSI=0" ++ nl) in
  let s1 := bridge_conf_collect_cad_stats st (lhkt_stats_init, 0, 0) in
  let s2 := bridge_conf_collect_cad_stats st s1 in
  let s3 := bridge_conf_collect_cad_stats (bridge_conf_feed st (str "CAD=1" ++ nl)) s2 in
  let got s := (count s.1.1 cad_busy_events, count s.1.1 cad_idle_events, cad_current_busy s.1.1) in
  got s1 = (1, 1, 1) ∧ got s2 = (1, 1, 1) ∧ got s3 = (2, 1, 1).
Proof. by vm_compute. Qed.

Definition lhkt_test_bridge_wait_tx_complete_events (events : list Z) : option Z :=
  fst <$> outcome fst (bridge_loraham_wait_tx_complete 5 bridge_conf_state_init test_cfg)
    (test_world [RdData events; RdErr EAGAIN; RdErr EAGAIN] [] (SelReady :: times_out)).

Example test_tx_complete_handles_combined_events :
  lhkt_test_bridge_wait_tx_complete_events (str "TX=1" ++ nl ++ str "TX=0" ++ nl) = Some LHKT_OK.
Proof. by vm_compute. Qed.

(** ** Draining the queue *)

(** The packet of the tests, alone in the queue. *)
Definition test_packet : list Z := [60; 255; 1] ++ str "TEST".
Definition test_queue : bridge_tx_queue_t :=
  match bridge_tx_queue_push bridge_tx_queue_init test_cfg test_packet 1000 with Ok q => q | Err _ => bridge_tx_queue_init end.

(** [have_status] and, with [enabled], results known and enabled or disabled. *)
Definition ready_conf (enabled : option Z) : bridge_conf_state_t :=
  match enabled with
  | Some e => ConfState 0 0 0 1 1 e 0 0 0 0 0 0 [] false
  | None => ConfState 0 0 0 1 0 0 0 0 0 0 0 0 [] false
  end.

(** A drain with the client at 7, DATA at 42 and CONF at 6 where they exist: the code, the packets
    left, the state and the outputs. *)
Definition drain (client data conf : Z) (st : bridge_conf_state_t) (frames : option loraham_framed_rx_state_t)
    (w : world) : option (Z * nat * tx_env * list output) :=
  (λ r, (r.1.1, tq_count (dr_queue r.1.2), dr_env r.1.2, r.2)) <$>
  outcome id (bridge_loraham_tx_queue_drain_with_client test_cfg client data conf
    (DrainState test_queue (TxEnv lhkt_stats_init st frames))) w.

(** What a test looks at: the code, the packets left, some counters, the outputs. *)
Definition drained (cs : list counter) (r : option (Z * nat * tx_env * list output)) :
    option (Z * nat * list Z * list output) :=
  (λ r : Z * nat * tx_env * list output,
     let '(ret, n, e, o) := r in (ret, n, map (count (te_stats e)) cs, o)) <$> r.

Definition tx_result (status flags : Z) (seq : list Z) : list Z :=
  framed_bytes (LoraFrame LORAHAM_FRAME_TX_RESULT ([status; flags] ++ seq)).
Definition rx_packet (meta : list Z) (tnc2 : list Z) : list Z :=
  framed_bytes (LoraFrame LORAHAM_FRAME_RX_PACKET (meta ++ loraham_hdr ++ tnc2)).
Definition hi : list Z := str "DJ0CHE-10>APRS:hi".

(** The KISS bytes of a TNC2 line. *)
Definition kiss_of (tnc2 : list Z) : list Z :=
  match tnc2_parse_line tnc2 with
  | Ok f => match ax25_encode_ui f 600 with
            | Ok b => match kiss_encode_data_frame b 2000 with Ok k => k | Err _ => [] end
            | Err _ => []
            end
  | Err _ => []
  end.

Definition framed_test_world (stream : list read_answer) (writes : list write_answer) : world :=
  test_world (RdErr EAGAIN :: stream) writes (replicate 9 SelReady).
Abbreviation fresh_frames := (Some loraham_framed_rx_state_init).

Example test_txresult_ok_forwards_trailing_rx :
  drained [loraham_tx; loraham_drop; tx_unconfirmed; loraham_rx; kiss_tx]
    (drain 7 42 6 (ready_conf (Some 1)) fresh_frames
      (framed_test_world [RdData (tx_result 0 3 [52; 18] ++ rx_packet [0; 0; 0; 0] (hi ++ nl))] takes_all)) =
  Some (LHKT_OK, 0%nat, [1; 0; 0; 1; 1],
    [Wrote 6 (tx_line test_cfg); Wrote 42 (tx_frame test_packet); RfRx 0 0 (loraham_hdr ++ hi ++ nl);
     Wrote 7 (kiss_of hi); RfTx (str "ok") test_packet; Wrote 6 (rx_line test_cfg)]).
Proof. by vm_compute. Qed.

(** The client of the test is the read end of a pipe. *)
Example test_txresult_client_write_failure_propagates :
  drained [loraham_tx; kiss_drop]
    (drain 7 42 6 (ready_conf (Some 1)) fresh_frames
      (framed_test_world [RdData (rx_packet [0; 0; 0; 0] (hi ++ nl) ++ tx_result 0 1 [2; 0])]
        [WrN 300; WrN 300; WrErr EOTHER; WrN 300])) =
  Some (LHKT_ERR_CLIENT_SOCKET, 0%nat, [1; 1],
    [Wrote 6 (tx_line test_cfg); Wrote 42 (tx_frame test_packet); RfRx 0 0 (loraham_hdr ++ hi ++ nl);
     RfTx (str "ok") test_packet; Wrote 6 (rx_line test_cfg)]).
Proof. by vm_compute. Qed.

Example test_txresult_terminal_failure_drops_packet :
  drained [loraham_tx; loraham_drop; tx_unconfirmed]
    (drain (-1) 42 6 (ready_conf (Some 1)) fresh_frames
      (framed_test_world [RdData (tx_result 2 1 [1; 0])] takes_all)) =
  Some (LHKT_OK, 0%nat, [0; 1; 0],
    [Wrote 6 (tx_line test_cfg); Wrote 42 (tx_frame test_packet); Wrote 6 (rx_line test_cfg)]).
Proof. by vm_compute. Qed.

Example test_txresult_missing_restores_rx :
  drained [loraham_tx; tx_unconfirmed]
    (drain (-1) 42 6 (ready_conf (Some 1)) fresh_frames (test_world [RdErr EAGAIN] takes_all times_out)) =
  Some (LHKT_ERR_TX_RESULT, 0%nat, [0; 1],
    [Wrote 6 (tx_line test_cfg); Wrote 42 (tx_frame test_packet); RfTx (str "unconfirmed") test_packet;
     Wrote 6 (rx_line test_cfg)]) ∧
  bridge_loraham_should_reconnect_data_socket LHKT_ERR_TX_RESULT = true.
Proof. by vm_compute. Qed.

Example test_txresult_disabled_reconnects_conf :
  drained [] (drain (-1) (-1) 6 (ready_conf (Some 0)) fresh_frames (test_world [RdErr EAGAIN] [] [])) =
  Some (LHKT_ERR_CONF_SOCKET, 1%nat, [], []).
Proof. by vm_compute. Qed.

(** The harness of the next tests, at the end of bridge_loraham.c. It runs with the
    defaults. No packet and no command is sent here, so that its hooks are never called:
    the write calls it counts are those of the trace. An assertion that fails has no
    outcome. *)
Definition default_cfg : lhkt_config_t := tx_example_cfg.

Definition aborts {A} : io A := λ _, None.

Definition lhkt_test_push_dummy_tx_packet (queue : bridge_tx_queue_t) (cfg : lhkt_config_t) : io bridge_tx_queue_t :=
  now ← bridge_runtime_now_ms;
  match bridge_tx_queue_push queue cfg test_packet now with Ok queue => mret queue | Err _ => aborts end.

Definition lhkt_test_bridge_drain_waits_for_data_socket : io (Z * nat * Z) :=
  queue ← lhkt_test_push_dummy_tx_packet bridge_tx_queue_init default_cfg;
  '(ret, d) ← bridge_loraham_tx_queue_drain default_cfg (-1) (-1) queue lhkt_stats_init bridge_conf_state_init;
  mret (ret, tq_count (dr_queue d), count (te_stats (dr_env d)) loraham_drop).

Definition lhkt_test_bridge_drain_waits_for_conf_socket : io (Z * nat * Z) :=
  queue ← lhkt_test_push_dummy_tx_packet bridge_tx_queue_init default_cfg;
  '(ret, d) ← bridge_loraham_tx_queue_drain default_cfg 42 (-1) queue lhkt_stats_init bridge_conf_state_init;
  mret (ret, tq_count (dr_queue d), count (te_stats (dr_env d)) loraham_drop).

(** The ends 6 and 7 of a socket pair; what is written to the second end is what the reads
    of the first one answer. Making the pair and writing to it succeed. *)
Definition lhkt_test_bridge_drain_waits_for_status : io (Z * option (nat * Z)) :=
  ret ← bridge_runtime_set_fd_nonblocking 6;
  if negb (ret =? LHKT_OK) then _ ← emit (Closed 6); _ ← emit (Closed 7); mret (LHKT_ERR, None)
  else
    queue ← lhkt_test_push_dummy_tx_packet bridge_tx_queue_init default_cfg;
    '(ret, d) ← bridge_loraham_tx_queue_drain default_cfg 42 6 queue lhkt_stats_init bridge_conf_state_init;
    _ ← emit (Closed 6); _ ← emit (Closed 7);
    mret (ret, Some (tq_count (dr_queue d), cs_have_status (te_conf (dr_env d)))).

Definition lhkt_test_bridge_drain_reads_pending_conf : io (Z * option (nat * Z)) :=
  ret ← bridge_runtime_set_fd_nonblocking 6;
  if negb (ret =? LHKT_OK) then _ ← emit (Closed 6); _ ← emit (Closed 7); mret (LHKT_ERR, None)
  else
    queue ← lhkt_test_push_dummy_tx_packet bridge_tx_queue_init default_cfg;
    '(ret, d) ← bridge_loraham_tx_queue_drain default_cfg 42 6 queue lhkt_stats_init bridge_conf_state_init;
    _ ← emit (Closed 6); _ ← emit (Closed 7);
    mret (ret, Some (tq_count (dr_queue d), cs_tx_busy (te_conf (dr_env d)))).

Example test_tx_queue_lifecycle_waits_for_sockets :
  outcome id lhkt_test_bridge_drain_waits_for_data_socket (test_world [] [] []) = Some ((LHKT_OK, 1%nat, 0), []) ∧
  outcome id lhkt_test_bridge_drain_waits_for_conf_socket (test_world [] [] []) = Some ((LHKT_OK, 1%nat, 0), []).
Proof. by vm_compute. Qed.

Example test_tx_queue_waits_for_status :
  outcome id lhkt_test_bridge_drain_waits_for_status
    (test_world [RdData (str "CAD=0" ++ nl ++ str "TX=0" ++ nl); RdErr EAGAIN] [] []) =
  Some ((LHKT_OK, Some (1%nat, 0)), [Closed 6; Closed 7]).
Proof. by vm_compute. Qed.

Example test_tx_queue_drain_reads_pending_conf :
  outcome id lhkt_test_bridge_drain_reads_pending_conf
    (test_world [RdData (str "TX=1" ++ nl); RdErr EAGAIN] [] []) =
  Some ((LHKT_OK, Some (1%nat, 1)), [Closed 6; Closed 7]).
Proof. by vm_compute. Qed.

(** [lhkt_test_bridge_drain_pops_written_restore_failure]; that the entry about the
    transmission is written is test_restore_failure_keeps_the_tx_record. The hook of the
    test answers LHKT_ERR where the function itself has LHKT_ERR_CONF_SOCKET. *)
Example test_tx_queue_pops_written_packet_on_restore_failure :
  drained [tx_restore_failures]
    (drain (-1) 42 6 (ready_conf None) None
      (test_world [RdErr EAGAIN] [WrN 300; WrN 300; WrErr EOTHER; WrErr EOTHER] times_out)) =
  Some (LHKT_ERR_CONF_SOCKET, 0%nat, [2],
    [Wrote 6 (tx_line test_cfg); Wrote 42 (tx_frame test_packet); RfTx (str "unconfirmed") test_packet]).
Proof. by vm_compute. Qed.

(** ** From a KISS frame to the air

    [lhkt_test_handle_kiss_frame]: the frame goes into an empty queue, and what is then
    at its head is sent. The code, the counters and the outputs. *)
Definition bridge_loraham_send_packet (cfg : lhkt_config_t) (stats : lhkt_stats_t) (data_fd conf_fd : Z)
    (st : bridge_conf_state_t) (packet : list Z) : io (Z * bool * tx_env) :=
  bridge_loraham_send_packet_with_client cfg (-1) data_fd conf_fd packet (TxEnv stats st None).

Definition send_head (cfg : lhkt_config_t) (conf : Z) (stats : lhkt_stats_t) (packet : list Z) :
    io (Z * lhkt_stats_t) :=
  '(ret, _, e) ← bridge_loraham_send_packet cfg stats 42 conf bridge_conf_state_init packet;
  mret (ret, te_stats e).

Definition handle_kiss_frame (cfg : lhkt_config_t) (frame : kiss_frame_t) (cs : list counter) (w : world) :
    option (Z * list Z * list output) :=
  let '(ret, _, stats, queue) :=
    bridge_kiss_handle_frame frame kiss_params_init cfg lhkt_stats_init bridge_tx_queue_init 1000 in
  let m := if negb (ret =? LHKT_OK) then mret (ret, stats)
           else match bridge_tx_queue_head queue with
                | None => mret (LHKT_OK, stats)
                | Some item => send_head cfg 6 stats (ti_packet item)
                end in
  outcome (λ r : Z * lhkt_stats_t, (r.1, map (count r.2) cs)) m w.

(** [make_valid_kiss_frame] *)
Definition valid_kiss_frame : kiss_frame_t :=
  KissFrame 0 KISS_CMD_DATA
    match tnc2_parse_line (str "DJ0CHE-10>APRS:hello") with
    | Ok f => match ax25_encode_ui f 600 with Ok b => b | Err _ => [] end
    | Err _ => []
    end.
Definition valid_packet : list Z := loraham_hdr ++ str "DJ0CHE-10>APRS:hello".

(** Equal frequencies. *)
Definition equal_cfg : lhkt_config_t := set_tx_freq (rx_freq test_cfg) test_cfg.

Definition on_air_frame : list Z :=
  [0x82; 0xa0; 0x8e; 0xa4; 0xae; 0x9e; 0xe0; 0x88; 0x98; 0x62; 0xa8; 0xa6; 0xa8; 0x74;
   0xae; 0x92; 0x88; 0x8a; 0x62; 0x40; 0x63; 0x03; 0xf0] ++ str "!4827.70N".

Example test_ca2rxu_on_air_frame_end_to_end :
  let text := str "DL1TST-10>APGRWO,WIDE1-1:!4827.70N" in
  handle_kiss_frame test_cfg (KissFrame 0 KISS_CMD_DATA on_air_frame) [loraham_tx]
    (test_world [] takes_all times_out) =
  Some (LHKT_OK, [1],
    [Wrote 6 (tx_line test_cfg); Wrote 42 (tx_frame ([60; 255; 1] ++ text));
     RfTx (str "unconfirmed") ([60; 255; 1] ++ text); Wrote 6 (rx_line test_cfg)]).
Proof. by vm_compute. Qed.

Example test_nonzero_kiss_port_is_dropped :
  handle_kiss_frame test_cfg (KissFrame 1 KISS_CMD_DATA []) [kiss_drop; ax25_rx; loraham_tx] (test_world [] [] []) =
  Some (LHKT_ERR_UNSUPPORTED, [1; 0; 0], []).
Proof. by vm_compute. Qed.

Example test_tx_write_failure_restores_rx :
  handle_kiss_frame test_cfg valid_kiss_frame [loraham_drop; tx_restore_failures; loraham_tx]
    (test_world [] [WrN 300; WrErr EOTHER; WrN 300] times_out) =
  Some (LHKT_ERR_TX_SOCKET, [1; 0; 0], [Wrote 6 (tx_line test_cfg); Wrote 6 (rx_line test_cfg)]) ∧
  map bridge_loraham_should_reconnect_data_socket [LHKT_ERR_TX_SOCKET; LHKT_ERR_FORMAT; LHKT_ERR_UNSUPPORTED] =
    [true; false; false] ∧
  map bridge_loraham_should_reconnect_conf_socket [LHKT_ERR_CONF_SOCKET; LHKT_ERR_TX_SOCKET] = [true; false].
Proof. by vm_compute. Qed.

Example test_equal_rx_tx_frequencies_send_no_config_at_all :
  handle_kiss_frame equal_cfg valid_kiss_frame [] (test_world [] takes_all times_out) =
  Some (LHKT_OK, [], [Wrote 42 (tx_frame valid_packet); RfTx (str "unconfirmed") valid_packet]).
Proof. by vm_compute. Qed.

Example test_differing_rx_tx_frequencies_still_shift_and_restore :
  handle_kiss_frame test_cfg valid_kiss_frame [] (test_world [] takes_all times_out) =
  Some (LHKT_OK, [], [Wrote 6 (tx_line test_cfg); Wrote 42 (tx_frame valid_packet);
                      RfTx (str "unconfirmed") valid_packet; Wrote 6 (rx_line test_cfg)]).
Proof. by vm_compute. Qed.

Example test_equal_frequencies_send_nothing_on_a_failure_path_either :
  handle_kiss_frame equal_cfg valid_kiss_frame [tx_restore_failures] (test_world [] [WrErr EOTHER] times_out) =
  Some (LHKT_ERR_TX_SOCKET, [0], []).
Proof. by vm_compute. Qed.

Example test_shutdown_during_tx_settle_restores_rx :
  handle_kiss_frame test_cfg valid_kiss_frame [loraham_tx]
    (set_stop (replicate 9 true) (test_world [] takes_all times_out)) =
  Some (LHKT_ERR, [0], [Wrote 6 (tx_line test_cfg); Wrote 6 (rx_line test_cfg)]).
Proof. by vm_compute. Qed.

Example test_rx_restore_retry_success_counts_failure :
  handle_kiss_frame test_cfg valid_kiss_frame [tx_restore_failures; tx_unconfirmed; loraham_drop; loraham_tx]
    (test_world [] [WrN 300; WrN 300; WrErr EOTHER; WrN 300] times_out) =
  Some (LHKT_OK, [1; 1; 0; 1],
    [Wrote 6 (tx_line test_cfg); Wrote 42 (tx_frame valid_packet); RfTx (str "unconfirmed") valid_packet;
     Wrote 6 (rx_line test_cfg)]).
Proof. by vm_compute. Qed.

Example test_rx_restore_retry_failure_is_counted :
  handle_kiss_frame test_cfg valid_kiss_frame [tx_restore_failures; tx_unconfirmed; loraham_drop; loraham_tx]
    (test_world [] [WrN 300; WrN 300; WrErr EOTHER; WrErr EOTHER] times_out) =
  Some (LHKT_ERR_CONF_SOCKET, [2; 1; 0; 0],
    [Wrote 6 (tx_line test_cfg); Wrote 42 (tx_frame valid_packet); RfTx (str "unconfirmed") valid_packet]).
Proof. by vm_compute. Qed.

(** ** One transmission *)

Definition lhkt_test_bridge_send_packet_without_conf : io (Z * Z * Z) :=
  '(ret, _, e) ← bridge_loraham_send_packet default_cfg lhkt_stats_init 42 (-1) bridge_conf_state_init test_packet;
  mret (ret, count (te_stats e) loraham_tx, count (te_stats e) loraham_drop).

Example test_tx_requires_persistent_conf_socket :
  outcome id lhkt_test_bridge_send_packet_without_conf (test_world [] takes_all times_out) =
  Some ((LHKT_ERR_CONF_SOCKET, 0, 1), []).
Proof. by vm_compute. Qed.

(** [lhkt_test_bridge_send_packet_without_tx_confirm] *)
Example test_tx_confirmation_missing_is_counted :
  outcome (λ r : Z * lhkt_stats_t, (r.1, map (count r.2) [loraham_tx; tx_unconfirmed]))
    (send_head test_cfg 6 lhkt_stats_init test_packet) (test_world [] takes_all times_out) =
  Some ((LHKT_OK, [1; 1]),
    [Wrote 6 (tx_line test_cfg); Wrote 42 (tx_frame test_packet); RfTx (str "unconfirmed") test_packet;
     Wrote 6 (rx_line test_cfg)]).
Proof. by vm_compute. Qed.

Example test_initial_config_uses_rx_frequency :
  outcome fst (bridge_loraham_send_initial_config_with_state test_cfg 6 bridge_conf_state_init)
    (test_world [] takes_all []) =
  Some (LHKT_OK, [Wrote 6 (rx_line test_cfg); Wrote 6 (str "SET TXRESULT=1" ++ nl); Wrote 6 (str "GET STATUS" ++ nl)]).
Proof. by vm_compute. Qed.

Example test_restore_fails_toward_shifting_when_tx_freq_is_unknown :
  let restore cfg := outcome fst (bridge_loraham_restore_rx_freq cfg lhkt_stats_init 6) (test_world [] takes_all []) in
  restore equal_cfg = Some (LHKT_OK, []) ∧
  restore (set_have_tx_freq 0 equal_cfg) = Some (LHKT_OK, [Wrote 6 (rx_line equal_cfg)]).
Proof. by vm_compute. Qed.

Example test_tx_socket_error_invalidates_data_socket :
  outcome (λ r : Z * lhkt_stats_t, (r.1, count r.2 socket_reconnects))
    (bridge_loraham_disconnect_data_socket 42 lhkt_stats_init) (test_world [] [] []) =
  Some ((-1, 1), [Closed 42]).
Proof. by vm_compute. Qed.

(** ** The stop flag and [select] *)

Definition lhkt_test_add_fd_to_set (fd : Z) : Z := (bridge_runtime_add_fd_to_set fd [] (-1)).1.1.

Example test_fd_set_rejects_too_large_fd : lhkt_test_add_fd_to_set FD_SETSIZE = LHKT_ERR_LONG.
Proof. by vm_compute. Qed.

Example test_shutdown_stop_flag :
  let rt := bridge_runtime_reset_stop_requested (Runtime 1 true true) in
  let rt' := bridge_runtime_signal_handler SIGTERM rt in
  (should_stop rt, should_stop rt', should_stop (bridge_runtime_reset_stop_requested rt')) = (false, true, false).
Proof. by vm_compute. Qed.

Example test_stop_aware_wait_helpers :
  let stopped := set_stop (replicate 9 true) (test_world [] [] times_out) in
  outcome id (bridge_runtime_sleep_ms 1) (test_world [] [] times_out) = Some (LHKT_OK, []) ∧
  outcome id (bridge_runtime_sleep_ms 1) stopped = Some (LHKT_ERR, []) ∧
  outcome id (bridge_rx_wait_fd_writable 7) stopped = Some (LHKT_ERR, []).
Proof. by vm_compute. Qed.

(** ** Reception *)

Definition received {A} (f : A → Z * lhkt_stats_t) (cs : list counter) (m : io A) (w : world) :
    option (Z * list Z * list output) :=
  outcome (λ a, ((f a).1, map (count (f a).2) cs)) m w.

(** The TNC2 lines of a KISS stream. *)
Definition lines_of (kiss : list Z) : list (option (list Z)) :=
  map (λ e : event kiss_frame_t, match e with
    | Frame f => match ax25_decode_ui (kf_data f) with
                 | Ok a => match tnc2_format_line a LHKT_TNC2_MAX_LINE with Ok l => Some l | Err _ => None end
                 | Err _ => None
                 end
    | _ => None end) (run kiss_decode_byte kiss_decoder_init kiss).2.

Example test_tnc2_to_kiss_output :
  received id [tnc2_rx; ax25_tx; kiss_tx; tnc2_drop; ax25_drop; kiss_drop]
    (bridge_rx_send_tnc2_to_kiss_client 7 hi lhkt_stats_init) (test_world [] takes_all []) =
  Some (LHKT_OK, [1; 1; 1; 0; 0; 0], [Wrote 7 (kiss_of hi)]) ∧
  lines_of (kiss_of hi) = [Some hi].
Proof. by vm_compute. Qed.

Example test_framed_rx_v110_metadata_is_stripped :
  received (λ r, (r.1.1, r.2)) [loraham_rx; loraham_drop; kiss_tx; kiss_drop]
    (bridge_rx_handle_framed_chunk 7 loraham_framed_rx_state_init (rx_packet [0x22; 0xd0; 0xef; 0x03] (hi ++ nl)) lhkt_stats_init)
    (test_world [] takes_all []) =
  Some (LHKT_OK, [1; 0; 1; 0], [RfRx (-12254) 1007 (loraham_hdr ++ hi ++ nl); Wrote 7 (kiss_of hi)]).
Proof. by vm_compute. Qed.

Example test_framed_rx_short_metadata_is_dropped :
  Forall (λ n : nat,
    received (λ r, (r.1.1, r.2)) [loraham_drop; kiss_tx]
      (bridge_rx_handle_framed_chunk (-1) loraham_framed_rx_state_init
        ([1; Z.of_nat n; 0] ++ map (λ i, 0xa0 + i) (seqZ 0 (Z.of_nat n))) lhkt_stats_init) (test_world [] [] []) =
    Some (LHKT_OK, [1; 0], [])) [0; 1; 2; 3]%nat.
Proof. repeat (apply Forall_cons; split; [by vm_compute|]). by apply Forall_nil. Qed.

Example test_framed_error_is_counted :
  received (λ r, (r.1.1, r.2)) [loraham_framed_errors; loraham_drop; kiss_tx]
    (bridge_rx_handle_framed_chunk (-1) loraham_framed_rx_state_init
      (framed_bytes (LoraFrame LORAHAM_FRAME_ERROR (str "BUSY"))) lhkt_stats_init) (test_world [] [] []) =
  Some (LHKT_OK, [1; 0; 0], []).
Proof. by vm_compute. Qed.

Example test_invalid_tnc2_is_dropped :
  received id [tnc2_drop; kiss_tx]
    (bridge_rx_send_tnc2_to_kiss_client 7 (str "not a tnc2 line") lhkt_stats_init) (test_world [] [] []) =
  Some (LHKT_ERR_FORMAT, [1; 0], []).
Proof. by vm_compute. Qed.

Example test_client_write_failure_returns_socket_error :
  received id [tnc2_rx; ax25_tx; kiss_tx; kiss_drop]
    (bridge_rx_send_tnc2_to_kiss_client 7 hi lhkt_stats_init) (test_world [] [WrErr EOTHER] []) =
  Some (LHKT_ERR_CLIENT_SOCKET, [1; 1; 0; 1], []) ∧
  map should_disconnect_kiss_client [LHKT_ERR_CLIENT_SOCKET; LHKT_ERR_FORMAT; LHKT_ERR_UNSUPPORTED] =
    [true; false; false] ∧
  bridge_loraham_should_reconnect_data_socket LHKT_ERR_CLIENT_SOCKET = false.
Proof. by vm_compute. Qed.

(** One packet in two reads without a client, then one with a client, on the same decoder. *)
Example test_framed_rx_survives_no_client :
  let frame := rx_packet [0; 0; 0; 0] (hi ++ nl) in
  let split := Nat.div (length frame) 2 in
  let counted (stats : lhkt_stats_t) := (count stats loraham_rx, count stats loraham_drop) in
  outcome (λ r : list (Z * (Z * Z)), r)
    ('(r1, fs, stats) ← bridge_rx_handle_framed_chunk (-1) loraham_framed_rx_state_init (take split frame) lhkt_stats_init;
     '(r2, fs, stats) ← bridge_rx_handle_framed_chunk (-1) fs (drop split frame) stats;
     let without := counted stats in
     '(r3, fs, stats) ← bridge_rx_handle_framed_chunk 7 fs frame stats;
     mret [(r1, without); (r2, without); (r3, counted stats)])
    (test_world [] takes_all []) =
  Some ([(LHKT_OK, (0, 1)); (LHKT_OK, (0, 1)); (LHKT_OK, (1, 1))],
    [RfRx 0 0 (loraham_hdr ++ hi ++ nl); RfRx 0 0 (loraham_hdr ++ hi ++ nl); Wrote 7 (kiss_of hi)]).
Proof. by vm_compute. Qed.

(** ** The head of the queue

    The ages count back from any moment. *)
Definition lhkt_test_bridge_tx_decision (tx_busy : bool) (queued_age wait_age now : Z) : tx_decision :=
  (bridge_tx_head_decision tx_example_cfg tx_busy
    (TxItem (replicate 10 0) (now - Z.max 0 queued_age) (if 0 <=? wait_age then now - wait_age else 0)) now).1.

Example test_tx_queue_policy_decisions :
  let now := 10000000 in
  (lhkt_test_bridge_tx_decision true 0 1000 now, lhkt_test_bridge_tx_decision true 0 120000 now,
   lhkt_test_bridge_tx_decision false 0 (-1) now, lhkt_test_bridge_tx_decision false 180000 (-1) now) =
  (TX_WAIT, TX_DROP, TX_SEND, TX_DROP).
Proof. by vm_compute. Qed.
